(** * Zenith language server: region classifier, symbol extraction,
      import resolution, diagnostics and hover precedence.

    A shallow embedding of the TypeScript sources.  A JavaScript string is a
    Rocq [string]: a sequence of code units, here the code units below 256.
    Regular-expression literals of the source are values of [Re.regex], run
    by a backtracking matcher that follows the ECMAScript matching rules
    (greedy and lazy quantifiers, captures, leftmost match, the [g] and [i]
    flags).  Indices that the source compares with [-1] are in [Z].  Where a
    comment quotes a pattern of the source, a space keeps a star from a
    closing parenthesis and DQ stands for the double quote. *)

From Stdlib Require Import Ascii String List Arith ZArith Lia Bool NArith Sorted.
From stdpp Require Import base option gmap strings list.
Import ListNotations.

Local Open Scope string_scope.
Local Open Scope list_scope.

(** ** JavaScript string primitives *)

Module Js.

Definition code (c : ascii) : N := N_of_ascii c.

(** WhiteSpace and LineTerminator code units below 256: TAB, LF, VT, FF, CR,
    SP and NBSP.  This is the set of [\s] and of [String.prototype.trim]. *)
Definition isSpace (c : ascii) : bool :=
  let n := code c in
  ((9 <=? n) && (n <=? 13) || (n =? 32) || (n =? 160))%N.

Definition isUpperAZ (c : ascii) : bool := ((65 <=? code c) && (code c <=? 90))%N.
Definition isLowerAZ (c : ascii) : bool := ((97 <=? code c) && (code c <=? 122))%N.
Definition isDigit (c : ascii) : bool := ((48 <=? code c) && (code c <=? 57))%N.

(** [\w] *)
Definition isWordChar (c : ascii) : bool :=
  isUpperAZ c || isLowerAZ c || isDigit c || (code c =? 95)%N.

(** Line terminators, the characters [.] refuses. *)
Definition isLineTerminator (c : ascii) : bool :=
  ((code c =? 10) || (code c =? 13))%N.

(** [toLowerCase] on one code unit: A-Z and the Latin-1 capitals. *)
Definition lowerChar (c : ascii) : ascii :=
  let n := code c in
  if ((65 <=? n) && (n <=? 90) ||
      (192 <=? n) && (n <=? 222) && negb (n =? 215))%N
  then ascii_of_N (n + 32) else c.

(** [toUpperCase] on one code unit, as the regular-expression Canonicalize
    uses it: a code unit whose upper case is not one code unit below 256
    stays as it is. *)
Definition upperChar (c : ascii) : ascii :=
  let n := code c in
  if ((97 <=? n) && (n <=? 122) ||
      (224 <=? n) && (n <=? 254) && negb (n =? 247))%N
  then ascii_of_N (n - 32) else c.

Fixpoint toLowerCase (s : string) : string :=
  match s with
  | EmptyString => EmptyString
  | String c t => String (lowerChar c) (toLowerCase t)
  end.

(** [s.startsWith(p)] *)
Fixpoint startsWith (s p : string) : bool :=
  match p with
  | EmptyString => true
  | String b p' =>
      match s with
      | EmptyString => false
      | String a s' => Ascii.eqb a b && startsWith s' p'
      end
  end.

Fixpoint endsWith_from (s p : string) : bool :=
  String.eqb s p ||
  match s with
  | EmptyString => false
  | String _ s' => endsWith_from s' p
  end.

(** [s.endsWith(p)] *)
Definition endsWith (s p : string) : bool := endsWith_from s p.

(** [s.includes(p)] *)
Fixpoint includes (s p : string) : bool :=
  startsWith s p ||
  match s with
  | EmptyString => false
  | String _ s' => includes s' p
  end.

Fixpoint dropSpace (s : string) : string :=
  match s with
  | EmptyString => EmptyString
  | String c t => if isSpace c then dropSpace t else s
  end.

Fixpoint dropSpaceEnd (s : string) : string :=
  match s with
  | EmptyString => EmptyString
  | String c t =>
      match dropSpaceEnd t with
      | EmptyString => if isSpace c then EmptyString else String c EmptyString
      | r => String c r
      end
  end.

(** [s.trim()] *)
Definition trim (s : string) : string := dropSpaceEnd (dropSpace s).

Fixpoint drop (n : nat) (s : string) : string :=
  match n, s with
  | O, _ => s
  | S n', String _ t => drop n' t
  | S _, EmptyString => EmptyString
  end.

Fixpoint take (n : nat) (s : string) : string :=
  match n, s with
  | O, _ => EmptyString
  | S n', String c t => String c (take n' t)
  | S _, EmptyString => EmptyString
  end.

(** [s.substring(a)] and [s.substring(a, b)]: negative arguments count as 0,
    arguments beyond the length as the length, and the two are swapped when
    [a > b]. *)
Definition clamp (s : string) (i : Z) : nat :=
  Nat.min (Z.to_nat i) (String.length s).

Definition substringFrom (s : string) (a : Z) : string := drop (clamp s a) s.

Definition substring (s : string) (a b : Z) : string :=
  let a' := clamp s a in
  let b' := clamp s b in
  let lo := Nat.min a' b' in
  let hi := Nat.max a' b' in
  take (hi - lo) (drop lo s).

(** [s.indexOf(p)], [-1] when absent. *)
Fixpoint indexOf_from (s p : string) (i : Z) : Z :=
  if startsWith s p then i
  else match s with
       | EmptyString => (-1)%Z
       | String _ t => indexOf_from t p (i + 1)
       end.

Definition indexOf (s p : string) : Z := indexOf_from s p 0.

(** [s.lastIndexOf(p)], [-1] when absent. *)
Fixpoint lastIndexOf_from (s p : string) (i : Z) (last : Z) : Z :=
  let last' := if startsWith s p then i else last in
  match s with
  | EmptyString => last'
  | String _ t => lastIndexOf_from t p (i + 1) last'
  end.

Definition lastIndexOf (s p : string) : Z := lastIndexOf_from s p 0 (-1).

(** [s.lastIndexOf(p, from)]: the last occurrence starting at or before
    [from]; a negative [from] counts as 0. *)
Fixpoint lastIndexOfUpTo_from (s p : string) (i : Z) (from : Z) (last : Z) : Z :=
  let last' := if (i <=? from)%Z && startsWith s p then i else last in
  match s with
  | EmptyString => last'
  | String _ t => lastIndexOfUpTo_from t p (i + 1) from last'
  end.

Definition lastIndexOfUpTo (s p : string) (from : Z) : Z :=
  lastIndexOfUpTo_from s p 0 (Z.max 0 from) (-1).

(** [s.split(c)] for a one-character separator. *)
Fixpoint splitChar (c : ascii) (s : string) : list string :=
  match s with
  | EmptyString => [EmptyString]
  | String a t =>
      if Ascii.eqb a c then EmptyString :: splitChar c t
      else match splitChar c t with
           | [] => [String a EmptyString]
           | h :: r => String a h :: r
           end
  end.

(** [s.replace(p, r)] with a string pattern: the first occurrence only. *)
Fixpoint replaceFirst (s p r : string) : string :=
  if startsWith s p then r ++ drop (String.length p) s
  else match s with
       | EmptyString => EmptyString
       | String a t => String a (replaceFirst t p r)
       end.

(** [a.includes(x)] on an array of strings. *)
Definition arrayIncludes (l : list string) (x : string) : bool :=
  existsb (String.eqb x) l.

(** Truthiness of a string. *)
Definition truthy (s : string) : bool :=
  match s with EmptyString => false | _ => true end.

(** The double quote. *)
Definition dq : ascii := "034"%char.
Definition DQ : string := String dq EmptyString.
Definition nl : ascii := "010"%char.
Definition NL : string := String nl EmptyString.

End Js.

(** ** Regular expressions

    The abstract syntax of the pattern language the sources use, and the
    backtracking matcher of ECMAScript (22.2.2): a matcher takes a state and
    a continuation, alternatives are tried left to right, a greedy
    quantifier tries one more iteration before it tries the continuation, a
    lazy one the other way round, and an iteration of a quantifier whose
    minimum is reached fails when it consumes nothing. *)

Module Re.

(** One member of a character class. *)
Inductive item : Type :=
| Ch (c : ascii)            (* a single character *)
| Rg (lo hi : ascii)        (* a range lo-hi *)
| Wd                        (* \w *)
| Sp                        (* \s *)
| Dg                        (* \d *)
| NWd                       (* \W *)
| NSp                       (* \S *)
| NDg.                      (* \D *)

Inductive regex : Type :=
| Eps                                   (* the empty pattern *)
| Chr (c : ascii)                       (* a literal character *)
| Dot                                   (* . *)
| Cls (neg : bool) (items : list item)  (* [...] and [^...]; \w \s \d \W \S \D *)
| Cat (r1 r2 : regex)                   (* r1 r2 *)
| Alt (r1 r2 : regex)                   (* r1|r2 *)
| Rep (r : regex) (min : nat) (max : option nat) (greedy : bool)
| Grp (n : nat) (r : regex)             (* capturing group number n *)
| Bol                                   (* ^ *)
| Eol                                   (* $ *)
| Wordb (neg : bool)                    (* \b and \B *)
| Ahead (neg : bool) (r : regex).       (* (?=r) and (?!r) *)

(** A literal word, character by character. *)
Fixpoint Lit (s : string) : regex :=
  match s with
  | EmptyString => Eps
  | String c EmptyString => Chr c
  | String c t => Cat (Chr c) (Lit t)
  end.

Definition Star (r : regex) : regex := Rep r 0 None true.
Definition Plus (r : regex) : regex := Rep r 1 None true.
Definition Opt (r : regex) : regex := Rep r 0 (Some 1) true.
Definition StarLazy (r : regex) : regex := Rep r 0 None false.

Definition ws : regex := Cls false [Sp].
Definition word : regex := Cls false [Wd].

(** The matcher's state: the character before the current position (for
    [\b]), the text from the current position on, the position, and the
    captures made so far (group number, start, end), latest first. *)
Record state : Type := mkState {
  prev : option ascii;
  rest : string;
  pos : nat;
  caps : list (nat * (nat * nat))
}.

Definition advance (x : state) (a : ascii) (t : string) : state :=
  mkState (Some a) t (S (pos x)) (caps x).

Definition canon (ic : bool) (c : ascii) : ascii :=
  if ic then Js.upperChar c else c.

Definition inRange (lo hi c : ascii) : bool :=
  ((Js.code lo <=? Js.code c) && (Js.code c <=? Js.code hi))%N.

(** Membership of [c] in a class item; with the [i] flag a member matches
    when some character of the item has the same canonical form. *)
Definition itemMatches (ic : bool) (c : ascii) (i : item) : bool :=
  match i with
  | Ch a => Ascii.eqb (canon ic a) (canon ic c)
  | Rg lo hi =>
      inRange lo hi c ||
      (ic && (inRange lo hi (Js.upperChar c) || inRange lo hi (Js.lowerChar c)))
  | Wd => Js.isWordChar c
  | Sp => Js.isSpace c
  | Dg => Js.isDigit c
  | NWd => negb (Js.isWordChar c)
  | NSp => negb (Js.isSpace c)
  | NDg => negb (Js.isDigit c)
  end.

Definition classMatches (ic neg : bool) (items : list item) (c : ascii) : bool :=
  xorb neg (existsb (itemMatches ic c) items).

(** The capturing groups inside a pattern: a quantifier clears them when an
    iteration starts. *)
Fixpoint groups (r : regex) : list nat :=
  match r with
  | Cat r1 r2 | Alt r1 r2 => groups r1 ++ groups r2
  | Rep r' _ _ _ | Ahead _ r' => groups r'
  | Grp n r' => n :: groups r'
  | _ => []
  end.

Definition clearCaps (gs : list nat) (x : state) : state :=
  mkState (prev x) (rest x) (pos x)
    (List.filter (fun c => negb (existsb (Nat.eqb (fst c)) gs)) (caps x)).

Definition setCap (n s e : nat) (x : state) : state :=
  mkState (prev x) (rest x) (pos x) ((n, (s, e)) :: caps x).

Definition isWordOpt (o : option ascii) : bool :=
  match o with Some c => Js.isWordChar c | None => false end.

Definition nextChar (x : state) : option ascii :=
  match rest x with String a _ => Some a | EmptyString => None end.

Definition orElse {A} (a : option A) (b : option A) : option A :=
  match a with Some _ => a | None => b end.

(** The quantifier loop (RepeatMatcher): [mr] matches the quantified atom,
    [gs] are the groups inside it, [mn] and [mx] the iterations still
    required and still allowed.  [fuel] bounds the iterations: each one
    either lowers [mn] or consumes a character. *)
Fixpoint repLoop (mr : state -> (state -> option state) -> option state)
  (gs : list nat) (greedy : bool) (k : state -> option state)
  (fuel : nat) (mn : nat) (mx : option nat) (x : state) {struct fuel}
  : option state :=
  match fuel with
  | O => None
  | S fuel' =>
      match mx with
      | Some O => k x
      | _ =>
          let d := fun y : state =>
            if (mn =? 0)%nat && (pos y =? pos x)%nat then None
            else repLoop mr gs greedy k fuel' (Nat.pred mn) (option_map Nat.pred mx) y in
          let xr := clearCaps gs x in
          if negb (mn =? 0)%nat then mr xr d
          else if greedy then
            match mr xr d with
            | Some z => Some z
            | None => k x
            end
          else
            match k x with
            | Some z => Some z
            | None => mr xr d
            end
      end
  end.

(** [m ic r x k]: match [r] at state [x], then continue with [k]. *)
Fixpoint m (ic : bool) (r : regex) (x : state) (k : state -> option state)
  {struct r} : option state :=
  match r with
  | Eps => k x
  | Chr c =>
      match rest x with
      | String a t => if Ascii.eqb (canon ic a) (canon ic c) then k (advance x a t) else None
      | EmptyString => None
      end
  | Dot =>
      match rest x with
      | String a t => if Js.isLineTerminator a then None else k (advance x a t)
      | EmptyString => None
      end
  | Cls neg items =>
      match rest x with
      | String a t => if classMatches ic neg items a then k (advance x a t) else None
      | EmptyString => None
      end
  | Cat r1 r2 => m ic r1 x (fun y => m ic r2 y k)
  | Alt r1 r2 =>
      match m ic r1 x k with
      | Some z => Some z
      | None => m ic r2 x k
      end
  | Rep r' mn mx greedy =>
      repLoop (m ic r') (groups r') greedy k
              (S (S (mn + String.length (rest x)))) mn mx x
  | Grp n r' => m ic r' x (fun y => k (setCap n (pos x) (pos y) y))
  | Bol => if (pos x =? 0)%nat then k x else None
  | Eol => match rest x with EmptyString => k x | _ => None end
  | Wordb neg =>
      if xorb neg (xorb (isWordOpt (prev x)) (isWordOpt (nextChar x)))
      then k x else None
  | Ahead neg r' =>
      match m ic r' x Some with
      | Some y =>
          if neg then None
          else k (mkState (prev x) (rest x) (pos x) (caps y))
      | None => if neg then k x else None
      end
  end.

(** The leftmost match at or after the current position of [x]. *)
Fixpoint search (ic : bool) (r : regex) (p : option ascii) (s : string) (i : nat)
  : option (nat * state) :=
  match m ic r (mkState p s i []) Some with
  | Some y => Some (i, y)
  | None =>
      match s with
      | EmptyString => None
      | String a t => search ic r (Some a) t (S i)
      end
  end.

(** What a successful match gives: where it starts and ends, the matched
    text, and the captures as positions in the subject. *)
Record result : Type := mkResult {
  index : nat;
  stop : nat;
  subject : string;
  captures : list (nat * (nat * nat))
}.

(** [match[0]] *)
Definition whole (r : result) : string :=
  Js.take (stop r - index r) (Js.drop (index r) (subject r)).

Fixpoint lookupCap (n : nat) (cs : list (nat * (nat * nat))) : option (nat * nat) :=
  match cs with
  | [] => None
  | (k, se) :: t => if (k =? n)%nat then Some se else lookupCap n t
  end.

(** [match[n]]: [None] is [undefined]. *)
Definition group (n : nat) (r : result) : option string :=
  match lookupCap n (captures r) with
  | Some (s, e) => Some (Js.take (e - s) (Js.drop s (subject r)))
  | None => None
  end.

Definition toResult (subj : string) (iy : nat * state) : result :=
  mkResult (fst iy) (pos (snd iy)) subj (caps (snd iy)).

(** [s.match(re)] and [re.exec(s)] without the [g] flag. *)
Definition exec (ic : bool) (r : regex) (s : string) : option result :=
  option_map (toResult s) (search ic r None s 0).

(** [re.test(s)] *)
Definition test (ic : bool) (r : regex) (s : string) : bool :=
  match exec ic r s with Some _ => true | None => false end.

(** All matches with the [g] flag, left to right: each search starts where
    the last match ended, one character further after an empty match.  This
    is [s.match(re)] and [s.matchAll(re)], and the loop
    [while ((match = re.exec(s)) !== null)] for a pattern that matches no
    empty text. *)
Fixpoint scan (ic : bool) (r : regex) (fuel : nat) (p : option ascii) (s : string)
  (i : nat) : list (nat * state) :=
  match fuel with
  | O => []
  | S fuel' =>
      match search ic r p s i with
      | None => []
      | Some (j, y) =>
          (j, y) ::
          (if (pos y =? j)%nat then
             match rest y with
             | EmptyString => []
             | String a t => scan ic r fuel' (Some a) t (S (pos y))
             end
           else scan ic r fuel' (prev y) (rest y) (pos y))
      end
  end.

Definition matchAll (ic : bool) (r : regex) (s : string) : list result :=
  List.map (toResult s) (scan ic r (S (String.length s)) None s 0).

(** [s.split(re)[0]]: the text before the first non-empty-position match. *)
Definition beforeFirst (ic : bool) (r : regex) (s : string) : string :=
  match exec ic r s with
  | Some res => Js.take (index res) s
  | None => s
  end.

End Re.

Declare Scope re_scope.
Delimit Scope re_scope with re.
Infix "~>" := Re.Cat (at level 60, right associativity) : re_scope.
Infix "</>" := Re.Alt (at level 65, right associativity) : re_scope.

(** ** JavaScript objects used as tables, and insertion-ordered Maps *)

Module JsObject.

(** The property names every object literal inherits from Object.prototype:
    the [in] operator and a bracket lookup see them too. *)
Definition prototypeKeys : list string :=
  ["constructor"; "__defineGetter__"; "__defineSetter__"; "hasOwnProperty";
   "__lookupGetter__"; "__lookupSetter__"; "isPrototypeOf";
   "propertyIsEnumerable"; "toString"; "valueOf"; "__proto__";
   "toLocaleString"].

(** What [table[key]] evaluates to: an entry of the table, a member of
    Object.prototype (a truthy value that is no entry), or [undefined]. *)
Inductive property (A : Type) : Type :=
| Own (a : A)
| Inherited (key : string)
| Undefined.
Arguments Own {A} a.
Arguments Inherited {A} key.
Arguments Undefined {A}.

Fixpoint own {A} (table : list (string * A)) (key : string) : option A :=
  match table with
  | [] => None
  | (k, v) :: t => if String.eqb k key then Some v else own t key
  end.

(** [table[key]] *)
Definition get {A} (table : list (string * A)) (key : string) : property A :=
  match own table key with
  | Some v => Own v
  | None => if Js.arrayIncludes prototypeKeys key then Inherited key else Undefined
  end.

(** [key in table] *)
Definition has {A} (table : list (string * A)) (key : string) : bool :=
  match get table key with Undefined => false | _ => true end.

(** Truthiness of [table[key]]. *)
Definition truthy {A} (p : property A) : bool :=
  match p with Undefined => false | _ => true end.

(** [Object.keys(table)] and [Object.values(table)] *)
Definition keys {A} (table : list (string * A)) : list string := List.map fst table.
Definition values {A} (table : list (string * A)) : list A := List.map snd table.

End JsObject.

Module JsMap.

(** A [Map<string, V>]: the entries in insertion order; [set] on a key that
    is present replaces the value where the key stands. *)
Fixpoint set {V} (k : string) (v : V) (mp : list (string * V)) : list (string * V) :=
  match mp with
  | [] => [(k, v)]
  | (k', v') :: t => if String.eqb k' k then (k, v) :: t else (k', v') :: set k v t
  end.

Fixpoint get {V} (k : string) (mp : list (string * V)) : option V :=
  match mp with
  | [] => None
  | (k', v') :: t => if String.eqb k' k then Some v' else get k t
  end.

Definition has {V} (k : string) (mp : list (string * V)) : bool :=
  match get k mp with Some _ => true | None => false end.

End JsMap.

(** ** metadata/directive-metadata.ts *)

Module DirectiveMetadata.
Import Re.
Local Open Scope re_scope.

Inductive Category : Type :=
| ControlFlow | Iteration | ReactiveEffect | ConditionalVisibility.

Inductive ElementType : Type := Element | Component | Slot.

(** The description, syntax and example texts of a directive are not
    carried: no operation below reads them. *)
Record DirectiveInfo : Type := mkDirective {
  name : string;
  category : Category;
  placement : list ElementType;
  createsScope : bool
}.

Definition DIRECTIVES : list (string * DirectiveInfo) :=
  [("zen:if", mkDirective "zen:if" ControlFlow [Element; Component] false);
   ("zen:for", mkDirective "zen:for" Iteration [Element; Component] true);
   ("zen:effect", mkDirective "zen:effect" ReactiveEffect [Element; Component] false);
   ("zen:show", mkDirective "zen:show" ConditionalVisibility [Element; Component] false)].

Definition isDirective (nm : string) : bool := JsObject.has DIRECTIVES nm.

Definition getDirective (nm : string) : JsObject.property DirectiveInfo :=
  JsObject.get DIRECTIVES nm.

Definition getDirectiveNames : list string := JsObject.keys DIRECTIVES.

Definition elementTypeEqb (a b : ElementType) : bool :=
  match a, b with
  | Element, Element | Component, Component | Slot, Slot => true
  | _, _ => false
  end.

(** A member of Object.prototype has no [placement]: the source's
    [directive.placement.includes] throws there, which is [None]. *)
Definition canPlaceDirective (directiveName : string) (elementType : ElementType)
  : option bool :=
  match JsObject.get DIRECTIVES directiveName with
  | JsObject.Undefined => Some false
  | JsObject.Inherited _ =>
      match elementType with Slot => Some false | _ => None end
  | JsObject.Own directive =>
      match elementType with
      | Slot => Some false
      | _ => Some (existsb (elementTypeEqb elementType) (placement directive))
      end
  end.

Record ForExpression : Type := mkFor {
  itemVar : string;
  indexVar : option string;
  source : string
}.

(** [a-zA-Z_$] *)
Definition identStart : regex :=
  Cls false [Rg "a" "z"; Rg "A" "Z"; Ch "_"; Ch "$"].

(** [\w$] *)
Definition identWord : regex := Cls false [Wd; Ch "$"].

(** /^\s*([a-zA-Z_$][\w$]* )(?:\s*,\s*([a-zA-Z_$][\w$]* ))?\s+in\s+(.+)\s*$/ *)
Definition forPattern : regex :=
  Bol ~> Star ws ~> Grp 1 (identStart ~> Star identWord) ~>
  Opt (Star ws ~> Chr "," ~> Star ws ~> Grp 2 (identStart ~> Star identWord)) ~>
  Plus ws ~> Lit "in" ~> Plus ws ~> Grp 3 (Plus Dot) ~> Star ws ~> Eol.

Definition parseForExpression (expression : string) : option ForExpression :=
  match exec false forPattern expression with
  | None => None
  | Some mt =>
      Some (mkFor (default "" (group 1 mt)) (group 2 mt)
                  (Js.trim (default "" (group 3 mt))))
  end.

End DirectiveMetadata.

(** ** metadata/core-imports.ts and metadata/plugin-imports.ts *)

Module CoreImports.

Inductive ExportKind : Type := KFunction | KComponent | KType | KVariable.

(** An export: its name and kind (the description and signature texts are
    not carried). *)
Record ModuleExport : Type := mkExport {
  name : string;
  kind : ExportKind
}.

Record CoreModuleMetadata : Type := mkCore {
  module : string;
  exports : list ModuleExport
}.

Definition fn (n : string) : ModuleExport := mkExport n KFunction.

Definition CORE_MODULES : list (string * CoreModuleMetadata) :=
  [("zenith", mkCore "zenith"
      [fn "zenEffect"; fn "zenOnMount"; fn "zenOnDestroy"; fn "zenOnUpdate";
       fn "zenRef"; fn "zenState"; fn "zenMemo"; fn "zenBatch"; fn "zenUntrack"]);
   ("zenith/router", mkCore "zenith/router"
      [mkExport "ZenLink" KComponent; fn "useRoute"; fn "useRouter";
       fn "navigate"; fn "prefetch"; fn "isActive"; fn "getRoute"])].

Definition getCoreModule (moduleName : string) : JsObject.property CoreModuleMetadata :=
  JsObject.get CORE_MODULES moduleName.

Definition getCoreModuleNames : list string := JsObject.keys CORE_MODULES.

(** [None] is a TypeError: a member of Object.prototype has no [exports]
    to search. *)
Definition getCoreExport (moduleName exportName : string)
  : option (option ModuleExport) :=
  match JsObject.get CORE_MODULES moduleName with
  | JsObject.Undefined => Some None
  | JsObject.Inherited _ => None
  | JsObject.Own md => Some (List.find (fun e => String.eqb (name e) exportName) (exports md))
  end.

Definition isCoreModule (moduleName : string) : bool :=
  JsObject.has CORE_MODULES moduleName.

End CoreImports.

Module PluginImports.
Import CoreImports.

Record PluginModuleMetadata : Type := mkPlugin {
  module : string;
  exports : list ModuleExport;
  required : bool
}.

Definition PLUGIN_MODULES : list (string * PluginModuleMetadata) :=
  [("zenith:content", mkPlugin "zenith:content"
      [fn "zenCollection"; fn "getCollection"; fn "getEntry"; fn "useZenOrder"] false);
   ("zenith:image", mkPlugin "zenith:image" [fn "Image"; fn "getImage"] false)].

Definition getPluginModule (moduleName : string) : JsObject.property PluginModuleMetadata :=
  JsObject.get PLUGIN_MODULES moduleName.

Definition getPluginModuleNames : list string := JsObject.keys PLUGIN_MODULES.

Definition getPluginExport (moduleName exportName : string)
  : option (option ModuleExport) :=
  match JsObject.get PLUGIN_MODULES moduleName with
  | JsObject.Undefined => Some None
  | JsObject.Inherited _ => None
  | JsObject.Own md =>
      Some (List.find (fun e => String.eqb (CoreImports.name e) exportName) (exports md))
  end.

(** The plugin namespace: a specifier that begins with [zenith:]. *)
Definition isPluginModule (moduleName : string) : bool :=
  Js.startsWith moduleName "zenith:".

Definition isKnownPluginModule (moduleName : string) : bool :=
  JsObject.has PLUGIN_MODULES moduleName.

End PluginImports.

(** ** router.ts *)

Module Router.

Record RouterHookMetadata : Type := mkHook {
  name : string;
  owner : string
}.

Definition ROUTER_HOOKS : list (string * RouterHookMetadata) :=
  [("useRoute", mkHook "useRoute" "Router Hook (zenith/router)");
   ("useRouter", mkHook "useRouter" "Router Hook (zenith/router)")].

Record ZenLinkPropMetadata : Type := mkProp {
  propName : string;
  propType : string;
  propRequired : bool
}.

Definition ZENLINK_PROPS : list ZenLinkPropMetadata :=
  [mkProp "to" "string" true; mkProp "preload" "boolean" false;
   mkProp "replace" "boolean" false; mkProp "class" "string" false;
   mkProp "activeClass" "string" false].

Record RouteFieldMetadata : Type := mkField {
  fieldName : string;
  fieldType : string
}.

Definition ROUTE_FIELDS : list RouteFieldMetadata :=
  [mkField "path" "string"; mkField "params" "Record<string, string>";
   mkField "query" "Record<string, string>"].

Definition getRouterHook (nm : string) : JsObject.property RouterHookMetadata :=
  JsObject.get ROUTER_HOOKS nm.

Definition isRouterHook (nm : string) : bool := JsObject.has ROUTER_HOOKS nm.

Definition getZenLinkProp (nm : string) : option ZenLinkPropMetadata :=
  List.find (fun p => String.eqb (propName p) nm) ZENLINK_PROPS.

Definition getZenLinkPropNames : list string := List.map propName ZENLINK_PROPS.

Definition getRouteField (nm : string) : option RouteFieldMetadata :=
  List.find (fun f => String.eqb (fieldName f) nm) ROUTE_FIELDS.

End Router.

(** ** imports.ts *)

Module Imports.
Import Re.
Local Open Scope re_scope.

Record ParsedImport : Type := mkImport {
  module : string;
  specifiers : list string;
  isType : bool;
  line : nat
}.

Inductive Kind : Type := core | plugin | external.

Inductive Metadata : Type :=
| CoreMeta (md : CoreImports.CoreModuleMetadata)
| PluginMeta (md : PluginImports.PluginModuleMetadata).

Record ResolvedImport : Type := mkResolved {
  rmodule : string;
  kind : Kind;
  metadata : JsObject.property Metadata;
  isKnown : bool
}.

(** ['DQ] *)
Definition quote : regex := Cls false [Ch "'"; Ch Js.dq].
(** [^'DQ] *)
Definition notQuote : regex := Cls true [Ch "'"; Ch Js.dq].

(** /import\s+(type\s+)?(?:\{([^}]+)\}|(\*\s+as\s+\w+)|(\w+))\s+from\s+['DQ]([^'DQ]+)['DQ]/ *)
Definition importPattern : regex :=
  Lit "import" ~> Plus ws ~> Opt (Grp 1 (Lit "type" ~> Plus ws)) ~>
  ((Chr "{" ~> Grp 2 (Plus (Cls true [Ch "}"])) ~> Chr "}")
   </> Grp 3 (Chr "*" ~> Plus ws ~> Lit "as" ~> Plus ws ~> Plus word)
   </> Grp 4 (Plus word)) ~>
  Plus ws ~> Lit "from" ~> Plus ws ~> quote ~> Grp 5 (Plus notQuote) ~> quote.

(** /import\s+['DQ]([^'DQ]+)['DQ]/ *)
Definition sideEffectPattern : regex :=
  Lit "import" ~> Plus ws ~> quote ~> Grp 1 (Plus notQuote) ~> quote.

(** /\s+as\s+/ *)
Definition asPattern : regex := Plus ws ~> Lit "as" ~> Plus ws.

Definition groupTruthy (n : nat) (mt : result) : bool :=
  match group n mt with Some s => Js.truthy s | None => false end.

Definition groupText (n : nat) (mt : result) : string := default "" (group n mt).

(** [moduleName.startsWith('zenith') || moduleName.startsWith('zenith:')] *)
Definition isZenith (moduleName : string) : bool :=
  Js.startsWith moduleName "zenith" || Js.startsWith moduleName "zenith:".

(** The named imports between the braces: [{ a, b as c, d }]. *)
Definition namedSpecifiers (namedImports : string) : list string :=
  List.filter Js.truthy
    (List.map (fun part => Js.trim (beforeFirst false asPattern (Js.trim part)))
              (Js.splitChar "," namedImports)).

Definition specifiersOf (mt : result) : list string :=
  if groupTruthy 2 mt then namedSpecifiers (groupText 2 mt)
  else if groupTruthy 3 mt then [Js.trim (groupText 3 mt)]
  else if groupTruthy 4 mt then [groupText 4 mt]
  else [].

(** What the first [if] of the loop body pushes for line [i] (zero-based). *)
Definition fromImportOf (importMatch : option result) (i : nat) : list ParsedImport :=
  match importMatch with
  | Some mt =>
      let moduleName := groupText 5 mt in
      if isZenith moduleName
      then [mkImport moduleName (specifiersOf mt) (groupTruthy 1 mt) (i + 1)]
      else []
  | None => []
  end.

(** What the second [if] of the loop body pushes. *)
Definition sideEffectOf (importMatch sideEffectMatch : option result) (i : nat)
  : list ParsedImport :=
  match sideEffectMatch, importMatch with
  | Some mt, None =>
      let moduleName := groupText 1 mt in
      if isZenith moduleName then [mkImport moduleName [] false (i + 1)] else []
  | _, _ => []
  end.

(** One turn of the loop over the lines. *)
Definition parseLine (ln : string) (i : nat) : list ParsedImport :=
  let importMatch := exec false importPattern ln in
  let sideEffectMatch := exec false sideEffectPattern ln in
  fromImportOf importMatch i ++ sideEffectOf importMatch sideEffectMatch i.

Fixpoint parseLines (lines : list string) (i : nat) : list ParsedImport :=
  match lines with
  | [] => []
  | ln :: t => parseLine ln i ++ parseLines t (S i)
  end.

Definition parseZenithImports (script : string) : list ParsedImport :=
  parseLines (Js.splitChar Js.nl script) 0.

Definition coreMeta (p : JsObject.property CoreImports.CoreModuleMetadata)
  : JsObject.property Metadata :=
  match p with
  | JsObject.Own md => JsObject.Own (CoreMeta md)
  | JsObject.Inherited k => JsObject.Inherited k
  | JsObject.Undefined => JsObject.Undefined
  end.

Definition pluginMeta (p : JsObject.property PluginImports.PluginModuleMetadata)
  : JsObject.property Metadata :=
  match p with
  | JsObject.Own md => JsObject.Own (PluginMeta md)
  | JsObject.Inherited k => JsObject.Inherited k
  | JsObject.Undefined => JsObject.Undefined
  end.

Definition resolveModule (moduleName : string) : ResolvedImport :=
  if CoreImports.isCoreModule moduleName then
    mkResolved moduleName core (coreMeta (CoreImports.getCoreModule moduleName)) true
  else if PluginImports.isPluginModule moduleName then
    mkResolved moduleName plugin
      (pluginMeta (PluginImports.getPluginModule moduleName))
      (PluginImports.isKnownPluginModule moduleName)
  else
    mkResolved moduleName external JsObject.Undefined false.

(** [None] is a TypeError passed on from the lookup. *)
Definition resolveExport (moduleName exportName : string)
  : option (option CoreImports.ModuleExport) :=
  if CoreImports.isCoreModule moduleName
  then CoreImports.getCoreExport moduleName exportName
  else if PluginImports.isKnownPluginModule moduleName
  then PluginImports.getPluginExport moduleName exportName
  else Some None.

Definition hasRouterImport (imports : list ParsedImport) : bool :=
  existsb (fun i => String.eqb (module i) "zenith/router") imports.

Definition hasImport (imports : list ParsedImport) (exportName : string) : bool :=
  existsb (fun i => Js.arrayIncludes (specifiers i) exportName) imports.

Definition getAllModules : list (string * Kind) :=
  List.map (fun nm => (nm, core)) (JsObject.keys CoreImports.CORE_MODULES) ++
  List.map (fun nm => (nm, plugin)) (JsObject.keys PluginImports.PLUGIN_MODULES).

(** [getModuleExports]: the exports of the core module of that name, else
    of the plugin module, else the empty array.  For a member of
    Object.prototype the core lookup is truthy and has no [exports]: the
    function returns [undefined], which is [None]. *)
Definition getModuleExports (moduleName : string) : option (list CoreImports.ModuleExport) :=
  match CoreImports.getCoreModule moduleName with
  | JsObject.Own coreModule => Some (CoreImports.exports coreModule)
  | JsObject.Inherited _ => None
  | JsObject.Undefined =>
      match PluginImports.getPluginModule moduleName with
      | JsObject.Own pluginModule => Some (PluginImports.exports pluginModule)
      | JsObject.Inherited _ => None
      | JsObject.Undefined => Some []
      end
  end.

End Imports.

(** ** project.ts: the project graph *)

Module Project.

Inductive ComponentType : Type := layout | component | page.

Record ComponentInfo : Type := mkComponent {
  name : string;
  filePath : string;
  type : ComponentType;
  props : list string
}.

(** The three name -> component Maps, each in insertion order. *)
Record ProjectGraph : Type := mkGraph {
  root : string;
  layouts : list (string * ComponentInfo);
  components : list (string * ComponentInfo);
  pages : list (string * ComponentInfo)
}.

(** Layouts first, then components. *)
Definition resolveComponent (graph : ProjectGraph) (nm : string) : option ComponentInfo :=
  if JsMap.has nm (layouts graph) then JsMap.get nm (layouts graph)
  else if JsMap.has nm (components graph) then JsMap.get nm (components graph)
  else None.

(** *** Reading the project from the file system *)

Import Re.
Local Open Scope re_scope.

(** /(?:interface|type)\s+Props\s*[={]\s*\{([^}]+)\}/ *)
Definition propsPattern : regex :=
  (Lit "interface" </> Lit "type") ~> Plus ws ~> Lit "Props" ~> Star ws ~>
  Cls false [Ch "="; Ch "{"] ~> Star ws ~>
  Chr "{" ~> Grp 1 (Plus (Cls true [Ch "}"])) ~> Chr "}".

(** /([a-zA-Z_$][a-zA-Z0-9_$?]* )\s*[?:]?\s*:/g *)
Definition propNamePattern : regex :=
  Grp 1 (Cls false [Rg "a" "z"; Rg "A" "Z"; Ch "_"; Ch "$"] ~>
         Star (Cls false [Rg "a" "z"; Rg "A" "Z"; Rg "0" "9"; Ch "_"; Ch "$"; Ch "?"])) ~>
  Star ws ~> Opt (Cls false [Ch "?"; Ch ":"]) ~> Star ws ~> Chr ":".

(** /\{(title|lang|className|children|href|src|alt|id|name)\}/g *)
Definition usagePattern : regex :=
  Chr "{" ~>
  Grp 1 (Lit "title" </> Lit "lang" </> Lit "className" </> Lit "children" </>
         Lit "href" </> Lit "src" </> Lit "alt" </> Lit "id" </> Lit "name") ~>
  Chr "}".

(** A character of /[?:\s]/. *)
Definition propNoise (c : ascii) : bool := classMatches false false [Ch "?"; Ch ":"; Sp] c.

(** [p.replace(/[?:\s]/g, '')] *)
Fixpoint stripNoise (p : string) : string :=
  match p with
  | EmptyString => EmptyString
  | String c t => if propNoise c then stripNoise t else String c (stripNoise t)
  end.

(** [if (name && !props.includes(name)) props.push(name)] *)
Definition pushNew (props : list string) (nm : string) : list string :=
  if Js.truthy nm && negb (existsb (String.eqb nm) props) then props ++ [nm] else props.

(** [propNames]: the matches of the property pattern in the body of the
    Props declaration; empty when there is no declaration or no match. *)
Definition propNames (content : string) : list string :=
  match exec false propsPattern content with
  | None => []
  | Some propsMatch =>
      match group 1 propsMatch with
      | None => []
      | Some body =>
          if Js.truthy body
          then List.map whole (matchAll false propNamePattern body)
          else []
      end
  end.

(** The body of [extractPropsFromFile] after the file is read. *)
Definition extractProps (content : string) : list string :=
  let props :=
    List.fold_left (fun props p => pushNew props (stripNoise p)) (propNames content) [] in
  List.fold_left
    (fun props mt =>
       match group 1 mt with
       | Some nm => pushNew props nm
       | None => props
       end)
    (matchAll false usagePattern content) props.

(** How a call that walks the file system ends: with a value, with an
    exception, or not within the bound on the depth of the walk. *)
Inductive outcome (A : Type) : Type :=
| Returns (a : A)
| Throws
| Unfinished.
Arguments Returns {A} a.
Arguments Throws {A}.
Arguments Unfinished {A}.

Section FileSystem.

(** The host: [fs.existsSync]; [fs.readdirSync] with file types, which
    gives the name and [isDirectory()] of each entry and is [None] when it
    throws; [fs.readFileSync], [None] when it throws; [path.join],
    [path.basename] and [path.dirname]. *)
Variable existsSync : string -> bool.
Variable readdirSync : string -> option (list (string * bool)).
Variable readFileSync : string -> option string.
Variable join : string -> string -> string.
Variable basename : string -> string -> string.
Variable dirname : string -> string.

Definition extractPropsFromFile (filePath : string) : list string :=
  match readFileSync filePath with
  | Some content => extractProps content
  | None => []
  end.

(** The loop over the entries of one directory; [scanDir] is the call for
    a directory among them. *)
Fixpoint scanEntries
  (scanDir : string -> list (string * ComponentInfo) -> outcome (list (string * ComponentInfo)))
  (type : ComponentType) (currentDir : string) (entries : list (string * bool))
  (result : list (string * ComponentInfo)) : outcome (list (string * ComponentInfo)) :=
  match entries with
  | [] => Returns result
  | (entryName, isDirectory) :: entries' =>
      let fullPath := join currentDir entryName in
      if isDirectory then
        match scanDir fullPath result with
        | Returns result' => scanEntries scanDir type currentDir entries' result'
        | Throws => Throws
        | Unfinished => Unfinished
        end
      else if Js.endsWith entryName ".zen" then
        let nm := basename entryName ".zen" in
        let props := extractPropsFromFile fullPath in
        scanEntries scanDir type currentDir entries'
          (JsMap.set nm (mkComponent nm fullPath type props) result)
      else scanEntries scanDir type currentDir entries' result
  end.

(** [scanDir], with a bound on the depth of the directories. *)
Fixpoint scanDir (depth : nat) (type : ComponentType) (currentDir : string)
  (result : list (string * ComponentInfo)) : outcome (list (string * ComponentInfo)) :=
  match depth with
  | O => Unfinished
  | S depth' =>
      match readdirSync currentDir with
      | None => Throws
      | Some entries => scanEntries (scanDir depth' type) type currentDir entries result
      end
  end.

Definition discoverZenFiles (depth : nat) (dir : string) (type : ComponentType)
  : outcome (list (string * ComponentInfo)) :=
  if negb (existsSync dir) then Returns [] else scanDir depth type dir [].

Definition buildProjectGraph (depth : nat) (root : string) : outcome ProjectGraph :=
  let srcDir := if existsSync (join root "src") then join root "src" else join root "app" in
  match discoverZenFiles depth (join srcDir "layouts") layout with
  | Returns layouts =>
      match discoverZenFiles depth (join srcDir "components") component with
      | Returns components =>
          match discoverZenFiles depth (join srcDir "pages") page with
          | Returns pages => Returns (mkGraph root layouts components pages)
          | Throws => Throws
          | Unfinished => Unfinished
          end
      | Throws => Throws
      | Unfinished => Unfinished
      end
  | Throws => Throws
  | Unfinished => Unfinished
  end.

(** One round of the loop of [detectProjectRoot]: is [current] a project
    directory? *)
Definition hasMarker (current : string) : bool :=
  if existsSync (join current "zenith.config.ts") then true
  else
    let srcDir := join current "src" in
    if existsSync srcDir &&
       (existsSync (join srcDir "pages") || existsSync (join srcDir "layouts"))
    then true
    else
      let appDir := join current "app" in
      existsSync appDir &&
      (existsSync (join appDir "pages") || existsSync (join appDir "layouts")).

(** [detectProjectRoot], with a bound on the number of rounds. *)
Fixpoint detectProjectRoot (rounds : nat) (current : string) : outcome (option string) :=
  match rounds with
  | O => Unfinished
  | S rounds' =>
      if String.eqb current (dirname current) then Returns None
      else if hasMarker current then Returns (Some current)
      else detectProjectRoot rounds' (dirname current)
  end.

End FileSystem.

End Project.

(** ** diagnostics.ts *)

Module Diagnostics.
Import Re.
Local Open Scope re_scope.

Inductive DiagnosticSeverity : Type := Error | Warning | Information | Hint.

(** A range keeps the two offsets that the source hands to
    [document.positionAt]. *)
Record Range : Type := mkRange { start : nat; finish : nat }.

Record Diagnostic : Type := mkDiagnostic {
  severity : DiagnosticSeverity;
  range : Range;
  message : string;
  source : string
}.

(** /<([A-Z][a-zA-Z0-9]* )(?=[\s/>])/g *)
Definition componentPattern : regex :=
  Chr "<" ~> Grp 1 (Cls false [Rg "A" "Z"] ~> Star (Cls false [Rg "a" "z"; Rg "A" "Z"; Rg "0" "9"])) ~>
  Ahead false (Cls false [Sp; Ch "/"; Ch ">"]).

Definition componentFindings (graph : Project.ProjectGraph) (mt : result) : list Diagnostic :=
  let componentName := Imports.groupText 1 mt in
  if String.eqb componentName "ZenLink" then []
  else
    let inLayouts := JsMap.has componentName (Project.layouts graph) in
    let inComponents := JsMap.has componentName (Project.components graph) in
    if negb inLayouts && negb inComponents then
      [mkDiagnostic Warning
         (mkRange (index mt + 1) (index mt + 1 + String.length componentName))
         ("Unknown component: '<" +:+ componentName +:+
          ">'. Ensure it exists in src/layouts/ or src/components/")
         "zenith"]
    else [].

Definition collectComponentDiagnostics (text : string) (graph : option Project.ProjectGraph)
  : list Diagnostic :=
  match graph with
  | None => []
  | Some g => List.concat (List.map (componentFindings g) (matchAll false componentPattern text))
  end.

(** /(zen:(?:if|for|effect|show))\s*=\s*[DQ']([^DQ']* )[DQ']/g *)
Definition directivePattern : regex :=
  Grp 1 (Lit "zen:" ~> (Lit "if" </> Lit "for" </> Lit "effect" </> Lit "show")) ~>
  Star ws ~> Chr "=" ~> Star ws ~> Imports.quote ~>
  Grp 2 (Star Imports.notQuote) ~> Imports.quote.

(** /<slot[^>]*zen:for/g *)
Definition slotForPattern : regex :=
  Lit "<slot" ~> Star (Cls true [Ch ">"]) ~> Lit "zen:for".

Definition matchRange (mt : result) : Range :=
  mkRange (index mt) (index mt + String.length (whole mt)).

Definition invalidForMessage : string :=
  "Invalid zen:for syntax. Expected: " +:+ Js.DQ +:+ "item in items" +:+ Js.DQ +:+
  " or " +:+ Js.DQ +:+ "item, index in items" +:+ Js.DQ.

(** The two checks of the loop body, one after the other. *)
Definition directiveFindings (mt : result) : list Diagnostic :=
  let directiveName := Imports.groupText 1 mt in
  let directiveValue := Imports.groupText 2 mt in
  (if String.eqb directiveName "zen:for" then
     match DirectiveMetadata.parseForExpression directiveValue with
     | None => [mkDiagnostic Error (matchRange mt) invalidForMessage "zenith"]
     | Some _ => []
     end
   else []) ++
  (if negb (Js.truthy (Js.trim directiveValue)) then
     [mkDiagnostic Error (matchRange mt) (directiveName +:+ " requires a value") "zenith"]
   else []).

Definition slotForFinding (mt : result) : Diagnostic :=
  mkDiagnostic Error (matchRange mt) "zen:for cannot be used on <slot> elements" "zenith".

Definition collectDirectiveDiagnostics (text : string) : list Diagnostic :=
  List.concat (List.map directiveFindings (matchAll false directivePattern text)) ++
  List.map slotForFinding (matchAll false slotForPattern text).

(** /<script[^>]*>([\s\S]*?)<\/script>/i *)
Definition scriptPattern : regex :=
  Lit "<script" ~> Star (Cls true [Ch ">"]) ~> Chr ">" ~>
  Grp 1 (StarLazy (Cls false [Sp; NSp])) ~> Lit "</script>".

(** /\{([^}]+)\}/g *)
Definition expressionPattern : regex :=
  Chr "{" ~> Grp 1 (Plus (Cls true [Ch "}"])) ~> Chr "}".

(** /\bwith\s*\(/ *)
Definition withPattern : regex :=
  Wordb false ~> Lit "with" ~> Star ws ~> Chr "(".

Definition expressionFindings (mt : result) : list Diagnostic :=
  let expression := Imports.groupText 1 mt in
  (if Js.includes expression "eval(" || Js.includes expression "Function(" then
     [mkDiagnostic Error (matchRange mt)
        "Dangerous pattern detected: eval() and Function() are not allowed in expressions"
        "zenith"]
   else []) ++
  (if test false withPattern expression then
     [mkDiagnostic Error (matchRange mt)
        "'with' statement is not allowed in expressions" "zenith"]
   else []).

Definition collectExpressionDiagnostics (text : string) : list Diagnostic :=
  List.concat (List.map expressionFindings (matchAll false expressionPattern text)).

Definition exportNames (md : Imports.Metadata) : list string :=
  match md with
  | Imports.CoreMeta c => List.map CoreImports.name (CoreImports.exports c)
  | Imports.PluginMeta p => List.map CoreImports.name (PluginImports.exports p)
  end.

Section WithRegExp.

(** The RegExp constructor of the host, applied to a pattern text built at
    run time: [None] when it throws a SyntaxError, else the search of a
    subject, which gives the index and the text of the first match. *)
Variable newRegExp : string -> option (string -> option (nat * string)).

(** The pattern text of the unknown-plugin search. *)
Definition importLineSource (moduleName : string) : string :=
  "import[^'" +:+ Js.DQ +:+ "]*['" +:+ Js.DQ +:+ "]" +:+
  Js.replaceFirst moduleName ":" "\:" +:+ "['" +:+ Js.DQ +:+ "]".

(** The pattern text of the specifier search. *)
Definition specifierSource (specifier : string) : string :=
  "\b" +:+ specifier +:+ "\b".

(** The soft finding for a plugin module that the registry does not know. *)
Definition pluginFindings (scriptContent : string) (scriptStart : nat)
  (imp : Imports.ParsedImport) (resolved : Imports.ResolvedImport)
  : option (list Diagnostic) :=
  if PluginImports.isPluginModule (Imports.module imp) && negb (Imports.isKnown resolved) then
    re ← newRegExp (importLineSource (Imports.module imp));
    match re scriptContent with
    | Some (idx, matched) =>
        Some [mkDiagnostic Information
                (mkRange (scriptStart + idx) (scriptStart + idx + String.length matched))
                ("Unknown plugin module: '" +:+ Imports.module imp +:+
                 "'. Make sure the plugin is installed.")
                "zenith"]
    | None => Some []
    end
  else Some [].

(** The inner loop over the specifiers of one import. *)
Fixpoint specifierFindings (scriptContent : string) (scriptStart : nat)
  (moduleName : string) (validExports : list string) (specs : list string)
  : option (list Diagnostic) :=
  match specs with
  | [] => Some []
  | specifier :: more =>
      here ←
        (if negb (Js.arrayIncludes validExports specifier) then
           re ← newRegExp (specifierSource specifier);
           match re scriptContent with
           | Some (idx, _) =>
               Some [mkDiagnostic Warning
                       (mkRange (scriptStart + idx)
                                (scriptStart + idx + String.length specifier))
                       ("'" +:+ specifier +:+ "' is not exported from '" +:+
                        moduleName +:+ "'")
                       "zenith"]
           | None => Some []
           end
         else Some []);
      others ← specifierFindings scriptContent scriptStart moduleName validExports more;
      Some (here ++ others)
  end.

(** The check of the specifiers of a known module.  A member of
    Object.prototype in the place of the metadata has no [exports]: the
    source throws there. *)
Definition exportFindings (scriptContent : string) (scriptStart : nat)
  (imp : Imports.ParsedImport) (resolved : Imports.ResolvedImport)
  : option (list Diagnostic) :=
  if Imports.isKnown resolved then
    match Imports.metadata resolved with
    | JsObject.Undefined => Some []
    | JsObject.Inherited _ => None
    | JsObject.Own md =>
        specifierFindings scriptContent scriptStart (Imports.module imp)
          (exportNames md) (Imports.specifiers imp)
    end
  else Some [].

(** The body of the loop over the imports. *)
Definition importFindings (scriptContent : string) (scriptStart : nat)
  (imp : Imports.ParsedImport) : option (list Diagnostic) :=
  let resolved := Imports.resolveModule (Imports.module imp) in
  a ← pluginFindings scriptContent scriptStart imp resolved;
  b ← exportFindings scriptContent scriptStart imp resolved;
  Some (a ++ b).

Fixpoint importsFindings (scriptContent : string) (scriptStart : nat)
  (imports : list Imports.ParsedImport) : option (list Diagnostic) :=
  match imports with
  | [] => Some []
  | imp :: more =>
      a ← importFindings scriptContent scriptStart imp;
      b ← importsFindings scriptContent scriptStart more;
      Some (a ++ b)
  end.

(** [None]: the function throws. *)
Definition collectImportDiagnostics (text : string) : option (list Diagnostic) :=
  match exec true scriptPattern text with
  | None => Some []
  | Some scriptMatch =>
      let scriptContent := Imports.groupText 1 scriptMatch in
      let scriptStart :=
        Z.to_nat (Z.of_nat (index scriptMatch) + Js.indexOf (whole scriptMatch) scriptContent) in
      importsFindings scriptContent scriptStart (Imports.parseZenithImports scriptContent)
  end.

(** All four collectors push to one array, in this order. *)
Definition collectDiagnostics (text : string) (graph : option Project.ProjectGraph)
  : option (list Diagnostic) :=
  let d1 := collectComponentDiagnostics text graph in
  let d2 := collectDirectiveDiagnostics text in
  d3 ← collectImportDiagnostics text;
  let d4 := collectExpressionDiagnostics text in
  Some (d1 ++ d2 ++ d3 ++ d4).

End WithRegExp.

End Diagnostics.

(** ** server.ts: symbol extraction and the region classifier *)

Module Server.
Import Re.
Local Open Scope re_scope.

Inductive CompletionItemKind : Type :=
| Keyword | Function_ | Variable_ | Module_ | Class_ | Property | Event.

Record LifecycleHook : Type := mkLifecycle {
  hookName : string;
  hookKind : CompletionItemKind
}.

(** The hooks with their completion kind (the doc and snippet texts are not
    carried). *)
Definition LIFECYCLE_HOOKS : list LifecycleHook :=
  [mkLifecycle "state" Keyword; mkLifecycle "zenOnMount" Function_;
   mkLifecycle "zenOnDestroy" Function_; mkLifecycle "zenOnUpdate" Function_;
   mkLifecycle "zenEffect" Function_; mkLifecycle "useFetch" Function_].

(** The tags of HTML_ELEMENTS, in the order of the table. *)
Definition HTML_ELEMENTS : list string :=
  ["div"; "span"; "p"; "a"; "button"; "input"; "img"; "h1"; "h2"; "h3"; "h4";
   "h5"; "h6"; "ul"; "ol"; "li"; "nav"; "header"; "footer"; "main"; "section";
   "article"; "aside"; "form"; "label"; "select"; "option"; "textarea"; "table";
   "thead"; "tbody"; "tr"; "th"; "td"; "br"; "hr"; "strong"; "em"; "code";
   "pre"; "blockquote"; "slot"].

Definition HTML_ATTRIBUTES : list string :=
  ["id"; "class"; "style"; "title"; "href"; "src"; "alt"; "type"; "name"; "value";
   "placeholder"; "disabled"; "checked"; "readonly"; "required"; "hidden"].

Definition DOM_EVENTS : list string :=
  ["click"; "change"; "input"; "submit"; "keydown"; "keyup"; "keypress";
   "focus"; "blur"; "mouseover"; "mouseout"; "mouseenter"; "mouseleave"].

(** [a-zA-Z_$] and [a-zA-Z0-9_$] *)
Definition identStart : regex := DirectiveMetadata.identStart.
Definition identChar : regex :=
  Cls false [Rg "a" "z"; Rg "A" "Z"; Rg "0" "9"; Ch "_"; Ch "$"].
Definition ident : regex := identStart ~> Star identChar.

(** /state\s+([a-zA-Z_$][a-zA-Z0-9_$]* )\s*=\s*([^;\n]+)/g *)
Definition statePattern : regex :=
  Lit "state" ~> Plus ws ~> Grp 1 ident ~> Star ws ~> Chr "=" ~> Star ws ~>
  Grp 2 (Plus (Cls true [Ch ";"; Ch Js.nl])).

(** The body of the loop: [states.set(match[1], match[2].trim())] when both
    groups are truthy. *)
Definition recordState (states : list (string * string)) (mt : result)
  : list (string * string) :=
  if Imports.groupTruthy 1 mt && Imports.groupTruthy 2 mt
  then JsMap.set (Imports.groupText 1 mt) (Js.trim (Imports.groupText 2 mt)) states
  else states.

Definition extractStates (script : string) : list (string * string) :=
  List.fold_left recordState (matchAll false statePattern script) [].

Record FunctionInfo : Type := mkFunction {
  name : string;
  params : string;
  isAsync : bool
}.

(** /(async\s+)?function\s+([a-zA-Z_$][a-zA-Z0-9_$]* )\s*\(([^)]* )\)/g *)
Definition funcPattern : regex :=
  Opt (Grp 1 (Lit "async" ~> Plus ws)) ~> Lit "function" ~> Plus ws ~>
  Grp 2 ident ~> Star ws ~> Chr "(" ~> Grp 3 (Star (Cls true [Ch ")"])) ~> Chr ")".

(** /(?:const|let)\s+([a-zA-Z_$][a-zA-Z0-9_$]* )\s*=\s*(async\s+)?\([^)]*\)\s*=>/g *)
Definition arrowPattern : regex :=
  (Lit "const" </> Lit "let") ~> Plus ws ~> Grp 1 ident ~> Star ws ~> Chr "=" ~>
  Star ws ~> Opt (Grp 2 (Lit "async" ~> Plus ws)) ~> Chr "(" ~>
  Star (Cls true [Ch ")"]) ~> Chr ")" ~> Star ws ~> Lit "=>".

Definition declaredFunction (mt : result) : list FunctionInfo :=
  if Imports.groupTruthy 2 mt
  then [mkFunction (Imports.groupText 2 mt) (Imports.groupText 3 mt) (Imports.groupTruthy 1 mt)]
  else [].

Definition arrowFunction (mt : result) : list FunctionInfo :=
  if Imports.groupTruthy 1 mt
  then [mkFunction (Imports.groupText 1 mt) "" (Imports.groupTruthy 2 mt)]
  else [].

Definition extractFunctions (script : string) : list FunctionInfo :=
  List.concat (List.map declaredFunction (matchAll false funcPattern script)) ++
  List.concat (List.map arrowFunction (matchAll false arrowPattern script)).

(** /zen:for\s*=\s*[DQ']([^DQ']+)[DQ']/g *)
Definition loopPattern : regex :=
  Lit "zen:for" ~> Star ws ~> Chr "=" ~> Star ws ~> Imports.quote ~>
  Grp 1 (Plus Imports.notQuote) ~> Imports.quote.

Definition loopVariablesOf (mt : result) : list string :=
  match DirectiveMetadata.parseForExpression (Imports.groupText 1 mt) with
  | Some parsed =>
      DirectiveMetadata.itemVar parsed ::
      match DirectiveMetadata.indexVar parsed with
      | Some iv => if Js.truthy iv then [iv] else []
      | None => []
      end
  | None => []
  end.

Definition extractLoopVariables (text : string) : list string :=
  List.concat (List.map loopVariablesOf (matchAll false loopPattern text)).

Definition getScriptContent (text : string) : string :=
  match exec true Diagnostics.scriptPattern text with
  | Some mt => Imports.groupText 1 mt
  | None => ""
  end.

Record PositionContext : Type := mkContext {
  inScript : bool;
  inStyle : bool;
  inTag : bool;
  inExpression : bool;
  inTemplate : bool;
  inAttributeValue : bool;
  tagName : option string;
  currentWord : string;
  afterAt : bool;
  afterColon : bool
}.

(** /<script[^>]*>/gi, /<\/script>/gi, /<style[^>]*>/gi, /<\/style>/gi *)
Definition scriptOpen : regex := Lit "<script" ~> Star (Cls true [Ch ">"]) ~> Chr ">".
Definition scriptClose : regex := Lit "</script>".
Definition styleOpen : regex := Lit "<style" ~> Star (Cls true [Ch ">"]) ~> Chr ">".
Definition styleClose : regex := Lit "</style>".

(** /=[DQ'][^DQ']*$/ *)
Definition quotePattern : regex :=
  Chr "=" ~> Imports.quote ~> Star Imports.notQuote ~> Eol.

(** /<\/?([A-Za-z][A-Za-z0-9-]* )/ *)
Definition tagPattern : regex :=
  Chr "<" ~> Opt (Chr "/") ~>
  Grp 1 (Cls false [Rg "A" "Z"; Rg "a" "z"] ~>
         Star (Cls false [Rg "A" "Z"; Rg "a" "z"; Rg "0" "9"; Ch "-"])).

(** /[a-zA-Z_$:@][a-zA-Z0-9_$:-]*$/ *)
Definition wordPattern : regex :=
  Cls false [Rg "a" "z"; Rg "A" "Z"; Ch "_"; Ch "$"; Ch ":"; Ch "@"] ~>
  Star (Cls false [Rg "a" "z"; Rg "A" "Z"; Rg "0" "9"; Ch "_"; Ch "$"; Ch ":"; Ch "-"]) ~>
  Eol.

(** [(s.match(re) || []).length] for a pattern with the [g] and [i] flags. *)
Definition countMatches (r : regex) (s : string) : nat :=
  List.length (matchAll true r s).

Definition getPositionContext (text : string) (offset : Z) : PositionContext :=
  let before := Js.substring text 0 offset in
  let scriptOpens := countMatches scriptOpen before in
  let scriptCloses := countMatches scriptClose before in
  let inScript := (scriptCloses <? scriptOpens)%nat in
  let styleOpens := countMatches styleOpen before in
  let styleCloses := countMatches styleClose before in
  let inStyle := (styleCloses <? styleOpens)%nat in
  let lastTagOpen := Js.lastIndexOf before "<" in
  let lastTagClose := Js.lastIndexOf before ">" in
  let inTag := (lastTagClose <? lastTagOpen)%Z in
  let lastBraceOpen := Js.lastIndexOf before "{" in
  let lastBraceClose := Js.lastIndexOf before "}" in
  let inExpression := (lastBraceClose <? lastBraceOpen)%Z && negb inScript && negb inStyle in
  let inTemplate := negb inScript && negb inStyle in
  let afterLastTag := Js.substringFrom before lastTagOpen in
  let quoteMatch := exec false quotePattern afterLastTag in
  let inAttributeValue := inTag && bool_decide (is_Some quoteMatch) in
  let tagName :=
    if inTag then
      match exec false tagPattern (Js.substringFrom before lastTagOpen) with
      | Some tagMatch => group 1 tagMatch
      | None => None
      end
    else None in
  let currentWord :=
    match exec false wordPattern before with
    | Some wordMatch => whole wordMatch
    | None => ""
    end in
  let afterAt := Js.endsWith before "@" || Js.startsWith currentWord "@" in
  let afterColon :=
    Js.endsWith before ":" ||
    (Js.startsWith currentWord ":" && negb (Js.startsWith currentWord ":")) in
  mkContext inScript inStyle inTag inExpression inTemplate inAttributeValue
            tagName currentWord afterAt afterColon.

(** *** The project-graph cache *)

Section FileSystem.

(** The file system as the server sees it: [path.dirname] of the host,
    [detectProjectRoot] and [buildProjectGraph] of project.ts, which probe
    and read the disk.  [buildProjectGraph] is [None] when it throws: its
    [readdirSync] is not guarded, and a directory that exists and cannot be
    read makes it throw. *)
Variable dirname : string -> string.
Variable detectProjectRoot : string -> option string.
Variable buildProjectGraph : string -> option Project.ProjectGraph.

(** [detectProjectRoot(path.dirname(uri.replace('file://', '')))]; an empty
    root is falsy and counts as none. *)
Definition rootOf (uri : string) : option string :=
  match detectProjectRoot (dirname (Js.replaceFirst uri "file://" "")) with
  | Some projectRoot => if Js.truthy projectRoot then Some projectRoot else None
  | None => None
  end.

(** [projectGraphs] is the state threaded through: the function returns the
    result and the cache after the call.  The result is [None] when the
    call throws, which it does when the graph has to be built and the
    builder throws (the cache is then as before); else it is the graph, or
    [null] for a document without a project root. *)
Definition getProjectGraph (projectGraphs : gmap string Project.ProjectGraph)
  (docUri : string)
  : option (option Project.ProjectGraph) * gmap string Project.ProjectGraph :=
  match rootOf docUri with
  | None => (Some None, projectGraphs)
  | Some projectRoot =>
      match projectGraphs !! projectRoot with
      | Some _ => (Some (projectGraphs !! projectRoot), projectGraphs)
      | None =>
          match buildProjectGraph projectRoot with
          | None => (None, projectGraphs)
          | Some built =>
              let projectGraphs' := <[projectRoot := built]> projectGraphs in
              (Some (projectGraphs' !! projectRoot), projectGraphs')
          end
      end
  end.

Definition invalidateProjectGraph (projectGraphs : gmap string Project.ProjectGraph)
  (uri : string) : gmap string Project.ProjectGraph :=
  match rootOf uri with
  | Some projectRoot => delete projectRoot projectGraphs
  | None => projectGraphs
  end.

(** *** Completion *)

(** Of a completion item the label, kind, detail and sort key are carried
    (not the documentation and the inserted snippet). *)
Record CompletionItem : Type := mkItem {
  label : string;
  kind : CompletionItemKind;
  detail : option string;
  sortText : option string
}.

(** [!ctx.currentWord || name.toLowerCase().startsWith(ctx.currentWord.toLowerCase())] *)
Definition keep (currentWord nm : string) : bool :=
  negb (Js.truthy currentWord) ||
  Js.startsWith (Js.toLowerCase nm) (Js.toLowerCase currentWord).

(** [!ctx.currentWord || name.startsWith(ctx.currentWord.toLowerCase())] *)
Definition keepLower (currentWord nm : string) : bool :=
  negb (Js.truthy currentWord) || Js.startsWith nm (Js.toLowerCase currentWord).

Definition asyncPrefix (f : FunctionInfo) : string :=
  if isAsync f then "async " else "".

(** Script context. *)
Definition lifecycleTier (cw : string) : list CompletionItem :=
  List.map (fun hook =>
              mkItem (hookName hook) (hookKind hook)
                (Some (if String.eqb (hookName hook) "state" then "Zenith State"
                       else "Zenith Lifecycle"))
                (Some ("0_" +:+ hookName hook)))
           (List.filter (fun hook => keep cw (hookName hook)) LIFECYCLE_HOOKS).

Definition routerHookTier (cw : string) : list CompletionItem :=
  List.map (fun hook =>
              mkItem (Router.name hook) Function_ (Some (Router.owner hook))
                (Some ("0_" +:+ Router.name hook)))
           (List.filter (fun hook => keep cw (Router.name hook))
                        (JsObject.values Router.ROUTER_HOOKS)).

Definition scriptFunctionTier (cw : string) (functions : list FunctionInfo)
  : list CompletionItem :=
  List.map (fun func =>
              mkItem (name func) Function_
                (Some (asyncPrefix func +:+ "function " +:+ name func +:+ "(" +:+
                       params func +:+ ")"))
                None)
           (List.filter (fun func => keep cw (name func)) functions).

Definition scriptStateTier (cw : string) (states : list (string * string))
  : list CompletionItem :=
  List.map (fun nv => mkItem (fst nv) Variable_ (Some ("state " +:+ fst nv)) None)
           (List.filter (fun nv => keep cw (fst nv)) states).

(** /from\s+[DQ'][^DQ']*$/ and /import\s+[DQ'][^DQ']*$/ *)
Definition fromPathPattern : regex :=
  Lit "from" ~> Plus ws ~> Imports.quote ~> Star Imports.notQuote ~> Eol.
Definition importPathPattern : regex :=
  Lit "import" ~> Plus ws ~> Imports.quote ~> Star Imports.notQuote ~> Eol.

Definition importPathTier : list CompletionItem :=
  List.map (fun md =>
              mkItem (fst md) Module_
                (Some (match snd md with Imports.plugin => "Zenith Plugin" | _ => "Zenith Core" end))
                None)
           Imports.getAllModules.

(** Expression context: no test of the current word. *)
Definition expressionStateTier (states : list (string * string)) : list CompletionItem :=
  List.map (fun nv => mkItem (fst nv) Variable_ (Some ("state " +:+ fst nv))
                        (Some ("0_" +:+ fst nv))) states.

Definition expressionFunctionTier (functions : list FunctionInfo) : list CompletionItem :=
  List.map (fun func => mkItem (name func) Function_ (Some (asyncPrefix func +:+ "function"))
                          (Some ("1_" +:+ name func))) functions.

Definition loopVariableTier (loopVariables : list string) : list CompletionItem :=
  List.map (fun loopVar => mkItem loopVar Variable_ (Some "loop variable")
                             (Some ("0_" +:+ loopVar))) loopVariables.

Definition routeFieldTier : list CompletionItem :=
  List.map (fun field =>
              mkItem ("route." +:+ Router.fieldName field) Property
                (Some (Router.fieldType field))
                (Some ("2_route_" +:+ Router.fieldName field)))
           Router.ROUTE_FIELDS.

(** Template context. *)
Definition layoutTier (cw : string) (graph : Project.ProjectGraph) : list CompletionItem :=
  List.map (fun ni => mkItem (fst ni) Class_ (Some "layout") (Some ("0_" +:+ fst ni)))
           (List.filter (fun ni => keep cw (fst ni)) (Project.layouts graph)).

Definition componentTier (cw : string) (graph : Project.ProjectGraph) : list CompletionItem :=
  List.map (fun ni => mkItem (fst ni) Class_ (Some "component") (Some ("0_" +:+ fst ni)))
           (List.filter (fun ni => keep cw (fst ni)) (Project.components graph)).

Definition zenLinkItem : CompletionItem :=
  mkItem "ZenLink" Class_ (Some "router component") (Some "0_ZenLink").

(** The one ZenLink suggestion, when the router is imported: behind a [<],
    or while a tag name that begins with [z] or [Z] is typed. *)
Definition zenLinkTier (cw : string) (routerEnabled isAfterOpenBracket isTypingTag : bool)
  : list CompletionItem :=
  if routerEnabled &&
     (isAfterOpenBracket || (isTypingTag && Js.startsWith (Js.toLowerCase cw) "z"))
  then [zenLinkItem] else [].

Definition htmlElementTier (cw : string) : list CompletionItem :=
  List.map (fun tag => mkItem tag Property (Some "HTML") (Some ("1_" +:+ tag)))
           (List.filter (fun tag => keepLower cw tag) HTML_ELEMENTS).

(** Inside a tag. *)
Definition categoryText (c : DirectiveMetadata.Category) : string :=
  match c with
  | DirectiveMetadata.ControlFlow => "control-flow"
  | DirectiveMetadata.Iteration => "iteration"
  | DirectiveMetadata.ReactiveEffect => "reactive-effect"
  | DirectiveMetadata.ConditionalVisibility => "conditional-visibility"
  end.

Definition directiveItem (directiveName : string) : list CompletionItem :=
  match DirectiveMetadata.getDirective directiveName with
  | JsObject.Own directive =>
      [mkItem (DirectiveMetadata.name directive) Keyword
         (Some (categoryText (DirectiveMetadata.category directive)))
         (Some ("0_" +:+ DirectiveMetadata.name directive))]
  | _ => []
  end.

Definition directiveTier (cw : string) (elementType : DirectiveMetadata.ElementType)
  : list CompletionItem :=
  List.concat
    (List.map directiveItem
       (List.filter
          (fun directiveName =>
             match DirectiveMetadata.canPlaceDirective directiveName elementType with
             | Some true => keep cw directiveName
             | _ => false
             end)
          DirectiveMetadata.getDirectiveNames)).

Definition atEventTier : list CompletionItem :=
  List.map (fun event => mkItem ("@" +:+ event) Event (Some "event binding")
                           (Some ("1_@" +:+ event))) DOM_EVENTS.

Definition bindingTier : list CompletionItem :=
  List.map (fun attr => mkItem (":" +:+ attr) Property (Some "reactive binding")
                          (Some ("1_:" +:+ attr))) HTML_ATTRIBUTES.

Definition componentPropTier (tag : string) (graph : Project.ProjectGraph)
  : list CompletionItem :=
  match Project.resolveComponent graph tag with
  | Some component =>
      List.map (fun prop => mkItem prop Property (Some ("prop of <" +:+ tag +:+ ">"))
                              (Some ("0_" +:+ prop)))
               (Project.props component)
  | None => []
  end.

Definition zenLinkPropTier (cw : string) : list CompletionItem :=
  List.map (fun prop =>
              mkItem (Router.propName prop) Property
                (Some (if Router.propRequired prop
                       then Router.propType prop +:+ " (required)"
                       else Router.propType prop))
                (Some ((if Router.propRequired prop then "0_" else "1_") +:+
                       Router.propName prop)))
           (List.filter (fun prop => keep cw (Router.propName prop)) Router.ZENLINK_PROPS).

Definition onEventTier (cw : string) : list CompletionItem :=
  List.map (fun onEvent => mkItem onEvent Event (Some "event handler")
                             (Some ("2_" +:+ onEvent)))
           (List.filter (fun onEvent => keepLower cw onEvent)
                        (List.map (fun event => "on" +:+ event) DOM_EVENTS)).

Definition htmlAttributeTier (cw : string) : list CompletionItem :=
  List.map (fun attr => mkItem attr Property (Some "HTML attribute") (Some ("3_" +:+ attr)))
           (List.filter (fun attr => keepLower cw attr) HTML_ATTRIBUTES).

(** Inside the value of an event-handler attribute. *)
Definition handlerFunctionTier (functions : list FunctionInfo) : list CompletionItem :=
  List.map (fun func => mkItem (name func) Function_ (Some "function") None) functions.

(** /<\s*$/, /^[A-Z]/, /^[a-z]/ *)
Definition openBracketPattern : regex := Chr "<" ~> Star ws ~> Eol.
Definition upperStartPattern : regex := Bol ~> Cls false [Rg "A" "Z"].
Definition lowerStartPattern : regex := Bol ~> Cls false [Rg "a" "z"].

(** /(?:on\w+|@\w+)=[DQ'{][^DQ'{}]*$/ *)
Definition handlerPattern : regex :=
  ((Lit "on" ~> Plus word) </> (Chr "@" ~> Plus word)) ~> Chr "=" ~>
  Cls false [Ch Js.dq; Ch "'"; Ch "{"] ~>
  Star (Cls true [Ch Js.dq; Ch "'"; Ch "{"; Ch "}"]) ~> Eol.

Definition scriptCompletions (ctx : PositionContext) (routerEnabled : bool)
  (functions : list FunctionInfo) (states : list (string * string))
  (lineBefore : string) : list CompletionItem :=
  if inScript ctx then
    lifecycleTier (currentWord ctx) ++
    (if routerEnabled then routerHookTier (currentWord ctx) else []) ++
    scriptFunctionTier (currentWord ctx) functions ++
    scriptStateTier (currentWord ctx) states ++
    (if test false fromPathPattern lineBefore || test false importPathPattern lineBefore
     then importPathTier else [])
  else [].

Definition expressionCompletions (ctx : PositionContext) (routerEnabled : bool)
  (functions : list FunctionInfo) (states : list (string * string))
  (loopVariables : list string) : list CompletionItem :=
  if inExpression ctx then
    expressionStateTier states ++ expressionFunctionTier functions ++
    loopVariableTier loopVariables ++ (if routerEnabled then routeFieldTier else [])
  else [].

Definition templateCompletions (ctx : PositionContext) (routerEnabled : bool)
  (graph : option Project.ProjectGraph) (lineBefore : string) : list CompletionItem :=
  if inTemplate ctx && negb (inExpression ctx) && negb (inAttributeValue ctx) then
    let isAfterOpenBracket := test false openBracketPattern lineBefore in
    let isTypingTag := (0 <? String.length (currentWord ctx))%nat && negb (inTag ctx) in
    (match graph with
     | Some g =>
         if isAfterOpenBracket ||
            (isTypingTag && test false upperStartPattern (currentWord ctx))
         then layoutTier (currentWord ctx) g ++ componentTier (currentWord ctx) g
         else []
     | None => []
     end) ++
    zenLinkTier (currentWord ctx) routerEnabled isAfterOpenBracket isTypingTag ++
    (if isAfterOpenBracket || (isTypingTag && test false lowerStartPattern (currentWord ctx))
     then htmlElementTier (currentWord ctx) else [])
  else [].

Definition elementTypeOf (tag : string) : DirectiveMetadata.ElementType :=
  if String.eqb tag "slot" then DirectiveMetadata.Slot
  else if test false upperStartPattern tag then DirectiveMetadata.Component
  else DirectiveMetadata.Element.

Definition tagCompletions (ctx : PositionContext) (routerEnabled : bool)
  (graph : option Project.ProjectGraph) : list CompletionItem :=
  match tagName ctx with
  | Some tag =>
      if inTag ctx && Js.truthy tag && negb (inAttributeValue ctx) then
        directiveTier (currentWord ctx) (elementTypeOf tag) ++
        (if afterAt ctx || Js.startsWith (currentWord ctx) "@" then atEventTier else []) ++
        (if afterColon ctx || Js.startsWith (currentWord ctx) ":" then bindingTier else []) ++
        (if test false upperStartPattern tag then
           match graph with
           | Some g => componentPropTier tag g
           | None => []
           end
         else []) ++
        (if routerEnabled && String.eqb tag "ZenLink"
         then zenLinkPropTier (currentWord ctx) else []) ++
        onEventTier (currentWord ctx) ++
        htmlAttributeTier (currentWord ctx)
      else []
  | None => []
  end.

Definition attributeValueCompletions (ctx : PositionContext)
  (functions : list FunctionInfo) (lineBefore : string) : list CompletionItem :=
  if inAttributeValue ctx then
    if test false handlerPattern lineBefore then handlerFunctionTier functions else []
  else [].

(** The completion handler; [offset] is [document.offsetAt(params.position)]
    and [documents] maps a URI to the text of the open document.  The
    result is [None] when the handler throws, which it does when
    [getProjectGraph] throws. *)
Definition onCompletion (documents : gmap string string)
  (projectGraphs : gmap string Project.ProjectGraph) (uri : string) (offset : Z)
  : option (list CompletionItem) * gmap string Project.ProjectGraph :=
  match documents !! uri with
  | None => (Some [], projectGraphs)
  | Some text =>
      let ctx := getPositionContext text offset in
      let gc := getProjectGraph projectGraphs uri in
      match fst gc with
      | None => (None, snd gc)
      | Some graph =>
          let script := getScriptContent text in
          let states := extractStates script in
          let functions := extractFunctions script in
          let imports := Imports.parseZenithImports script in
          let routerEnabled := Imports.hasRouterImport imports in
          let loopVariables := extractLoopVariables text in
          let lineStart := (Js.lastIndexOfUpTo text Js.NL (offset - 1) + 1)%Z in
          let lineBefore := Js.substring text lineStart offset in
          (Some
             (scriptCompletions ctx routerEnabled functions states lineBefore ++
              expressionCompletions ctx routerEnabled functions states loopVariables ++
              templateCompletions ctx routerEnabled graph lineBefore ++
              tagCompletions ctx routerEnabled graph ++
              attributeValueCompletions ctx functions lineBefore),
           snd gc)
      end
  end.

(** *** Hover *)

(** What a hover is built from: the source that matched and its data (the
    markdown text is a rendering of these). *)
Inductive Hover : Type :=
| DirectiveHover (d : JsObject.property DirectiveMetadata.DirectiveInfo)
| RouterHookHover (h : JsObject.property Router.RouterHookMetadata)
| LifecycleHover (h : LifecycleHook)
| ZenLinkHover
| StateHover (word value : string)
| FunctionHover (f : FunctionInfo)
| ImportHover (word : string) (owner : Imports.Kind) (moduleName : string)
              (e : CoreImports.ModuleExport)
| ComponentHover (c : Project.ComponentInfo)
| HtmlHover (tag : string).

(** /[a-zA-Z0-9_$:@-]*$/ and /^[a-zA-Z0-9_$:-]*/ *)
Definition wordBeforePattern : regex :=
  Star (Cls false [Rg "a" "z"; Rg "A" "Z"; Rg "0" "9"; Ch "_"; Ch "$"; Ch ":"; Ch "@"; Ch "-"]) ~>
  Eol.
Definition wordAfterPattern : regex :=
  Bol ~> Star (Cls false [Rg "a" "z"; Rg "A" "Z"; Rg "0" "9"; Ch "_"; Ch "$"; Ch ":"; Ch "-"]).

Definition matchedText (o : option result) : string :=
  match o with Some mt => whole mt | None => "" end.

Definition wordAt (text : string) (offset : Z) : string :=
  let before := Js.substring text 0 offset in
  let after := Js.substringFrom text offset in
  matchedText (exec false wordBeforePattern before) +:+
  matchedText (exec false wordAfterPattern after).

(** The loop over the imports: the outer [None] is a TypeError passed on
    from [resolveExport]. *)
Fixpoint importHover (imports : list Imports.ParsedImport) (word : string)
  : option (option Hover) :=
  match imports with
  | [] => Some None
  | imp :: more =>
      if Js.arrayIncludes (Imports.specifiers imp) word then
        exportMeta ← Imports.resolveExport (Imports.module imp) word;
        match exportMeta with
        | Some e =>
            Some (Some (ImportHover word
                          (Imports.kind (Imports.resolveModule (Imports.module imp)))
                          (Imports.module imp) e))
        | None => importHover more word
        end
      else importHover more word
  end.

(** The hover handler: the result ([None] when the handler throws, else the
    hover or [null]) and the cache after the call.  It throws when
    [resolveExport] throws in the loop over the imports, and when
    [getProjectGraph] throws at the component step. *)
Definition onHover (documents : gmap string string)
  (projectGraphs : gmap string Project.ProjectGraph) (uri : string) (offset : Z)
  : option (option Hover) * gmap string Project.ProjectGraph :=
  match documents !! uri with
  | None => (Some None, projectGraphs)
  | Some text =>
      let word := wordAt text offset in
      if negb (Js.truthy word) then (Some None, projectGraphs)
      else if DirectiveMetadata.isDirective word &&
              JsObject.truthy (DirectiveMetadata.getDirective word)
      then (Some (Some (DirectiveHover (DirectiveMetadata.getDirective word))), projectGraphs)
      else if Router.isRouterHook word && JsObject.truthy (Router.getRouterHook word)
      then (Some (Some (RouterHookHover (Router.getRouterHook word))), projectGraphs)
      else
        match List.find (fun h => String.eqb (hookName h) word) LIFECYCLE_HOOKS with
        | Some hook => (Some (Some (LifecycleHover hook)), projectGraphs)
        | None =>
            if String.eqb word "ZenLink" &&
               Imports.hasRouterImport (Imports.parseZenithImports (getScriptContent text))
            then (Some (Some ZenLinkHover), projectGraphs)
            else
              let script := getScriptContent text in
              let states := extractStates script in
              match JsMap.get word states with
              | Some value => (Some (Some (StateHover word value)), projectGraphs)
              | None =>
                  let functions := extractFunctions script in
                  match List.find (fun f => String.eqb (name f) word) functions with
                  | Some func => (Some (Some (FunctionHover func)), projectGraphs)
                  | None =>
                      match importHover (Imports.parseZenithImports script) word with
                      | None => (None, projectGraphs)
                      | Some (Some h) => (Some (Some h), projectGraphs)
                      | Some None =>
                          let gc := getProjectGraph projectGraphs uri in
                          match fst gc with
                          | None => (None, snd gc)
                          | Some graph =>
                              match
                                match graph with
                                | Some g => Project.resolveComponent g word
                                | None => None
                                end
                              with
                              | Some component =>
                                  (Some (Some (ComponentHover component)), snd gc)
                              | None =>
                                  match
                                    List.find (fun e => String.eqb e word) HTML_ELEMENTS
                                  with
                                  | Some htmlEl => (Some (Some (HtmlHover htmlEl)), snd gc)
                                  | None => (Some None, snd gc)
                                  end
                              end
                          end
                      end
                  end
              end
        end
  end.

(** *** Validation *)

(** The RegExp constructor of the host, as in the import check. *)
Variable newRegExp : string -> option (string -> option (nat * string)).

(** [validateDocument]: the findings sent for the document and the cache
    after the call.  The findings are [None] when [getProjectGraph] or the
    engine throws: the promise of this [async] function is then rejected
    and nothing is sent. *)
Definition validateDocument (projectGraphs : gmap string Project.ProjectGraph)
  (uri text : string)
  : option (list Diagnostics.Diagnostic) * gmap string Project.ProjectGraph :=
  let gc := getProjectGraph projectGraphs uri in
  match fst gc with
  | None => (None, snd gc)
  | Some graph => (Diagnostics.collectDiagnostics newRegExp text graph, snd gc)
  end.

(** The loop over [documents.all()]: the open documents, uri and text, in
    the order of the document manager.  A call that throws rejects its own
    promise and the loop goes on. *)
Fixpoint validateAll (docs : list (string * string))
  (projectGraphs : gmap string Project.ProjectGraph)
  : list (string * option (list Diagnostics.Diagnostic)) *
    gmap string Project.ProjectGraph :=
  match docs with
  | [] => ([], projectGraphs)
  | (uri, text) :: more =>
      let r := validateDocument projectGraphs uri text in
      let rs := validateAll more (snd r) in
      ((uri, fst r) :: fst rs, snd rs)
  end.

(** The handler of a change of watched files: every changed URI
    invalidates the graph of its root, then every open document is
    validated again. *)
Definition onDidChangeWatchedFiles (changes : list string)
  (docs : list (string * string))
  (projectGraphs : gmap string Project.ProjectGraph)
  : list (string * option (list Diagnostics.Diagnostic)) *
    gmap string Project.ProjectGraph :=
  validateAll docs (List.fold_left invalidateProjectGraph changes projectGraphs).

End FileSystem.

End Server.

(** ** The RegExp constructor on a pattern text

    A reader for the pattern syntax of the host without flags: literal
    characters, [.], character classes with ranges, the escapes for
    classes, boundaries and control characters, [\0], the hexadecimal and
    the four-digit escapes, [\c] with a control letter, the identity
    escapes, groups, lookaheads (which take a quantifier), alternation,
    and the quantifiers [*], [+], [?] and the braces, with their lazy
    forms; a brace that opens no quantifier, a [}] and a []] outside a
    class are characters of their own.  The subjects are texts of
    one-byte characters: an escape for a code above 255 matches no
    character of them.  [None] is the SyntaxError of the host: a
    quantifier with nothing to repeat, bounds out of order, a range out of
    order, an unbalanced parenthesis or bracket, a backslash at the end.
    Not read, and refused with [None] although the host accepts them: the
    decimal escapes other than [\0] (back references and octal escapes)
    and the groups that begin with [(?<] (named groups and look-behind);
    [covers] tells the pattern texts without them. *)

Module RegExpSyntax.
Import Re.

Definition isLetter (c : ascii) : bool :=
  let n := Js.code c in
  ((65 <=? n) && (n <=? 90) || (97 <=? n) && (n <=? 122))%N.

Definition hexValue (c : ascii) : option N :=
  let n := Js.code c in
  if ((48 <=? n) && (n <=? 57))%N then Some (n - 48)%N
  else if ((65 <=? n) && (n <=? 70))%N then Some (n - 55)%N
  else if ((97 <=? n) && (n <=? 102))%N then Some (n - 87)%N
  else None.

(** What an escape or a member of a class stands for: the character with
    a code (a code above 255 is no character of a subject), a class, or,
    for [\c] without a control letter behind it, the backslash itself,
    after which the [c] is read again. *)
Inductive escape : Type :=
| EChar (n : N)
| EClass (it : item)
| EBackslash.

Definition classEscape (e : ascii) : option item :=
  if Ascii.eqb e "d" then Some Dg
  else if Ascii.eqb e "D" then Some NDg
  else if Ascii.eqb e "s" then Some Sp
  else if Ascii.eqb e "S" then Some NSp
  else if Ascii.eqb e "w" then Some Wd
  else if Ascii.eqb e "W" then Some NWd
  else None.

Definition controlEscape (e : ascii) : option N :=
  if Ascii.eqb e "n" then Some 10%N
  else if Ascii.eqb e "t" then Some 9%N
  else if Ascii.eqb e "r" then Some 13%N
  else if Ascii.eqb e "f" then Some 12%N
  else if Ascii.eqb e "v" then Some 11%N
  else None.

(** The escape whose text behind the backslash is [s], and the text that
    remains.  [None]: a backslash at the end of the text, or a decimal
    escape other than [\0], which this reader does not read. *)
Definition readEscape (inClass : bool) (s : string) : option (escape * string) :=
  match s with
  | EmptyString => None
  | String e t =>
      match classEscape e with
      | Some it => Some (EClass it, t)
      | None =>
          match controlEscape e with
          | Some n => Some (EChar n, t)
          | None =>
              if Ascii.eqb e "c" then
                match t with
                | String l t' =>
                    if isLetter l || (inClass && (Js.isDigit l || Ascii.eqb l "_"))
                    then Some (EChar (Js.code l mod 32)%N, t')
                    else Some (EBackslash, s)
                | EmptyString => Some (EBackslash, s)
                end
              else if Ascii.eqb e "0" then
                match t with
                | String d _ => if Js.isDigit d then None else Some (EChar 0%N, t)
                | EmptyString => Some (EChar 0%N, t)
                end
              else if Js.isDigit e then None
              else if Ascii.eqb e "x" then
                match t with
                | String h1 (String h2 t') =>
                    match hexValue h1, hexValue h2 with
                    | Some a, Some b => Some (EChar (16 * a + b)%N, t')
                    | _, _ => Some (EChar (Js.code e), t)
                    end
                | _ => Some (EChar (Js.code e), t)
                end
              else if Ascii.eqb e "u" then
                match t with
                | String h1 (String h2 (String h3 (String h4 t'))) =>
                    match hexValue h1, hexValue h2, hexValue h3, hexValue h4 with
                    | Some a, Some b, Some c, Some d =>
                        Some (EChar (4096 * a + 256 * b + 16 * c + d)%N, t')
                    | _, _, _, _ => Some (EChar (Js.code e), t)
                    end
                | _ => Some (EChar (Js.code e), t)
                end
              else if inClass && Ascii.eqb e "b" then Some (EChar 8%N, t)
              else Some (EChar (Js.code e), t)
          end
      end
  end.

(** The pattern that matches the one character with code [n]. *)
Definition charOf (n : N) : regex :=
  if (n <? 256)%N then Chr (ascii_of_N n) else Cls false [].

(** One member of a class, or one end of a range. *)
Definition classAtom (s : string) : option (escape * string) :=
  match s with
  | EmptyString => None
  | String c t =>
      if Ascii.eqb c "\" then
        match readEscape true t with
        | Some (EBackslash, rest) => Some (EChar (Js.code c), rest)
        | other => other
        end
      else Some (EChar (Js.code c), t)
  end.

Definition itemsOf (a : escape) : list item :=
  match a with
  | EChar n => if (n <? 256)%N then [Ch (ascii_of_N n)] else []
  | EClass it => [it]
  | EBackslash => []
  end.

(** The members of a class, up to the closing bracket.  A range whose
    ends are out of order is a SyntaxError; a class escape at an end of a
    range makes the two ends and the [-] three members. *)
Fixpoint classItems (fuel : nat) (s : string) (acc : list item)
  : option (list item * string) :=
  match fuel with
  | O => None
  | S fuel' =>
      match s with
      | EmptyString => None
      | String c _ =>
          if Ascii.eqb c "]" then Some (List.rev acc, Js.drop 1 s)
          else
            match classAtom s with
            | None => None
            | Some (a, rest) =>
                match rest with
                | String "-" (String d rest2) =>
                    if Ascii.eqb d "]" then classItems fuel' rest (itemsOf a ++ acc)
                    else
                      match classAtom (String d rest2) with
                      | None => None
                      | Some (b, rest3) =>
                          match a, b with
                          | EChar lo, EChar hi =>
                              if (hi <? lo)%N then None
                              else if (lo <? 256)%N then
                                classItems fuel' rest3
                                  (Rg (ascii_of_N lo) (ascii_of_N (N.min hi 255)) :: acc)
                              else classItems fuel' rest3 acc
                          | _, _ =>
                              classItems fuel' rest3 (itemsOf b ++ Ch "-" :: itemsOf a ++ acc)
                          end
                      end
                | _ => classItems fuel' rest (itemsOf a ++ acc)
                end
            end
      end
  end.

(** Decimal digits at the start of a text: their number, if there is at
    least one digit, and the text behind them. *)
Fixpoint digits (s : string) (acc : option nat) : option nat * string :=
  match s with
  | String d t =>
      if Js.isDigit d
      then digits t (Some (10 * default 0 acc + N.to_nat (Js.code d - 48)))
      else (acc, s)
  | EmptyString => (acc, s)
  end.

(** What stands at the start of a text where a quantifier may stand: no
    quantifier (a brace that opens no quantifier is a character of its
    own), a quantifier whose bounds are out of order, or a quantifier with
    its bounds, its greediness and the text behind it. *)
Inductive quantifier : Type :=
| NoQuantifier
| OutOfOrder
| Quantifier (mn : nat) (mx : option nat) (greedy : bool) (rest : string).

Definition lazyMark (mn : nat) (mx : option nat) (t : string) : quantifier :=
  match t with
  | String l t' => if Ascii.eqb l "?" then Quantifier mn mx false t' else Quantifier mn mx true t
  | EmptyString => Quantifier mn mx true t
  end.

Definition quantifierAt (s : string) : quantifier :=
  match s with
  | String q t =>
      if Ascii.eqb q "*" then lazyMark 0 None t
      else if Ascii.eqb q "+" then lazyMark 1 None t
      else if Ascii.eqb q "?" then lazyMark 0 (Some 1) t
      else if Ascii.eqb q "{" then
        match digits t None with
        | (Some mn, String c t1) =>
            if Ascii.eqb c "}" then lazyMark mn (Some mn) t1
            else if Ascii.eqb c "," then
              match digits t1 None with
              | (None, String c2 t2) =>
                  if Ascii.eqb c2 "}" then lazyMark mn None t2 else NoQuantifier
              | (Some mx, String c2 t2) =>
                  if Ascii.eqb c2 "}"
                  then if (mx <? mn)%nat then OutOfOrder else lazyMark mn (Some mx) t2
                  else NoQuantifier
              | _ => NoQuantifier
              end
            else NoQuantifier
        | _ => NoQuantifier
        end
      else NoQuantifier
  | EmptyString => NoQuantifier
  end.

(** The quantifier, if any, that follows an atom; a second quantifier
    behind it has nothing to repeat. *)
Definition quantified (atom : regex) (s : string) : option (regex * string) :=
  match quantifierAt s with
  | NoQuantifier => Some (atom, s)
  | OutOfOrder => None
  | Quantifier mn mx greedy rest =>
      match quantifierAt rest with
      | NoQuantifier => Some (Rep atom mn mx greedy, rest)
      | _ => None
      end
  end.

(** A boundary or an anchor takes no quantifier. *)
Definition unquantified (a : regex) (s : string) : option (regex * string) :=
  match quantifierAt s with
  | NoQuantifier => Some (a, s)
  | _ => None
  end.

Definition cat (a b : regex) : regex :=
  match b with Eps => a | _ => Cat a b end.

Definition alt (a : regex) (o : option regex) : regex :=
  match o with Some b => Alt a b | None => a end.

(** A disjunction, read up to the end of the text or to a closing
    parenthesis (which is left in place): the first alternative, the
    other alternatives, the text that remains and the number of the next
    capturing group. *)
Fixpoint disjunction (fuel : nat) (s : string) (n : nat)
  : option (regex * option regex * string * nat) :=
  match fuel with
  | O => None
  | S fuel' =>
      let continue (term : option (regex * string)) (n' : nat) :=
        match term with
        | None => None
        | Some (a, rest) =>
            match disjunction fuel' rest n' with
            | Some (b, o, rest', n'') => Some (cat a b, o, rest', n'')
            | None => None
            end
        end in
      let atGroup (inner : string) (n' : nat) (wrap : regex -> regex) :=
        match disjunction fuel' inner n' with
        | Some (a, o, String c rest, n'') =>
            if Ascii.eqb c ")" then continue (quantified (wrap (alt a o)) rest) n''
            else None
        | _ => None
        end in
      match s with
      | EmptyString => Some (Eps, None, s, n)
      | String c t =>
          if Ascii.eqb c ")" then Some (Eps, None, s, n)
          else if Ascii.eqb c "|" then
            match disjunction fuel' t n with
            | Some (b, o, rest, n') => Some (Eps, Some (alt b o), rest, n')
            | None => None
            end
          else if Ascii.eqb c "(" then
            match t with
            | String "?" (String ":" inner) => atGroup inner n (fun r => r)
            | String "?" (String "=" inner) => atGroup inner n (Ahead false)
            | String "?" (String "!" inner) => atGroup inner n (Ahead true)
            | String "?" _ => None
            | _ => atGroup t (S n) (Grp n)
            end
          else if Ascii.eqb c "[" then
            match t with
            | String "^" t' =>
                match classItems (S (String.length t')) t' [] with
                | Some (items, rest) => continue (quantified (Cls true items) rest) n
                | None => None
                end
            | _ =>
                match classItems (S (String.length t)) t [] with
                | Some (items, rest) => continue (quantified (Cls false items) rest) n
                | None => None
                end
            end
          else if Ascii.eqb c "\" then
            match t with
            | String "b" t' => continue (unquantified (Wordb false) t') n
            | String "B" t' => continue (unquantified (Wordb true) t') n
            | _ =>
                match readEscape false t with
                | Some (EChar a, rest) => continue (quantified (charOf a) rest) n
                | Some (EClass it, rest) => continue (quantified (Cls false [it]) rest) n
                | Some (EBackslash, rest) => continue (quantified (Chr c) rest) n
                | None => None
                end
            end
          else if Ascii.eqb c "." then continue (quantified Dot t) n
          else if Ascii.eqb c "^" then continue (unquantified Bol t) n
          else if Ascii.eqb c "$" then continue (unquantified Eol t) n
          else
            match quantifierAt s with
            | NoQuantifier => continue (quantified (Chr c) t) n
            | _ => None
            end
      end
  end.

Definition parse (source : string) : option regex :=
  match disjunction (S (String.length source)) source 1 with
  | Some (a, o, EmptyString, _) => Some (alt a o)
  | _ => None
  end.

(** The pattern texts on which the reader stands for the constructor:
    those without a decimal escape other than [\0] and without [(?<].
    [escaped]: the character is the one behind a backslash. *)
Fixpoint coversFrom (escaped : bool) (s : string) : bool :=
  match s with
  | EmptyString => true
  | String c t =>
      if escaped then
        if Js.isDigit c then
          Ascii.eqb c "0" &&
          match t with String d _ => negb (Js.isDigit d) | EmptyString => true end &&
          coversFrom false t
        else coversFrom false t
      else if Ascii.eqb c "\" then coversFrom true t
      else if Ascii.eqb c "(" then
        match t with
        | String "?" (String "<" _) => false
        | _ => coversFrom false t
        end
      else coversFrom false t
  end.

Definition covers (source : string) : bool := coversFrom false source.

(** [new RegExp(source)] without flags, as the search of a subject; [None]
    where the reader refuses the text. *)
Definition RegExp (source : string) : option (string -> option (nat * string)) :=
  option_map
    (fun r subj => option_map (fun res => (index res, whole res)) (exec false r subj))
    (parse source).

End RegExpSyntax.

(** * Properties *)

(** ** Texts: append, take and drop *)

Module StrFacts.

Lemma app_cons (a : ascii) (t s : string) : String a t +:+ s = String a (t +:+ s).
Proof. reflexivity. Qed.

Lemma app_nil_l (s : string) : "" +:+ s = s.
Proof. reflexivity. Qed.

Ltac norm := cbn in *; rewrite ?app_cons, ?app_nil_l in *; cbn in *.

Lemma app_nil_r (s : string) : s +:+ "" = s.
Proof. induction s as [|a t IH]; norm; [reflexivity | now rewrite IH]. Qed.

Lemma app_assoc (a b c : string) : (a +:+ b) +:+ c = a +:+ (b +:+ c).
Proof. induction a as [|x a IH]; norm; [reflexivity | now rewrite IH]. Qed.

Lemma length_app (a b : string) :
  String.length (a +:+ b) = String.length a + String.length b.
Proof. induction a as [|x a IH]; norm; [reflexivity | now rewrite IH]. Qed.

Lemma drop_0 (s : string) : Js.drop 0 s = s.
Proof. now destruct s. Qed.

Lemma drop_app (a b : string) : Js.drop (String.length a) (a +:+ b) = b.
Proof. induction a as [|x a IH]; norm; [apply drop_0 | exact IH]. Qed.

Lemma take_app (a b : string) : Js.take (String.length a) (a +:+ b) = a.
Proof. induction a as [|x a IH]; norm; [reflexivity | now rewrite IH]. Qed.

Lemma drop_add (n k : nat) (s : string) : Js.drop (n + k) s = Js.drop k (Js.drop n s).
Proof.
  revert s. induction n as [|n IH]; intros s; cbn [Nat.add].
  - now rewrite drop_0.
  - destruct s as [|a t]; cbn [Js.drop]; [now destruct k | apply IH].
Qed.

Lemma take_drop (n : nat) (s : string) : Js.take n s +:+ Js.drop n s = s.
Proof.
  revert s. induction n as [|n IH]; intros s; [now destruct s|].
  destruct s as [|a t]; norm; [reflexivity | now rewrite IH].
Qed.

Lemma length_take (n : nat) (s : string) :
  n <= String.length s -> String.length (Js.take n s) = n.
Proof.
  revert s. induction n as [|n IH]; intros s H; [reflexivity|].
  destruct s as [|a t]; cbn in *; [lia | rewrite IH; lia].
Qed.

Lemma startsWith_app (w s : string) : Js.startsWith (w +:+ s) w = true.
Proof.
  induction w as [|a w IH]; norm; [now destruct s|].
  now rewrite Ascii.eqb_refl, IH.
Qed.

Lemma startsWith_split (s w : string) :
  Js.startsWith s w = true -> s = w +:+ Js.drop (String.length w) s.
Proof.
  revert s. induction w as [|b w IH]; intros s H; [now rewrite drop_0|].
  destruct s as [|a t]; [discriminate|]. cbn in H.
  apply andb_prop in H. destruct H as [Hab Ht].
  apply Ascii.eqb_eq in Hab. subst. rewrite app_cons. cbn. f_equal. apply IH, Ht.
Qed.

(** All the characters of a text satisfy [p]. *)
Fixpoint allb (p : ascii -> bool) (w : string) : bool :=
  match w with
  | EmptyString => true
  | String a t => p a && allb p t
  end.

(** The text is at its end or goes on with a character that [p] refuses. *)
Definition stops (p : ascii -> bool) (s : string) : bool :=
  match s with
  | EmptyString => true
  | String c _ => negb (p c)
  end.

(** The last character of [w], or [pv] when [w] is empty. *)
Fixpoint lastOr (pv : option ascii) (w : string) : option ascii :=
  match w with
  | EmptyString => pv
  | String a t => lastOr (Some a) t
  end.

Lemma lastOr_app (pv : option ascii) (a b : string) :
  lastOr pv (a +:+ b) = lastOr (lastOr pv a) b.
Proof. revert pv. induction a as [|x a IH]; intros pv; norm; [reflexivity | apply IH]. Qed.

Lemma allb_app p (a b : string) : allb p (a +:+ b) = allb p a && allb p b.
Proof.
  induction a as [|x a IH]; norm; [reflexivity|].
  rewrite IH. now rewrite andb_assoc.
Qed.

(** Two ways of cutting one text in two. *)
Lemma app_split (a b c d : string) :
  a +:+ b = c +:+ d -> String.length a <= String.length c ->
  exists w, c = a +:+ w /\ b = w +:+ d.
Proof.
  revert c. induction a as [|x a IH]; intros c E L.
  - exists c. now rewrite !app_nil_l in *.
  - destruct c as [|z c]; [cbn in L; lia|].
    rewrite !app_cons in E. injection E as <- E.
    destruct (IH c E) as (w & -> & ->); [cbn in L; lia|].
    exists w. now rewrite app_cons.
Qed.

(** A fact about one character, settled on each of the 256 characters. *)
Ltac all_chars c :=
  destruct c as [[] [] [] [] [] [] [] []]; vm_compute; intros;
  first [reflexivity | discriminate | tauto].

End StrFacts.

(** ** How the matcher runs on the shapes of pattern the sources use *)

Module ReFacts.
Import Re.

Lemma clearCaps_nil x : clearCaps [] x = x.
Proof.
  destruct x as [p s i cs]. unfold clearCaps. simpl. f_equal.
  induction cs as [|c cs IH]; simpl; [reflexivity | now rewrite IH].
Qed.

(** The characters of [\s]. *)
Definition spaceB : ascii -> bool := classMatches false false [Sp].

(** A greedy star over one-character atoms, written as a recursion on the
    text: after the longest run of characters that satisfy [p], the
    continuation is tried at the end of the run first, then one character
    back, and so on. *)
Fixpoint starK (p : ascii -> bool) (k : state -> option state)
  (pv : option ascii) (s : string) (i : nat) (cs : list (nat * (nat * nat)))
  : option state :=
  match s with
  | String a t =>
      if p a then orElse (starK p k (Some a) t (S i) cs) (k (mkState pv s i cs))
      else k (mkState pv s i cs)
  | EmptyString => k (mkState pv s i cs)
  end.

Lemma m_cls ic neg items x k :
  m ic (Cls neg items) x k
  = match rest x with
    | String a t => if classMatches ic neg items a then k (advance x a t) else None
    | EmptyString => None
    end.
Proof. reflexivity. Qed.

Lemma repLoop_star_cls ic neg items k s :
  forall fuel pv i cs,
    String.length s < fuel ->
    repLoop (m ic (Cls neg items)) [] true k fuel 0 None (mkState pv s i cs)
    = starK (classMatches ic neg items) k pv s i cs.
Proof.
  induction s as [|a t IH]; intros fuel pv i cs Hf;
    (destruct fuel as [|fuel]; [simpl in Hf; lia|]);
    cbn [repLoop Nat.eqb negb andb]; rewrite clearCaps_nil, m_cls; cbn [rest starK].
  - reflexivity.
  - destruct (classMatches ic neg items a); [|reflexivity].
    unfold advance. cbn [pos caps Nat.pred option_map].
    replace (S i =? i)%nat with false by (symmetry; apply Nat.eqb_neq; lia).
    rewrite IH by (simpl in Hf; lia).
    unfold orElse. destruct (starK _ _ _ _ _ _); reflexivity.
Qed.

Lemma m_rep ic r mn mx g x k :
  m ic (Rep r mn mx g) x k
  = repLoop (m ic r) (groups r) g k (S (S (mn + String.length (rest x)))) mn mx x.
Proof. reflexivity. Qed.

Lemma repLoop_plus mr gs k fuel x :
  repLoop mr gs true k (S fuel) 1 None x
  = mr (clearCaps gs x) (fun y => repLoop mr gs true k fuel 0 None y).
Proof. reflexivity. Qed.

Lemma m_star_cls ic neg items k pv s i cs :
  m ic (Star (Cls neg items)) (mkState pv s i cs) k
  = starK (classMatches ic neg items) k pv s i cs.
Proof.
  unfold Star. rewrite m_rep. cbn [groups rest]. apply repLoop_star_cls. lia.
Qed.

Lemma m_plus_cls ic neg items k pv s i cs :
  m ic (Plus (Cls neg items)) (mkState pv s i cs) k
  = match s with
    | String a t =>
        if classMatches ic neg items a
        then starK (classMatches ic neg items) k (Some a) t (S i) cs
        else None
    | EmptyString => None
    end.
Proof.
  unfold Plus. rewrite m_rep, repLoop_plus. cbn [groups].
  rewrite clearCaps_nil, m_cls. cbn [rest].
  destruct s as [|a t]; [reflexivity|].
  destruct (classMatches ic neg items a); [|reflexivity].
  unfold advance. cbn [pos caps].
  apply repLoop_star_cls. simpl. lia.
Qed.

(** When the continuation fails wherever the star may stop, the star
    fails. *)
Lemma starK_none p k s :
  forall pv i cs,
    (forall pv' s' i', k (mkState pv' s' i' cs) = None) ->
    starK p k pv s i cs = None.
Proof.
  induction s as [|a t IH]; intros pv i cs Hk; simpl.
  - apply Hk.
  - destruct (p a); [|apply Hk]. rewrite IH by exact Hk. simpl. apply Hk.
Qed.


Lemma m_cat ic r1 r2 x k :
  m ic (Cat r1 r2) x k = m ic r1 x (fun y => m ic r2 y k).
Proof. reflexivity. Qed.

Lemma m_grp ic n r x k :
  m ic (Grp n r) x k = m ic r x (fun y => k (setCap n (pos x) (pos y) y)).
Proof. reflexivity. Qed.

Lemma m_chr ic c x k :
  m ic (Chr c) x k
  = match rest x with
    | String a t => if Ascii.eqb (canon ic a) (canon ic c) then k (advance x a t) else None
    | EmptyString => None
    end.
Proof. reflexivity. Qed.

Lemma m_bol ic x k :
  m ic Bol x k = if (pos x =? 0)%nat then k x else None.
Proof. reflexivity. Qed.





(** *** A star over one-character atoms, read as a split of the text *)

Import StrFacts.

(** The state after the characters of [w] have been consumed. *)
Definition after (pv : option ascii) (w s' : string) (i : nat)
  (cs : list (nat * (nat * nat))) : state :=
  mkState (lastOr pv w) s' (i + String.length w) cs.

(** Where the star stops, the text before is made of characters of [p]. *)
Lemma starK_sound p k s :
  forall pv i cs y,
    starK p k pv s i cs = Some y ->
    exists w s', s = w +:+ s' /\ allb p w = true /\ k (after pv w s' i cs) = Some y.
Proof.
  induction s as [|a t IH]; intros pv i cs y H; cbn [starK] in H.
  - exists "", "". unfold after. cbn. rewrite Nat.add_0_r. auto.
  - assert (Hhere : k (mkState pv (String a t) i cs) = Some y ->
              exists w s', String a t = w +:+ s' /\ allb p w = true /\
                           k (after pv w s' i cs) = Some y).
    { intros Hk. exists "", (String a t). unfold after. cbn. rewrite Nat.add_0_r. auto. }
    destruct (p a) eqn:Hp; [|auto].
    destruct (starK p k (Some a) t (S i) cs) as [z|] eqn:Ht; cbn [orElse] in H; [|auto].
    injection H as ->. apply IH in Ht. destruct Ht as (w & s' & -> & Hw & Hk).
    exists (String a w), s'. unfold after in *. rewrite app_cons. cbn. rewrite Hp, Hw.
    replace (i + S (String.length w)) with (S i + String.length w) by lia. auto.
Qed.

(** The star tries the end of the longest run first. *)
Lemma starK_at_max p k w :
  forall s' pv i cs y,
    allb p w = true -> stops p s' = true ->
    k (after pv w s' i cs) = Some y ->
    starK p k pv (w +:+ s') i cs = Some y.
Proof.
  induction w as [|a w IH]; intros s' pv i cs y Hw Hs Hk.
  - unfold after in Hk. cbn in Hk. rewrite Nat.add_0_r in Hk. rewrite app_nil_l.
    destruct s' as [|c t]; cbn [starK]; [exact Hk|].
    cbn in Hs. apply negb_true_iff in Hs. rewrite Hs. exact Hk.
  - cbn in Hw. apply andb_prop in Hw. destruct Hw as [Ha Hw].
    rewrite app_cons. cbn [starK]. rewrite Ha.
    rewrite (IH s' (Some a) (S i) cs y Hw Hs); [reflexivity|].
    unfold after in *. cbn in Hk.
    replace (S i + String.length w) with (i + S (String.length w)) by lia. exact Hk.
Qed.

(** With a continuation that always succeeds the star takes the longest
    run. *)
Lemma starK_greedy p (f : state -> state) s :
  forall pv i cs,
    exists w s', s = w +:+ s' /\ allb p w = true /\ stops p s' = true /\
      starK p (fun y => Some (f y)) pv s i cs = Some (f (after pv w s' i cs)).
Proof.
  induction s as [|a t IH]; intros pv i cs.
  - exists "", "". unfold after. cbn. rewrite Nat.add_0_r. auto.
  - cbn [starK]. destruct (p a) eqn:Hp.
    + destruct (IH (Some a) (S i) cs) as (w & s' & -> & Hw & Hs & Hk).
      exists (String a w), s'. rewrite Hk. unfold after. rewrite app_cons. cbn.
      rewrite Hp, Hw.
      replace (i + S (String.length w)) with (S i + String.length w) by lia. auto.
    + exists "", (String a t). unfold after. cbn. rewrite Hp, Nat.add_0_r. auto.
Qed.

Lemma length_take_cons (a : ascii) (n : nat) (t : string) :
  String.length (String a (Js.take n t)) = S (String.length (Js.take n t)).
Proof. reflexivity. Qed.

(** A literal word, with or without the [i] flag. *)
Fixpoint prefixOf (ic : bool) (s w : string) {struct w} : bool :=
  match w with
  | EmptyString => true
  | String b w' =>
      match s with
      | EmptyString => false
      | String a s' => Ascii.eqb (canon ic a) (canon ic b) && prefixOf ic s' w'
      end
  end.

Lemma prefixOf_app ic w s : prefixOf ic (w +:+ s) w = true.
Proof.
  induction w as [|a w IH]; [reflexivity|].
  rewrite app_cons. cbn. now rewrite Ascii.eqb_refl, IH.
Qed.

Lemma prefixOf_split ic s w :
  prefixOf ic s w = true ->
  s = Js.take (String.length w) s +:+ Js.drop (String.length w) s /\
  String.length (Js.take (String.length w) s) = String.length w.
Proof.
  revert s. induction w as [|b w IH]; intros s H; cbn in *.
  - split; reflexivity.
  - destruct s as [|a t]; [discriminate|].
    apply andb_prop in H. destruct H as [_ Ht]. destruct (IH t Ht) as [E L].
    rewrite app_cons. cbn. rewrite <- E, L. auto.
Qed.

Lemma m_lit ic w :
  forall pv s i cs k,
    m ic (Lit w) (mkState pv s i cs) k
    = if prefixOf ic s w
      then k (after pv (Js.take (String.length w) s) (Js.drop (String.length w) s) i cs)
      else None.
Proof.
  induction w as [|b w IH]; intros pv s i cs k.
  - unfold after. cbn. now rewrite Nat.add_0_r.
  - destruct w as [|b' w'].
    + cbn [Lit]. rewrite m_chr. cbn [rest prefixOf].
      destruct s as [|a t]; [reflexivity|].
      rewrite andb_true_r. destruct (Ascii.eqb _ _); [|reflexivity].
      unfold after, advance. cbn. now rewrite Nat.add_1_r.
    + change (Lit (String b (String b' w'))) with (Cat (Chr b) (Lit (String b' w'))).
      rewrite m_cat, m_chr. cbn [rest].
      destruct s as [|a t]; [reflexivity|].
      change (prefixOf ic (String a t) (String b (String b' w')))
        with (Ascii.eqb (canon ic a) (canon ic b) && prefixOf ic t (String b' w')).
      destruct (Ascii.eqb (canon ic a) (canon ic b)); [|reflexivity].
      unfold advance. cbn [pos caps andb]. rewrite IH.
      destruct (prefixOf ic t (String b' w')); [|reflexivity].
      f_equal. unfold after.
      change (String.length (String b (String b' w'))) with (S (String.length (String b' w'))).
      cbn [Js.take Js.drop lastOr].
      rewrite length_take_cons. f_equal. cbn [String.length]. lia.
Qed.


(** *** The leftmost match *)

(** [search] returns the first position, from the left, at which the
    pattern matches: the text splits there, the matcher succeeds there, and
    it fails at every earlier position. *)
Lemma search_spec ic r s :
  forall p i j y,
    search ic r p s i = Some (j, y) ->
    exists w s',
      s = w +:+ s' /\ j = i + String.length w /\
      m ic r (mkState (lastOr p w) s' j []) Some = Some y /\
      (forall w1 w2, w = w1 +:+ w2 -> w2 <> "" ->
         m ic r (mkState (lastOr p w1) (w2 +:+ s') (i + String.length w1) []) Some = None).
Proof.
  induction s as [|a t IH]; intros p i j y H; cbn [search] in H.
  - destruct (m ic r _ Some) as [z|] eqn:Hm; [|discriminate].
    injection H as <- <-. exists "", "". cbn. rewrite Nat.add_0_r.
    repeat split; [exact Hm|].
    intros w1 w2 E Hne. destruct w1; [|discriminate]. rewrite app_nil_l in E. congruence.
  - destruct (m ic r (mkState p (String a t) i []) Some) as [z|] eqn:Hm.
    + injection H as <- <-. exists "", (String a t). cbn. rewrite Nat.add_0_r.
      repeat split; [exact Hm|].
      intros w1 w2 E Hne. destruct w1; [|discriminate]. rewrite app_nil_l in E. congruence.
    + apply IH in H. destruct H as (w & s' & -> & -> & Hy & Hearly).
      exists (String a w), s'. rewrite app_cons. cbn [String.length lastOr].
      repeat split; [lia | now replace (i + S (String.length w)) with (S i + String.length w) by lia|].
      intros w1 w2 E Hne. destruct w1 as [|b w1].
      * rewrite app_nil_l in E. subst w2. cbn. rewrite Nat.add_0_r, app_cons. exact Hm.
      * rewrite app_cons in E. injection E as <- ->. cbn [String.length lastOr].
        replace (i + S (String.length w1)) with (S i + String.length w1) by lia.
        now apply Hearly.
Qed.

(** When the pattern matches at some position, [search] finds a match at
    that position or before it; at that position, it is that match. *)
Lemma search_first ic r w :
  forall s' p i y',
    m ic r (mkState (lastOr p w) s' (i + String.length w) []) Some = Some y' ->
    exists j y,
      search ic r p (w +:+ s') i = Some (j, y) /\
      (j < i + String.length w \/ (j = i + String.length w /\ y = y')).
Proof.
  induction w as [|a w IH]; intros s' p i y' Hm.
  - cbn in Hm. rewrite Nat.add_0_r in Hm. rewrite app_nil_l.
    exists i, y'. split; [|right; cbn; split; [lia | reflexivity]].
    destruct s' as [|c t]; cbn [search]; now rewrite Hm.
  - rewrite app_cons. cbn [search].
    destruct (m ic r (mkState p (String a (w +:+ s')) i []) Some) as [z|].
    + exists i, z. split; [reflexivity|]. left. cbn. lia.
    + cbn [String.length lastOr] in Hm.
      replace (i + S (String.length w)) with (S i + String.length w) in Hm by lia.
      destruct (IH s' (Some a) (S i) y' Hm) as (j & y & Hs & Hj).
      exists j, y. split; [exact Hs|]. cbn [String.length].
      destruct Hj as [Hj | [Hj Hy]]; [left; lia | right; split; [lia | exact Hy]].
Qed.


(** *** The quantifier loop never runs out of iterations

    A continuation is only ever called at a state further on in the same
    text; so the bound on the iterations of a quantifier that [m] starts
    with is never reached, and the matcher satisfies the equation that
    defines RepeatMatcher, in which no bound appears. *)

(** [y] is a state at or after [x] in the same text. *)
Definition onward (x y : state) : Prop :=
  String.length (rest y) <= String.length (rest x) /\
  pos y + String.length (rest y) = pos x + String.length (rest x).

Lemma onward_refl x : onward x x.
Proof. split; reflexivity. Qed.

Lemma onward_trans x y z : onward x y -> onward y z -> onward x z.
Proof. unfold onward. lia. Qed.

Lemma onward_advance x a t : rest x = String a t -> onward x (advance x a t).
Proof. unfold onward. intros ->. cbn. lia. Qed.

(** A matcher that calls its continuation only at states further on. *)
Definition local (mr : state -> (state -> option state) -> option state) : Prop :=
  forall x k k', (forall y, onward x y -> k y = k' y) -> mr x k = mr x k'.

Lemma repLoop_local mr gs greedy :
  local mr ->
  forall fuel mn mx, local (fun x k => repLoop mr gs greedy k fuel mn mx x).
Proof.
  intros Hmr. induction fuel as [|fuel IH]; intros mn mx x k k' Hk; [reflexivity|].
  cbn [repLoop].
  assert (Hx : k x = k' x) by (apply Hk, onward_refl).
  assert (Hd : mr (clearCaps gs x)
                 (fun y => if (mn =? 0)%nat && (pos y =? pos x)%nat then None
                           else repLoop mr gs greedy k fuel (Nat.pred mn) (option_map Nat.pred mx) y)
             = mr (clearCaps gs x)
                 (fun y => if (mn =? 0)%nat && (pos y =? pos x)%nat then None
                           else repLoop mr gs greedy k' fuel (Nat.pred mn) (option_map Nat.pred mx) y)).
  { apply Hmr. intros y Hy.
    destruct ((mn =? 0)%nat && (pos y =? pos x)%nat); [reflexivity|].
    apply IH. intros z Hz. apply Hk.
    apply onward_trans with y; [exact Hy | exact Hz]. }
  destruct mx as [[|mx]|]; [exact Hx | | ]; rewrite Hd, Hx; reflexivity.
Qed.

Lemma m_local ic r : local (m ic r).
Proof.
  induction r as [ | c | | neg items | r1 IH1 r2 IH2 | r1 IH1 r2 IH2
                 | r IH mn mx greedy | n r IH | | | neg | neg r IH];
    intros x k k' Hk; cbn [m].
  - apply Hk, onward_refl.
  - destruct (rest x) as [|a t] eqn:E; [reflexivity|].
    destruct (Ascii.eqb _ _); [|reflexivity]. apply Hk, onward_advance, E.
  - destruct (rest x) as [|a t] eqn:E; [reflexivity|].
    destruct (Js.isLineTerminator a); [reflexivity|]. apply Hk, onward_advance, E.
  - destruct (rest x) as [|a t] eqn:E; [reflexivity|].
    destruct (classMatches _ _ _ _); [|reflexivity]. apply Hk, onward_advance, E.
  - apply IH1. intros y Hy. apply IH2. intros z Hz. apply Hk.
    apply onward_trans with y; assumption.
  - rewrite (IH1 x k k' Hk), (IH2 x k k' Hk). reflexivity.
  - apply (repLoop_local _ (groups r) greedy IH). exact Hk.
  - apply IH. intros y Hy. apply Hk. exact Hy.
  - destruct (pos x =? 0)%nat; [apply Hk, onward_refl | reflexivity].
  - destruct (rest x); [apply Hk, onward_refl | reflexivity].
  - destruct (xorb _ _); [apply Hk, onward_refl | reflexivity].
  - destruct (m ic r x Some) as [y|]; destruct neg; try reflexivity;
      apply Hk; split; reflexivity.
Qed.

(** Two bounds above the iterations still possible give the same result. *)
Lemma repLoop_fuel mr gs greedy k :
  local mr ->
  forall f1 f2 mn mx x,
    mn + String.length (rest x) < f1 ->
    mn + String.length (rest x) < f2 ->
    repLoop mr gs greedy k f1 mn mx x = repLoop mr gs greedy k f2 mn mx x.
Proof.
  intros Hmr. induction f1 as [|f1 IH]; intros f2 mn mx x H1 H2; [lia|].
  destruct f2 as [|f2]; [lia|]. cbn [repLoop].
  assert (Hd : mr (clearCaps gs x)
                 (fun y => if (mn =? 0)%nat && (pos y =? pos x)%nat then None
                           else repLoop mr gs greedy k f1 (Nat.pred mn) (option_map Nat.pred mx) y)
             = mr (clearCaps gs x)
                 (fun y => if (mn =? 0)%nat && (pos y =? pos x)%nat then None
                           else repLoop mr gs greedy k f2 (Nat.pred mn) (option_map Nat.pred mx) y)).
  { apply Hmr. intros y [Hlen Hpos]. cbn [clearCaps rest pos] in Hlen, Hpos.
    destruct (mn =? 0)%nat eqn:Emn; cbn [andb].
    - apply Nat.eqb_eq in Emn. subst mn.
      destruct (pos y =? pos x)%nat eqn:Ep; [reflexivity|].
      apply Nat.eqb_neq in Ep. apply IH; cbn [Nat.pred]; lia.
    - apply Nat.eqb_neq in Emn. apply IH; lia. }
  destruct mx as [[|mx]|]; [reflexivity | | ]; rewrite Hd; reflexivity.
Qed.

(** The bound [m] starts a quantifier with is as good as any larger one. *)
Lemma m_rep_fuel ic r mn mx greedy x k fuel :
  mn + String.length (rest x) < fuel ->
  repLoop (m ic r) (groups r) greedy k fuel mn mx x = m ic (Rep r mn mx greedy) x k.
Proof.
  intros H. cbn [m]. apply repLoop_fuel; [apply m_local | exact H | lia].
Qed.

(** One turn of the loop. *)
Lemma repLoop_S mr gs greedy k fuel mn mx x :
  repLoop mr gs greedy k (S fuel) mn mx x =
  match mx with
  | Some O => k x
  | _ =>
      let d := fun y : state =>
        if (mn =? 0)%nat && (pos y =? pos x)%nat then None
        else repLoop mr gs greedy k fuel (Nat.pred mn) (option_map Nat.pred mx) y in
      let xr := clearCaps gs x in
      if negb (mn =? 0)%nat then mr xr d
      else if greedy then
        match mr xr d with Some z => Some z | None => k x end
      else
        match k x with Some z => Some z | None => mr xr d end
  end.
Proof. reflexivity. Qed.

(** RepeatMatcher, as the language defines it. *)
Lemma m_rep_unfold ic r mn mx greedy x k :
  m ic (Rep r mn mx greedy) x k =
  match mx with
  | Some O => k x
  | _ =>
      let d := fun y : state =>
        if (mn =? 0)%nat && (pos y =? pos x)%nat then None
        else m ic (Rep r (Nat.pred mn) (option_map Nat.pred mx) greedy) y k in
      let xr := clearCaps (groups r) x in
      if negb (mn =? 0)%nat then m ic r xr d
      else if greedy then
        match m ic r xr d with Some z => Some z | None => k x end
      else
        match k x with Some z => Some z | None => m ic r xr d end
  end.
Proof.
  change (m ic (Rep r mn mx greedy) x k)
    with (repLoop (m ic r) (groups r) greedy k
            (S (S (mn + String.length (rest x)))) mn mx x).
  rewrite repLoop_S.
  assert (Hd : m ic r (clearCaps (groups r) x)
                 (fun y => if (mn =? 0)%nat && (pos y =? pos x)%nat then None
                           else repLoop (m ic r) (groups r) greedy k
                                  (S (mn + String.length (rest x)))
                                  (Nat.pred mn) (option_map Nat.pred mx) y)
             = m ic r (clearCaps (groups r) x)
                 (fun y => if (mn =? 0)%nat && (pos y =? pos x)%nat then None
                           else repLoop (m ic r) (groups r) greedy k
                                  (S (S (Nat.pred mn + String.length (rest y))))
                                  (Nat.pred mn) (option_map Nat.pred mx) y)).
  { apply m_local. intros y [Hlen Hpos]. cbn [clearCaps rest pos] in Hlen, Hpos.
    destruct (mn =? 0)%nat eqn:Emn; cbn [andb].
    - apply Nat.eqb_eq in Emn. subst mn.
      destruct (pos y =? pos x)%nat eqn:Ep; [reflexivity|].
      apply Nat.eqb_neq in Ep.
      apply repLoop_fuel; [apply m_local | cbn [Nat.pred]; lia | lia].
    - apply Nat.eqb_neq in Emn.
      apply repLoop_fuel; [apply m_local | lia | lia]. }
  destruct mx as [[|mx]|]; [reflexivity | | ]; cbv zeta; rewrite Hd; reflexivity.
Qed.

(** *** What a match reads *)

(** [y] is reached from [x] by reading [w]. *)
Definition reads (x : state) (w : string) (y : state) : Prop :=
  rest x = w +:+ rest y /\
  pos y = pos x + String.length w /\
  prev y = lastOr (prev x) w.

Lemma reads_nil x y :
  rest y = rest x -> pos y = pos x -> prev y = prev x -> reads x "" y.
Proof.
  intros Hr Hp Hv. unfold reads. rewrite Hr, Hp, Hv. cbn.
  split; [reflexivity | split; [lia | reflexivity]].
Qed.

Lemma reads_advance x a t :
  rest x = String a t -> reads x (String a "") (advance x a t).
Proof.
  intros E. unfold reads. rewrite E. cbn.
  split; [reflexivity | split; [lia | reflexivity]].
Qed.

Lemma reads_trans x y z w1 w2 :
  reads x w1 y -> reads y w2 z -> reads x (w1 +:+ w2) z.
Proof.
  intros (Hr1 & Hp1 & Hv1) (Hr2 & Hp2 & Hv2). unfold reads.
  rewrite Hr1, Hr2, Hp2, Hp1, Hv2, Hv1, app_assoc, length_app, lastOr_app.
  split; [reflexivity | split; [lia | reflexivity]].
Qed.

(** A matcher whose success is the success of its continuation at a state
    reached by reading on. *)
Definition through (mr : state -> (state -> option state) -> option state) : Prop :=
  forall x k z, mr x k = Some z -> exists w y, reads x w y /\ k y = Some z.

Lemma repLoop_through mr gs greedy :
  through mr ->
  forall fuel mn mx, through (fun x k => repLoop mr gs greedy k fuel mn mx x).
Proof.
  intros Hmr. induction fuel as [|fuel IH]; intros mn mx x k z H; [discriminate|].
  rewrite repLoop_S in H.
  assert (Hk : k x = Some z -> exists w y, reads x w y /\ k y = Some z).
  { intros E. exists "", x. split; [now apply reads_nil | exact E]. }
  assert (Hd : mr (clearCaps gs x)
                 (fun y => if (mn =? 0)%nat && (pos y =? pos x)%nat then None
                           else repLoop mr gs greedy k fuel (Nat.pred mn)
                                  (option_map Nat.pred mx) y) = Some z ->
               exists w y, reads x w y /\ k y = Some z).
  { intros E. apply Hmr in E. destruct E as (w1 & y1 & Hr1 & E).
    destruct ((mn =? 0)%nat && (pos y1 =? pos x)%nat); [discriminate|].
    apply IH in E. destruct E as (w2 & y2 & Hr2 & E).
    exists (w1 +:+ w2), y2. split; [|exact E].
    apply reads_trans with y1; [|exact Hr2].
    destruct Hr1 as (A & B & C). repeat split; assumption. }
  cbv zeta in H.
  destruct mx as [[|mx]|]; [now apply Hk | | ];
    (destruct (negb (mn =? 0)%nat); [now apply Hd|];
     destruct greedy;
     [ match type of H with match ?e with _ => _ end = _ =>
         destruct e as [z'|] eqn:E end;
       [injection H as ->; now apply Hd | now apply Hk]
     | destruct (k x) as [z'|] eqn:E;
       [injection H as ->; exists "", x; split; [now apply reads_nil | exact E]
       | now apply Hd] ]).
Qed.

Lemma m_through ic r : through (m ic r).
Proof.
  induction r as [ | c | | neg items | r1 IH1 r2 IH2 | r1 IH1 r2 IH2
                 | r IH mn mx greedy | n r IH | | | neg | neg r IH];
    intros x k z H; cbn [m] in H.
  - exists "", x. split; [now apply reads_nil | exact H].
  - destruct (rest x) as [|a t] eqn:E; [discriminate|].
    destruct (Ascii.eqb _ _); [|discriminate].
    exists (String a ""), (advance x a t). split; [now apply reads_advance | exact H].
  - destruct (rest x) as [|a t] eqn:E; [discriminate|].
    destruct (Js.isLineTerminator a); [discriminate|].
    exists (String a ""), (advance x a t). split; [now apply reads_advance | exact H].
  - destruct (rest x) as [|a t] eqn:E; [discriminate|].
    destruct (classMatches _ _ _ _); [|discriminate].
    exists (String a ""), (advance x a t). split; [now apply reads_advance | exact H].
  - apply IH1 in H. destruct H as (w1 & y1 & Hr1 & H).
    apply IH2 in H. destruct H as (w2 & y2 & Hr2 & H).
    exists (w1 +:+ w2), y2. split; [now apply reads_trans with y1 | exact H].
  - destruct (m ic r1 x k) as [z'|] eqn:E.
    + injection H as ->. now apply IH1.
    + now apply IH2.
  - exact (repLoop_through _ (groups r) greedy IH _ mn mx x k z H).
  - apply IH in H. destruct H as (w & y & Hr & H).
    exists w, (setCap n (pos x) (pos y) y). split; [exact Hr | exact H].
  - destruct (pos x =? 0)%nat; [|discriminate].
    exists "", x. split; [now apply reads_nil | exact H].
  - destruct (rest x) eqn:E; [|discriminate].
    exists "", x. split; [now apply reads_nil | exact H].
  - destruct (xorb _ _); [|discriminate].
    exists "", x. split; [now apply reads_nil | exact H].
  - destruct (m ic r x Some) as [y|]; destruct neg; try discriminate.
    + eexists "", _. split; [|exact H]. now apply reads_nil.
    + exists "", x. split; [now apply reads_nil | exact H].
Qed.

(** A match that begins at [x] ends at a state that is reached by reading
    the matched text. *)
Lemma m_reads ic r x y : m ic r x Some = Some y -> exists w, reads x w y.
Proof.
  intros H. apply m_through in H. destruct H as (w & y' & Hr & E).
  injection E as ->. now exists w.
Qed.

(** *** The scan finds a match that no earlier match runs over *)

Lemma scan_finds ic r (s0 : string) (n : nat) (pv : option ascii) (y' : state) :
  m ic r (mkState pv s0 n []) Some = Some y' ->
  forall fuel s p i w,
    s = w +:+ s0 -> n = i + String.length w -> pv = lastOr p w ->
    String.length s < fuel ->
    (forall jy, In jy (scan ic r fuel p s i) -> fst jy < n -> pos (snd jy) <= n) ->
    In (n, y') (scan ic r fuel p s i).
Proof.
  intros Hm'. induction fuel as [|fuel IH]; intros s p i w Hs Hn Hpv Hfuel Hover; [lia|].
  assert (Hm0 : m ic r (mkState (lastOr p w) s0 (i + String.length w) []) Some = Some y')
    by (rewrite <- Hpv, <- Hn; exact Hm').
  destruct (search_first ic r w s0 p i y' Hm0) as (j & y & Hsearch & Hj).
  rewrite <- Hs in Hsearch.
  cbn [scan] in Hover |- *. rewrite Hsearch in Hover |- *.
  destruct Hj as [Hj | [Hj ->]]; [|left; now rewrite Hj, Hn].
  right.
  pose proof (Hover (j, y) (or_introl eq_refl)) as Hend. cbn [fst snd] in Hend.
  specialize (Hend ltac:(lia)).
  apply search_spec in Hsearch. destruct Hsearch as (v & s' & Hsv & Hjv & Hm & _).
  apply m_reads in Hm. destruct Hm as (u & Hr & Hp & Hv). cbn [rest pos prev] in Hr, Hp, Hv.
  assert (Hlen : String.length s = String.length v + String.length u + String.length (rest y))
    by (rewrite Hsv, Hr, !length_app; lia).
  destruct (pos y =? j)%nat eqn:Epos.
  - apply Nat.eqb_eq in Epos.
    assert (Hu : u = "") by (destruct u; [reflexivity | cbn in Hp; lia]).
    subst u. rewrite app_nil_l in Hr.
    destruct (rest y) as [|a t] eqn:Erest.
    + exfalso. rewrite Hs, length_app in Hlen. cbn in Hlen. lia.
    + destruct (app_split (v +:+ String a "") t w s0) as (w' & Hw & Ht).
      { rewrite app_assoc, app_cons, app_nil_l, <- Hs, Hsv, Hr. reflexivity. }
      { rewrite length_app. cbn. lia. }
      apply (IH t (Some a) (S (pos y)) w').
      * exact Ht.
      * rewrite Hn, Hw, !length_app. cbn. lia.
      * rewrite Hpv, Hw, !lastOr_app. reflexivity.
      * cbn in Hlen. lia.
      * intros jy Hin. apply Hover. right. exact Hin.
  - apply Nat.eqb_neq in Epos.
    destruct (app_split (v +:+ u) (rest y) w s0) as (w' & Hw & Ht).
    { rewrite app_assoc, <- Hs, Hsv, Hr. reflexivity. }
    { rewrite length_app. lia. }
    apply (IH (rest y) (prev y) (pos y) w').
    + exact Ht.
    + rewrite Hn, Hw, !length_app. lia.
    + rewrite Hpv, Hw, Hv, !lastOr_app. reflexivity.
    + assert (u <> "") by (intros ->; cbn in Hp; lia).
      destruct u; [congruence|]. cbn in Hlen. lia.
    + intros jy Hin. apply Hover. right. exact Hin.
Qed.

End ReFacts.

(** ** Import resolution *)

Module ImportsFacts.
Import Imports.

(** C2. [resolveModule] returns for every specifier: the result is of
    exactly one of the three kinds, core when the specifier is a key of the
    core table, plugin when it is not and begins with [zenith:], external
    otherwise; it carries the specifier; and a core result is known. *)
Theorem resolveModule_total (moduleName : string) :
  let r := resolveModule moduleName in
  rmodule r = moduleName /\
  ((kind r = core /\ CoreImports.isCoreModule moduleName = true) \/
   (kind r = plugin /\ CoreImports.isCoreModule moduleName = false /\
    PluginImports.isPluginModule moduleName = true) \/
   (kind r = external /\ CoreImports.isCoreModule moduleName = false /\
    PluginImports.isPluginModule moduleName = false)) /\
  (kind r = core -> kind r <> plugin /\ kind r <> external) /\
  (kind r = plugin -> kind r <> core /\ kind r <> external) /\
  (kind r = external -> kind r <> core /\ kind r <> plugin) /\
  (kind r = core -> isKnown r = true).
Proof.
  unfold resolveModule.
  destruct (CoreImports.isCoreModule moduleName) eqn:Hc;
    [|destruct (PluginImports.isPluginModule moduleName) eqn:Hp]; cbn.
  - repeat split; try congruence. left. split; reflexivity.
  - repeat split; try congruence. right. left. repeat split.
  - repeat split; try congruence. right. right. repeat split.
Qed.

Lemma resolveModule_total_witness :
  kind (resolveModule "zenith/router") = core /\
  isKnown (resolveModule "zenith/router") = true.
Proof.
  split; [reflexivity|].
  apply (resolveModule_total "zenith/router"). reflexivity.
Defined.

(** A turn of the loop pushes at most one import, numbered by its line. *)
Lemma parseLine_cases ln i :
  parseLine ln i = [] \/ exists p, parseLine ln i = [p] /\ line p = i + 1.
Proof.
  unfold parseLine, fromImportOf, sideEffectOf.
  destruct (Re.exec false importPattern ln) as [mt|].
  - destruct (Re.exec false sideEffectPattern ln);
      (destruct (isZenith (groupText 5 mt)); [right|left]);
      (try reflexivity); eexists; split; reflexivity.
  - destruct (Re.exec false sideEffectPattern ln) as [mt|]; [|left; reflexivity].
    cbn. destruct (isZenith (groupText 1 mt)); [right|left; reflexivity].
    eexists; split; reflexivity.
Qed.

Lemma parseLines_spec lines :
  forall i,
    Forall (fun p => exists ln, lines !! (line p - 1 - i) = Some ln /\
                                i < line p /\ parseLine ln (line p - 1) = [p])
           (parseLines lines i) /\
    StronglySorted lt (List.map line (parseLines lines i)).
Proof.
  induction lines as [|ln t IH]; intros i; cbn [parseLines].
  - split; constructor.
  - destruct (IH (S i)) as [IHa IHb].
    assert (Hrest : Forall (fun p => exists ln0, (ln :: t) !! (line p - 1 - i) = Some ln0 /\
                                       i < line p /\ parseLine ln0 (line p - 1) = [p])
                           (parseLines t (S i))).
    { eapply List.Forall_impl; [|exact IHa]. cbn beta.
      intros p (ln0 & Hl & Hlt & Hp). exists ln0. split; [|split; [lia|exact Hp]].
      replace (line p - 1 - i) with (S (line p - 1 - S i)) by lia. exact Hl. }
    destruct (parseLine_cases ln i) as [Hp | (p & Hp & Hline)]; rewrite Hp.
    + split; [exact Hrest | exact IHb].
    + cbn [app List.map]. split.
      * constructor; [|exact Hrest].
        exists ln. rewrite Hline. replace (i + 1 - 1 - i) with 0 by lia.
        split; [reflexivity|]. split; [lia|].
        replace (i + 1 - 1) with i by lia. exact Hp.
      * constructor; [exact IHb|].
        rewrite List.Forall_map. eapply List.Forall_impl; [|exact IHa]. cbn beta.
        intros q (_ & _ & Hq & _). lia.
Qed.

(** C10. [parseZenithImports] records at most one import per line: the line
    numbers of the result increase strictly; the import numbered [n] is
    what the turn of the loop for the line of one-based index [n] pushed,
    and nothing else was pushed in that turn; it is the from-style import of
    that line when the line has one, and a side-effect import (no
    specifiers, not a type import) only when the line has none. *)
Theorem parseZenithImports_one_per_line (script : string) :
  let lines := Js.splitChar Js.nl script in
  let result := parseZenithImports script in
  StronglySorted lt (List.map line result) /\
  Forall (fun p =>
            exists ln, lines !! (line p - 1) = Some ln /\ 1 <= line p /\
              parseLine ln (line p - 1) = [p] /\
              match Re.exec false importPattern ln with
              | Some mt =>
                  p = mkImport (groupText 5 mt) (specifiersOf mt) (groupTruthy 1 mt) (line p)
              | None =>
                  exists mt, Re.exec false sideEffectPattern ln = Some mt /\
                    p = mkImport (groupText 1 mt) [] false (line p)
              end) result.
Proof.
  cbn zeta. unfold parseZenithImports.
  destruct (parseLines_spec (Js.splitChar Js.nl script) 0) as [Ha Hb].
  split; [exact Hb|].
  eapply List.Forall_impl; [|exact Ha]. cbn beta.
  intros p (ln & Hl & Hlt & Hp). exists ln.
  rewrite Nat.sub_0_r in Hl. split; [exact Hl|]. split; [lia|]. split; [exact Hp|].
  revert Hp. unfold parseLine, fromImportOf, sideEffectOf.
  destruct (Re.exec false importPattern ln) as [mt|].
  - destruct (isZenith (groupText 5 mt)); cbn;
      destruct (Re.exec false sideEffectPattern ln); cbn; intros Hp; try discriminate;
      injection Hp as Hp; rewrite <- Hp; cbn; f_equal; lia.
  - destruct (Re.exec false sideEffectPattern ln) as [mt|]; cbn; [|discriminate].
    destruct (isZenith (groupText 1 mt)); [|discriminate].
    intros Hp. injection Hp as Hp. exists mt. split; [reflexivity|].
    rewrite <- Hp. cbn. f_equal; lia.
Qed.

End ImportsFacts.

(** ** The iteration directive *)

Module DirectiveFacts.
Import DirectiveMetadata.

(** C3. The parser of the iteration directive accepts [item in items] and
    [item, index in items], binding the item variable, the index variable
    when there is one, and the source; it gives [null] on [in items],
    [item items] and the empty text. *)
Theorem parseForExpression_accepts_and_rejects :
  parseForExpression "item in items" = Some (mkFor "item" None "items") /\
  parseForExpression "item, index in items" = Some (mkFor "item" (Some "index") "items") /\
  parseForExpression "in items" = None /\
  parseForExpression "item items" = None /\
  parseForExpression "" = None.
Proof. repeat split; vm_compute; reflexivity. Qed.

End DirectiveFacts.

(** ** The project-graph cache *)

Module CacheFacts.
Import Server.

Section Cache.

Variable dirname : string -> string.
Variable detectProjectRoot : string -> option string.
Variable buildProjectGraph : string -> option Project.ProjectGraph.

Local Abbreviation rootOf := (Server.rootOf dirname detectProjectRoot).
Local Abbreviation invalidate := (Server.invalidateProjectGraph dirname detectProjectRoot).
Local Abbreviation getGraph :=
  (Server.getProjectGraph dirname detectProjectRoot buildProjectGraph).

Lemma invalidate_lookup (cache : gmap string Project.ProjectGraph) (uri r : string) :
  invalidate cache uri !! r
  = if decide (rootOf uri = Some r) then None else cache !! r.
Proof.
  unfold Server.invalidateProjectGraph.
  destruct (rootOf uri) as [r'|] eqn:Hr.
  - destruct (decide (Some r' = Some r)) as [E|N].
    + injection E as ->. apply lookup_delete_eq.
    + apply lookup_delete_ne. congruence.
  - destruct (decide (None = Some r)); [discriminate | reflexivity].
Qed.

(** A graph that is cached is served from the cache, which stays as it
    is. *)
Lemma getProjectGraph_cached (cache : gmap string Project.ProjectGraph)
  (docUri r : string) (g : Project.ProjectGraph) :
  rootOf docUri = Some r -> cache !! r = Some g ->
  getGraph cache docUri = (Some (Some g), cache).
Proof.
  intros Hr Hg. unfold Server.getProjectGraph. rewrite Hr, Hg. reflexivity.
Qed.

(** C8. A change notification for a URI whose project root is not the
    current root leaves the cache entry of the current root as it is: the
    only entry the invalidation removes is the one of the changed URI's own
    root, every other key reads as before, and a graph cached for the
    current root is still served, without a rebuild, after the
    invalidation. *)
Theorem invalidate_other_root_keeps_entry
  (cache : gmap string Project.ProjectGraph) (changedUri currentRoot : string) :
  rootOf changedUri <> Some currentRoot ->
  invalidate cache changedUri !! currentRoot = cache !! currentRoot /\
  (forall r, invalidate cache changedUri !! r
             = if decide (rootOf changedUri = Some r) then None else cache !! r) /\
  (forall docUri g,
      rootOf docUri = Some currentRoot -> cache !! currentRoot = Some g ->
      getGraph (invalidate cache changedUri) docUri
      = (Some (Some g), invalidate cache changedUri)).
Proof.
  intros Hne.
  assert (Hkeep : invalidate cache changedUri !! currentRoot = cache !! currentRoot).
  { rewrite invalidate_lookup. destruct (decide _); [contradiction | reflexivity]. }
  split; [exact Hkeep|]. split; [intros r; apply invalidate_lookup|].
  intros docUri g Hr Hg. apply getProjectGraph_cached with (r := currentRoot); [exact Hr|].
  rewrite Hkeep. exact Hg.
Qed.

End Cache.

(** A file system with two projects, [/a] and [/b], for the witness. *)
Definition twoRoots (dir : string) : option string :=
  if Js.startsWith dir "/a" then Some "/a"
  else if Js.startsWith dir "/b" then Some "/b" else None.

Definition emptyGraph (r : string) : Project.ProjectGraph := Project.mkGraph r [] [] [].

Lemma invalidate_other_root_keeps_entry_witness :
  Server.invalidateProjectGraph (fun p => p) twoRoots
    (<["/a" := emptyGraph "/a"]> (<["/b" := emptyGraph "/b"]> ∅))
    "file:///b/src/pages/index.zen" !! "/a"
  = (<["/a" := emptyGraph "/a"]> (<["/b" := emptyGraph "/b"]> ∅)
       : gmap string Project.ProjectGraph) !! "/a".
Proof.
  apply (invalidate_other_root_keeps_entry (fun p => p) twoRoots
           (fun r => Some (emptyGraph r))).
  vm_compute. discriminate.
Defined.

End CacheFacts.

(** ** Import diagnostics *)

Module DiagnosticsFacts.
Import Diagnostics.

Section Severity.

Variable newRegExp : string -> option (string -> option (nat * string)).

(** The keys that [key in table] accepts. *)
Lemma has_cases {A} (table : list (string * A)) (key : string) :
  JsObject.has table key = true ->
  In key (JsObject.keys table ++ JsObject.prototypeKeys).
Proof.
  unfold JsObject.has, JsObject.get. intros H. apply in_or_app.
  destruct (JsObject.own table key) eqn:Hown.
  - left. clear H. induction table as [|[k v] t IH]; cbn in *; [discriminate|].
    destruct (String.eqb_spec k key) as [->|_]; [left; reflexivity|right; auto].
  - right. destruct (Js.arrayIncludes JsObject.prototypeKeys key) eqn:Hk; [|discriminate].
    unfold Js.arrayIncludes in Hk. apply existsb_exists in Hk.
    destruct Hk as (k & Hin & Heq). apply String.eqb_eq in Heq. subst. exact Hin.
Qed.

(** No key of the core table and no member of Object.prototype begins with
    [zenith:]. *)
Lemma plugin_not_core (moduleName : string) :
  PluginImports.isPluginModule moduleName = true ->
  CoreImports.isCoreModule moduleName = false.
Proof.
  intros Hp. destruct (CoreImports.isCoreModule moduleName) eqn:Hc; [|reflexivity].
  apply has_cases in Hc. cbn in Hc.
  repeat (destruct Hc as [<-|Hc]; [vm_compute in Hp; discriminate Hp|]).
  contradiction.
Qed.

Definition soft (d : Diagnostic) : Prop :=
  severity d = Information \/ severity d = Warning.

Lemma pluginFindings_information scriptContent scriptStart imp resolved ds :
  pluginFindings newRegExp scriptContent scriptStart imp resolved = Some ds ->
  Forall (fun d => severity d = Information) ds.
Proof.
  unfold pluginFindings.
  destruct (_ && _); [|intros [= <-]; constructor].
  destruct (newRegExp _) as [re|]; cbn; [|discriminate].
  destruct (re scriptContent) as [[idx matched]|]; intros [= <-]; repeat constructor.
Qed.

Lemma specifierFindings_warning scriptContent scriptStart moduleName validExports specs :
  forall ds,
    specifierFindings newRegExp scriptContent scriptStart moduleName validExports specs
    = Some ds ->
    Forall (fun d => severity d = Warning) ds.
Proof.
  induction specs as [|sp more IH]; cbn [specifierFindings]; intros ds.
  - intros [= <-]. constructor.
  - destruct (negb (Js.arrayIncludes validExports sp)).
    + destruct (newRegExp _) as [re|]; cbn; [|discriminate].
      destruct (specifierFindings _ _ _ _ _ more) as [others|]; cbn;
        [|destruct (re scriptContent) as [[? ?]|]; discriminate].
      destruct (re scriptContent) as [[idx matched]|]; cbn; intros [= <-].
      * constructor; [reflexivity | apply IH; reflexivity].
      * apply IH; reflexivity.
    + cbn. destruct (specifierFindings _ _ _ _ _ more) as [others|]; cbn; [|discriminate].
      intros [= <-]. apply IH; reflexivity.
Qed.

Lemma exportFindings_warning scriptContent scriptStart imp resolved ds :
  exportFindings newRegExp scriptContent scriptStart imp resolved = Some ds ->
  Forall (fun d => severity d = Warning) ds.
Proof.
  unfold exportFindings.
  destruct (Imports.isKnown resolved); [|intros [= <-]; constructor].
  destruct (Imports.metadata resolved); [|discriminate|intros [= <-]; constructor].
  apply specifierFindings_warning.
Qed.

Lemma importFindings_split scriptContent scriptStart imp ds :
  importFindings newRegExp scriptContent scriptStart imp = Some ds ->
  exists a b,
    ds = a ++ b /\
    pluginFindings newRegExp scriptContent scriptStart imp
      (Imports.resolveModule (Imports.module imp)) = Some a /\
    exportFindings newRegExp scriptContent scriptStart imp
      (Imports.resolveModule (Imports.module imp)) = Some b.
Proof.
  unfold importFindings. cbn zeta.
  destruct (pluginFindings _ _ _ _ _) as [a|]; cbn; [|discriminate].
  destruct (exportFindings _ _ _ _ _) as [b|]; cbn; [|discriminate].
  intros [= <-]. exists a, b. repeat split.
Qed.

Lemma importsFindings_soft scriptContent scriptStart imports :
  forall ds,
    importsFindings newRegExp scriptContent scriptStart imports = Some ds ->
    Forall soft ds.
Proof.
  induction imports as [|imp more IH]; cbn [importsFindings]; intros ds.
  - intros [= <-]. constructor.
  - destruct (importFindings _ _ _ imp) as [a|] eqn:Ha; cbn; [|discriminate].
    destruct (importsFindings _ _ _ more) as [b|]; cbn; [|discriminate].
    intros [= <-]. apply Forall_app. split; [|apply IH; reflexivity].
    destruct (importFindings_split _ _ _ _ Ha) as (p & e & -> & Hp & He).
    apply Forall_app. split.
    + eapply List.Forall_impl; [|exact (pluginFindings_information _ _ _ _ _ Hp)].
      intros d Hd. left. exact Hd.
    + eapply List.Forall_impl; [|exact (exportFindings_warning _ _ _ _ _ He)].
      intros d Hd. right. exact Hd.
Qed.

(** The finding for an imported name that the module does not export,
    found at [idx] in the script, and the note for a plugin module that the
    registry does not know, whose import line [matched] is found at [idx]. *)
Definition unexportedWarning (scriptStart : nat) (moduleName specifier : string)
  (idx : nat) : Diagnostic :=
  mkDiagnostic Warning
    (mkRange (scriptStart + idx) (scriptStart + idx + String.length specifier))
    ("'" +:+ specifier +:+ "' is not exported from '" +:+ moduleName +:+ "'")
    "zenith".

Definition unknownPluginNote (scriptStart : nat) (moduleName : string)
  (idx : nat) (matched : string) : Diagnostic :=
  mkDiagnostic Information
    (mkRange (scriptStart + idx) (scriptStart + idx + String.length matched))
    ("Unknown plugin module: '" +:+ moduleName +:+
     "'. Make sure the plugin is installed.")
    "zenith".

(** What one imported name adds: nothing when the module exports it, else
    one warning when the search for the name between word boundaries finds
    it in the script. *)
Definition warningsFor (scriptContent : string) (scriptStart : nat)
  (moduleName : string) (validExports : list string) (specifier : string)
  : list Diagnostic :=
  if Js.arrayIncludes validExports specifier then []
  else
    match newRegExp (specifierSource specifier) with
    | Some re =>
        match re scriptContent with
        | Some (idx, _) => [unexportedWarning scriptStart moduleName specifier idx]
        | None => []
        end
    | None => []
    end.

Lemma specifierFindings_exact scriptContent scriptStart moduleName validExports specs :
  forall ds,
    specifierFindings newRegExp scriptContent scriptStart moduleName validExports specs
    = Some ds ->
    ds = List.concat
           (List.map (warningsFor scriptContent scriptStart moduleName validExports) specs).
Proof.
  induction specs as [|sp more IH]; cbn [specifierFindings List.map List.concat]; intros ds.
  - now intros [= <-].
  - unfold warningsFor at 1.
    destruct (Js.arrayIncludes validExports sp); cbn [negb].
    + cbn. destruct (specifierFindings _ _ _ _ _ more) as [others|]; cbn; [|discriminate].
      intros [= <-]. now rewrite (IH others).
    + destruct (newRegExp _) as [re|]; cbn; [|discriminate].
      destruct (specifierFindings _ _ _ _ _ more) as [others|]; cbn;
        [|destruct (re scriptContent) as [[? ?]|]; discriminate].
      destruct (re scriptContent) as [[idx matched]|]; cbn; intros [= <-];
        now rewrite (IH others).
Qed.

(** The loop over the names throws exactly when the RegExp constructor
    refuses the pattern built from a name that the module does not export. *)
Lemma specifierFindings_returns scriptContent scriptStart moduleName validExports specs :
  is_Some (specifierFindings newRegExp scriptContent scriptStart moduleName validExports specs)
  <-> (forall sp, In sp specs -> Js.arrayIncludes validExports sp = false ->
                  is_Some (newRegExp (specifierSource sp))).
Proof.
  induction specs as [|sp more IH]; cbn [specifierFindings].
  - split; [intros _ sp [] | intros _; now eexists].
  - split.
    + intros Hs sp' [<-|Hin] Hne.
      * rewrite Hne in Hs. cbn [negb] in Hs.
        destruct (newRegExp (specifierSource sp)); [now eexists|].
        cbn in Hs. destruct Hs as [? Hs]. discriminate Hs.
      * apply (proj1 IH); [|exact Hin|exact Hne].
        destruct (specifierFindings _ _ _ _ _ more); [now eexists|].
        destruct (negb _); [destruct (newRegExp _) as [re|]; cbn in Hs|cbn in Hs].
        -- destruct (re scriptContent) as [[? ?]|]; destruct Hs as [? Hs]; discriminate Hs.
        -- destruct Hs as [? Hs]; discriminate Hs.
        -- destruct Hs as [? Hs]; discriminate Hs.
    + intros Hall.
      destruct (proj2 IH (fun sp' Hin => Hall sp' (or_intror Hin))) as [others ->].
      destruct (Js.arrayIncludes validExports sp) eqn:Hinc; cbn [negb]; [now eexists|].
      destruct (Hall sp (or_introl eq_refl) Hinc) as [re ->]. cbn.
      destruct (re scriptContent) as [[? ?]|]; now eexists.
Qed.

Lemma warningsFor_short scriptContent scriptStart moduleName validExports specs :
  (List.length
     (List.concat
        (List.map (warningsFor scriptContent scriptStart moduleName validExports) specs))
   <= List.length
        (List.filter (fun sp => negb (Js.arrayIncludes validExports sp)) specs))%nat.
Proof.
  induction specs as [|sp more IH]; cbn [List.map List.concat List.filter]; [reflexivity|].
  rewrite List.length_app. unfold warningsFor at 1.
  destruct (Js.arrayIncludes validExports sp); cbn [negb List.length]; [exact IH|].
  destruct (newRegExp _) as [re|]; [destruct (re scriptContent) as [[? ?]|]|];
    cbn [List.length]; lia.
Qed.

(** A module of the plugin namespace that the registry knows is an entry
    of its table. *)
Lemma known_plugin_entry (moduleName : string) :
  PluginImports.isPluginModule moduleName = true ->
  PluginImports.isKnownPluginModule moduleName = true ->
  exists md, JsObject.get PluginImports.PLUGIN_MODULES moduleName = JsObject.Own md.
Proof.
  intros Hp Hk. apply has_cases in Hk. cbn in Hk.
  repeat (destruct Hk as [<-|Hk];
          [first [eexists; reflexivity | vm_compute in Hp; discriminate Hp]|]).
  contradiction.
Qed.

(** C1, amended.  The findings of the import check about an import whose
    specifier is in the plugin namespace, and when the check returns.
    They are never errors.  For a module that the plugin registry does not
    know: the check returns unless the RegExp constructor refuses the
    pattern of the import line; there is at most one finding, the
    information-severity note, present when the pattern of the import line
    is found in the script.  For a module that the registry knows: the
    check returns unless the RegExp constructor refuses the pattern of a
    name that the plugin does not export; the findings are warnings only,
    in the order of the imported names, one for each imported name that
    the plugin does not export and that the search between word boundaries
    finds in the script, over the place where it is found, so that they
    are at most as many as the imported names that the plugin does not
    export.  And every finding of the whole import check, for any document,
    is an information or a warning. *)
Theorem plugin_import_findings_never_error :
  (forall scriptContent scriptStart imp,
      PluginImports.isPluginModule (Imports.module imp) = true ->
      let moduleName := Imports.module imp in
      (PluginImports.isKnownPluginModule moduleName = false ->
       importFindings newRegExp scriptContent scriptStart imp
       = option_map
           (fun re : string -> option (nat * string) =>
              match re scriptContent with
              | Some (idx, matched) => [unknownPluginNote scriptStart moduleName idx matched]
              | None => []
              end)
           (newRegExp (importLineSource moduleName))) /\
      (PluginImports.isKnownPluginModule moduleName = true ->
       exists md,
         JsObject.get PluginImports.PLUGIN_MODULES moduleName = JsObject.Own md /\
         let validExports := List.map CoreImports.name (PluginImports.exports md) in
         (is_Some (importFindings newRegExp scriptContent scriptStart imp) <->
          (forall sp, In sp (Imports.specifiers imp) ->
                      Js.arrayIncludes validExports sp = false ->
                      is_Some (newRegExp (specifierSource sp)))) /\
         (forall ds,
             importFindings newRegExp scriptContent scriptStart imp = Some ds ->
             ds = List.concat
                    (List.map (warningsFor scriptContent scriptStart moduleName validExports)
                              (Imports.specifiers imp)) /\
             (List.length ds
              <= List.length
                   (List.filter (fun sp => negb (Js.arrayIncludes validExports sp))
                                (Imports.specifiers imp)))%nat)) /\
      (forall ds,
          importFindings newRegExp scriptContent scriptStart imp = Some ds ->
          Forall (fun d => severity d <> Error) ds /\
          (PluginImports.isKnownPluginModule moduleName = false ->
           Forall (fun d => severity d = Information) ds /\ (List.length ds <= 1)%nat) /\
          (PluginImports.isKnownPluginModule moduleName = true ->
           Forall (fun d => severity d = Warning) ds))) /\
  (forall text ds,
      collectImportDiagnostics newRegExp text = Some ds ->
      Forall (fun d => severity d = Information \/ severity d = Warning) ds).
Proof.
  split.
  - intros scriptContent scriptStart imp Hplug moduleName.
    assert (Hunknown : PluginImports.isKnownPluginModule moduleName = false ->
       importFindings newRegExp scriptContent scriptStart imp
       = option_map
           (fun re : string -> option (nat * string) =>
              match re scriptContent with
              | Some (idx, matched) => [unknownPluginNote scriptStart moduleName idx matched]
              | None => []
              end)
           (newRegExp (importLineSource moduleName))).
    { intros Hun. unfold importFindings, pluginFindings, exportFindings, Imports.resolveModule.
      cbn zeta. rewrite (plugin_not_core _ Hplug), Hplug. cbn [Imports.isKnown].
      fold moduleName. rewrite Hun. cbn [andb negb].
      destruct (newRegExp (importLineSource moduleName)) as [re|]; cbn; [|reflexivity].
      destruct (re scriptContent) as [[idx matched]|]; reflexivity. }
    assert (Hknown : PluginImports.isKnownPluginModule moduleName = true ->
       exists md,
         JsObject.get PluginImports.PLUGIN_MODULES moduleName = JsObject.Own md /\
         importFindings newRegExp scriptContent scriptStart imp
         = specifierFindings newRegExp scriptContent scriptStart moduleName
             (List.map CoreImports.name (PluginImports.exports md)) (Imports.specifiers imp)).
    { intros Hk. destruct (known_plugin_entry moduleName Hplug Hk) as (md & Hmd).
      exists md. split; [exact Hmd|].
      unfold importFindings, pluginFindings, exportFindings, Imports.resolveModule.
      cbn zeta. rewrite (plugin_not_core _ Hplug), Hplug.
      cbn [Imports.isKnown Imports.metadata]. fold moduleName. rewrite Hk.
      cbn [andb negb]. unfold PluginImports.getPluginModule. rewrite Hmd.
      cbn [Imports.pluginMeta exportNames].
      cbn. destruct (specifierFindings _ _ _ _ _ _); reflexivity. }
    split; [exact Hunknown|]. split.
    + intros Hk. destruct (Hknown Hk) as (md & Hmd & Heq). exists md.
      split; [exact Hmd|]. cbn zeta. rewrite Heq. split.
      * apply specifierFindings_returns.
      * intros ds Hds. rewrite (specifierFindings_exact _ _ _ _ _ _ Hds).
        split; [reflexivity | apply warningsFor_short].
    + intros ds Hds.
      destruct (importFindings_split _ _ _ _ Hds) as (a & b & -> & Ha & Hb).
      pose proof (pluginFindings_information _ _ _ _ _ Ha) as Hia.
      pose proof (exportFindings_warning _ _ _ _ _ Hb) as Hwb.
      split; [|split].
      * apply Forall_app. split.
        -- eapply List.Forall_impl; [|exact Hia]. cbn. intros d ->. discriminate.
        -- eapply List.Forall_impl; [|exact Hwb]. cbn. intros d ->. discriminate.
      * intros Hun. rewrite (Hunknown Hun) in Hds.
        destruct (newRegExp (importLineSource moduleName)) as [re|]; [|discriminate].
        cbn in Hds. injection Hds as <-.
        destruct (re scriptContent) as [[idx matched]|]; split;
          repeat constructor.
      * intros Hk. apply Forall_app. split; [|exact Hwb].
        revert Ha. unfold pluginFindings, Imports.resolveModule. rewrite Hplug.
        destruct (CoreImports.isCoreModule (Imports.module imp)); cbn.
        -- intros [= <-]. constructor.
        -- fold moduleName. rewrite Hk. cbn. intros [= <-]. constructor.
  - intros text ds. unfold collectImportDiagnostics.
    destruct (Re.exec true scriptPattern text) as [scriptMatch|]; [|intros [= <-]; constructor].
    apply importsFindings_soft.
Qed.

End Severity.

Definition unknownExportText : string :=
  "<script>import { foo } from 'zenith:content'</script>".

(** C1 as stated fails: the import of a plugin that the registry knows, with
    a name that the plugin does not export, gets a finding of warning
    severity, not of information severity. *)
Lemma plugin_import_warning_counterexample :
  exists imp d,
    Imports.parseZenithImports (Server.getScriptContent unknownExportText) = [imp] /\
    PluginImports.isPluginModule (Imports.module imp) = true /\
    collectImportDiagnostics RegExpSyntax.RegExp unknownExportText = Some [d] /\
    message d = "'foo' is not exported from 'zenith:content'" /\
    severity d = Warning /\ severity d <> Information.
Proof.
  eexists. eexists. split; [vm_compute; reflexivity|].
  split; [reflexivity|]. split; [vm_compute; reflexivity|].
  split; [reflexivity|]. split; [reflexivity | discriminate].
Qed.

(** An import of two names that the plugin does not export: the search for
    [$foo] between word boundaries finds nothing, that for [foo] finds the
    [foo] of [$foo]. *)
Definition twoNamesScript : string := "import { $foo, foo } from 'zenith:content'".

Definition twoNamesImport : Imports.ParsedImport :=
  Imports.mkImport "zenith:content" ["$foo"; "foo"] false 1.

Lemma plugin_import_findings_never_error_witness :
  PluginImports.isPluginModule (Imports.module twoNamesImport) = true /\
  importFindings RegExpSyntax.RegExp twoNamesScript 8 twoNamesImport
  = Some [unexportedWarning 8 "zenith:content" "foo" 10] /\
  Forall (fun d => severity d <> Error) [unexportedWarning 8 "zenith:content" "foo" 10] /\
  Forall (fun d => severity d = Warning) [unexportedWarning 8 "zenith:content" "foo" 10].
Proof.
  split; [reflexivity|]. split; [vm_compute; reflexivity|].
  destruct (proj1 (plugin_import_findings_never_error RegExpSyntax.RegExp)
              twoNamesScript 8 twoNamesImport eq_refl) as (_ & _ & H).
  destruct (H [unexportedWarning 8 "zenith:content" "foo" 10])
    as (Hne & _ & Hw); [vm_compute; reflexivity|].
  split; [exact Hne | exact (Hw eq_refl)].
Defined.

(** The pattern texts that the examples build lie in the syntax that the
    reader covers. *)
Lemma example_patterns_covered :
  RegExpSyntax.covers (specifierSource "foo") = true /\
  RegExpSyntax.covers (specifierSource "$foo") = true /\
  RegExpSyntax.covers (importLineSource "zenith:content") = true.
Proof. repeat split; reflexivity. Qed.

End DiagnosticsFacts.

(** ** Completion tiers *)

Module CompletionFacts.
Import Server.

(** The test that the claim describes: the lower-cased name begins with
    the lower-cased partial identifier. *)
Definition startsWithNoCase (nm cw : string) : bool :=
  Js.startsWith (Js.toLowerCase nm) (Js.toLowerCase cw).

(** A tier under that test: filtered when the partial identifier is not
    empty, whole when it is empty. *)
Definition filtered (cw : string) (names : list string) : list string :=
  if Js.truthy cw then List.filter (fun nm => startsWithNoCase nm cw) names else names.

Lemma filter_all {A} (l : list A) : List.filter (fun _ => true) l = l.
Proof. induction l as [|x l IH]; cbn; [reflexivity | now rewrite IH]. Qed.

Lemma map_filter_comm {A B} (g : A -> B) (P : B -> bool) (l : list A) :
  List.map g (List.filter (fun x => P (g x)) l) = List.filter P (List.map g l).
Proof.
  induction l as [|x l IH]; cbn; [reflexivity|].
  destruct (P (g x)); cbn; now rewrite IH.
Qed.

Lemma tier_filtered {A} (g : A -> string) (f : A -> CompletionItem) cw (l : list A) :
  (forall x, label (f x) = g x) ->
  List.map label (List.map f (List.filter (fun x => keep cw (g x)) l))
  = filtered cw (List.map g l).
Proof.
  intros Hl. rewrite List.map_map.
  rewrite (List.map_ext _ g) by exact Hl.
  unfold filtered, keep. destruct (Js.truthy cw); cbn [negb orb].
  - apply (map_filter_comm g (fun nm => startsWithNoCase nm cw)).
  - now rewrite filter_all.
Qed.

(** For a name that is its own lower case, the test without
    [toLowerCase] on the name is the same test. *)
Lemma tier_filtered_lower (f : string -> CompletionItem) cw (l : list string) :
  (forall x, label (f x) = x) ->
  Forall (fun nm => Js.toLowerCase nm = nm) l ->
  List.map label (List.map f (List.filter (fun nm => keepLower cw nm) l))
  = filtered cw l.
Proof.
  intros Hl Hlow.
  rewrite (List.filter_ext_in (fun nm => keepLower cw nm) (fun nm => keep cw nm)).
  - rewrite (tier_filtered (fun nm => nm) f cw l Hl). now rewrite List.map_id.
  - intros nm Hin. rewrite List.Forall_forall in Hlow.
    unfold keepLower, keep. now rewrite (Hlow nm Hin).
Qed.

Lemma filter_keep cw (l : list string) :
  List.filter (fun nm => keep cw nm) l = filtered cw l.
Proof.
  unfold filtered, keep. destruct (Js.truthy cw); cbn [negb orb].
  - reflexivity.
  - apply filter_all.
Qed.

Lemma filter_none {A} (l : list A) : List.filter (fun _ => false) l = [].
Proof. induction l as [|x l IH]; cbn; [reflexivity | exact IH]. Qed.

(** Each name of the directive table gives one item, labelled by it. *)
Lemma directiveItems_labels (l : list string) :
  (forall nm, In nm l -> In nm DirectiveMetadata.getDirectiveNames) ->
  List.map label (List.concat (List.map directiveItem l)) = l.
Proof.
  induction l as [|nm l IH]; intros Hin; [reflexivity|].
  cbn [List.map List.concat]. rewrite List.map_app, IH by (intros; apply Hin; now right).
  assert (Hnm : In nm DirectiveMetadata.getDirectiveNames) by (apply Hin; now left).
  cbn in Hnm. destruct Hnm as [<-|[<-|[<-|[<-|[]]]]]; reflexivity.
Qed.

Lemma directiveTier_labels cw elementType :
  List.map label (directiveTier cw elementType)
  = match elementType with
    | DirectiveMetadata.Slot => []
    | _ => filtered cw DirectiveMetadata.getDirectiveNames
    end.
Proof.
  unfold directiveTier.
  assert (Hplace : forall nm, In nm DirectiveMetadata.getDirectiveNames ->
            DirectiveMetadata.canPlaceDirective nm elementType
            = Some (match elementType with DirectiveMetadata.Slot => false | _ => true end)).
  { intros nm Hnm. cbn in Hnm.
    destruct Hnm as [<-|[<-|[<-|[<-|[]]]]]; destruct elementType; reflexivity. }
  destruct elementType.
  - rewrite (List.filter_ext_in _ (fun nm => keep cw nm))
      by (intros nm Hnm; now rewrite Hplace).
    rewrite directiveItems_labels by (intros nm Hnm; apply List.filter_In in Hnm; tauto).
    apply filter_keep.
  - rewrite (List.filter_ext_in _ (fun nm => keep cw nm))
      by (intros nm Hnm; now rewrite Hplace).
    rewrite directiveItems_labels by (intros nm Hnm; apply List.filter_In in Hnm; tauto).
    apply filter_keep.
  - rewrite (List.filter_ext_in _ (fun _ => false))
      by (intros nm Hnm; now rewrite Hplace).
    now rewrite filter_none.
Qed.

Lemma map_label {A} (g : A -> string) (f : A -> CompletionItem) (l : list A) :
  (forall x, label (f x) = g x) -> List.map label (List.map f l) = List.map g l.
Proof. intros Hl. rewrite List.map_map. apply List.map_ext, Hl. Qed.

(** The tiers one by one, for any partial identifier: which of them are
    filtered by the test, and which are whole. *)
Lemma tier_labels (cw : string) :
  (List.map label (lifecycleTier cw) = filtered cw (List.map hookName LIFECYCLE_HOOKS) /\
   List.map label (routerHookTier cw)
     = filtered cw (List.map Router.name (JsObject.values Router.ROUTER_HOOKS)) /\
   (forall functions,
       List.map label (scriptFunctionTier cw functions) = filtered cw (List.map name functions)) /\
   (forall states : list (string * string),
       List.map label (scriptStateTier cw states) = filtered cw (List.map fst states)) /\
   (forall graph,
       List.map label (layoutTier cw graph) = filtered cw (List.map fst (Project.layouts graph))) /\
   (forall graph,
       List.map label (componentTier cw graph)
       = filtered cw (List.map fst (Project.components graph))) /\
   List.map label (htmlElementTier cw) = filtered cw HTML_ELEMENTS /\
   (forall elementType,
       List.map label (directiveTier cw elementType)
       = match elementType with
         | DirectiveMetadata.Slot => []
         | _ => filtered cw DirectiveMetadata.getDirectiveNames
         end) /\
   List.map label (zenLinkPropTier cw)
     = filtered cw (List.map Router.propName Router.ZENLINK_PROPS) /\
   List.map label (onEventTier cw)
     = filtered cw (List.map (fun event => "on" +:+ event) DOM_EVENTS) /\
   List.map label (htmlAttributeTier cw) = filtered cw HTML_ATTRIBUTES) /\
  ((forall states : list (string * string),
       List.map label (expressionStateTier states) = List.map fst states) /\
   (forall functions,
       List.map label (expressionFunctionTier functions) = List.map name functions) /\
   (forall loopVariables, List.map label (loopVariableTier loopVariables) = loopVariables) /\
   List.map label routeFieldTier
     = List.map (fun field => "route." +:+ Router.fieldName field) Router.ROUTE_FIELDS /\
   List.map label importPathTier = List.map fst Imports.getAllModules /\
   List.map label atEventTier = List.map (fun event => "@" +:+ event) DOM_EVENTS /\
   List.map label bindingTier = List.map (fun attr => ":" +:+ attr) HTML_ATTRIBUTES /\
   (forall tag graph component,
       Project.resolveComponent graph tag = Some component ->
       List.map label (componentPropTier tag graph) = Project.props component) /\
   (forall functions,
       List.map label (handlerFunctionTier functions) = List.map name functions) /\
   (forall routerEnabled isAfterOpenBracket isTypingTag,
       List.map label (zenLinkTier cw routerEnabled isAfterOpenBracket isTypingTag)
       = if routerEnabled &&
            (isAfterOpenBracket || (isTypingTag && Js.startsWith (Js.toLowerCase cw) "z"))
         then ["ZenLink"] else [])) /\
  (forall ctx routerEnabled functions states loopVariables,
      inExpression ctx = true ->
      List.map label (expressionCompletions ctx routerEnabled functions states loopVariables)
      = List.map fst states ++ List.map name functions ++ loopVariables ++
        (if routerEnabled then List.map label routeFieldTier else [])).
Proof.
  split; [|split].
  - split; [apply (tier_filtered hookName); intros; reflexivity|].
    split; [apply (tier_filtered Router.name); intros; reflexivity|].
    split; [intros; apply (tier_filtered name); intros; reflexivity|].
    split; [intros; apply (tier_filtered fst); intros; reflexivity|].
    split; [intros; apply (tier_filtered fst); intros; reflexivity|].
    split; [intros; apply (tier_filtered fst); intros; reflexivity|].
    split; [apply tier_filtered_lower; [intros; reflexivity | repeat constructor]|].
    split.
    { intros elementType. apply directiveTier_labels. }
    split; [apply (tier_filtered Router.propName); intros; reflexivity|].
    split; (apply tier_filtered_lower; [intros; reflexivity | repeat constructor]).
  - split; [intros; apply map_label; intros; reflexivity|].
    split; [intros; apply map_label; intros; reflexivity|].
    split.
    { intros. unfold loopVariableTier.
      rewrite (map_label (fun x => x)) by (intros; reflexivity). apply List.map_id. }
    split; [apply map_label; intros; reflexivity|].
    split; [apply map_label; intros; reflexivity|].
    split; [apply map_label; intros; reflexivity|].
    split; [apply map_label; intros; reflexivity|].
    split.
    { intros tag graph component H. unfold componentPropTier. rewrite H.
      rewrite (map_label (fun x => x)) by (intros; reflexivity). apply List.map_id. }
    split; [intros; apply map_label; intros; reflexivity|].
    intros routerEnabled isAfterOpenBracket isTypingTag. unfold zenLinkTier.
    destruct (routerEnabled && _); reflexivity.
  - intros ctx routerEnabled functions states loopVariables Hin.
    unfold expressionCompletions. rewrite Hin. rewrite !List.map_app.
    unfold expressionStateTier, expressionFunctionTier, loopVariableTier.
    rewrite !List.map_map. cbn [label]. rewrite List.map_id.
    destruct routerEnabled; reflexivity.
Qed.


Section Request.

Variable dirname : string -> string.
Variable detectProjectRoot : string -> option string.
Variable buildProjectGraph : string -> option Project.ProjectGraph.

(** C4, amended.  A completion request for an open document, at an offset:
    [ctx] is the position context there and [cw] its partial identifier
    ([ctx.currentWord]).  When [getProjectGraph] throws, the request throws.
    Else the labels of the response are those of the tiers below, in this
    order, each tier present only under its condition.
    Filtered by the case-insensitive starts-with test against [cw] (whole
    when [cw] is empty): in a script, the lifecycle hooks, the router hooks
    (router imported), the declared functions and the state variables; in
    the template outside braces and attribute values, the layouts and the
    components (behind a [<], or while a name that begins with a capital
    is typed outside a tag) and the HTML elements (behind a [<], or while a
    name that begins with a small letter is typed outside a tag); inside a
    tag, the directives (none on a slot), the ZenLink props (router
    imported, tag ZenLink), the on-event handlers and the HTML attributes.
    Offered whole, whatever [cw] is: the module names behind [from '] or
    [import '], the state variables, functions, loop variables and route
    fields inside braces, the one ZenLink suggestion (router imported;
    behind a [<], or while a name that begins with [z] or [Z] is typed
    outside a tag), the [@] events, the [:] bindings, the props of the
    component of the tag, and the functions inside the value of an event
    handler. *)
Theorem completion_tiers_filtering
  (documents : gmap string string) (projectGraphs : gmap string Project.ProjectGraph)
  (uri text : string) (offset : Z) :
  documents !! uri = Some text ->
  let ctx := getPositionContext text offset in
  let cw := currentWord ctx in
  let script := getScriptContent text in
  let states := List.map fst (extractStates script) in
  let functions := List.map name (extractFunctions script) in
  let loopVariables := extractLoopVariables text in
  let routerEnabled := Imports.hasRouterImport (Imports.parseZenithImports script) in
  let lineBefore :=
    Js.substring text (Js.lastIndexOfUpTo text Js.NL (offset - 1) + 1) offset in
  let behindBracket := Re.test false openBracketPattern lineBefore in
  let typingName := (0 <? String.length cw)%nat && negb (inTag ctx) in
  option_map (List.map label)
    (fst (onCompletion dirname detectProjectRoot buildProjectGraph
            documents projectGraphs uri offset))
  = option_map
      (fun graph : option Project.ProjectGraph =>
         (if inScript ctx then
            filtered cw (List.map hookName LIFECYCLE_HOOKS) ++
            (if routerEnabled
             then filtered cw (List.map Router.name (JsObject.values Router.ROUTER_HOOKS))
             else []) ++
            filtered cw functions ++
            filtered cw states ++
            (if Re.test false fromPathPattern lineBefore ||
                Re.test false importPathPattern lineBefore
             then List.map fst Imports.getAllModules else [])
          else []) ++
         (if inExpression ctx then
            states ++ functions ++ loopVariables ++
            (if routerEnabled
             then List.map (fun field => "route." +:+ Router.fieldName field)
                           Router.ROUTE_FIELDS
             else [])
          else []) ++
         (if inTemplate ctx && negb (inExpression ctx) && negb (inAttributeValue ctx) then
            match graph with
            | Some g =>
                if behindBracket || (typingName && Re.test false upperStartPattern cw)
                then filtered cw (List.map fst (Project.layouts g)) ++
                     filtered cw (List.map fst (Project.components g))
                else []
            | None => []
            end ++
            (if routerEnabled &&
                (behindBracket || (typingName && Js.startsWith (Js.toLowerCase cw) "z"))
             then ["ZenLink"] else []) ++
            (if behindBracket || (typingName && Re.test false lowerStartPattern cw)
             then filtered cw HTML_ELEMENTS else [])
          else []) ++
         match tagName ctx with
         | Some tag =>
             if inTag ctx && Js.truthy tag && negb (inAttributeValue ctx) then
               match elementTypeOf tag with
               | DirectiveMetadata.Slot => []
               | _ => filtered cw DirectiveMetadata.getDirectiveNames
               end ++
               (if afterAt ctx || Js.startsWith cw "@"
                then List.map (fun event => "@" +:+ event) DOM_EVENTS else []) ++
               (if afterColon ctx || Js.startsWith cw ":"
                then List.map (fun attr => ":" +:+ attr) HTML_ATTRIBUTES else []) ++
               (if Re.test false upperStartPattern tag then
                  match graph with
                  | Some g =>
                      match Project.resolveComponent g tag with
                      | Some component => Project.props component
                      | None => []
                      end
                  | None => []
                  end
                else []) ++
               (if routerEnabled && String.eqb tag "ZenLink"
                then filtered cw (List.map Router.propName Router.ZENLINK_PROPS) else []) ++
               filtered cw (List.map (fun event => "on" +:+ event) DOM_EVENTS) ++
               filtered cw HTML_ATTRIBUTES
             else []
         | None => []
         end ++
         (if inAttributeValue ctx then
            if Re.test false handlerPattern lineBefore then functions else []
          else []))
      (fst (getProjectGraph dirname detectProjectRoot buildProjectGraph projectGraphs uri)).
Proof.
  intros Hdoc ctx cw script states functions loopVariables routerEnabled lineBefore
         behindBracket typingName.
  unfold onCompletion. rewrite Hdoc. cbv zeta.
  destruct (fst (getProjectGraph dirname detectProjectRoot buildProjectGraph
                   projectGraphs uri)) as [graph|]; [|reflexivity].
  cbn [fst option_map]. f_equal.
  fold ctx. fold script. fold routerEnabled. fold lineBefore.
  destruct (tier_labels cw)
    as ((Hlife & Hrouter & Hfun & Hstate & Hlay & Hcomp & Hhtml & Hdir & Hzprop & Hon & Hattr) &
        (HeS & HeF & HeL & Hroute & Hpath & Hat & Hbind & Hprop & Hhand & Hzen) & _).
  rewrite !List.map_app. f_equal; [|f_equal; [|f_equal; [|f_equal]]].
  - unfold scriptCompletions. fold cw. destruct (inScript ctx); [|reflexivity].
    rewrite !List.map_app, Hlife, Hfun, Hstate.
    f_equal. f_equal; [destruct routerEnabled; [exact Hrouter | reflexivity]|].
    do 2 f_equal. destruct (_ || _); [exact Hpath | reflexivity].
  - unfold expressionCompletions. destruct (inExpression ctx); [|reflexivity].
    rewrite !List.map_app, HeS, HeF, HeL.
    do 3 f_equal. destruct routerEnabled; [exact Hroute | reflexivity].
  - unfold templateCompletions. fold cw.
    destruct (inTemplate ctx && negb (inExpression ctx) && negb (inAttributeValue ctx));
      [|reflexivity].
    cbv zeta. fold behindBracket. fold typingName.
    rewrite !List.map_app, Hzen. f_equal; [|f_equal].
    + destruct graph as [g|]; [|reflexivity].
      destruct (behindBracket || _); [|reflexivity].
      now rewrite List.map_app, Hlay, Hcomp.
    + destruct (behindBracket || _); [exact Hhtml | reflexivity].
  - unfold tagCompletions. fold cw. destruct (tagName ctx) as [tag|]; [|reflexivity].
    destruct (inTag ctx && Js.truthy tag && negb (inAttributeValue ctx)); [|reflexivity].
    rewrite !List.map_app, Hdir, Hon, Hattr.
    f_equal. f_equal; [destruct (_ || _); [exact Hat | reflexivity]|].
    f_equal; [destruct (_ || _); [exact Hbind | reflexivity]|].
    f_equal;
      [|f_equal; destruct (routerEnabled && String.eqb tag "ZenLink");
        [exact Hzprop | reflexivity]].
    destruct (Re.test false upperStartPattern tag); [|reflexivity].
    destruct graph as [g|]; [|reflexivity].
    destruct (Project.resolveComponent g tag) as [component|] eqn:Hc.
    + exact (Hprop tag g component Hc).
    + unfold componentPropTier. now rewrite Hc.
  - unfold attributeValueCompletions. destruct (inAttributeValue ctx); [|reflexivity].
    destruct (Re.test false handlerPattern lineBefore); [apply Hhand | reflexivity].
Qed.

End Request.

(** Requests in a project at [/p] whose graph holds one component, [Card],
    with the prop [title]. *)
Definition braceUri : string := "file:///p/src/pages/index.zen".

Definition cardGraph : Project.ProjectGraph :=
  Project.mkGraph "/p" []
    [("Card", Project.mkComponent "Card" "/p/src/components/Card.zen"
                Project.component ["title"])] [].

Definition labelsAt (text : string) (offset : Z) : option (list string) :=
  option_map (List.map label)
    (fst (onCompletion (fun p => p) (fun _ => Some "/p") (fun _ => Some cardGraph)
            {[ braceUri := text ]} ∅ braceUri offset)).

Definition braceText : string :=
  "<script>import { navigate } from 'zenith/router'" +:+ Js.NL +:+
  "state count = 0" +:+ Js.NL +:+
  "function go() {}</script><ul><li zen:for=" +:+ Js.DQ +:+ "item in items" +:+ Js.DQ +:+
  ">{x".

Definition handlerText : string :=
  "<script>function go() {}</script><button onclick=" +:+ Js.DQ +:+ "x".

Definition zenLinkText : string :=
  "<script>import { navigate } from 'zenith/router'</script>" +:+ Js.NL +:+ "zq".

Definition importText : string := "<script>import x from 'q".

Lemma completion_tiers_filtering_witness :
  ({[ braceUri := braceText ]} : gmap string string) !! braceUri = Some braceText /\
  labelsAt braceText 124
  = Some ["count"; "go"; "item"; "route.path"; "route.params"; "route.query"].
Proof.
  split; [apply lookup_singleton_eq|].
  unfold labelsAt.
  rewrite (completion_tiers_filtering (fun p => p) (fun _ => Some "/p")
             (fun _ => Some cardGraph) {[ braceUri := braceText ]} ∅ braceUri braceText 124
             (lookup_singleton_eq braceUri braceText)).
  vm_compute. reflexivity.
Defined.

(** C4 as stated fails, tier by tier.  Inside braces, with the partial
    identifier [x], every state variable, function, loop variable and route
    field is offered.  Inside a tag, [@change] is offered for [@cl], [:id]
    for [:cl] and the prop [title] of the component for [x].  Inside the
    value of an event handler the function [go] is offered for [x]; behind
    [from '] every module name is offered for [q]; [ZenLink] is offered for
    [zq].  And a tier can be absent where the test passes: outside a tag,
    for the partial identifier [D], no HTML element is offered, and [div]
    passes the test. *)
Lemma tiers_not_filtered_counterexample :
  (currentWord (getPositionContext braceText 124) = "x" /\
   labelsAt braceText 124
   = Some ["count"; "go"; "item"; "route.path"; "route.params"; "route.query"] /\
   startsWithNoCase "count" "x" = false /\ startsWithNoCase "go" "x" = false /\
   startsWithNoCase "item" "x" = false /\ startsWithNoCase "route.path" "x" = false) /\
  (currentWord (getPositionContext "<button @cl" 11) = "@cl" /\
   labelsAt "<button @cl" 11 = Some (List.map (fun event => "@" +:+ event) DOM_EVENTS) /\
   startsWithNoCase "@change" "@cl" = false) /\
  (currentWord (getPositionContext "<div :cl" 8) = ":cl" /\
   labelsAt "<div :cl" 8 = Some (List.map (fun attr => ":" +:+ attr) HTML_ATTRIBUTES) /\
   startsWithNoCase ":id" ":cl" = false) /\
  (currentWord (getPositionContext "<Card x" 7) = "x" /\
   labelsAt "<Card x" 7 = Some ["title"] /\
   startsWithNoCase "title" "x" = false) /\
  (currentWord (getPositionContext handlerText 51) = "x" /\
   labelsAt handlerText 51 = Some ["go"] /\
   startsWithNoCase "go" "x" = false) /\
  (currentWord (getPositionContext importText 24) = "q" /\
   labelsAt importText 24 = Some (List.map fst Imports.getAllModules) /\
   startsWithNoCase "zenith" "q" = false) /\
  (currentWord (getPositionContext zenLinkText 60) = "zq" /\
   labelsAt zenLinkText 60 = Some ["ZenLink"] /\
   startsWithNoCase "ZenLink" "zq" = false) /\
  (currentWord (getPositionContext "D" 1) = "D" /\
   labelsAt "D" 1 = Some [] /\
   In "div" HTML_ELEMENTS /\ startsWithNoCase "div" "D" = true).
Proof. vm_compute. repeat split; try reflexivity. now left. Qed.

End CompletionFacts.

(** ** Hover precedence *)

Module HoverFacts.
Import Server.

(** Every import that the parser records has a specifier that begins with
    [zenith]. *)
Lemma parseLines_zenith lines :
  forall i, Forall (fun imp => Imports.isZenith (Imports.module imp) = true)
                   (Imports.parseLines lines i).
Proof.
  induction lines as [|ln t IH]; intros i; cbn [Imports.parseLines]; [constructor|].
  apply Forall_app. split; [|apply IH].
  unfold Imports.parseLine, Imports.fromImportOf, Imports.sideEffectOf. apply Forall_app. split.
  - destruct (Re.exec false Imports.importPattern ln) as [mt|]; [|constructor].
    destruct (Imports.isZenith (Imports.groupText 5 mt)) eqn:Hz; repeat constructor. exact Hz.
  - destruct (Re.exec false Imports.sideEffectPattern ln) as [mt|]; [|constructor].
    destruct (Re.exec false Imports.importPattern ln); [constructor|].
    destruct (Imports.isZenith (Imports.groupText 1 mt)) eqn:Hz; repeat constructor. exact Hz.
Qed.

(** No member of Object.prototype begins with [zenith]: the lookups of the
    module tables never throw on a recorded import. *)
Lemma zenith_not_inherited {A} (table : list (string * A)) (moduleName key : string) :
  Imports.isZenith moduleName = true ->
  JsObject.get table moduleName <> JsObject.Inherited key.
Proof.
  intros Hz. unfold JsObject.get. destruct (JsObject.own table moduleName); [discriminate|].
  destruct (Js.arrayIncludes JsObject.prototypeKeys moduleName) eqn:Hk; [|discriminate].
  exfalso. unfold Js.arrayIncludes in Hk. apply existsb_exists in Hk.
  destruct Hk as (k & Hin & Heq). apply String.eqb_eq in Heq. subst k.
  cbn in Hin.
  repeat (destruct Hin as [<-|Hin]; [vm_compute in Hz; discriminate Hz|]).
  contradiction.
Qed.

Lemma resolveExport_zenith moduleName word :
  Imports.isZenith moduleName = true ->
  exists e, Imports.resolveExport moduleName word = Some e.
Proof.
  intros Hz. unfold Imports.resolveExport, CoreImports.getCoreExport,
    PluginImports.getPluginExport.
  destruct (CoreImports.isCoreModule moduleName).
  - destruct (JsObject.get CoreImports.CORE_MODULES moduleName) as [md|k|] eqn:Hg;
      [eexists; reflexivity | | eexists; reflexivity].
    exfalso. exact (zenith_not_inherited _ _ _ Hz Hg).
  - destruct (PluginImports.isKnownPluginModule moduleName); [|eexists; reflexivity].
    destruct (JsObject.get PluginImports.PLUGIN_MODULES moduleName) as [md|k|] eqn:Hg;
      [eexists; reflexivity | | eexists; reflexivity].
    exfalso. exact (zenith_not_inherited _ _ _ Hz Hg).
Qed.

(** The first import, in the order of the lines, that lists the word among
    its specifiers and whose module exports it. *)
Fixpoint firstExport (imports : list Imports.ParsedImport) (word : string) : option Hover :=
  match imports with
  | [] => None
  | imp :: more =>
      if Js.arrayIncludes (Imports.specifiers imp) word then
        match Imports.resolveExport (Imports.module imp) word with
        | Some (Some e) =>
            Some (ImportHover word
                    (Imports.kind (Imports.resolveModule (Imports.module imp)))
                    (Imports.module imp) e)
        | _ => firstExport more word
        end
      else firstExport more word
  end.


Section Sources.

Variable dirname : string -> string.
Variable detectProjectRoot : string -> option string.
Variable buildProjectGraph : string -> option Project.ProjectGraph.

(** The nine sources of a hover, each on its own. *)
Definition fromDirective (word : string) : option Hover :=
  if DirectiveMetadata.isDirective word
  then Some (DirectiveHover (DirectiveMetadata.getDirective word)) else None.

Definition fromRouterHook (word : string) : option Hover :=
  if Router.isRouterHook word
  then Some (RouterHookHover (Router.getRouterHook word)) else None.

Definition fromLifecycle (word : string) : option Hover :=
  option_map LifecycleHover
    (List.find (fun h => String.eqb (hookName h) word) LIFECYCLE_HOOKS).

Definition fromZenLink (text word : string) : option Hover :=
  if String.eqb word "ZenLink" &&
     Imports.hasRouterImport (Imports.parseZenithImports (getScriptContent text))
  then Some ZenLinkHover else None.

Definition fromState (text word : string) : option Hover :=
  option_map (StateHover word) (JsMap.get word (extractStates (getScriptContent text))).

Definition fromFunction (text word : string) : option Hover :=
  option_map FunctionHover
    (List.find (fun f => String.eqb (name f) word) (extractFunctions (getScriptContent text))).

Definition fromImport (text word : string) : option Hover :=
  firstExport (Imports.parseZenithImports (getScriptContent text)) word.


Definition fromHtml (word : string) : option Hover :=
  option_map HtmlHover (List.find (fun e => String.eqb e word) HTML_ELEMENTS).

Fixpoint firstSome (sources : list (option Hover)) : option Hover :=
  match sources with
  | [] => None
  | Some h :: _ => Some h
  | None :: more => firstSome more
  end.

(** The sources that are read from the document and the vocabularies
    alone, in the order of the handler. *)
Definition documentSources (text word : string) : list (option Hover) :=
  [fromDirective word; fromRouterHook word; fromLifecycle word;
   fromZenLink text word; fromState text word; fromFunction text word;
   fromImport text word].


End Sources.

(** A project at [/p] whose [src/layouts] exists and cannot be listed (a
    directory that the server may not read, or a plain file of that name):
    [readdirSync] throws there.  Nothing else is on the disk. *)
Definition brokenExists (p : string) : bool :=
  existsb (String.eqb p) ["/p/src"; "/p/src/layouts"].

Definition brokenReaddir (d : string) : option (list (string * bool)) :=
  if String.eqb d "/p/src/layouts" then None else Some [].

Definition brokenJoin (a b : string) : string := a +:+ "/" +:+ b.

Definition brokenBasename (nm ext : string) : string :=
  if Js.endsWith nm ext then Js.take (String.length nm - String.length ext) nm else nm.

Definition brokenDirname (p : string) : string :=
  if String.eqb p "/p/src/pages/index.zen" then "/p/src/pages"
  else if String.eqb p "/p/src/pages" then "/p/src"
  else if String.eqb p "/p/src" then "/p"
  else "/".

(** [detectProjectRoot] and [buildProjectGraph] of project.ts on that disk:
    a builder that throws makes the call throw. *)
Definition brokenDetect (start : string) : option string :=
  match Project.detectProjectRoot brokenExists brokenJoin brokenDirname 8 start with
  | Project.Returns r => r
  | _ => None
  end.

Definition brokenBuild (root : string) : option Project.ProjectGraph :=
  match
    Project.buildProjectGraph brokenExists brokenReaddir (fun _ => None) brokenJoin
      brokenBasename 8 root
  with
  | Project.Returns graph => Some graph
  | _ => None
  end.

Definition brokenUri : string := "file:///p/src/pages/index.zen".
Definition brokenText : string := "<div>".

(** C7, on the code.  A hover on [div] in the open document [<div>] of the
    project at [/p], whose graph is not cached and whose [src/layouts]
    cannot be listed.  The word at the cursor is [div]; no source before the
    HTML vocabulary matches and the HTML vocabulary does, so that by the
    claim the result is the hover of the element [div].  The handler throws
    instead: the builder throws at its [readdirSync], whatever the bound on
    the depth, [getProjectGraph] passes that on, and so does the handler;
    the cache stays empty. *)
Theorem hover_throws_on_unreadable_layouts :
  wordAt brokenText 2 = "div" /\
  firstSome (documentSources brokenText "div") = None /\
  fromHtml "div" = Some (HtmlHover "div") /\
  rootOf brokenDirname brokenDetect brokenUri = Some "/p" /\
  (forall depth,
      Project.buildProjectGraph brokenExists brokenReaddir (fun _ => None) brokenJoin
        brokenBasename (S depth) "/p" = Project.Throws) /\
  getProjectGraph brokenDirname brokenDetect brokenBuild ∅ brokenUri = (None, ∅) /\
  onHover brokenDirname brokenDetect brokenBuild {[ brokenUri := brokenText ]} ∅ brokenUri 2
  = (None, ∅).
Proof.
  split; [vm_compute; reflexivity|].
  split; [vm_compute; reflexivity|].
  split; [vm_compute; reflexivity|].
  split; [vm_compute; reflexivity|].
  split; [intros depth; reflexivity|].
  split; vm_compute; reflexivity.
Qed.

End HoverFacts.

(** ** Directive diagnostics *)

Module DirectiveDiagnosticsFacts.
Import StrFacts Re ReFacts DirectiveMetadata Diagnostics.






(** *** The directive pattern at an occurrence *)

Definition quoteB : ascii -> bool := classMatches false false [Ch "'"; Ch Js.dq].
Definition notQuoteB : ascii -> bool := classMatches false true [Ch "'"; Ch Js.dq].










(** *** The two findings *)







(** *** When the engine returns *)


Section Returns.

Variable newRegExp : string -> option (string -> option (nat * string)).





End Returns.










End DirectiveDiagnosticsFacts.

(** ** State declarations *)

Module StateFacts.
Import Re ReFacts StrFacts Server.

(** The character classes of the declared-state pattern. *)
Definition identStartB : ascii -> bool :=
  classMatches false false [Rg "a" "z"; Rg "A" "Z"; Ch "_"; Ch "$"].
Definition identCharB : ascii -> bool :=
  classMatches false false [Rg "a" "z"; Rg "A" "Z"; Rg "0" "9"; Ch "_"; Ch "$"].
(** Any character but [;] and the newline. *)
Definition initB : ascii -> bool := classMatches false true [Ch ";"; Ch Js.nl].

(** An identifier: a letter, [_] or [$], then letters, digits, [_], [$]. *)
Definition identifier (nm : string) : bool :=
  match nm with
  | String c t => identStartB c && allb identCharB t
  | EmptyString => false
  end.

Lemma prefixOf_exact s w :
  prefixOf false s w = true -> s = w +:+ Js.drop (String.length w) s.
Proof.
  revert s. induction w as [|b w IH]; intros s H; cbn in *; [reflexivity|].
  destruct s as [|a t]; [discriminate|].
  apply andb_prop in H. destruct H as [Hab Ht].
  apply Ascii.eqb_eq in Hab. cbn in Hab. subst. rewrite app_cons. cbn. f_equal. apply IH, Ht.
Qed.

(** What a match of the declared-state pattern at a state looks like in the
    text: the keyword, white space, an identifier, optional white space,
    [=], optional white space, and an initializer that runs to the next
    [;] or newline or to the end of the text. *)
Lemma statePattern_sound pv s i cs y :
  m false statePattern (mkState pv s i cs) Some = Some y ->
  exists w1 nm w2 w3 init post,
    s = "state" +:+ w1 +:+ nm +:+ w2 +:+ "=" +:+ w3 +:+ init +:+ post /\
    w1 <> "" /\ allb spaceB w1 = true /\ identifier nm = true /\
    allb spaceB w2 = true /\ allb spaceB w3 = true /\
    init <> "" /\ allb initB init = true /\ stops initB post = true /\
    rest y = post /\
    pos y = i + 5 + String.length w1 + String.length nm + String.length w2 + 1 +
            String.length w3 + String.length init /\
    caps y = (2, (i + 5 + String.length w1 + String.length nm + String.length w2 + 1 +
                  String.length w3, pos y))
             :: (1, (i + 5 + String.length w1,
                     i + 5 + String.length w1 + String.length nm)) :: cs.
Proof.
  unfold statePattern, ident, Server.identStart, DirectiveMetadata.identStart, identChar, ws.
  intros H. rewrite m_cat, m_lit in H.
  destruct (prefixOf false s "state") eqn:Hpre; [|discriminate].
  apply prefixOf_exact in Hpre. set (s1 := Js.drop (String.length "state") s) in *.
  clearbody s1. subst s. rewrite take_app in H.
  unfold after in H. cbn [String.length lastOr] in H. rewrite m_cat, m_plus_cls in H.
  destruct s1 as [|a t]; [discriminate|].
  destruct (classMatches false false [Sp] a) eqn:Ha; [|discriminate].
  apply starK_sound in H. destruct H as (w & s2 & -> & Hw & H).
  unfold after in H. rewrite m_cat, m_grp, m_cat, m_cls in H. cbn [rest] in H.
  destruct s2 as [|b t2]; [discriminate|].
  destruct (classMatches false false _ b) eqn:Hb; [|discriminate].
  unfold advance in H. cbn [pos caps prev rest] in H. rewrite m_star_cls in H.
  apply starK_sound in H. destruct H as (w' & s3 & -> & Hw' & H).
  unfold after, setCap in H. cbn [pos caps prev rest] in H.
  rewrite m_cat, m_star_cls in H.
  apply starK_sound in H. destruct H as (w2 & s4 & -> & Hw2 & H).
  unfold after in H. rewrite m_cat, m_chr in H. cbn [rest] in H.
  destruct s4 as [|c t4]; [discriminate|].
  destruct (Ascii.eqb (canon false c) (canon false "=")) eqn:Hc; [|discriminate].
  apply Ascii.eqb_eq in Hc. cbn in Hc. subst c.
  unfold advance in H. cbn [pos caps prev rest] in H. rewrite m_cat, m_star_cls in H.
  apply starK_sound in H. destruct H as (w3 & s5 & -> & Hw3 & H).
  unfold after in H. rewrite m_grp, m_plus_cls in H.
  destruct s5 as [|d t5]; [discriminate|].
  destruct (classMatches false true _ d) eqn:Hd; [|discriminate].
  cbn [pos] in H.
  match type of H with
  | starK _ (fun y0 => Some (setCap 2 ?n (pos y0) y0)) ?p ?t ?j ?c = _ =>
      destruct (starK_greedy initB (fun y0 => setCap 2 n (pos y0) y0) t p j c)
        as (w5 & post & -> & Hw5 & Hstop & Hk)
  end.
  unfold initB in Hk, Hw5, Hstop. cbn beta in Hk. rewrite Hk in H. injection H as <-.
  exists (String a w), (String b w'), w2, w3, (String d w5), post.
  unfold after, setCap. cbn [rest pos caps identifier allb String.length].
  unfold spaceB, identStartB, identCharB, initB.
  rewrite Ha, Hb, Hd, Hw, Hw', Hw2, Hw3, Hw5, Hstop.
  rewrite !app_cons. repeat split; try reflexivity; try discriminate; try lia.
  repeat (f_equal; try lia).
Qed.


Lemma identStart_not_space c : identStartB c = true -> spaceB c = false.
Proof. all_chars c. Qed.

Lemma space_not_identChar c : spaceB c = true -> identCharB c = false.
Proof. all_chars c. Qed.

Lemma stops_app p (w s : string) :
  w <> "" -> stops p w = true -> stops p (w +:+ s) = true.
Proof. destruct w as [|c t]; [congruence|]. intros _ H. rewrite app_cons. exact H. Qed.

(** A declaration in the text whose initializer begins with a character
    that is no white space is matched as it stands. *)
Lemma statePattern_complete pv i cs w1 nm w2 w3 init post :
  w1 <> "" -> allb spaceB w1 = true -> identifier nm = true ->
  allb spaceB w2 = true -> allb spaceB w3 = true ->
  init <> "" -> allb initB init = true -> stops spaceB init = true ->
  stops initB post = true ->
  exists y,
    m false statePattern
      (mkState pv ("state" +:+ w1 +:+ nm +:+ w2 +:+ "=" +:+ w3 +:+ init +:+ post) i cs)
      Some = Some y /\
    rest y = post /\
    pos y = i + 5 + String.length w1 + String.length nm + String.length w2 + 1 +
            String.length w3 + String.length init /\
    caps y = (2, (i + 5 + String.length w1 + String.length nm + String.length w2 + 1 +
                  String.length w3, pos y))
             :: (1, (i + 5 + String.length w1,
                     i + 5 + String.length w1 + String.length nm)) :: cs.
Proof.
  intros Hne1 Hw1 Hnm Hw2 Hw3 Hnei Hinit Hfirst Hpost.
  destruct w1 as [|a w]; [congruence|]. destruct nm as [|b w']; [discriminate|].
  destruct init as [|d w5]; [congruence|].
  cbn [allb identifier] in Hw1, Hnm, Hinit. cbn [stops] in Hfirst.
  apply andb_prop in Hw1, Hnm, Hinit.
  destruct Hw1 as [Ha Hw], Hnm as [Hb Hw'], Hinit as [Hd Hw5].
  unfold spaceB, identStartB, identCharB, initB in *.
  eexists. split.
  - unfold statePattern, ident, Server.identStart, DirectiveMetadata.identStart, identChar, ws.
    rewrite m_cat, m_lit, prefixOf_app, take_app, drop_app.
    unfold after. cbn [String.length lastOr]. rewrite m_cat, m_plus_cls, app_cons, Ha.
    apply starK_at_max; [exact Hw | |].
    { rewrite app_cons. cbn [stops]. apply negb_true_iff.
      now apply identStart_not_space. }
    unfold after. rewrite m_cat, m_grp, m_cat, m_cls. cbn [rest]. rewrite app_cons, Hb.
    unfold advance. cbn [pos caps prev rest]. rewrite m_star_cls.
    apply starK_at_max; [exact Hw' | |].
    { destruct w2 as [|c t]; [reflexivity|]. rewrite app_cons. cbn [stops].
      apply negb_true_iff. apply space_not_identChar.
      cbn [allb] in Hw2. apply andb_prop in Hw2. tauto. }
    unfold after, setCap. cbn [pos caps prev rest]. rewrite m_cat, m_star_cls.
    apply starK_at_max; [exact Hw2 | reflexivity |].
    unfold after. rewrite m_cat, m_chr. cbn [rest].
    change ("=" +:+ w3 +:+ String d w5 +:+ post)
      with (String "=" (w3 +:+ String d w5 +:+ post)).
    cbn iota. rewrite Ascii.eqb_refl.
    unfold advance. cbn [pos caps prev rest]. rewrite m_cat, m_star_cls.
    apply starK_at_max; [exact Hw3 | rewrite app_cons; exact Hfirst |].
    unfold after. rewrite m_grp, m_plus_cls, app_cons, Hd.
    apply starK_at_max; [exact Hw5 | exact Hpost | reflexivity].
  - unfold after, setCap. cbn [rest pos caps String.length].
    repeat split; try lia. repeat (f_equal; try lia).
Qed.


(** *** The scan of a script *)

(** A declaration in the text of a script: where it begins and ends, its
    identifier and its initializer. *)
Record Declaration : Type := mkDecl {
  dStart : nat;
  dName : string;
  dInit : string;
  dStop : nat
}.

(** The text is: something, the keyword, white space, the identifier,
    optional white space, [=], optional white space, the initializer, and a
    remainder that is empty or begins with [;] or a newline. *)
Definition declared (script : string) (d : Declaration) : Prop :=
  exists pre w1 w2 w3 post,
    script = pre +:+ "state" +:+ w1 +:+ dName d +:+ w2 +:+ "=" +:+ w3 +:+ dInit d +:+ post /\
    String.length pre = dStart d /\
    w1 <> "" /\ allb spaceB w1 = true /\ identifier (dName d) = true /\
    allb spaceB w2 = true /\ allb spaceB w3 = true /\
    dInit d <> "" /\ allb initB (dInit d) = true /\ stops initB post = true /\
    dStop d = dStart d + 5 + String.length w1 + String.length (dName d) +
              String.length w2 + 1 + String.length w3 + String.length (dInit d).

(** The match is the match of that declaration. *)
Definition found (mt : result) (d : Declaration) : Prop :=
  index mt = dStart d /\ stop mt = dStop d /\
  group 1 mt = Some (dName d) /\ group 2 mt = Some (dInit d).

Lemma drop_pre (a b : string) (n : nat) :
  String.length a = n -> Js.drop n (a +:+ b) = b.
Proof. intros <-. apply drop_app. Qed.

Lemma take_pre (a b : string) (n : nat) :
  String.length a = n -> Js.take n (a +:+ b) = a.
Proof. intros <-. apply take_app. Qed.

(** A match of the pattern at position [j] of the text, as a declaration. *)
Lemma match_declared text pre p y :
  m false statePattern (mkState p (Js.drop (String.length pre) text) (String.length pre) [])
    Some = Some y ->
  text = pre +:+ Js.drop (String.length pre) text ->
  exists d pre',
    declared text d /\ found (toResult text (String.length pre, y)) d /\
    String.length pre < pos y /\
    text = pre' +:+ rest y /\ String.length pre' = pos y.
Proof.
  intros Hm Htext. apply statePattern_sound in Hm.
  destruct Hm as (w1 & nm & w2 & w3 & init & post & Hs & Hne1 & Hw1 & Hnm & Hw2 & Hw3 &
                  Hnei & Hinit & Hpost & Hrest & Hpos & Hcaps).
  rewrite Hs in Htext. clear Hs.
  exists (mkDecl (String.length pre) nm init (pos y)),
         (pre +:+ "state" +:+ w1 +:+ nm +:+ w2 +:+ "=" +:+ w3 +:+ init).
  split; [|split; [|split; [|split]]].
  - exists pre, w1, w2, w3, post. cbn [dStart dName dInit dStop].
    repeat split; try assumption; lia.
  - unfold found, toResult, group. cbn [fst snd index stop captures subject dStart dName dInit dStop].
    rewrite Hcaps. cbn [lookupCap Nat.eqb].
    repeat split.
    + f_equal. rewrite Htext at 1.
      replace (String.length pre + 5 + String.length w1)
        with (String.length pre + (String.length "state" + String.length w1))
        by (cbn [String.length]; lia).
      rewrite drop_add, drop_app, drop_add, drop_app, drop_app.
      apply take_pre. lia.
    + f_equal. rewrite Htext at 1.
      replace (String.length pre + 5 + String.length w1 + String.length nm +
               String.length w2 + 1 + String.length w3)
        with (String.length pre + (String.length "state" + (String.length w1 +
              (String.length nm + (String.length w2 + (String.length "=" +
               String.length w3))))))
        by (cbn [String.length]; lia).
      rewrite !drop_add, !drop_app.
      apply take_pre. cbn [String.length]. lia.
  - lia.
  - rewrite Hrest. rewrite Htext at 1. now rewrite !app_assoc.
  - rewrite !length_app. cbn [String.length]. lia.
Qed.

Definition byIndex (a b : nat * state) : Prop := fst a < fst b.

(** Every match that the scan returns is a declaration in the text, and the
    matches come in the order of the text. *)
Lemma scan_sound text fuel :
  forall pre s p,
    text = pre +:+ s ->
    Forall (fun jy => String.length pre <= fst jy /\
                      exists d, declared text d /\ found (toResult text jy) d)
           (scan false statePattern fuel p s (String.length pre)) /\
    StronglySorted byIndex (scan false statePattern fuel p s (String.length pre)).
Proof.
  induction fuel as [|fuel IH]; intros pre s p Htext; cbn [scan].
  - split; constructor.
  - destruct (search false statePattern p s (String.length pre)) as [[j y]|] eqn:Hsearch;
      [|split; constructor].
    apply search_spec in Hsearch.
    destruct Hsearch as (w & s' & -> & -> & Hm & _).
    assert (Hlen : String.length pre + String.length w = String.length (pre +:+ w))
      by now rewrite length_app.
    assert (Hdrop : s' = Js.drop (String.length (pre +:+ w)) text).
    { rewrite Htext, <- app_assoc. now rewrite drop_app. }
    rewrite Hlen in *. rewrite Hdrop in Hm.
    destruct (match_declared text (pre +:+ w) _ y Hm) as
      (d & pre' & Hdecl & Hfound & Hlt & Hrest & Hpre').
    { rewrite <- Hdrop, Htext. now rewrite app_assoc. }
    replace (pos y =? String.length (pre +:+ w))%nat with false
      by (symmetry; apply Nat.eqb_neq; lia).
    rewrite <- Hpre'. destruct (IH pre' (rest y) (prev y) Hrest) as [IHa IHb].
    split.
    + constructor.
      * cbn [fst]. split; [rewrite length_app; lia|]. exists d. auto.
      * eapply List.Forall_impl; [|exact IHa]. cbn beta.
        intros jy [Hle Hd]. split; [|exact Hd]. rewrite length_app in *. lia.
    + constructor; [exact IHb|].
      eapply List.Forall_impl; [|exact IHa]. cbn beta.
      intros jy [Hle _]. unfold byIndex. cbn [fst]. lia.
Qed.


(** A declaration whose initializer begins with a character that is no
    white space, and that no earlier match runs over, is found by the
    scan. *)
Lemma scan_complete text d :
  declared text d -> stops spaceB (dInit d) = true ->
  forall fuel pre s p,
    text = pre +:+ s -> String.length pre <= dStart d -> String.length s < fuel ->
    (forall jy, In jy (scan false statePattern fuel p s (String.length pre)) ->
                fst jy < dStart d -> pos (snd jy) <= dStart d) ->
    exists jy, In jy (scan false statePattern fuel p s (String.length pre)) /\
               found (toResult text jy) d.
Proof.
  intros (dpre & w1 & w2 & w3 & post & Htext & Hdpre & Hne1 & Hw1 & Hnm & Hw2 & Hw3 &
          Hnei & Hinit & Hpost & Hstop) Hfirst fuel pre s p Hs Hle Hfuel Hover.
  assert (Hsplit : exists w, dpre = pre +:+ w /\
            s = w +:+ "state" +:+ w1 +:+ dName d +:+ w2 +:+ "=" +:+ w3 +:+ dInit d +:+ post).
  { apply app_split; [now rewrite <- Hs, <- Htext | lia]. }
  destruct Hsplit as (w & Hw & Hsw).
  assert (Hlenw : String.length pre + String.length w = dStart d)
    by (rewrite <- Hdpre, Hw, length_app; reflexivity).
  destruct (statePattern_complete (lastOr p w) (dStart d) []
              w1 (dName d) w2 w3 (dInit d) post) as (y' & Hm' & Hrest' & Hpos' & Hcaps');
    try assumption.
  exists (dStart d, y'). split.
  - apply (scan_finds false statePattern _ _ _ y' Hm' fuel s p (String.length pre) w);
      [exact Hsw | now rewrite Hlenw | reflexivity | exact Hfuel | exact Hover].
  - unfold found, toResult, group. cbn [fst snd index stop captures subject].
    rewrite Hcaps'. cbn [lookupCap Nat.eqb]. rewrite Hpos'.
    repeat split; try lia.
    + f_equal. rewrite Htext at 1.
      replace (dStart d + 5 + String.length w1)
        with (String.length dpre + (String.length "state" + String.length w1))
        by (cbn [String.length]; lia).
      rewrite drop_add, drop_app, drop_add, drop_app, drop_app.
      apply take_pre. lia.
    + f_equal. rewrite Htext at 1.
      replace (dStart d + 5 + String.length w1 +
               String.length (dName d) + String.length w2 + 1 + String.length w3)
        with (String.length dpre + (String.length "state" + (String.length w1 +
              (String.length (dName d) + (String.length w2 + (String.length "=" +
               String.length w3))))))
        by (cbn [String.length]; lia).
      rewrite !drop_add, !drop_app.
      apply take_pre. cbn [String.length]. lia.
Qed.


(** *** The Map of states *)

Lemma get_set_eq {V} (k : string) (v : V) (mp : list (string * V)) :
  JsMap.get k (JsMap.set k v mp) = Some v.
Proof.
  induction mp as [|[k' v'] t IH]; cbn.
  - now rewrite String.eqb_refl.
  - destruct (String.eqb_spec k' k) as [->|N]; cbn.
    + now rewrite String.eqb_refl.
    + destruct (String.eqb_spec k' k); [contradiction | exact IH].
Qed.

Lemma get_set_ne {V} (k k' : string) (v : V) (mp : list (string * V)) :
  k <> k' -> JsMap.get k' (JsMap.set k v mp) = JsMap.get k' mp.
Proof.
  intros N. induction mp as [|[k0 v0] t IH]; cbn.
  - destruct (String.eqb_spec k k'); [contradiction | reflexivity].
  - destruct (String.eqb_spec k0 k) as [->|N0]; cbn.
    + destruct (String.eqb_spec k k'); [contradiction | reflexivity].
    + destruct (String.eqb_spec k0 k'); [reflexivity | exact IH].
Qed.

(** The last match, in the order of the scan, whose identifier is [nm]. *)
Definition lastNamed (nm : string) (ms : list result) : option result :=
  List.find (fun mt => String.eqb (Imports.groupText 1 mt) nm) (List.rev ms).

Definition recorded (mt : result) : Prop :=
  Imports.groupTruthy 1 mt && Imports.groupTruthy 2 mt = true.

(** Later entries of the scan overwrite earlier ones. *)
Lemma fold_recordState ms :
  forall acc nm,
    Forall recorded ms ->
    JsMap.get nm (List.fold_left recordState ms acc)
    = match lastNamed nm ms with
      | Some mt => Some (Js.trim (Imports.groupText 2 mt))
      | None => JsMap.get nm acc
      end.
Proof.
  induction ms as [|mt ms IH] using rev_ind; intros acc nm Hrec; [reflexivity|].
  apply Forall_app in Hrec. destruct Hrec as [Hms Hmt].
  apply Forall_inv in Hmt. unfold recorded in Hmt.
  rewrite List.fold_left_app. cbn [List.fold_left]. unfold lastNamed.
  rewrite List.rev_app_distr. cbn [List.rev app List.find].
  unfold recordState at 1. rewrite Hmt.
  destruct (String.eqb_spec (Imports.groupText 1 mt) nm) as [<-|N].
  - apply get_set_eq.
  - rewrite get_set_ne by exact N. now apply IH.
Qed.

Lemma identifier_truthy nm : identifier nm = true -> Js.truthy nm = true.
Proof. now destruct nm. Qed.

Lemma found_recorded mt d script : declared script d -> found mt d -> recorded mt.
Proof.
  intros (pre & w1 & w2 & w3 & post & _ & _ & _ & _ & Hnm & _ & _ & Hnei & _) (_ & _ & G1 & G2).
  unfold recorded, Imports.groupTruthy. rewrite G1, G2.
  rewrite (identifier_truthy _ Hnm). now destruct (dInit d).
Qed.

Lemma find_app {A} (P : A -> bool) (l1 l2 : list A) :
  List.find P (l1 ++ l2)
  = match List.find P l1 with Some z => Some z | None => List.find P l2 end.
Proof.
  induction l1 as [|x l1 IH]; cbn; [reflexivity|]. now destruct (P x).
Qed.

(** The last element that satisfies [P] stands at or after any element
    that satisfies [P]. *)
Lemma find_rev_after {A} (P : A -> bool) (l1 l2 : list A) (x : A) :
  P x = true ->
  exists z, List.find P (List.rev (l1 ++ x :: l2)) = Some z /\ (z = x \/ In z l2).
Proof.
  intros Hx. rewrite List.rev_app_distr. cbn [List.rev]. rewrite <- List.app_assoc.
  rewrite find_app. destruct (List.find P (List.rev l2)) as [z|] eqn:Hz.
  - exists z. split; [reflexivity|]. right.
    apply List.find_some in Hz. apply List.in_rev. tauto.
  - cbn. rewrite Hx. exists x. auto.
Qed.

Lemma sorted_tail {A} (R : A -> A -> Prop) (l1 l2 : list A) :
  StronglySorted R (l1 ++ l2) -> StronglySorted R l2.
Proof.
  induction l1 as [|x l1 IH]; cbn; [auto|].
  intros H. apply StronglySorted_inv in H. tauto.
Qed.

(** C5, amended.  For every script text: (1) every match of the
    left-to-right scan for the declared-state pattern is a declaration in
    the text (keyword, white space, identifier, [=], initializer), whose
    initializer runs up to, and does not include, the next [;] or newline
    or the end of the text; (2) [extractStates] maps an identifier to the
    trimmed initializer of the last match with that identifier, and has no
    entry for an identifier that no match has; (3) a declaration whose
    initializer begins with a character that is no white space, and that
    no earlier match runs over, is found by the scan, so that its
    identifier is in the Map, with the trimmed initializer of this
    declaration unless a later match has the same identifier. *)
Theorem extractStates_last_scanned_declaration (script : string) :
  let ms := matchAll false statePattern script in
  (forall mt, In mt ms -> exists d, declared script d /\ found mt d) /\
  (forall nm,
      JsMap.get nm (extractStates script)
      = option_map (fun mt => Js.trim (Imports.groupText 2 mt)) (lastNamed nm ms)) /\
  (forall d,
      declared script d -> stops spaceB (dInit d) = true ->
      (forall mt, In mt ms -> index mt < dStart d -> stop mt <= dStart d) ->
      exists mt mt',
        In mt ms /\ found mt d /\
        lastNamed (dName d) ms = Some mt' /\ dStart d <= index mt' /\
        JsMap.get (dName d) (extractStates script)
        = Some (Js.trim (Imports.groupText 2 mt')) /\
        (index mt' = dStart d -> Imports.groupText 2 mt' = dInit d)).
Proof.
  cbn zeta. unfold matchAll.
  destruct (scan_sound script (S (String.length script)) "" script None eq_refl)
    as [Hsound Hsorted].
  cbn [String.length] in Hsound, Hsorted.
  set (sc := scan false statePattern (S (String.length script)) None script 0) in *.
  assert (H1 : forall mt, In mt (List.map (toResult script) sc) ->
                          exists d, declared script d /\ found mt d).
  { intros mt Hin. apply List.in_map_iff in Hin. destruct Hin as (jy & <- & Hin).
    rewrite List.Forall_forall in Hsound. destruct (Hsound jy Hin) as [_ Hd]. exact Hd. }
  assert (H2 : forall nm,
      JsMap.get nm (extractStates script)
      = option_map (fun mt => Js.trim (Imports.groupText 2 mt))
          (lastNamed nm (List.map (toResult script) sc))).
  { intros nm. unfold extractStates, matchAll. fold sc.
    rewrite fold_recordState.
    - now destruct (lastNamed nm _).
    - apply List.Forall_forall. intros mt Hin.
      destruct (H1 mt Hin) as (d & Hd & Hf). exact (found_recorded _ _ _ Hd Hf). }
  split; [exact H1|]. split; [exact H2|].
  intros d Hdecl Hfirst Hover.
  destruct (scan_complete script d Hdecl Hfirst (S (String.length script)) "" script None
              eq_refl) as (jy & Hin & Hfound).
  - cbn. lia.
  - lia.
  - cbn [String.length]. fold sc. intros jy Hin. apply (Hover (toResult script jy)).
    now apply List.in_map.
  - cbn [String.length] in Hin. fold sc in Hin.
    exists (toResult script jy).
    apply List.in_split in Hin. destruct Hin as (l1 & l2 & Hsc).
    assert (Hname : String.eqb (Imports.groupText 1 (toResult script jy)) (dName d) = true).
    { destruct Hfound as (_ & _ & G1 & _). unfold Imports.groupText. rewrite G1.
      apply String.eqb_refl. }
    destruct (find_rev_after
                (fun mt => String.eqb (Imports.groupText 1 mt) (dName d))
                (List.map (toResult script) l1) (List.map (toResult script) l2)
                (toResult script jy) Hname) as (mt' & Hlast & Hwhere).
    assert (Hms : List.map (toResult script) sc
                  = List.map (toResult script) l1 ++
                    toResult script jy :: List.map (toResult script) l2)
      by (rewrite Hsc, List.map_app; reflexivity).
    exists mt'. split; [rewrite Hms; apply List.in_elt|]. split; [exact Hfound|].
    unfold lastNamed at 1. rewrite Hms. split; [exact Hlast|].
    assert (Horder : mt' = toResult script jy \/ index (toResult script jy) < index mt').
    { destruct Hwhere as [->|Hin2]; [now left | right].
      apply List.in_map_iff in Hin2. destruct Hin2 as (jy2 & <- & Hin2).
      rewrite Hsc in Hsorted. apply sorted_tail in Hsorted.
      apply StronglySorted_inv in Hsorted. destruct Hsorted as [_ Hall].
      rewrite List.Forall_forall in Hall. exact (Hall jy2 Hin2). }
    destruct Hfound as (Hidx & Hstop & G1 & G2).
    split; [destruct Horder as [->|Hlt]; lia|]. split.
    + rewrite H2. unfold lastNamed. rewrite Hms, Hlast. reflexivity.
    + intros Heq. destruct Horder as [->|Hlt]; [|lia].
      unfold Imports.groupText. now rewrite G2.
Qed.


Definition twiceScript : string := "state a = 1; state a = 2".

Lemma extractStates_last_scanned_declaration_witness :
  exists mt mt',
    In mt (matchAll false statePattern twiceScript) /\
    found mt (mkDecl 13 "a" "2" 24) /\
    lastNamed "a" (matchAll false statePattern twiceScript) = Some mt' /\
    13 <= index mt' /\
    JsMap.get "a" (extractStates twiceScript) = Some (Js.trim (Imports.groupText 2 mt')) /\
    (index mt' = 13 -> Imports.groupText 2 mt' = "2").
Proof.
  apply (proj2 (proj2 (extractStates_last_scanned_declaration twiceScript))
           (mkDecl 13 "a" "2" 24)).
  - exists "state a = 1; ", " ", " ", " ", "". cbn [dStart dName dInit dStop].
    repeat split; try reflexivity; discriminate.
  - reflexivity.
  - vm_compute. intros mt [<-|[<-|[]]]; cbn; lia.
Defined.

Definition swallowedScript : string := "state a =" +:+ Js.NL +:+ "state b = 2".

(** C5 as stated fails: the second line declares [b] with the initializer
    [2], and the Map has no entry for [b]; the match for [a] runs over the
    newline behind its [=] and takes the second line as its initializer. *)
Lemma swallowed_declaration_counterexample :
  declared swallowedScript (mkDecl 10 "b" "2" 21) /\
  extractStates swallowedScript = [("a", "state b = 2")] /\
  JsMap.get "b" (extractStates swallowedScript) = None.
Proof.
  split; [|split; vm_compute; reflexivity].
  exists ("state a =" +:+ Js.NL), " ", " ", " ", "". cbn [dStart dName dInit dStop].
  repeat split; try reflexivity; discriminate.
Qed.

End StateFacts.

(** ** The region classifier *)

Module RegionFacts.
Import Re ReFacts StrFacts Server.

Definition isGt (c : ascii) : bool := Ascii.eqb c ">".
Definition isLt (c : ascii) : bool := Ascii.eqb c "<".
Definition notGt (c : ascii) : bool := negb (isGt c).

(** The text up to the first [>] and the text behind it. *)
Fixpoint splitGt (s : string) : option (string * string) :=
  match s with
  | EmptyString => None
  | String c t =>
      if isGt c then Some (EmptyString, t)
      else match splitGt t with
           | Some (u, v) => Some (String c u, v)
           | None => None
           end
  end.

Lemma splitGt_spec s u v :
  splitGt s = Some (u, v) -> s = u +:+ String ">" v /\ allb notGt u = true.
Proof.
  revert u v. induction s as [|c t IH]; intros u v H; cbn in H; [discriminate|].
  destruct (isGt c) eqn:Hc.
  - injection H as <- <-. apply Ascii.eqb_eq in Hc. subst c. auto.
  - destruct (splitGt t) as [[u' v']|]; [|discriminate]. injection H as <- <-.
    destruct (IH u' v' eq_refl) as [-> Hu]. rewrite app_cons. cbn. unfold notGt at 1.
    now rewrite Hc, Hu.
Qed.

Lemma splitGt_app s u v x :
  splitGt s = Some (u, v) -> splitGt (s +:+ x) = Some (u, v +:+ x).
Proof.
  revert u v. induction s as [|c t IH]; intros u v H; cbn in H; [discriminate|].
  rewrite app_cons. cbn. destruct (isGt c); [now injection H as <- <-|].
  destruct (splitGt t) as [[u' v']|]; [|discriminate]. injection H as <- <-.
  now rewrite (IH u' v' eq_refl).
Qed.

Lemma canon_gt c : Ascii.eqb (canon true c) (canon true ">") = isGt c.
Proof. all_chars c. Qed.

Lemma cls_notGt c : classMatches true true [Ch ">"] c = notGt c.
Proof. all_chars c. Qed.

Lemma canon_is_gt b : isGt (canon true b) = true -> isGt b = true.
Proof. all_chars b. Qed.

Lemma canon_is_lt b : isLt (canon true b) = true -> isLt b = true.
Proof. all_chars b. Qed.

(** [[^>]*>]: up to the first [>]. *)
Lemma m_upto_gt t :
  forall p i cs,
    m true (Cat (Star (Cls true [Ch ">"])) (Chr ">")) (mkState p t i cs) Some
    = match splitGt t with
      | Some (u, v) => Some (mkState (Some ">"%char) v (i + String.length u + 1) cs)
      | None => None
      end.
Proof.
  intros p i cs. rewrite m_cat, m_star_cls. revert p i.
  induction t as [|c r IH]; intros p i; cbn [starK splitGt].
  - reflexivity.
  - rewrite cls_notGt. unfold notGt. rewrite m_chr. cbn [rest]. rewrite canon_gt.
    destruct (isGt c) eqn:Hc; cbn [negb].
    + unfold advance. cbn. apply Ascii.eqb_eq in Hc. subst c.
      do 2 f_equal. lia.
    + rewrite IH. destruct (splitGt r) as [[u v]|]; cbn [orElse]; [|reflexivity].
      do 2 f_equal. cbn [String.length]. lia.
Qed.

Definition noGt (w : string) : bool := allb notGt w.

Lemma m_eps ic x k : m ic Eps x k = k x.
Proof. reflexivity. Qed.

Lemma lit_cons ic b w R x k :
  m ic (Cat (Lit (String b w)) R) x k = m ic (Cat (Chr b) (Cat (Lit w) R)) x k.
Proof. destruct w; reflexivity. Qed.

Lemma canon_eq_notGt c b :
  Ascii.eqb (canon true c) (canon true b) = true -> notGt b = true -> isGt c = false.
Proof.
  intros E Hb. apply Ascii.eqb_eq in E. destruct (isGt c) eqn:Hc; [|reflexivity].
  apply Ascii.eqb_eq in Hc. subst c. unfold notGt in Hb.
  rewrite (canon_is_gt b) in Hb; [discriminate|].
  rewrite <- E. reflexivity.
Qed.

(** An opening marker: the word, then anything up to the first [>]. *)
Lemma m_open w :
  noGt w = true ->
  forall t p i cs,
    m true (Cat (Lit w) (Cat (Star (Cls true [Ch ">"])) (Chr ">"))) (mkState p t i cs) Some
    = match splitGt t with
      | Some (u, v) =>
          if prefixOf true u w
          then Some (mkState (Some ">"%char) v (i + String.length u + 1) cs) else None
      | None => None
      end.
Proof.
  induction w as [|b w IH]; intros Hw t p i cs.
  - change (Lit "") with Eps. rewrite m_cat, m_eps, m_upto_gt.
    now destruct (splitGt t) as [[u v]|].
  - cbn in Hw. apply andb_prop in Hw. destruct Hw as [Hb Hw].
    rewrite lit_cons, m_cat, m_chr. cbn [rest].
    destruct t as [|c r]; [reflexivity|].
    cbn [splitGt].
    destruct (Ascii.eqb (canon true c) (canon true b)) eqn:E.
    + rewrite (canon_eq_notGt c b E Hb). unfold advance. cbn [pos caps].
      rewrite (IH Hw). destruct (splitGt r) as [[u v]|]; [|reflexivity].
      cbn [prefixOf]. rewrite E. cbn [andb String.length].
      destruct (prefixOf true u w); [|reflexivity]. do 2 f_equal. lia.
    + destruct (isGt c); [reflexivity|].
      destruct (splitGt r) as [[u v]|]; [|reflexivity].
      cbn [prefixOf]. now rewrite E.
Qed.

(** A closing marker: the word and [>]. *)
Lemma m_close w :
  noGt w = true ->
  forall t p i cs,
    m true (Cat (Lit w) (Chr ">")) (mkState p t i cs) Some
    = match splitGt t with
      | Some (u, v) =>
          if prefixOf true u w && (String.length u =? String.length w)%nat
          then Some (mkState (Some ">"%char) v (i + String.length u + 1) cs) else None
      | None => None
      end.
Proof.
  induction w as [|b w IH]; intros Hw t p i cs.
  - change (Lit "") with Eps. rewrite m_cat, m_eps, m_chr. cbn [rest].
    destruct t as [|c r]; [reflexivity|]. cbn [splitGt]. rewrite canon_gt.
    destruct (isGt c) eqn:Hc.
    + unfold advance. cbn. apply Ascii.eqb_eq in Hc. subst c. do 2 f_equal. lia.
    + now destruct (splitGt r) as [[u v]|].
  - cbn in Hw. apply andb_prop in Hw. destruct Hw as [Hb Hw].
    rewrite lit_cons, m_cat, m_chr. cbn [rest].
    destruct t as [|c r]; [reflexivity|].
    cbn [splitGt].
    destruct (Ascii.eqb (canon true c) (canon true b)) eqn:E.
    + rewrite (canon_eq_notGt c b E Hb). unfold advance. cbn [pos caps].
      rewrite (IH Hw). destruct (splitGt r) as [[u v]|]; [|reflexivity].
      cbn [prefixOf]. rewrite E. cbn [andb String.length Nat.eqb].
      destruct (prefixOf true u w && (String.length u =? String.length w)%nat);
        [|reflexivity].
      do 2 f_equal. lia.
    + destruct (isGt c); [reflexivity|].
      destruct (splitGt r) as [[u v]|]; [|reflexivity].
      cbn [prefixOf]. now rewrite E.
Qed.


(** *** Counting markers *)

(** A marker: a pattern that matches, at a text, exactly the text up to the
    first [>] and that [>], when this text satisfies [good]. *)
Definition marker (P : regex) (good : string -> bool) : Prop :=
  forall t p i cs,
    m true P (mkState p t i cs) Some
    = match splitGt t with
      | Some (u, v) =>
          if good u then Some (mkState (Some ">"%char) v (i + String.length u + 1) cs)
          else None
      | None => None
      end.

Definition goodOpen (w u : string) : bool := prefixOf true u w.
Definition goodClose (w u : string) : bool :=
  prefixOf true u w && (String.length u =? String.length w)%nat.

Lemma scriptOpen_marker : marker scriptOpen (goodOpen "<script").
Proof. intros t p i cs. unfold scriptOpen. now rewrite m_open. Qed.

Lemma styleOpen_marker : marker styleOpen (goodOpen "<style").
Proof. intros t p i cs. unfold styleOpen. now rewrite m_open. Qed.

Lemma scriptClose_marker : marker scriptClose (goodClose "</script").
Proof.
  intros t p i cs. unfold goodClose.
  rewrite <- (m_close "</script" eq_refl t p i cs). reflexivity.
Qed.

Lemma styleClose_marker : marker styleClose (goodClose "</style").
Proof.
  intros t p i cs. unfold goodClose.
  rewrite <- (m_close "</style" eq_refl t p i cs). reflexivity.
Qed.

(** A marker begins at the text. *)
Definition tagHere (good : string -> bool) (s : string) : bool :=
  match splitGt s with
  | Some (u, _) => good u
  | None => false
  end.

(** The number of markers in a text, read from left to right; after a
    marker the count goes on behind its [>] ([skip] is on up to there). *)
Fixpoint cnt (good : string -> bool) (skip : bool) (s : string) : nat :=
  match s with
  | EmptyString => 0
  | String c t =>
      if skip then (if isGt c then cnt good false t else cnt good true t)
      else if tagHere good s
           then S (if isGt c then cnt good false t else cnt good true t)
           else cnt good false t
  end.

Lemma cnt_skip good s :
  forall u v, splitGt s = Some (u, v) -> cnt good true s = cnt good false v.
Proof.
  induction s as [|c t IH]; intros u v H; cbn in H; [discriminate|].
  cbn [cnt]. destruct (isGt c); [now injection H as _ <-|].
  destruct (splitGt t) as [[u' v']|]; [|discriminate]. injection H as _ <-.
  now apply (IH u').
Qed.

Lemma splitGt_length s u v :
  splitGt s = Some (u, v) -> String.length s = String.length u + 1 + String.length v.
Proof.
  intros H. apply splitGt_spec in H. destruct H as [-> _].
  rewrite length_app. cbn [String.length]. lia.
Qed.

(** The scan of a marker counts the markers. *)
Lemma scan_cnt P good :
  marker P good ->
  forall n s, String.length s <= n ->
  forall fuel p i, String.length s < fuel ->
    List.length (scan true P fuel p s i) = cnt good false s.
Proof.
  intros HM. induction n as [|n IH]; intros s Hn fuel p i Hf;
    (destruct fuel as [|fuel]; [lia|]).
  - destruct s; [|cbn in Hn; lia]. cbn [scan search]. rewrite HM. reflexivity.
  - destruct s as [|c t]; [cbn [scan search]; rewrite HM; reflexivity|].
    cbn [scan search]. rewrite HM. cbn [cnt]. unfold tagHere.
    destruct (splitGt (String c t)) as [[u v]|] eqn:Hsplit.
    + destruct (good u).
      * cbn [pos rest prev List.length].
        replace (i + String.length u + 1 =? i)%nat with false
          by (symmetry; apply Nat.eqb_neq; lia).
        pose proof (splitGt_length _ _ _ Hsplit) as Hlen. cbn [String.length] in Hlen, Hn, Hf.
        rewrite IH by lia.
        change (if isGt c then cnt good false t else cnt good true t)
          with (cnt good true (String c t)).
        now rewrite (cnt_skip good _ u v Hsplit).
      * change (List.length (scan true P (S fuel) (Some c) t (S i)) = cnt good false t).
        apply IH; cbn [String.length] in Hn, Hf; lia.
    + change (List.length (scan true P (S fuel) (Some c) t (S i)) = cnt good false t).
      apply IH; cbn [String.length] in Hn, Hf; lia.
Qed.

Lemma countMatches_cnt P good s :
  marker P good -> countMatches P s = cnt good false s.
Proof.
  intros HM. unfold countMatches, matchAll. rewrite List.length_map.
  apply (scan_cnt P good HM (String.length s)); lia.
Qed.

(** *** Markers in a text put together from parts *)

Fixpoint hasGt (s : string) : bool :=
  match s with
  | EmptyString => false
  | String c t => isGt c || hasGt t
  end.

(** No tag is left open: every [<] has a [>] behind it. *)
Fixpoint closedB (s : string) : bool :=
  match s with
  | EmptyString => true
  | String c t => (if isLt c then hasGt t else true) && closedB t
  end.

(** A [good] text begins with [<]. *)
Definition fromLt (good : string -> bool) : Prop :=
  good "" = false /\ forall c u, good (String c u) = true -> isLt c = true.

Lemma hasGt_splitGt s : hasGt s = true -> exists u v, splitGt s = Some (u, v).
Proof.
  induction s as [|c t IH]; cbn; [discriminate|].
  destruct (isGt c); [eauto|]. cbn. intros H. destruct (IH H) as (u & v & ->). eauto.
Qed.

Lemma tagHere_not_lt good c t :
  fromLt good -> isLt c = false -> tagHere good (String c t) = false.
Proof.
  intros [G0 G1] Hc. unfold tagHere. cbn [splitGt].
  destruct (isGt c); [exact G0|].
  destruct (splitGt t) as [[u v]|]; [|reflexivity].
  destruct (good (String c u)) eqn:Hg; [|reflexivity].
  apply G1 in Hg. congruence.
Qed.

Lemma cnt_app good pre :
  fromLt good ->
  forall skip s,
    closedB pre = true -> (skip = true -> hasGt pre = true) ->
    cnt good skip (pre +:+ s) = cnt good skip pre + cnt good false s.
Proof.
  intros HG. induction pre as [|c t IH]; intros skip s Hcl Hskip.
  - destruct skip; [specialize (Hskip eq_refl); discriminate|]. reflexivity.
  - rewrite app_cons. cbn [closedB] in Hcl. apply andb_prop in Hcl. destruct Hcl as [Hc Hcl].
    cbn [cnt]. destruct skip.
    + specialize (Hskip eq_refl). cbn [hasGt] in Hskip.
      destruct (isGt c); [apply IH; [exact Hcl | discriminate]|].
      apply IH; [exact Hcl | intros _; exact Hskip].
    + destruct (isLt c) eqn:Hlt.
      * destruct (hasGt_splitGt t Hc) as (u & v & Hsplit).
        assert (Hgt : isGt c = false).
        { apply Ascii.eqb_eq in Hlt. subst c. reflexivity. }
        assert (Htag : tagHere good (String c (t +:+ s)) = tagHere good (String c t)).
        { unfold tagHere. cbn [splitGt]. rewrite Hgt, (splitGt_app _ _ _ s Hsplit), Hsplit.
          reflexivity. }
        rewrite Htag, Hgt. destruct (tagHere good (String c t)).
        -- rewrite IH; [reflexivity | exact Hcl | intros _; exact Hc].
        -- apply IH; [exact Hcl | discriminate].
      * rewrite !(tagHere_not_lt good c _ HG Hlt). apply IH; [exact Hcl | discriminate].
Qed.


Lemma cnt_none good s :
  (forall a b, s = a +:+ b -> tagHere good b = false) ->
  forall skip, cnt good skip s = 0.
Proof.
  induction s as [|c t IH]; intros Hno skip; [reflexivity|].
  assert (Ht : forall a b, t = a +:+ b -> tagHere good b = false).
  { intros a b ->. apply (Hno (String c a)). now rewrite app_cons. }
  cbn [cnt]. rewrite (Hno "" (String c t) eq_refl).
  destruct skip; [destruct (isGt c)|]; now apply IH.
Qed.

(** The word [w] stands somewhere in the text, whatever the case of the
    letters. *)
Fixpoint occurs (w s : string) : bool :=
  prefixOf true s w ||
  match s with
  | EmptyString => false
  | String _ t => occurs w t
  end.

Lemma occurs_suffix w a :
  forall b, occurs w (a +:+ b) = false -> prefixOf true b w = false.
Proof.
  induction a as [|c a IH]; intros b H.
  - rewrite app_nil_l in H. destruct b; cbn in H; apply orb_false_elim in H; tauto.
  - rewrite app_cons in H. cbn in H. apply orb_false_elim in H. apply IH. tauto.
Qed.

Lemma prefixOf_app_l ic w :
  forall u x, prefixOf ic u w = true -> prefixOf ic (u +:+ x) w = true.
Proof.
  induction w as [|b w IH]; intros u x H; [reflexivity|].
  destruct u as [|c u]; [discriminate|]. rewrite app_cons. cbn in *.
  apply andb_prop in H. destruct H as [-> H]. now rewrite (IH u x H).
Qed.

Lemma prefixOf_snoc ic w c :
  forall u x,
    prefixOf ic u w = true -> String.length u = String.length w ->
    prefixOf ic (u +:+ String c x) (w +:+ String c "") = true.
Proof.
  induction w as [|b w IH]; intros u x H L.
  - destruct u; [|discriminate]. rewrite !app_nil_l. cbn. now rewrite Ascii.eqb_refl.
  - destruct u as [|d u]; [discriminate|]. rewrite !app_cons. cbn in *.
    apply andb_prop in H. destruct H as [-> H]. rewrite (IH u x H); [reflexivity | lia].
Qed.

(** Where an opening marker begins, its word stands. *)
Lemma tagHere_open w b :
  tagHere (goodOpen w) b = true -> prefixOf true b w = true.
Proof.
  unfold tagHere, goodOpen. destruct (splitGt b) as [[u v]|] eqn:Hs; [|discriminate].
  intros H. apply splitGt_spec in Hs. destruct Hs as [-> _]. now apply prefixOf_app_l.
Qed.

Lemma tagHere_close w b :
  tagHere (goodClose w) b = true -> prefixOf true b (w +:+ ">") = true.
Proof.
  unfold tagHere, goodClose. destruct (splitGt b) as [[u v]|] eqn:Hs; [|discriminate].
  intros H. apply andb_prop in H. destruct H as [H L]. apply Nat.eqb_eq in L.
  apply splitGt_spec in Hs. destruct Hs as [-> _]. now apply prefixOf_snoc.
Qed.

Lemma cnt_absent_open w s skip :
  occurs w s = false -> cnt (goodOpen w) skip s = 0.
Proof.
  intros H. apply cnt_none. intros a b ->.
  destruct (tagHere (goodOpen w) b) eqn:Ht; [|reflexivity].
  apply tagHere_open in Ht. now rewrite (occurs_suffix w a b H) in Ht.
Qed.

Lemma cnt_absent_close w s skip :
  occurs (w +:+ ">") s = false -> cnt (goodClose w) skip s = 0.
Proof.
  intros H. apply cnt_none. intros a b ->.
  destruct (tagHere (goodClose w) b) eqn:Ht; [|reflexivity].
  apply tagHere_close in Ht. now rewrite (occurs_suffix _ a b H) in Ht.
Qed.

Lemma fromLt_open w c : isLt c = true -> fromLt (goodOpen (String c w)).
Proof.
  intros Hc. split; [reflexivity|]. intros d u H. unfold goodOpen in H. cbn [prefixOf] in H.
  apply andb_prop in H. destruct H as [H _]. apply Ascii.eqb_eq in H.
  apply canon_is_lt. rewrite H. apply Ascii.eqb_eq in Hc. now subst c.
Qed.

Lemma fromLt_close w c : isLt c = true -> fromLt (goodClose (String c w)).
Proof.
  intros Hc. split; [reflexivity|]. intros d u H. unfold goodClose in H. cbn [prefixOf] in H.
  apply andb_prop in H. destruct H as [H _]. apply andb_prop in H. destruct H as [H _].
  apply Ascii.eqb_eq in H.
  apply canon_is_lt. rewrite H. apply Ascii.eqb_eq in Hc. now subst c.
Qed.

(** *** The script-open marker *)

Definition plainB (c : ascii) : bool := negb (isLt c) && negb (isGt c).

(** [<script], attributes without [<] and [>], and [>]. *)
Definition scriptTag (o : string) : Prop :=
  exists a, o = "<" +:+ a +:+ ">" /\ prefixOf true a "script" = true /\
            allb plainB a = true.

Lemma splitGt_mk u v : allb notGt u = true -> splitGt (u +:+ String ">" v) = Some (u, v).
Proof.
  induction u as [|c u IH]; intros H; [reflexivity|].
  cbn in H. apply andb_prop in H. destruct H as [Hc Hu].
  rewrite app_cons. cbn. unfold notGt in Hc. apply negb_true_iff in Hc.
  now rewrite Hc, (IH Hu).
Qed.

Lemma plain_notGt a : allb plainB a = true -> allb notGt a = true.
Proof.
  induction a as [|c a IH]; [reflexivity|]. cbn. unfold plainB at 1, notGt at 1.
  intros H. apply andb_prop in H. destruct H as [H Ha].
  apply andb_prop in H. destruct H as [_ ->]. now rewrite IH.
Qed.

Lemma plain_hasGt a x : hasGt (a +:+ String ">" x) = true.
Proof.
  induction a as [|c a IH]; [reflexivity|]. rewrite app_cons. cbn. rewrite IH.
  apply orb_true_r.
Qed.

Lemma plain_closed a : allb plainB a = true -> closedB (a +:+ ">") = true.
Proof.
  induction a as [|c a IH]; [reflexivity|]. rewrite app_cons. cbn. unfold plainB at 1.
  intros H. apply andb_prop in H. destruct H as [H Ha].
  apply andb_prop in H. destruct H as [Hlt _]. apply negb_true_iff in Hlt.
  now rewrite Hlt, IH.
Qed.

Lemma cnt_plain good a skip :
  fromLt good -> allb plainB a = true -> cnt good skip (a +:+ ">") = 0.
Proof.
  intros HG Ha. apply cnt_none. intros x b E.
  destruct b as [|c t]; [reflexivity|]. apply tagHere_not_lt; [exact HG|].
  assert (Hall : allb (fun c => negb (isLt c)) (a +:+ ">") = true).
  { clear E. induction a as [|d a IH]; [reflexivity|]. rewrite app_cons. cbn in *.
    unfold plainB in Ha at 1. apply andb_prop in Ha. destruct Ha as [H Ha].
    apply andb_prop in H. destruct H as [-> _]. now rewrite IH. }
  rewrite E, allb_app in Hall. apply andb_prop in Hall. destruct Hall as [_ Hb].
  cbn in Hb. apply andb_prop in Hb. destruct Hb as [Hc _]. now apply negb_true_iff.
Qed.

Lemma scriptTag_closed o : scriptTag o -> closedB o = true.
Proof.
  intros (a & -> & _ & Ha). rewrite app_cons, app_nil_l. cbn [closedB].
  change (isLt "<") with true. cbn iota. now rewrite plain_hasGt, plain_closed.
Qed.

(** The marker is one script-open marker ... *)
Lemma scriptTag_opens o s : scriptTag o -> 1 <= cnt (goodOpen "<script") false (o +:+ s).
Proof.
  intros (a & -> & Hpre & Ha).
  rewrite !app_cons, !app_nil_l. rewrite app_assoc. rewrite app_cons, app_nil_l.
  cbn [cnt]. unfold tagHere.
  change (String "<" (a +:+ String ">" s)) with ((String "<" a) +:+ String ">" s).
  rewrite splitGt_mk by (cbn; now rewrite plain_notGt).
  unfold goodOpen.
  change (prefixOf true (String "<" a) "<script") with (prefixOf true a "script").
  rewrite Hpre. lia.
Qed.

(** ... and no script-close marker and no style-open marker. *)
Lemma scriptTag_other good o :
  fromLt good ->
  (forall a, prefixOf true a "script" = true -> good (String "<" a) = false) ->
  scriptTag o -> cnt good false o = 0.
Proof.
  intros HG Hgood (a & -> & Hpre & Ha).
  rewrite app_cons, app_nil_l. cbn [cnt]. unfold tagHere.
  change (String "<" (a +:+ ">")) with ((String "<" a) +:+ String ">" "").
  rewrite splitGt_mk by (cbn; now rewrite plain_notGt).
  rewrite (Hgood a Hpre). now apply cnt_plain.
Qed.

Lemma script_not_close a :
  prefixOf true a "script" = true -> goodClose "</script" (String "<" a) = false.
Proof.
  destruct a as [|c a]; [discriminate|]. cbn [prefixOf]. intros H.
  apply andb_prop in H. destruct H as [H _]. apply Ascii.eqb_eq in H.
  unfold goodClose. cbn [prefixOf]. rewrite H. reflexivity.
Qed.

Lemma script_not_style a :
  prefixOf true a "script" = true -> goodOpen "<style" (String "<" a) = false.
Proof.
  destruct a as [|c [|d a]]; try discriminate;
    [cbn [prefixOf]; intros H; now rewrite andb_false_r in H|].
  cbn [prefixOf]. intros H.
  apply andb_prop in H. destruct H as [_ H].
  apply andb_prop in H. destruct H as [H _]. apply Ascii.eqb_eq in H.
  unfold goodOpen. cbn [prefixOf]. rewrite H. cbn. now rewrite andb_false_r.
Qed.


(** *** Inside a script block *)

Lemma context_regions text offset :
  let before := Js.substring text 0 offset in
  let ctx := getPositionContext text offset in
  inScript ctx = (countMatches scriptClose before <? countMatches scriptOpen before)%nat /\
  inStyle ctx = (countMatches styleClose before <? countMatches styleOpen before)%nat /\
  inTemplate ctx = negb (inScript ctx) && negb (inStyle ctx) /\
  inExpression ctx
  = (Js.lastIndexOf before "}" <? Js.lastIndexOf before "{")%Z &&
    negb (inScript ctx) && negb (inStyle ctx).
Proof. repeat split. Qed.

(** C6, amended.  Let the text before the offset be [pre], a script-open
    marker, and [mid], where [pre] leaves no tag open, has no more
    script-close than script-open markers and no more style-open than
    style-close markers, the marker is [<script], attributes without [<] and
    [>], and [>], and [mid] holds no [</script>] and no [<style] (in any
    case of the letters).  Then the classifier reports the script region as
    active and the template, style and expression regions as inactive. *)
Theorem inside_script_block (text : string) (offset : Z) (pre open mid : string) :
  Js.substring text 0 offset = pre +:+ open +:+ mid ->
  closedB pre = true ->
  countMatches scriptClose pre <= countMatches scriptOpen pre ->
  countMatches styleOpen pre <= countMatches styleClose pre ->
  scriptTag open ->
  occurs "</script>" mid = false ->
  occurs "<style" mid = false ->
  let ctx := getPositionContext text offset in
  inScript ctx = true /\ inTemplate ctx = false /\ inStyle ctx = false /\
  inExpression ctx = false.
Proof.
  intros Hbefore Hclosed Hscript Hstyle Htag Hnoclose Hnostyle.
  destruct (context_regions text offset) as (Hs & Hy & Ht & He).
  cbn zeta in *. rewrite Hbefore in Hs, Hy, He.
  pose proof (scriptTag_closed open Htag) as Hoc.
  assert (Gso : fromLt (goodOpen "<script")) by now apply fromLt_open.
  assert (Gsc : fromLt (goodClose "</script")) by now apply fromLt_close.
  assert (Gyo : fromLt (goodOpen "<style")) by now apply fromLt_open.
  assert (Gyc : fromLt (goodClose "</style")) by now apply fromLt_close.
  pose proof (fun s => countMatches_cnt _ _ s scriptOpen_marker) as Eso.
  pose proof (fun s => countMatches_cnt _ _ s scriptClose_marker) as Esc.
  pose proof (fun s => countMatches_cnt _ _ s styleOpen_marker) as Eyo.
  pose proof (fun s => countMatches_cnt _ _ s styleClose_marker) as Eyc.
  rewrite Eso, Esc in Hs, Hscript. rewrite Eyo, Eyc in Hy, Hstyle.
  rewrite (cnt_app _ pre Gso), (cnt_app _ pre Gsc) in Hs by (assumption || discriminate).
  rewrite (cnt_app _ pre Gyo), (cnt_app _ pre Gyc) in Hy by (assumption || discriminate).
  rewrite (cnt_app (goodClose "</script") open Gsc false mid Hoc) in Hs by discriminate.
  rewrite (cnt_app (goodOpen "<style") open Gyo false mid Hoc) in Hy by discriminate.
  rewrite (scriptTag_other _ open Gsc script_not_close Htag) in Hs.
  rewrite (scriptTag_other _ open Gyo script_not_style Htag) in Hy.
  rewrite (cnt_absent_close "</script" mid false Hnoclose) in Hs.
  rewrite (cnt_absent_open "<style" mid false Hnostyle) in Hy.
  pose proof (scriptTag_opens open mid Htag) as Hone.
  assert (Hin : inScript (getPositionContext text offset) = true).
  { rewrite Hs. apply Nat.ltb_lt. lia. }
  assert (Hout : inStyle (getPositionContext text offset) = false).
  { rewrite Hy. apply Nat.ltb_ge. lia. }
  rewrite Ht, He, Hin, Hout. cbn. rewrite andb_false_r. auto.
Qed.

Definition nestedStyleText : string :=
  "<script>let s = '<style></style>';</script>".

Lemma inside_script_block_witness :
  let ctx := getPositionContext nestedStyleText 16 in
  inScript ctx = true /\ inTemplate ctx = false /\ inStyle ctx = false /\
  inExpression ctx = false.
Proof.
  apply (inside_script_block nestedStyleText 16 "" "<script>" "let s = ").
  - reflexivity.
  - reflexivity.
  - vm_compute. lia.
  - vm_compute. lia.
  - exists "script". repeat split.
  - reflexivity.
  - reflexivity.
Defined.

(** C6 as stated fails: the offset lies behind the script-open marker with
    no script-close marker in between, and the markers of the document are
    balanced (one script block, and in it one style-open and one
    style-close marker), yet the classifier reports the style region as
    active behind the [<style>] in the script. *)
Lemma style_in_script_counterexample :
  let text := nestedStyleText in
  let ctx := getPositionContext text 24 in
  Js.substring text 0 24 = "<script>" +:+ "let s = '<style>" /\
  occurs "</script>" "let s = '<style>" = false /\
  countMatches scriptOpen text = 1 /\ countMatches scriptClose text = 1 /\
  countMatches styleOpen text = 1 /\ countMatches styleClose text = 1 /\
  inScript ctx = true /\ inStyle ctx = true.
Proof. vm_compute. repeat split; reflexivity. Qed.

End RegionFacts.
(** ** The project-graph cache: what a request and a change do to it *)

Module CacheLaws.
Import Server.

Section Cache.

Variable dirname : string -> string.
Variable detectProjectRoot : string -> option string.
Variable buildProjectGraph : string -> option Project.ProjectGraph.
Variable newRegExp : string -> option (string -> option (nat * string)).

Local Abbreviation rootOf := (Server.rootOf dirname detectProjectRoot).
Local Abbreviation invalidate := (Server.invalidateProjectGraph dirname detectProjectRoot).
Local Abbreviation getGraph :=
  (Server.getProjectGraph dirname detectProjectRoot buildProjectGraph).
Local Abbreviation Cache := (gmap string Project.ProjectGraph).

(** What a request leaves in the cache, key by key: a builder that throws
    leaves no entry. *)
Lemma getProjectGraph_lookup (cache : Cache) (docUri r : string) :
  snd (getGraph cache docUri) !! r
  = match cache !! r with
    | Some g => Some g
    | None => if decide (rootOf docUri = Some r) then buildProjectGraph r else None
    end.
Proof.
  unfold Server.getProjectGraph.
  destruct (rootOf docUri) as [r'|] eqn:Hr; cbn [snd].
  - destruct (cache !! r') as [g'|] eqn:Hg.
    + cbn [snd]. destruct (cache !! r) as [g|] eqn:Hc; [reflexivity|].
      destruct (decide (Some r' = Some r)) as [E|N]; [|reflexivity].
      injection E as ->. congruence.
    + destruct (buildProjectGraph r') as [built|] eqn:Hb; cbn [snd].
      * destruct (decide (Some r' = Some r)) as [E|N].
        -- injection E as ->. rewrite Hg, Hb. apply lookup_insert_eq.
        -- rewrite lookup_insert_ne by congruence. now destruct (cache !! r).
      * destruct (decide (Some r' = Some r)) as [E|N].
        -- injection E as ->. now rewrite Hg, Hb.
        -- now destruct (cache !! r).
  - destruct (decide (None = Some r)); [discriminate|]. now destruct (cache !! r).
Qed.

(** The result of a request, read from the cache it leaves: the entry of
    the document's root, and a throw when there is none. *)
Lemma getProjectGraph_result (cache : Cache) (docUri : string) :
  fst (getGraph cache docUri)
  = match rootOf docUri with
    | Some r => option_map Some (snd (getGraph cache docUri) !! r)
    | None => Some None
    end.
Proof.
  unfold Server.getProjectGraph. destruct (rootOf docUri) as [r|]; [|reflexivity].
  destruct (cache !! r) as [g|] eqn:Hg; cbn [fst snd].
  - now rewrite Hg.
  - destruct (buildProjectGraph r) as [built|]; cbn [fst snd].
    + now rewrite lookup_insert_eq.
    + now rewrite Hg.
Qed.

(** X1. A request for the graph of a document under the root [r].  When
    the cache has a graph for [r], the request returns it and leaves the
    cache as it is.  When it has none, the builder is called: if the
    builder returns, its graph is returned and stored under [r]; if the
    builder throws, the request throws and the cache is as before.  In
    each case the entries of all other roots stay as they are.  Once [r]
    has a graph in the cache, a request for any document under [r] is
    served from the cache, which it leaves as it is, whatever the disk
    holds by then (whatever the builder would do). *)
Theorem getProjectGraph_fills_and_serves (cache : Cache) (docUri r : string) :
  rootOf docUri = Some r ->
  let cache' := snd (getGraph cache docUri) in
  match cache !! r with
  | Some g => getGraph cache docUri = (Some (Some g), cache)
  | None =>
      match buildProjectGraph r with
      | Some built => getGraph cache docUri = (Some (Some built), <[r := built]> cache)
      | None => getGraph cache docUri = (None, cache)
      end
  end /\
  (forall r', r' <> r -> cache' !! r' = cache !! r') /\
  (forall g build' docUri',
      cache' !! r = Some g ->
      rootOf docUri' = Some r ->
      Server.getProjectGraph dirname detectProjectRoot build' cache' docUri'
      = (Some (Some g), cache')).
Proof.
  intros Hr cache'. split; [|split].
  - unfold Server.getProjectGraph. rewrite Hr.
    destruct (cache !! r) as [g|] eqn:Hg; [reflexivity|].
    destruct (buildProjectGraph r) as [built|]; [|reflexivity].
    cbn zeta. now rewrite lookup_insert_eq.
  - intros r' Hne. unfold cache'. rewrite getProjectGraph_lookup.
    destruct (cache !! r'); [reflexivity|]. rewrite decide_False by congruence. reflexivity.
  - intros g build' docUri' Hg Hr'. unfold Server.getProjectGraph. rewrite Hr', Hg. reflexivity.
Qed.

(** The invalidations of a list of changed URIs, key by key. *)
Lemma invalidate_all_lookup (changes : list string) (cache : Cache) (r : string) :
  List.fold_left invalidate changes cache !! r
  = if decide (Some r ∈ List.map rootOf changes) then None else cache !! r.
Proof.
  revert cache. induction changes as [|uri more IH]; intros cache; cbn [List.fold_left List.map].
  - rewrite decide_False by apply not_elem_of_nil. reflexivity.
  - rewrite IH. rewrite CacheFacts.invalidate_lookup.
    destruct (decide (Some r ∈ List.map rootOf more)) as [Hin|Hnin].
    + rewrite decide_True by (apply elem_of_cons; now right). reflexivity.
    + destruct (decide (rootOf uri = Some r)) as [E|N].
      * rewrite decide_True by (apply elem_of_cons; now left). reflexivity.
      * rewrite decide_False; [reflexivity|].
        intros H. apply elem_of_cons in H. destruct H as [H|H]; [congruence | contradiction].
Qed.

(** X2. After a change under the root [r], the next request for a document
    under [r] calls the builder, whatever was cached for [r]: if the
    builder returns, the request returns the new graph and stores it; if
    the builder throws, the request throws and [r] has no graph in the
    cache.  The entries of all other roots are as before the change. *)
Theorem invalidate_then_request_rebuilds (cache : Cache) (changedUri docUri r : string) :
  rootOf changedUri = Some r -> rootOf docUri = Some r ->
  let cache' := snd (getGraph (invalidate cache changedUri) docUri) in
  fst (getGraph (invalidate cache changedUri) docUri)
  = option_map Some (buildProjectGraph r) /\
  cache' !! r = buildProjectGraph r /\
  (forall r', r' <> r -> cache' !! r' = cache !! r').
Proof.
  intros Hc Hd cache'.
  assert (Hg : cache' !! r = buildProjectGraph r).
  { unfold cache'. rewrite getProjectGraph_lookup, CacheFacts.invalidate_lookup.
    rewrite !decide_True by assumption. reflexivity. }
  split; [rewrite getProjectGraph_result, Hd; fold cache'; now rewrite Hg|].
  split; [exact Hg|].
  intros r' Hne. unfold cache'. rewrite getProjectGraph_lookup, CacheFacts.invalidate_lookup.
  rewrite decide_False by congruence.
  destruct (cache !! r'); [reflexivity|]. rewrite decide_False by congruence. reflexivity.
Qed.

Local Abbreviation validateAll :=
  (Server.validateAll dirname detectProjectRoot buildProjectGraph newRegExp).

Definition docRoot (d : string * string) : option string := rootOf (fst d).

(** What the validation of the open documents leaves in the cache. *)
Lemma validateAll_lookup (docs : list (string * string)) (cache : Cache) (r : string) :
  snd (validateAll docs cache) !! r
  = match cache !! r with
    | Some g => Some g
    | None =>
        if decide (Some r ∈ List.map docRoot docs) then buildProjectGraph r else None
    end.
Proof.
  revert cache. induction docs as [|[uri text] more IH]; intros cache;
    cbn [Server.validateAll List.map snd].
  - rewrite decide_False by apply not_elem_of_nil. now destruct (cache !! r).
  - rewrite IH.
    assert (Hsnd : snd (Server.validateDocument dirname detectProjectRoot buildProjectGraph
                          newRegExp cache uri text) = snd (getGraph cache uri)).
    { unfold Server.validateDocument. cbn zeta. now destruct (fst (getGraph cache uri)). }
    rewrite Hsnd, getProjectGraph_lookup.
    destruct (cache !! r) as [g|]; [reflexivity|].
    destruct (decide (rootOf uri = Some r)) as [E|N].
    + destruct (buildProjectGraph r) as [built|] eqn:Hb.
      * rewrite decide_True; [reflexivity|]. apply elem_of_cons. left.
        unfold docRoot. cbn [fst]. now rewrite E.
      * now destruct (decide _); destruct (decide _).
    + destruct (decide (Some r ∈ List.map docRoot more)) as [Hin|Hnin].
      * rewrite decide_True by (apply elem_of_cons; now right). reflexivity.
      * rewrite decide_False; [reflexivity|].
        intros H. apply elem_of_cons in H. destruct H as [H|H]; [|contradiction].
        unfold docRoot in H. cbn [fst] in H. congruence.
Qed.

(** The validation of one document against a cache: the engine runs with
    the graph that the cache holds for the document's root, or with [null]
    for a document without a root; where the root has no graph in the cache
    the validation fails and nothing is sent. *)
Definition validatedWith (cache : Cache) (d : string * string)
  : option (list Diagnostics.Diagnostic) :=
  match rootOf (fst d) with
  | Some r =>
      match cache !! r with
      | Some g => Diagnostics.collectDiagnostics newRegExp (snd d) (Some g)
      | None => None
      end
  | None => Diagnostics.collectDiagnostics newRegExp (snd d) None
  end.

(** Every document is validated against the cache as it is when the loop
    is over. *)
Lemma validateAll_findings (docs : list (string * string)) (cache : Cache) :
  fst (validateAll docs cache)
  = List.map (fun d => (fst d, validatedWith (snd (validateAll docs cache)) d)) docs.
Proof.
  revert cache. induction docs as [|[uri text] more IH]; intros cache;
    cbn [Server.validateAll List.map fst snd]; [reflexivity|].
  assert (Hsnd : snd (Server.validateDocument dirname detectProjectRoot buildProjectGraph
                        newRegExp cache uri text) = snd (getGraph cache uri)).
  { unfold Server.validateDocument. cbn zeta. now destruct (fst (getGraph cache uri)). }
  f_equal.
  - f_equal. rewrite Hsnd. unfold validatedWith. cbn [fst snd].
    pose proof (getProjectGraph_result cache uri) as Hres.
    unfold Server.validateDocument. cbn zeta.
    destruct (rootOf uri) as [r|] eqn:Hr.
    + rewrite validateAll_lookup.
      pose proof (getProjectGraph_lookup cache uri r) as Hlk.
      rewrite Hr, decide_True in Hlk by reflexivity.
      destruct (snd (getGraph cache uri) !! r) as [g|] eqn:Hg; rewrite Hres; cbn [option_map fst].
      * reflexivity.
      * destruct (cache !! r); [discriminate|]. rewrite <- Hlk.
        now destruct (decide _).
    + rewrite Hres. reflexivity.
  - rewrite IH. apply List.map_ext_in. intros [u t] Hin. cbn [fst snd]. reflexivity.
Qed.

(** X3. When watched files change, the graph of every root under which a
    file changed is dropped, and then every open document is validated
    again.  In the cache that the handler leaves, a root has the graph it
    had before unless a file changed under it; a root under which a file
    changed, or that had no graph, has the graph that the builder returns
    for it when an open document lies under it and the builder returns,
    and no graph otherwise.  For each open document, in the order of the
    documents: when its root has a graph in that cache, or it has no root,
    the findings are those of the engine run with that graph (with [null]
    for no root), and nothing is sent when the engine throws; when its
    root has no graph in that cache (the builder threw), the validation of
    this document fails, nothing is sent for it, and the loop goes on. *)
Theorem watched_files_change_refreshes (changes : list string)
  (docs : list (string * string)) (cache : Cache) :
  let out := Server.onDidChangeWatchedFiles dirname detectProjectRoot buildProjectGraph
               newRegExp changes docs cache in
  (forall r,
      snd out !! r
      = match (if decide (Some r ∈ List.map rootOf changes) then None else cache !! r) with
        | Some g => Some g
        | None =>
            if decide (Some r ∈ List.map docRoot docs)
            then buildProjectGraph r else None
        end) /\
  fst out
  = List.map
      (fun d =>
         (fst d,
          match rootOf (fst d) with
          | Some r =>
              match snd out !! r with
              | Some g => Diagnostics.collectDiagnostics newRegExp (snd d) (Some g)
              | None => None
              end
          | None => Diagnostics.collectDiagnostics newRegExp (snd d) None
          end)) docs.
Proof.
  cbn zeta. unfold Server.onDidChangeWatchedFiles. split.
  - intros r. rewrite validateAll_lookup, invalidate_all_lookup. reflexivity.
  - apply validateAll_findings.
Qed.

End Cache.

(** A file system with the two projects [/a] and [/b]; the graph of [/a]
    can be built, the builder throws for [/b]. *)
Definition cacheAB : gmap string Project.ProjectGraph :=
  <["/a" := CacheFacts.emptyGraph "stale"]> ∅.

Definition buildA (r : string) : option Project.ProjectGraph :=
  if String.eqb r "/a" then Some (CacheFacts.emptyGraph r) else None.

Lemma getProjectGraph_fills_and_serves_witness :
  Server.getProjectGraph (fun p => p) CacheFacts.twoRoots buildA
    cacheAB "file:///b/src/pages/index.zen"
  = (None, cacheAB) /\
  Server.getProjectGraph (fun p => p) CacheFacts.twoRoots buildA
    ∅ "file:///a/src/pages/index.zen"
  = (Some (Some (CacheFacts.emptyGraph "/a")), <["/a" := CacheFacts.emptyGraph "/a"]> ∅).
Proof.
  split.
  - exact (proj1 (getProjectGraph_fills_and_serves (fun p => p) CacheFacts.twoRoots
                    buildA cacheAB "file:///b/src/pages/index.zen" "/b" eq_refl)).
  - exact (proj1 (getProjectGraph_fills_and_serves (fun p => p) CacheFacts.twoRoots
                    buildA ∅ "file:///a/src/pages/index.zen" "/a" eq_refl)).
Defined.

Lemma invalidate_then_request_rebuilds_witness :
  fst (Server.getProjectGraph (fun p => p) CacheFacts.twoRoots buildA
         (Server.invalidateProjectGraph (fun p => p) CacheFacts.twoRoots cacheAB
            "file:///a/src/layouts/Main.zen")
         "file:///a/src/pages/index.zen")
  = Some (Some (CacheFacts.emptyGraph "/a")).
Proof.
  apply (invalidate_then_request_rebuilds (fun p => p) CacheFacts.twoRoots
           buildA cacheAB "file:///a/src/layouts/Main.zen"
           "file:///a/src/pages/index.zen" "/a"); reflexivity.
Defined.

End CacheLaws.

(** ** More on the matcher: searches that fail, matched texts, bounds *)

Module ReMore.
Import Re ReFacts StrFacts.

Lemma m_end ic x k :
  m ic Eol x k = match rest x with EmptyString => k x | _ => None end.
Proof. reflexivity. Qed.

Lemma m_alt2 ic r1 r2 x k :
  m ic (Alt r1 r2) x k =
  match m ic r1 x k with Some z => Some z | None => m ic r2 x k end.
Proof. reflexivity. Qed.

(** A search that finds nothing: the pattern matches at no position. *)
Lemma search_none ic r s :
  forall p i,
    search ic r p s i = None ->
    forall w1 w2, s = w1 +:+ w2 ->
      m ic r (mkState (lastOr p w1) w2 (i + String.length w1) []) Some = None.
Proof.
  induction s as [|a t IH]; intros p i H w1 w2 E; cbn [search] in H.
  - destruct (m ic r _ Some) eqn:Hm; [discriminate|].
    destruct w1; [|discriminate]. rewrite app_nil_l in E. subst w2.
    cbn. now rewrite Nat.add_0_r.
  - destruct (m ic r (mkState p (String a t) i []) Some) eqn:Hm; [discriminate|].
    destruct w1 as [|b w1].
    + rewrite app_nil_l in E. subst w2. cbn. now rewrite Nat.add_0_r.
    + rewrite app_cons in E. injection E as <- ->. cbn [String.length lastOr].
      replace (i + S (String.length w1)) with (S i + String.length w1) by lia.
      now apply (IH (Some a) (S i) H).
Qed.

(** The first match of a text: where it is, what it reads, and that the
    pattern matches at no earlier position. *)
Lemma exec_some ic r s mt :
  exec ic r s = Some mt ->
  exists w u s' y,
    s = w +:+ u +:+ s' /\
    index mt = String.length w /\ stop mt = String.length w + String.length u /\
    whole mt = u /\ subject mt = s /\ captures mt = caps y /\
    m ic r (mkState (lastOr None w) (u +:+ s') (String.length w) []) Some = Some y /\
    rest y = s' /\ pos y = String.length w + String.length u /\
    (forall w1 w2, w = w1 +:+ w2 -> w2 <> "" ->
       m ic r (mkState (lastOr None w1) (w2 +:+ u +:+ s') (String.length w1) []) Some = None).
Proof.
  unfold exec. destruct (search ic r None s 0) as [[j y]|] eqn:Hs; [|discriminate].
  intros [= <-]. apply search_spec in Hs.
  destruct Hs as (w & s0 & -> & Hj & Hm & Hearly). cbn [Nat.add] in Hj. subst j.
  destruct (m_reads _ _ _ _ Hm) as (u & Hr & Hp & _). cbn [rest pos] in Hr, Hp.
  exists w, u, (rest y), y. unfold toResult, whole. cbn [fst snd index stop subject captures].
  rewrite Hr in *. rewrite Hp.
  repeat split; try reflexivity.
  - replace (String.length w + String.length u - String.length w) with (String.length u) by lia.
    now rewrite drop_app, take_app.
  - exact Hm.
  - intros w1 w2 E Hne. exact (Hearly w1 w2 E Hne).
Qed.

Lemma exec_none ic r s :
  exec ic r s = None ->
  forall w1 w2, s = w1 +:+ w2 ->
    m ic r (mkState (lastOr None w1) w2 (String.length w1) []) Some = None.
Proof.
  unfold exec. destruct (search ic r None s 0) as [[j y]|] eqn:Hs; [discriminate|].
  intros _ w1 w2 E. exact (search_none ic r s None 0 Hs w1 w2 E).
Qed.

(** Every match of a scan lies in the text that is scanned, and the matches
    come one behind the other. *)
Lemma scan_bounds ic r fuel :
  forall p s i,
    Forall (fun jy => i <= fst jy /\ fst jy <= pos (snd jy) /\
                      pos (snd jy) <= i + String.length s)
           (scan ic r fuel p s i).
Proof.
  induction fuel as [|fuel IH]; intros p s i; cbn [scan]; [constructor|].
  destruct (search ic r p s i) as [[j y]|] eqn:Hs; [|constructor].
  apply search_spec in Hs. destruct Hs as (w & s0 & -> & -> & Hm & _).
  destruct (m_reads _ _ _ _ Hm) as (u & Hr & Hp & _). cbn [rest pos] in Hr, Hp.
  assert (Hlen : String.length (w +:+ s0)
                 = String.length w + String.length u + String.length (rest y))
    by (rewrite Hr, !length_app; lia).
  constructor; [cbn [fst snd]; lia|].
  destruct (pos y =? i + String.length w)%nat.
  - destruct (rest y) as [|a t] eqn:Er; [constructor|].
    eapply List.Forall_impl; [|apply IH]. cbn beta. cbn [String.length] in Hlen. intros jy. lia.
  - eapply List.Forall_impl; [|apply IH]. cbn beta. intros jy. lia.
Qed.

(** The text of a match, its index and its end, for every match of
    [matchAll]. *)
Lemma matchAll_bounds ic r s mt :
  In mt (matchAll ic r s) ->
  index mt <= stop mt /\ stop mt <= String.length s /\ subject mt = s /\
  String.length (whole mt) = stop mt - index mt.
Proof.
  unfold matchAll. intros H. apply List.in_map_iff in H. destruct H as (jy & <- & Hin).
  pose proof (scan_bounds ic r (S (String.length s)) None s 0) as Hb.
  rewrite List.Forall_forall in Hb. specialize (Hb jy Hin). cbn [Nat.add] in Hb.
  unfold toResult, whole. cbn [index stop subject].
  repeat split; try lia.
  rewrite length_take; [reflexivity|].
  assert (String.length (Js.drop (fst jy) s) = String.length s - fst jy).
  { rewrite <- (take_drop (fst jy) s) at 2. rewrite length_app, length_take by lia. lia. }
  lia.
Qed.

Lemma m_ahead ic r x k :
  m ic (Ahead false r) x k
  = match m ic r x Some with
    | Some y => k (mkState (prev x) (rest x) (pos x) (caps y))
    | None => None
    end.
Proof. reflexivity. Qed.

(** An optional part without capturing groups. *)
Lemma m_opt ic r x k :
  groups r = [] ->
  m ic (Opt r) x k
  = match m ic r x (fun y => if (pos y =? pos x)%nat then None else k y) with
    | Some z => Some z
    | None => k x
    end.
Proof.
  intros Hg. unfold Opt. rewrite m_rep_unfold. cbn zeta. rewrite Hg, clearCaps_nil.
  cbn [Nat.eqb negb andb option_map Nat.pred].
  rewrite (m_local ic r x
             (fun y : state =>
                if (pos y =? pos x)%nat then None
                else m ic (Rep r 0 (Some 0) true) y k)
             (fun y : state => if (pos y =? pos x)%nat then None else k y));
    [reflexivity|].
  intros y _. destruct (pos y =? pos x)%nat; [reflexivity|]. now rewrite m_rep_unfold.
Qed.

(** Every match of a scan is a match of the pattern at its position. *)
Lemma scan_matches ic r fuel :
  forall p s i jy,
    In jy (scan ic r fuel p s i) ->
    exists w s0,
      s = w +:+ s0 /\ fst jy = i + String.length w /\
      m ic r (mkState (lastOr p w) s0 (fst jy) []) Some = Some (snd jy).
Proof.
  induction fuel as [|fuel IH]; intros p s i jy Hin; cbn [scan] in Hin; [contradiction|].
  destruct (search ic r p s i) as [[j y]|] eqn:Hs; [|contradiction].
  apply search_spec in Hs. destruct Hs as (w & s0 & Hsw & Hj & Hm & _).
  destruct Hin as [<- | Hin]; [exists w, s0; cbn [fst snd]; subst j; auto|].
  destruct (m_reads _ _ _ _ Hm) as (u & Hr & Hp & Hv). cbn [rest pos prev] in Hr, Hp, Hv.
  destruct (pos y =? j)%nat eqn:Epos.
  - destruct (rest y) as [|a t] eqn:Er; [contradiction|].
    apply IH in Hin. destruct Hin as (w' & s1 & Ht & Hf & Hm').
    exists (w +:+ u +:+ String a w'), s1. split; [|split].
    + rewrite Hsw, Hr, Ht. now rewrite !app_assoc, app_cons.
    + rewrite Hf, Hp, Hj, !length_app. cbn [String.length]. lia.
    + rewrite !lastOr_app. cbn [lastOr]. exact Hm'.
  - apply IH in Hin. destruct Hin as (w' & s1 & Ht & Hf & Hm').
    exists (w +:+ u +:+ w'), s1. split; [|split].
    + rewrite Hsw, Hr, Ht. now rewrite !app_assoc.
    + rewrite Hf, Hp, Hj, !length_app. lia.
    + rewrite !lastOr_app, <- Hv. exact Hm'.
Qed.

(** Every match of [matchAll] is a match of the pattern at its index. *)
Lemma matchAll_matches ic r s mt :
  In mt (matchAll ic r s) ->
  exists w s0 y,
    s = w +:+ s0 /\ index mt = String.length w /\ stop mt = pos y /\
    captures mt = caps y /\ subject mt = s /\
    m ic r (mkState (lastOr None w) s0 (String.length w) []) Some = Some y.
Proof.
  unfold matchAll. intros H. apply List.in_map_iff in H. destruct H as ([j y] & <- & Hin).
  apply scan_matches in Hin. destruct Hin as (w & s0 & Hs & Hj & Hm).
  cbn [fst snd Nat.add] in *. subst j.
  exists w, s0, y. unfold toResult. cbn [fst snd index stop captures subject].
  repeat split; try reflexivity; assumption.
Qed.

(** A match of [matchAll] that is found at a position of the text. *)
Lemma matchAll_finds ic r (pre s0 : string) (y : state) :
  m ic r (mkState (lastOr None pre) s0 (String.length pre) []) Some = Some y ->
  (forall mt, In mt (matchAll ic r (pre +:+ s0)) ->
              index mt < String.length pre -> stop mt <= String.length pre) ->
  In (toResult (pre +:+ s0) (String.length pre, y)) (matchAll ic r (pre +:+ s0)).
Proof.
  intros Hm Hover. unfold matchAll. apply List.in_map.
  apply (scan_finds ic r _ _ _ y Hm (S (String.length (pre +:+ s0))) (pre +:+ s0) None 0 pre);
    try reflexivity; [lia|].
  intros jy Hin Hlt. apply (Hover (toResult (pre +:+ s0) jy)); [|exact Hlt].
  unfold matchAll. apply List.in_map. exact Hin.
Qed.

End ReMore.

(** ** The region classifier: what it reads, and how its flags hang together *)

Module RegionLaws.
Import Re ReFacts StrFacts ReMore Server.

Lemma substring_prefix (pre post : string) :
  Js.substring (pre +:+ post) 0 (Z.of_nat (String.length pre)) = pre.
Proof.
  unfold Js.substring, Js.clamp. rewrite Nat2Z.id, length_app. cbn [Z.to_nat].
  rewrite Nat.min_0_l, Nat.max_0_l, Nat.sub_0_r.
  replace (Nat.min (String.length pre) (String.length pre + String.length post))
    with (String.length pre) by lia.
  cbn [Js.drop]. rewrite ?drop_0. apply take_app.
Qed.

Lemma take_all (s : string) (n : nat) : String.length s <= n -> Js.take n s = s.
Proof.
  revert n. induction s as [|a t IH]; intros n H; [now destruct n|].
  destruct n; cbn in *; [lia|]. now rewrite IH by lia.
Qed.

Lemma substring_whole (text : string) (offset : Z) :
  (Z.of_nat (String.length text) <= offset)%Z -> Js.substring text 0 offset = text.
Proof.
  intros H. unfold Js.substring, Js.clamp. cbn [Z.to_nat].
  rewrite Nat.min_0_l, Nat.max_0_l, Nat.sub_0_r, Nat.min_0_l.
  cbn [Js.drop]. rewrite ?drop_0. apply take_all. lia.
Qed.

Lemma substring_none (text : string) (offset : Z) :
  (offset <= 0)%Z -> Js.substring text 0 offset = "".
Proof.
  intros H. unfold Js.substring, Js.clamp.
  replace (Z.to_nat offset) with 0 by lia. cbn [Z.to_nat].
  rewrite !Nat.min_0_l. cbn. now destruct text.
Qed.

(** The classifier reads the text before the offset and nothing else. *)
Lemma context_of_before (text text' : string) (offset offset' : Z) :
  Js.substring text 0 offset = Js.substring text' 0 offset' ->
  getPositionContext text offset = getPositionContext text' offset'.
Proof. intros H. unfold getPositionContext. rewrite H. reflexivity. Qed.

(** X4. The classification at an offset depends on the text before the
    offset only: the text behind the offset can be anything; an offset at or
    before the start of the text gives the context of an empty document (in
    the template, in no script, style, tag, expression or attribute value,
    no tag name, no partial identifier); an offset at or behind the end of
    the text gives the context of the end of the text. *)
Theorem context_depends_on_text_before :
  (forall pre post post',
      getPositionContext (pre +:+ post) (Z.of_nat (String.length pre))
      = getPositionContext (pre +:+ post') (Z.of_nat (String.length pre))) /\
  (forall text offset,
      (offset <= 0)%Z ->
      getPositionContext text offset
      = mkContext false false false false true false None "" false false) /\
  (forall text offset,
      (Z.of_nat (String.length text) <= offset)%Z ->
      getPositionContext text offset
      = getPositionContext text (Z.of_nat (String.length text))).
Proof.
  split; [|split].
  - intros pre post post'. apply context_of_before. now rewrite !substring_prefix.
  - intros text offset H.
    rewrite (context_of_before text "" offset 0) by now rewrite substring_none.
    reflexivity.
  - intros text offset H. apply context_of_before.
    rewrite !substring_whole by lia. reflexivity.
Qed.

Lemma context_depends_on_text_before_witness :
  getPositionContext "<div>" (-3)
  = mkContext false false false false true false None "" false false.
Proof.
  apply (proj1 (proj2 context_depends_on_text_before) "<div>" (-3)%Z). lia.
Defined.

(** *** The partial identifier *)

Definition wordStartB : ascii -> bool :=
  classMatches false false [Rg "a" "z"; Rg "A" "Z"; Ch "_"; Ch "$"; Ch ":"; Ch "@"].
Definition wordRestB : ascii -> bool :=
  classMatches false false
    [Rg "a" "z"; Rg "A" "Z"; Rg "0" "9"; Ch "_"; Ch "$"; Ch ":"; Ch "-"].

(** A text of the shape of a partial identifier: a letter or one of
    [_ $ : @], then letters, digits and [_ $ : -]. *)
Definition wordShape (s : string) : bool :=
  match s with
  | EmptyString => false
  | String a t => wordStartB a && allb wordRestB t
  end.

Lemma wordPattern_sound pv s i cs y :
  m false wordPattern (mkState pv s i cs) Some = Some y ->
  wordShape s = true /\ rest y = "".
Proof.
  unfold wordPattern. rewrite m_cat, m_cls. cbn [rest].
  destruct s as [|a t]; [discriminate|]. fold wordStartB.
  destruct (wordStartB a) eqn:Ha; [|discriminate].
  unfold advance. cbn [pos caps prev rest]. rewrite m_cat, m_star_cls. fold wordRestB.
  intros H. apply starK_sound in H. destruct H as (w & s' & -> & Hw & H).
  rewrite m_end in H. unfold after in H. cbn [rest] in H.
  destruct s'; [|discriminate]. injection H as <-.
  rewrite app_nil_r. cbn [wordShape rest]. now rewrite Ha, Hw.
Qed.

Lemma wordPattern_complete pv s i cs :
  wordShape s = true -> m false wordPattern (mkState pv s i cs) Some <> None.
Proof.
  destruct s as [|a t]; [discriminate|]. cbn [wordShape]. intros H.
  apply andb_prop in H. destruct H as [Ha Ht].
  unfold wordPattern. rewrite m_cat, m_cls. cbn [rest]. fold wordStartB. rewrite Ha.
  unfold advance. cbn [pos caps prev rest]. rewrite m_cat, m_star_cls. fold wordRestB.
  rewrite <- (app_nil_r t).
  erewrite starK_at_max; [discriminate | exact Ht | reflexivity |].
  rewrite m_end. reflexivity.
Qed.

(** X5. The partial identifier that the classifier reports is the longest
    text of the shape of a partial identifier that ends at the offset, and
    is empty when no text of that shape ends there. *)
Theorem currentWord_longest_suffix (text : string) (offset : Z) :
  let before := Js.substring text 0 offset in
  let cw := currentWord (getPositionContext text offset) in
  (exists pre, before = pre +:+ cw) /\
  (cw <> "" -> wordShape cw = true) /\
  (forall pre' s,
      before = pre' +:+ s -> String.length cw < String.length s -> wordShape s = false).
Proof.
  cbn zeta. unfold getPositionContext. cbn [currentWord].
  set (before := Js.substring text 0 offset).
  destruct (exec false wordPattern before) as [mt|] eqn:He.
  - destruct (exec_some _ _ _ _ He) as (w & u & s' & y & Hs & _ & _ & Hwhole & _ & _ &
                                        Hm & Hrest & _ & Hearly).
    destruct (wordPattern_sound _ _ _ _ _ Hm) as [Hshape Hend].
    subst s'. rewrite Hend, app_nil_r in Hs, Hshape. rewrite Hwhole.
    split; [now exists w|]. split; [intros _; exact Hshape|].
    intros pre' s E Hlen.
    destruct (app_split pre' s w u) as (w2 & Hw & Hsu).
    { now rewrite <- E, <- Hs. }
    { assert (String.length (pre' +:+ s) = String.length (w +:+ u)) by now rewrite <- E, <- Hs.
      rewrite !length_app in *. lia. }
    assert (Hne : w2 <> "").
    { intros ->. rewrite app_nil_l in Hsu. subst s. lia. }
    specialize (Hearly pre' w2 Hw Hne). rewrite Hend, app_nil_r, <- Hsu in Hearly.
    destruct (wordShape s) eqn:Hsh; [|reflexivity].
    exfalso. exact (wordPattern_complete _ _ _ _ Hsh Hearly).
  - split; [exists before; now rewrite app_nil_r|]. split; [congruence|].
    intros pre' s E _.
    pose proof (exec_none _ _ _ He pre' s E) as Hnone.
    destruct (wordShape s) eqn:Hsh; [|reflexivity].
    exfalso. exact (wordPattern_complete _ _ _ _ Hsh Hnone).
Qed.

Lemma currentWord_longest_suffix_witness :
  wordShape (currentWord (getPositionContext "<p>{cou" 7)) = true.
Proof.
  apply (currentWord_longest_suffix "<p>{cou" 7). vm_compute. discriminate.
Defined.

Lemma endsWith_split (s p : string) :
  Js.endsWith s p = true -> exists a, s = a +:+ p.
Proof.
  unfold Js.endsWith. induction s as [|c t IH]; cbn [Js.endsWith_from]; intros H.
  - apply orb_prop in H. destruct H as [H|H]; [|discriminate].
    apply String.eqb_eq in H. subst p. now exists "".
  - apply orb_prop in H. destruct H as [H|H].
    + apply String.eqb_eq in H. subst p. now exists "".
    + destruct (IH H) as (a & ->). exists (String c a). now rewrite app_cons.
Qed.

Lemma endsWith_app (a p : string) : Js.endsWith (a +:+ p) p = true.
Proof.
  unfold Js.endsWith. induction a as [|c a IH].
  - rewrite app_nil_l. destruct p; cbn [Js.endsWith_from]; now rewrite String.eqb_refl.
  - rewrite app_cons. cbn [Js.endsWith_from]. rewrite IH. apply orb_true_r.
Qed.

(** A text of the shape of a partial identifier that ends with [@] is the
    [@] alone: the character may begin a partial identifier and may not go
    on one. *)
Lemma wordShape_at_end (u : string) :
  wordShape u = true -> (exists x, u = x +:+ "@") -> u = "@".
Proof.
  intros Hu (x & ->). destruct x as [|c x]; [reflexivity|].
  rewrite app_cons in Hu. cbn [wordShape] in Hu. apply andb_prop in Hu.
  destruct Hu as [_ Hu]. rewrite allb_app in Hu. apply andb_prop in Hu.
  destruct Hu as [_ Hu]. vm_compute in Hu. discriminate Hu.
Qed.

(** The text before the offset ends with [@] exactly when the partial
    identifier is the [@] alone. *)
Lemma currentWord_at (text : string) (offset : Z) :
  Js.endsWith (Js.substring text 0 offset) "@" = true
  <-> currentWord (getPositionContext text offset) = "@".
Proof.
  unfold getPositionContext. cbn [currentWord].
  set (before := Js.substring text 0 offset).
  destruct (exec false wordPattern before) as [mt|] eqn:He.
  - destruct (exec_some _ _ _ _ He) as (w & u & s' & y & Hs & _ & _ & Hwhole & _ & _ &
                                        Hm & Hrest & _ & _).
    destruct (wordPattern_sound _ _ _ _ _ Hm) as [Hshape Hend].
    subst s'. rewrite Hend, app_nil_r in Hs, Hshape. rewrite Hwhole. split.
    + intros H. destruct (endsWith_split _ _ H) as (a & Ha).
      apply (wordShape_at_end u Hshape).
      destruct (app_split w u a "@") as (x & _ & Hx).
      * now rewrite <- Hs, <- Ha.
      * assert (L : String.length (w +:+ u) = String.length (a +:+ "@"))
          by now rewrite <- Hs, <- Ha.
        rewrite !length_app in L. cbn [String.length] in L.
        destruct u; [discriminate Hshape|]. cbn [String.length] in L. lia.
      * now exists x.
    + intros ->. rewrite Hs. apply endsWith_app.
  - split; [|discriminate].
    intros H. destruct (endsWith_split _ _ H) as (a & Ha). exfalso.
    apply (wordPattern_complete (lastOr None a) "@" (String.length a) []); [reflexivity|].
    exact (exec_none _ _ _ He a "@" Ha).
Qed.

(** X6. The flags of a context hang together: the template region is the
    complement of script and style; an expression is reported only in the
    template region; an attribute value and a tag name are reported only
    inside a tag; the flag for a preceding colon is set exactly when the
    text before the offset ends with a colon (the second test of the source
    can never hold); the flag for a preceding [@] is set exactly when that
    text ends with [@] or the partial identifier begins with [@]; that text
    ends with [@] exactly when the partial identifier is the [@] alone, so
    that the flag is the test that the partial identifier begins with
    [@]. *)
Theorem context_flags_consistent (text : string) (offset : Z) :
  let before := Js.substring text 0 offset in
  let c := getPositionContext text offset in
  inTemplate c = negb (inScript c || inStyle c) /\
  (inExpression c = true -> inTemplate c = true) /\
  (inAttributeValue c = true -> inTag c = true) /\
  (tagName c <> None -> inTag c = true) /\
  afterColon c = Js.endsWith before ":" /\
  (afterAt c = true <->
   Js.endsWith before "@" = true \/ Js.startsWith (currentWord c) "@" = true) /\
  (Js.endsWith before "@" = true <-> currentWord c = "@") /\
  afterAt c = Js.startsWith (currentWord c) "@".
Proof.
  cbn zeta. pose proof (currentWord_at text offset) as Hat. revert Hat.
  unfold getPositionContext.
  cbn [inTemplate inScript inStyle inExpression inAttributeValue inTag tagName afterColon
       afterAt currentWord].
  set (before := Js.substring text 0 offset).
  set (cw := match exec false wordPattern before with
             | Some wordMatch => whole wordMatch
             | None => ""
             end).
  intros Hat.
  split; [now rewrite negb_orb|]. split.
  { intros H. apply andb_prop in H. destruct H as [H1 H2].
    apply andb_prop in H1. destruct H1 as [_ H1]. now rewrite H1, H2. }
  split; [intros H; apply andb_prop in H; tauto|]. split.
  { destruct (Js.lastIndexOf before ">" <? Js.lastIndexOf before "<")%Z; [reflexivity|].
    intros H. now contradiction H. }
  split.
  { destruct (Js.startsWith _ ":"); cbn; now rewrite ?orb_false_r. }
  split.
  { split; [intros H; apply orb_prop in H; exact H|].
    intros [H|H]; rewrite H; [reflexivity | apply orb_true_r]. }
  split; [exact Hat|].
  destruct (Js.endsWith before "@") eqn:He; [|reflexivity].
  rewrite (proj1 Hat eq_refl). reflexivity.
Qed.

Lemma context_flags_consistent_witness :
  inTemplate (getPositionContext "<p>{cou" 7) = true.
Proof.
  apply (context_flags_consistent "<p>{cou" 7). vm_compute. reflexivity.
Defined.

End RegionLaws.

(** ** The word under the cursor *)

Module HoverLaws.
Import Re ReFacts StrFacts ReMore Server.
Import RegionLaws.

Definition hoverBeforeB : ascii -> bool :=
  classMatches false false
    [Rg "a" "z"; Rg "A" "Z"; Rg "0" "9"; Ch "_"; Ch "$"; Ch ":"; Ch "@"; Ch "-"].
Definition hoverAfterB : ascii -> bool :=
  classMatches false false
    [Rg "a" "z"; Rg "A" "Z"; Rg "0" "9"; Ch "_"; Ch "$"; Ch ":"; Ch "-"].

(** The text is empty or ends with a character that [p] refuses. *)
Definition endsOutside (p : ascii -> bool) (pre : string) : bool :=
  match lastOr None pre with
  | Some c => negb (p c)
  | None => true
  end.

Lemma search_here ic r p s i y :
  m ic r (mkState p s i []) Some = Some y -> search ic r p s i = Some (i, y).
Proof. intros H. destruct s; cbn [search]; now rewrite H. Qed.

Lemma allb_last p (w : string) :
  forall pv, allb p w = true -> w <> "" -> exists c, lastOr pv w = Some c /\ p c = true.
Proof.
  induction w as [|a t IH]; intros pv H Hne; [congruence|].
  cbn [allb] in H. apply andb_prop in H. destruct H as [Ha Ht]. cbn [lastOr].
  destruct t as [|b t']; [exists a; split; [reflexivity | exact Ha]|].
  apply IH; [exact Ht | discriminate].
Qed.

Lemma substringFrom_suffix (pre post : string) :
  Js.substringFrom (pre +:+ post) (Z.of_nat (String.length pre)) = post.
Proof.
  unfold Js.substringFrom, Js.clamp. rewrite Nat2Z.id, length_app.
  replace (Nat.min (String.length pre) (String.length pre + String.length post))
    with (String.length pre) by lia.
  apply drop_app.
Qed.

(** The run of word characters that ends at the cursor. *)
Lemma wordBefore_spec pre wb :
  allb hoverBeforeB wb = true -> endsOutside hoverBeforeB pre = true ->
  matchedText (exec false wordBeforePattern (pre +:+ wb)) = wb.
Proof.
  intros Hwb Hpre.
  assert (Hm : forall pv i, m false wordBeforePattern (mkState pv wb i []) Some
                            = Some (after pv wb "" i [])).
  { intros pv i. unfold wordBeforePattern. rewrite m_cat, m_star_cls. fold hoverBeforeB.
    rewrite <- (app_nil_r wb) at 1.
    apply starK_at_max; [exact Hwb | reflexivity | now rewrite m_end]. }
  destruct (search_first false wordBeforePattern pre wb None 0 _ (Hm _ _))
    as (j & y & Hs & Hj).
  unfold exec. rewrite Hs. cbn [option_map matchedText].
  destruct Hj as [Hj | [-> ->]].
  - exfalso. apply search_spec in Hs. destruct Hs as (v & s0 & E & -> & Hy & _).
    cbn [Nat.add] in Hj.
    destruct (app_split v s0 pre wb (eq_sym E) ltac:(lia)) as (p2 & Hp & Hs0).
    assert (Hne : p2 <> "").
    { intros ->. rewrite app_nil_r in Hp. subst v. lia. }
    unfold wordBeforePattern in Hy. rewrite m_cat, m_star_cls in Hy. fold hoverBeforeB in Hy.
    apply starK_sound in Hy. destruct Hy as (w & s' & Hw & Hall & Hk).
    rewrite m_end in Hk. unfold after in Hk. cbn [rest] in Hk.
    destruct s'; [|discriminate]. rewrite app_nil_r in Hw. subst w s0.
    rewrite allb_app in Hall. apply andb_prop in Hall. destruct Hall as [Hp2 _].
    destruct (allb_last _ p2 (lastOr None v) Hp2 Hne) as (c & Hc & Hpc).
    unfold endsOutside in Hpre. rewrite Hp, lastOr_app, Hc, Hpc in Hpre. discriminate.
  - unfold toResult, whole, after. cbn [fst snd index stop subject pos Nat.add].
    replace (String.length pre + String.length wb - String.length pre)
      with (String.length wb) by lia.
    rewrite drop_app. apply take_all. lia.
Qed.

(** The run of word characters that begins at the cursor. *)
Lemma wordAfter_spec wa post :
  allb hoverAfterB wa = true -> stops hoverAfterB post = true ->
  matchedText (exec false wordAfterPattern (wa +:+ post)) = wa.
Proof.
  intros Hwa Hpost. unfold exec.
  rewrite (search_here false wordAfterPattern None (wa +:+ post) 0 (after None wa post 0 [])).
  - cbn [option_map matchedText]. unfold toResult, whole, after.
    cbn [fst snd index stop subject pos Nat.add].
    rewrite ?Nat.sub_0_r. cbn [Js.drop]. rewrite ?drop_0. apply take_app.
  - unfold wordAfterPattern. rewrite m_cat, m_bol. cbn [pos Nat.eqb].
    rewrite m_star_cls. fold hoverAfterB. now apply starK_at_max.
Qed.

Lemma after_is_before c : hoverAfterB c = true -> hoverBeforeB c = true.
Proof. all_chars c. Qed.

Lemma allb_weaken (p q : ascii -> bool) (w : string) :
  (forall c, p c = true -> q c = true) -> allb p w = true -> allb q w = true.
Proof.
  intros Hpq. induction w as [|c t IH]; [reflexivity|]. cbn [allb]. intros H.
  apply andb_prop in H. destruct H as [Hc Ht]. now rewrite (Hpq c Hc), (IH Ht).
Qed.

Lemma allb_cut (p : ascii -> bool) (k : nat) (w : string) :
  allb p w = true -> allb p (Js.take k w) = true /\ allb p (Js.drop k w) = true.
Proof.
  intros H. rewrite <- (take_drop k w), allb_app in H. now apply andb_prop in H.
Qed.

Lemma wordAt_around (pre wb wa post : string) :
  endsOutside hoverBeforeB pre = true -> allb hoverBeforeB wb = true ->
  allb hoverAfterB wa = true -> stops hoverAfterB post = true ->
  wordAt (pre +:+ wb +:+ wa +:+ post) (Z.of_nat (String.length pre + String.length wb))
  = wb +:+ wa.
Proof.
  intros Hpre Hwb Hwa Hpost. unfold wordAt.
  rewrite <- (length_app pre wb), <- (app_assoc pre wb).
  rewrite RegionLaws.substring_prefix, substringFrom_suffix.
  now rewrite wordBefore_spec, wordAfter_spec.
Qed.

(** X7. The word that a hover looks up is the longest run of letters,
    digits and [_ $ : @ -] that ends at the cursor, followed by the longest
    run of letters, digits and [_ $ : -] that begins at the cursor.  The
    [@] counts before the cursor only.  So for a word of letters, digits
    and [_ $ : -] that stands between two characters outside these classes,
    the cursor anywhere in the word or at one of its ends gives the whole
    word; for such a word with an [@] in front, the cursor behind the [@]
    gives the [@] and the word, and the cursor in front of the [@] gives
    the empty word. *)
Theorem wordAt_is_the_word_around_the_cursor :
  (forall pre wb wa post,
      endsOutside hoverBeforeB pre = true -> allb hoverBeforeB wb = true ->
      allb hoverAfterB wa = true -> stops hoverAfterB post = true ->
      wordAt (pre +:+ wb +:+ wa +:+ post)
             (Z.of_nat (String.length pre + String.length wb))
      = wb +:+ wa) /\
  (forall pre w post k,
      endsOutside hoverBeforeB pre = true -> allb hoverAfterB w = true ->
      stops hoverAfterB post = true -> k <= String.length w ->
      wordAt (pre +:+ w +:+ post) (Z.of_nat (String.length pre + k)) = w /\
      wordAt (pre +:+ "@" +:+ w +:+ post) (Z.of_nat (String.length pre + 1 + k))
      = "@" +:+ w) /\
  (forall pre rest,
      endsOutside hoverBeforeB pre = true ->
      wordAt (pre +:+ "@" +:+ rest) (Z.of_nat (String.length pre)) = "").
Proof.
  split; [exact wordAt_around|]. split.
  - intros pre w post k Hpre Hw Hpost Hk.
    destruct (allb_cut hoverAfterB k w Hw) as [Ht Hd].
    pose proof (allb_weaken _ _ _ after_is_before Ht) as Htb.
    pose proof (length_take k w Hk) as Hlen. split.
    + assert (E : pre +:+ w +:+ post = pre +:+ Js.take k w +:+ Js.drop k w +:+ post)
        by (now rewrite <- (app_assoc (Js.take k w)), take_drop).
      rewrite E.
      replace (String.length pre + k)
        with (String.length pre + String.length (Js.take k w)) by (now rewrite Hlen).
      rewrite wordAt_around by assumption. apply take_drop.
    + assert (E : pre +:+ "@" +:+ w +:+ post
                  = pre +:+ ("@" +:+ Js.take k w) +:+ Js.drop k w +:+ post)
        by (now rewrite (app_assoc "@"), <- (app_assoc (Js.take k w)), take_drop).
      rewrite E.
      replace (String.length pre + 1 + k)
        with (String.length pre + String.length ("@" +:+ Js.take k w))
        by (rewrite length_app, Hlen; cbn [String.length]; lia).
      rewrite wordAt_around by assumption.
      now rewrite app_assoc, take_drop.
  - intros pre rest Hpre.
    pose proof (wordAt_around pre "" "" ("@" +:+ rest) Hpre eq_refl eq_refl eq_refl) as H.
    cbn [String.length] in H. rewrite Nat.add_0_r, !app_nil_l in H. exact H.
Qed.

Lemma wordAt_is_the_word_around_the_cursor_witness :
  wordAt ("<li " +:+ "zen:" +:+ "for" +:+ "=x>") 8 = "zen:" +:+ "for" /\
  wordAt ("<b " +:+ "@" +:+ "click" +:+ "=x>") 3 = "".
Proof.
  split.
  - change 8%Z with (Z.of_nat (String.length "<li " + String.length "zen:")).
    apply (proj1 wordAt_is_the_word_around_the_cursor); reflexivity.
  - change 3%Z with (Z.of_nat (String.length "<b ")).
    change ("<b " +:+ "@" +:+ "click" +:+ "=x>") with ("<b " +:+ "@" +:+ ("click" +:+ "=x>")).
    apply (proj2 (proj2 wordAt_is_the_word_around_the_cursor)); reflexivity.
Defined.

End HoverLaws.

(** ** The component check *)

Module ComponentLaws.
Import Re ReFacts StrFacts ReMore Diagnostics.

Definition upperB : ascii -> bool := classMatches false false [Rg "A" "Z"].
Definition alnumB : ascii -> bool :=
  classMatches false false [Rg "a" "z"; Rg "A" "Z"; Rg "0" "9"].
Definition delimB : ascii -> bool := classMatches false false [Sp; Ch "/"; Ch ">"].

(** A component name: a capital letter, then letters and digits. *)
Definition capName (nm : string) : bool :=
  match nm with
  | EmptyString => false
  | String a t => upperB a && allb alnumB t
  end.

(** The text goes on with white space, [/] or [>]. *)
Definition delimited (s : string) : bool :=
  match s with
  | EmptyString => false
  | String c _ => delimB c
  end.

Lemma delim_not_alnum c : delimB c = true -> alnumB c = false.
Proof. all_chars c. Qed.

Lemma lt_not_alnum : alnumB "<" = false.
Proof. reflexivity. Qed.

Lemma componentPattern_sound pv s i y :
  m false componentPattern (mkState pv s i []) Some = Some y ->
  exists nm s',
    s = "<" +:+ nm +:+ s' /\ capName nm = true /\ delimited s' = true /\
    pos y = i + 1 + String.length nm /\
    caps y = [(1, (i + 1, i + 1 + String.length nm))].
Proof.
  unfold componentPattern. rewrite m_cat, m_chr. cbn [rest].
  destruct s as [|c s1]; [discriminate|].
  destruct (Ascii.eqb (canon false c) (canon false "<")) eqn:Hc; [|discriminate].
  apply Ascii.eqb_eq in Hc. cbn [canon] in Hc. subst c.
  unfold advance. cbn [pos caps prev rest]. rewrite m_cat, m_grp, m_cat, m_cls. cbn [rest].
  destruct s1 as [|a t]; [discriminate|]. fold upperB.
  destruct (upperB a) eqn:Ha; [|discriminate].
  unfold advance. cbn [pos caps prev rest]. rewrite m_star_cls. fold alnumB.
  intros H. apply starK_sound in H. destruct H as (w & s' & -> & Hw & H).
  unfold after, setCap in H. cbn [pos caps prev rest] in H.
  rewrite m_ahead, m_cls in H. cbn [rest prev pos caps] in H.
  destruct s' as [|d s2]; [discriminate|]. fold delimB in H.
  destruct (delimB d) eqn:Hd; [|discriminate].
  unfold advance in H. cbn [caps pos] in H. injection H as <-.
  exists (String a w), (String d s2). cbn [capName delimited pos caps String.length].
  rewrite Ha, Hw, Hd.
  split; [reflexivity|]. split; [reflexivity|]. split; [reflexivity|].
  split; [lia|]. do 3 f_equal; lia.
Qed.

Lemma componentPattern_complete pv i nm s' :
  capName nm = true -> delimited s' = true ->
  exists y,
    m false componentPattern (mkState pv ("<" +:+ nm +:+ s') i []) Some = Some y /\
    pos y = i + 1 + String.length nm /\
    caps y = [(1, (i + 1, i + 1 + String.length nm))].
Proof.
  intros Hnm Hs'. destruct nm as [|a t]; [discriminate|].
  cbn [capName] in Hnm. apply andb_prop in Hnm. destruct Hnm as [Ha Ht].
  destruct s' as [|d s2]; [discriminate|]. cbn [delimited] in Hs'.
  eexists. split.
  - unfold componentPattern. rewrite m_cat, m_chr. cbn [rest].
    change ("<" +:+ String a t +:+ String d s2) with (String "<" (String a (t +:+ String d s2))).
    cbn iota. rewrite Ascii.eqb_refl.
    unfold advance. cbn [pos caps prev rest]. rewrite m_cat, m_grp, m_cat, m_cls. cbn [rest].
    fold upperB. rewrite Ha.
    unfold advance. cbn [pos caps prev rest]. rewrite m_star_cls. fold alnumB.
    apply starK_at_max; [exact Ht | cbn [stops]; now rewrite delim_not_alnum |].
    unfold after, setCap. cbn [pos caps prev rest].
    rewrite m_ahead, m_cls. cbn [rest]. fold delimB. rewrite Hs'. reflexivity.
  - unfold advance. cbn [pos caps String.length]. split; [lia|]. do 3 f_equal; lia.
Qed.

Definition unknownMessage (nm : string) : string :=
  "Unknown component: '<" +:+ nm +:+
  ">'. Ensure it exists in src/layouts/ or src/components/".

Definition unknownFinding (pre nm : string) : Diagnostic :=
  mkDiagnostic Warning
    (mkRange (String.length pre + 1) (String.length pre + 1 + String.length nm))
    (unknownMessage nm) "zenith".

Lemma capName_alnum nm : capName nm = true -> allb alnumB nm = true.
Proof.
  destruct nm as [|a t]; [discriminate|]. cbn [capName allb]. intros H.
  apply andb_prop in H. destruct H as [Ha Ht]. rewrite Ht, andb_true_r.
  revert Ha. all_chars a.
Qed.

(** What the loop body sees of a match: the tag begins at the index, and
    the name is the first group. *)
Lemma component_match text mt :
  In mt (matchAll false componentPattern text) ->
  exists pre nm post,
    text = pre +:+ "<" +:+ nm +:+ post /\ capName nm = true /\ delimited post = true /\
    index mt = String.length pre /\ stop mt = String.length pre + 1 + String.length nm /\
    Imports.groupText 1 mt = nm.
Proof.
  intros Hin. destruct (matchAll_matches _ _ _ _ Hin) as (w & s0 & y & Hs & Hi & Hst & Hc & Hsub & Hm).
  destruct (componentPattern_sound _ _ _ _ Hm) as (nm & s' & -> & Hnm & Hd & Hpos & Hcaps).
  exists w, nm, s'. repeat split; try assumption; [lia|].
  unfold Imports.groupText, group. rewrite Hc, Hcaps, Hsub, Hs. cbn [lookupCap Nat.eqb default].
  replace (String.length w + 1 + String.length nm - (String.length w + 1))
    with (String.length nm) by lia.
  replace (String.length w + 1) with (String.length w + String.length "<") by reflexivity.
  now rewrite drop_add, !drop_app, take_app.
Qed.

(** Every finding of the component check, traced to the tag it is about. *)
Lemma component_finding_inv text graph d :
  In d (collectComponentDiagnostics text (Some graph)) ->
  exists pre nm post,
    text = pre +:+ "<" +:+ nm +:+ post /\
    capName nm = true /\ delimited post = true /\
    nm <> "ZenLink" /\
    JsMap.has nm (Project.layouts graph) = false /\
    JsMap.has nm (Project.components graph) = false /\
    d = unknownFinding pre nm.
Proof.
  intros Hin. unfold collectComponentDiagnostics in Hin.
  apply in_concat in Hin. destruct Hin as (ds & Hds & Hd).
  apply List.in_map_iff in Hds. destruct Hds as (mt & <- & Hmt).
  destruct (component_match _ _ Hmt) as (pre & nm & post & Ht & Hnm & Hdel & Hi & _ & Hg).
  exists pre, nm, post. unfold componentFindings in Hd. rewrite Hg, Hi in Hd.
  destruct (String.eqb nm "ZenLink") eqn:Hz; [contradiction|].
  apply String.eqb_neq in Hz.
  destruct (JsMap.has nm (Project.layouts graph)); [contradiction|].
  destruct (JsMap.has nm (Project.components graph)); [contradiction|].
  cbn [negb andb] in Hd. destruct Hd as [<-|[]].
  repeat split; try assumption; reflexivity.
Qed.

(** X8. The component check reports nothing without a project graph.  With
    a graph, every finding is a warning about a capitalised tag name that
    stands in the text behind a [<] and before white space, [/] or [>], at
    the range of the finding; the name is not ZenLink, and is neither a
    layout nor a component of the graph. *)
Theorem component_findings_are_unknown_tags :
  (forall text, collectComponentDiagnostics text None = []) /\
  (forall text graph d,
      In d (collectComponentDiagnostics text (Some graph)) ->
      exists pre nm post,
        text = pre +:+ "<" +:+ nm +:+ post /\
        capName nm = true /\ delimited post = true /\
        nm <> "ZenLink" /\
        JsMap.has nm (Project.layouts graph) = false /\
        JsMap.has nm (Project.components graph) = false /\
        d = unknownFinding pre nm).
Proof.
  split; [reflexivity|]. intros text graph d. apply component_finding_inv.
Qed.

Lemma component_findings_are_unknown_tags_witness :
  exists pre nm post,
    "<Card />" = pre +:+ "<" +:+ nm +:+ post /\
    capName nm = true /\ delimited post = true /\
    nm <> "ZenLink" /\
    JsMap.has nm (Project.layouts (CacheFacts.emptyGraph "/a")) = false /\
    JsMap.has nm (Project.components (CacheFacts.emptyGraph "/a")) = false /\
    unknownFinding "" "Card" = unknownFinding pre nm.
Proof.
  apply (proj2 component_findings_are_unknown_tags "<Card />" (CacheFacts.emptyGraph "/a")).
  vm_compute. left. reflexivity.
Defined.

(** A component name that stands before a delimiter is the whole run of
    letters and digits there. *)
Lemma capName_unique nm nm' post post' :
  nm +:+ post = nm' +:+ post' ->
  capName nm = true -> capName nm' = true ->
  delimited post = true -> delimited post' = true ->
  String.length nm <= String.length nm' -> nm = nm'.
Proof.
  intros E Hn Hn' Hd Hd' Hlen.
  destruct (app_split nm post nm' post' E Hlen) as (q & Hq & Hp).
  destruct q as [|c q]; [now rewrite app_nil_r in Hq|]. exfalso.
  apply capName_alnum in Hn'. rewrite Hq, allb_app in Hn'.
  apply andb_prop in Hn'. destruct Hn' as [_ Hq']. cbn [allb] in Hq'.
  apply andb_prop in Hq'. destruct Hq' as [Hc _].
  rewrite Hp, app_cons in Hd. cbn [delimited] in Hd.
  rewrite (delim_not_alnum c Hd) in Hc. discriminate.
Qed.

(** No match of the component pattern runs over a [<]. *)
Lemma component_no_overlap pre s0 mt :
  In mt (matchAll false componentPattern (pre +:+ "<" +:+ s0)) ->
  index mt < String.length pre -> stop mt <= String.length pre.
Proof.
  intros Hin Hlt.
  destruct (component_match _ _ Hin) as (w & nm & post & Ht & Hnm & _ & Hi & Hst & _).
  rewrite Hi in Hlt. rewrite Hst.
  destruct (app_split w ("<" +:+ nm +:+ post) pre ("<" +:+ s0) (eq_sym Ht) ltac:(lia))
    as (p2 & Hp & Hrest).
  destruct p2 as [|c p3]; [rewrite app_nil_r in Hp; subst w; lia|].
  change ("<" +:+ nm +:+ post) with (String "<" (nm +:+ post)) in Hrest.
  rewrite app_cons in Hrest. injection Hrest as <- Hrest.
  destruct (Nat.le_gt_cases (String.length nm) (String.length p3)) as [Hle|Hgt].
  - rewrite Hp, length_app. cbn [String.length]. lia.
  - exfalso.
    destruct (app_split p3 ("<" +:+ s0) nm post (eq_sym Hrest) ltac:(lia)) as (q & Hq & Hq').
    destruct q as [|c q]; [rewrite app_nil_r in Hq; subst nm; lia|].
    change ("<" +:+ s0) with (String "<" s0) in Hq'. rewrite app_cons in Hq'.
    injection Hq' as <- _.
    apply capName_alnum in Hnm. rewrite Hq, allb_app in Hnm.
    apply andb_prop in Hnm. destruct Hnm as [_ Hnm]. cbn [allb] in Hnm.
    rewrite lt_not_alnum in Hnm. discriminate.
Qed.

(** X9. A capitalised tag name behind a [<] and before white space, [/] or
    [>] that is not ZenLink and is neither a layout nor a component of the
    graph gets a warning over the name, wherever the tag stands in the
    text; a tag whose name is ZenLink, a layout or a component gets no
    finding. *)
Theorem unknown_tag_is_reported (graph : Project.ProjectGraph) (pre nm post : string) :
  capName nm = true -> delimited post = true ->
  let text := pre +:+ "<" +:+ nm +:+ post in
  let known := String.eqb nm "ZenLink" || JsMap.has nm (Project.layouts graph) ||
               JsMap.has nm (Project.components graph) in
  (known = false ->
   In (unknownFinding pre nm) (collectComponentDiagnostics text (Some graph))) /\
  (known = true ->
   forall d, In d (collectComponentDiagnostics text (Some graph)) ->
             start (range d) <> String.length pre + 1).
Proof.
  intros Hnm Hdel text known. split.
  - intros Hk. unfold known in Hk. apply orb_false_elim in Hk. destruct Hk as [Hk Hc].
    apply orb_false_elim in Hk. destruct Hk as [Hz Hl].
    destruct (componentPattern_complete (lastOr None pre) (String.length pre) nm post Hnm Hdel)
      as (y & Hm & Hpos & Hcaps).
    pose proof (matchAll_finds false componentPattern pre _ y Hm
                  (component_no_overlap pre (nm +:+ post))) as Hin.
    fold text in Hin. unfold collectComponentDiagnostics. apply in_concat.
    eexists. split; [apply List.in_map; exact Hin|].
    destruct (component_match _ _ Hin) as (w & nm' & post' & Ht & Hnm' & Hdel' & Hi & _ & Hg).
    cbn [toResult index fst] in Hi.
    assert (Hw : w = pre).
    { unfold text in Ht.
      destruct (app_split pre _ w _ Ht ltac:(lia)) as (q & Hq & _).
      destruct q; [now rewrite app_nil_r in Hq|].
      rewrite Hq, length_app in Hi. cbn in Hi. lia. }
    subst w. unfold text in Ht.
    assert (E : nm +:+ post = nm' +:+ post').
    { assert (E0 : Js.drop (String.length pre) (pre +:+ "<" +:+ nm +:+ post)
                   = Js.drop (String.length pre) (pre +:+ "<" +:+ nm' +:+ post'))
        by now rewrite <- Ht.
      rewrite !drop_app in E0. now injection E0. }
    assert (Hsame : nm' = nm).
    { destruct (Nat.le_gt_cases (String.length nm) (String.length nm')).
      - symmetry. now apply (capName_unique nm nm' post post').
      - apply (capName_unique nm' nm post' post); auto. lia. }
    unfold componentFindings. rewrite Hg, Hsame, Hz, Hl, Hc.
    cbn [negb andb toResult index fst]. left. reflexivity.
  - intros Hk d Hd Hstart.
    destruct (component_finding_inv _ _ _ Hd)
      as (w & nm' & post' & Ht & Hnm' & Hdel' & Hz & Hl & Hc & ->).
    cbn [unknownFinding range start] in Hstart.
    assert (Hw : w = pre).
    { unfold text in Ht.
      destruct (app_split pre _ w _ Ht ltac:(lia)) as (q & Hq & _).
      destruct q; [now rewrite app_nil_r in Hq|].
      rewrite Hq, length_app in Hstart. cbn in Hstart. lia. }
    subst w. unfold text in Ht.
    assert (E : nm +:+ post = nm' +:+ post').
    { assert (E0 : Js.drop (String.length pre) (pre +:+ "<" +:+ nm +:+ post)
                   = Js.drop (String.length pre) (pre +:+ "<" +:+ nm' +:+ post'))
        by now rewrite <- Ht.
      rewrite !drop_app in E0. now injection E0. }
    assert (Hsame : nm' = nm).
    { destruct (Nat.le_gt_cases (String.length nm) (String.length nm')).
      - symmetry. now apply (capName_unique nm nm' post post').
      - apply (capName_unique nm' nm post' post); auto. lia. }
    subst nm'. unfold known in Hk. rewrite Hl, Hc, !orb_false_r in Hk.
    apply String.eqb_eq in Hk. contradiction.
Qed.

Lemma unknown_tag_is_reported_witness :
  In (unknownFinding "<p>" "Card")
     (collectComponentDiagnostics ("<p>" +:+ "<" +:+ "Card" +:+ " />")
        (Some (CacheFacts.emptyGraph "/a"))).
Proof.
  apply (unknown_tag_is_reported (CacheFacts.emptyGraph "/a") "<p>" "Card" " />");
    reflexivity.
Defined.

End ComponentLaws.

(** ** The expression check and the engine as a whole *)

Module EngineLaws.
Import Re ReFacts StrFacts ReMore Diagnostics.

Definition notCloseB : ascii -> bool := classMatches false true [Ch "}"].

Definition dangerousMessage : string :=
  "Dangerous pattern detected: eval() and Function() are not allowed in expressions".
Definition withMessage : string := "'with' statement is not allowed in expressions".

Lemma expressionPattern_sound pv s i y :
  m false expressionPattern (mkState pv s i []) Some = Some y ->
  exists e s',
    s = "{" +:+ e +:+ "}" +:+ s' /\ e <> "" /\ allb notCloseB e = true /\
    pos y = i + String.length e + 2 /\
    caps y = [(1, (i + 1, i + 1 + String.length e))].
Proof.
  unfold expressionPattern. rewrite m_cat, m_chr. cbn [rest].
  destruct s as [|c s1]; [discriminate|].
  destruct (Ascii.eqb (canon false c) (canon false "{")) eqn:Hc; [|discriminate].
  apply Ascii.eqb_eq in Hc. cbn [canon] in Hc. subst c.
  unfold advance. cbn [pos caps prev rest]. rewrite m_cat, m_grp, m_plus_cls.
  destruct s1 as [|a t]; [discriminate|]. fold notCloseB.
  destruct (notCloseB a) eqn:Ha; [|discriminate].
  intros H. apply starK_sound in H. destruct H as (w & s' & -> & Hw & H).
  unfold after, setCap in H. cbn [pos caps prev rest] in H.
  rewrite m_chr in H. cbn [rest] in H.
  destruct s' as [|d s2]; [discriminate|].
  destruct (Ascii.eqb (canon false d) (canon false "}")) eqn:Hd; [|discriminate].
  apply Ascii.eqb_eq in Hd. cbn [canon] in Hd. subst d.
  unfold advance in H. cbn [pos caps] in H. injection H as <-.
  exists (String a w), s2. cbn [allb pos caps String.length]. rewrite Ha, Hw.
  split; [reflexivity|]. split; [discriminate|]. split; [reflexivity|].
  split; [lia|]. do 3 f_equal; lia.
Qed.

(** What the loop body sees of a match of the expression pattern. *)
Lemma expression_match text mt :
  In mt (matchAll false expressionPattern text) ->
  exists pre e post,
    text = pre +:+ "{" +:+ e +:+ "}" +:+ post /\ e <> "" /\ allb notCloseB e = true /\
    matchRange mt = mkRange (String.length pre) (String.length pre + String.length e + 2) /\
    Imports.groupText 1 mt = e.
Proof.
  intros Hin.
  destruct (matchAll_bounds _ _ _ _ Hin) as (Hle & _ & _ & Hlen).
  destruct (matchAll_matches _ _ _ _ Hin) as (w & s0 & y & Hs & Hi & Hst & Hc & Hsub & Hm).
  destruct (expressionPattern_sound _ _ _ _ Hm) as (e & s' & -> & Hne & He & Hpos & Hcaps).
  exists w, e, s'. split; [exact Hs|]. split; [exact Hne|]. split; [exact He|]. split.
  - unfold matchRange. rewrite Hlen, Hi, Hst, Hpos. f_equal. lia.
  - unfold Imports.groupText, group. rewrite Hc, Hcaps, Hsub, Hs. cbn [lookupCap Nat.eqb default].
    replace (String.length w + 1 + String.length e - (String.length w + 1))
      with (String.length e) by lia.
    replace (String.length w + 1) with (String.length w + String.length "{") by reflexivity.
    now rewrite drop_add, !drop_app, take_app.
Qed.

(** Every finding of the expression check, traced to its braces. *)
Lemma expression_finding_inv (text : string) (d : Diagnostic) :
  In d (collectExpressionDiagnostics text) ->
  exists pre e post,
    text = pre +:+ "{" +:+ e +:+ "}" +:+ post /\ e <> "" /\ allb notCloseB e = true /\
    severity d = Error /\ source d = "zenith" /\
    range d = mkRange (String.length pre) (String.length pre + String.length e + 2) /\
    ((message d = dangerousMessage /\
      Js.includes e "eval(" || Js.includes e "Function(" = true) \/
     (message d = withMessage /\ test false withPattern e = true)).
Proof.
  intros Hin. unfold collectExpressionDiagnostics in Hin.
  apply in_concat in Hin. destruct Hin as (ds & Hds & Hd).
  apply List.in_map_iff in Hds. destruct Hds as (mt & <- & Hmt).
  destruct (expression_match _ _ Hmt) as (pre & e & post & Ht & Hne & He & Hr & Hg).
  exists pre, e, post. split; [exact Ht|]. split; [exact Hne|]. split; [exact He|].
  unfold expressionFindings in Hd. rewrite Hg, Hr in Hd.
  apply in_app_or in Hd. destruct Hd as [Hd|Hd].
  - destruct (Js.includes e "eval(" || Js.includes e "Function(") eqn:Hdanger; [|contradiction].
    destruct Hd as [<-|[]]. cbn [severity source range message].
    repeat split. left. split; reflexivity.
  - destruct (test false withPattern e) eqn:Hwith; [|contradiction].
    destruct Hd as [<-|[]]. cbn [severity source range message].
    repeat split. right. split; reflexivity.
Qed.

(** X10. Every finding of the expression check is an error over a pair of
    braces of the text with a non-empty text without [}] between them, from
    the opening to the closing brace; it is either the finding for a
    dangerous call, and then the text between the braces contains [eval(] or
    [Function(], or the finding for [with], and then that text contains the
    word [with] followed by optional white space and [(]. *)
Theorem expression_findings_are_errors_over_braces (text : string) (d : Diagnostic) :
  In d (collectExpressionDiagnostics text) ->
  exists pre e post,
    text = pre +:+ "{" +:+ e +:+ "}" +:+ post /\ e <> "" /\ allb notCloseB e = true /\
    severity d = Error /\ source d = "zenith" /\
    range d = mkRange (String.length pre) (String.length pre + String.length e + 2) /\
    ((message d = dangerousMessage /\
      Js.includes e "eval(" || Js.includes e "Function(" = true) \/
     (message d = withMessage /\ test false withPattern e = true)).
Proof. apply expression_finding_inv. Qed.

Definition evalFinding : Diagnostic :=
  mkDiagnostic Error (mkRange 3 12) dangerousMessage "zenith".

Lemma expression_findings_are_errors_over_braces_witness :
  exists pre e post,
    "<p>{eval(x)}</p>" = pre +:+ "{" +:+ e +:+ "}" +:+ post /\ e <> "" /\
    allb notCloseB e = true /\
    severity evalFinding = Error /\ source evalFinding = "zenith" /\
    range evalFinding
    = mkRange (String.length pre) (String.length pre + String.length e + 2) /\
    ((message evalFinding = dangerousMessage /\
      Js.includes e "eval(" || Js.includes e "Function(" = true) \/
     (message evalFinding = withMessage /\ test false withPattern e = true)).
Proof.
  apply (expression_findings_are_errors_over_braces "<p>{eval(x)}</p>").
  vm_compute. left. reflexivity.
Defined.

(** *** The engine *)

(** The range lies in the text. *)
Definition inText (text : string) (d : Diagnostic) : Prop :=
  start (range d) <= finish (range d) /\ finish (range d) <= String.length text.

Lemma matchRange_inText ic r text mt :
  In mt (matchAll ic r text) ->
  index mt <= index mt + String.length (whole mt) /\
  index mt + String.length (whole mt) <= String.length text.
Proof.
  intros Hin. destruct (matchAll_bounds _ _ _ _ Hin) as (Hle & Hst & _ & Hlen). lia.
Qed.

Lemma directive_findings_shape text :
  Forall (fun d => severity d = Error /\ source d = "zenith" /\ inText text d)
         (collectDirectiveDiagnostics text).
Proof.
  unfold collectDirectiveDiagnostics. apply Forall_app. split.
  - apply List.Forall_forall. intros d Hin. apply in_concat in Hin.
    destruct Hin as (ds & Hds & Hd). apply List.in_map_iff in Hds.
    destruct Hds as (mt & <- & Hmt). pose proof (matchRange_inText _ _ _ _ Hmt) as Hr.
    unfold directiveFindings in Hd. apply in_app_or in Hd. destruct Hd as [Hd|Hd].
    + destruct (String.eqb _ "zen:for"); [|contradiction].
      destruct (DirectiveMetadata.parseForExpression _); [contradiction|].
      destruct Hd as [<-|[]]. repeat split; apply Hr.
    + destruct (negb _); [|contradiction].
      destruct Hd as [<-|[]]. repeat split; apply Hr.
  - apply List.Forall_forall. intros d Hin. apply List.in_map_iff in Hin.
    destruct Hin as (mt & <- & Hmt). pose proof (matchRange_inText _ _ _ _ Hmt) as Hr.
    repeat split; apply Hr.
Qed.

Lemma component_findings_shape text graph :
  Forall (fun d => severity d = Warning /\ source d = "zenith" /\ inText text d)
         (collectComponentDiagnostics text graph).
Proof.
  destruct graph as [g|]; [|constructor].
  apply List.Forall_forall. intros d Hin.
  destruct (ComponentLaws.component_finding_inv _ _ _ Hin)
    as (pre & nm & post & -> & _ & _ & _ & _ & _ & ->).
  repeat split; cbn [ComponentLaws.unknownFinding range start finish]; [lia|].
  rewrite !length_app. cbn [String.length]. lia.
Qed.

Lemma expression_findings_shape text :
  Forall (fun d => severity d = Error /\ source d = "zenith" /\ inText text d)
         (collectExpressionDiagnostics text).
Proof.
  apply List.Forall_forall. intros d Hin.
  destruct (expression_finding_inv _ _ Hin) as (pre & e & post & -> & _ & _ & Hs & Hsrc & Hr & _).
  repeat split; try assumption; rewrite Hr; cbn [start finish]; [lia|].
  rewrite !length_app. cbn [String.length]. lia.
Qed.

Section Engine.

Variable newRegExp : string -> option (string -> option (nat * string)).

Definition importShape (d : Diagnostic) : Prop :=
  (severity d = Information \/ severity d = Warning) /\ source d = "zenith" /\
  start (range d) <= finish (range d).

Lemma specifierFindings_shape scriptContent scriptStart moduleName validExports specs :
  forall ds,
    specifierFindings newRegExp scriptContent scriptStart moduleName validExports specs
    = Some ds ->
    Forall importShape ds.
Proof.
  induction specs as [|sp more IH]; cbn [specifierFindings]; intros ds.
  - intros [= <-]. constructor.
  - destruct (negb (Js.arrayIncludes validExports sp)).
    + destruct (newRegExp _) as [re|]; cbn; [|discriminate].
      destruct (specifierFindings _ _ _ _ _ more) as [others|]; cbn;
        [|destruct (re scriptContent) as [[? ?]|]; discriminate].
      destruct (re scriptContent) as [[idx matched]|]; cbn; intros [= <-].
      * constructor; [|apply IH; reflexivity].
        repeat split; cbn; [right; reflexivity | lia].
      * apply IH; reflexivity.
    + cbn. destruct (specifierFindings _ _ _ _ _ more) as [others|]; cbn; [|discriminate].
      intros [= <-]. apply IH; reflexivity.
Qed.

Lemma importFindings_shape scriptContent scriptStart imp ds :
  importFindings newRegExp scriptContent scriptStart imp = Some ds ->
  Forall importShape ds.
Proof.
  intros H. destruct (DiagnosticsFacts.importFindings_split _ _ _ _ _ H) as (a & b & -> & Ha & Hb).
  apply Forall_app. split.
  - revert Ha. unfold pluginFindings.
    destruct (_ && _); [|intros [= <-]; constructor].
    destruct (newRegExp _) as [re|]; cbn; [|discriminate].
    destruct (re scriptContent) as [[idx matched]|]; intros [= <-]; [|constructor].
    constructor; [|constructor]. repeat split; cbn; [left; reflexivity | lia].
  - revert Hb. unfold exportFindings.
    destruct (Imports.isKnown _); [|intros [= <-]; constructor].
    destruct (Imports.metadata _); [|discriminate|intros [= <-]; constructor].
    apply specifierFindings_shape.
Qed.

Lemma importsFindings_shape scriptContent scriptStart imports :
  forall ds,
    importsFindings newRegExp scriptContent scriptStart imports = Some ds ->
    Forall importShape ds.
Proof.
  induction imports as [|imp more IH]; cbn [importsFindings]; intros ds.
  - intros [= <-]. constructor.
  - destruct (importFindings _ _ _ imp) as [a|] eqn:Ha; cbn; [|discriminate].
    destruct (importsFindings _ _ _ more) as [b|]; cbn; [|discriminate].
    intros [= <-]. apply Forall_app. split; [|apply IH; reflexivity].
    exact (importFindings_shape _ _ _ _ Ha).
Qed.

(** X11. Whenever the engine returns, its findings are those of the
    component check, then the directive check, then the import check, then
    the expression check.  The findings of the component check are warnings,
    those of the directive and of the expression check are errors, and their
    ranges lie in the text; those of the import check are informations or
    warnings.  Every finding has the source [zenith], none is a hint, and no
    range ends before it begins. *)
Theorem engine_findings_by_collector (text : string) (graph : option Project.ProjectGraph)
  (ds : list Diagnostic) :
  collectDiagnostics newRegExp text graph = Some ds ->
  (exists imp,
      collectImportDiagnostics newRegExp text = Some imp /\
      ds = collectComponentDiagnostics text graph ++ collectDirectiveDiagnostics text ++
           imp ++ collectExpressionDiagnostics text /\
      Forall importShape imp) /\
  Forall (fun d => severity d = Warning /\ inText text d)
         (collectComponentDiagnostics text graph) /\
  Forall (fun d => severity d = Error /\ inText text d) (collectDirectiveDiagnostics text) /\
  Forall (fun d => severity d = Error /\ inText text d) (collectExpressionDiagnostics text) /\
  Forall (fun d => source d = "zenith" /\ severity d <> Hint /\
                   start (range d) <= finish (range d)) ds.
Proof.
  unfold collectDiagnostics. cbn zeta.
  destruct (collectImportDiagnostics newRegExp text) as [imp|] eqn:Hi; [|discriminate].
  intros H.
  change (Some (collectComponentDiagnostics text graph ++ collectDirectiveDiagnostics text ++
                imp ++ collectExpressionDiagnostics text) = Some ds) in H.
  injection H as <-.
  assert (Himp : Forall importShape imp).
  { revert Hi. unfold collectImportDiagnostics.
    destruct (exec true scriptPattern text); [|intros [= <-]; constructor].
    apply importsFindings_shape. }
  pose proof (component_findings_shape text graph) as Hc.
  pose proof (directive_findings_shape text) as Hd.
  pose proof (expression_findings_shape text) as He.
  split; [exists imp; auto|].
  split; [eapply List.Forall_impl; [|exact Hc]; cbn; tauto|].
  split; [eapply List.Forall_impl; [|exact Hd]; cbn; tauto|].
  split; [eapply List.Forall_impl; [|exact He]; cbn; tauto|].
  assert (Hall : forall sev l,
             sev <> Hint ->
             Forall (fun d => severity d = sev /\ source d = "zenith" /\ inText text d) l ->
             Forall (fun d => source d = "zenith" /\ severity d <> Hint /\
                              start (range d) <= finish (range d)) l).
  { intros sev l Hsev Hl. eapply List.Forall_impl; [|exact Hl]. cbn.
    intros d (Hs & Hsrc & Hr & _). rewrite Hs. auto. }
  apply Forall_app. split; [apply (Hall Warning); [discriminate | exact Hc]|].
  apply Forall_app. split; [apply (Hall Error); [discriminate | exact Hd]|].
  apply Forall_app. split; [|apply (Hall Error); [discriminate | exact He]].
  eapply List.Forall_impl; [|exact Himp]. cbn. intros d ([Hs|Hs] & Hsrc & Hr);
    rewrite Hs; repeat split; try assumption; discriminate.
Qed.

End Engine.

Lemma engine_findings_by_collector_witness :
  Forall (fun d => severity d = Error /\ inText "<p>{eval(x)}</p>" d)
         (collectExpressionDiagnostics "<p>{eval(x)}</p>").
Proof.
  apply (engine_findings_by_collector RegExpSyntax.RegExp "<p>{eval(x)}</p>" None
           [evalFinding]).
  vm_compute. reflexivity.
Defined.
End EngineLaws.

(** ** Import resolution and the metadata tables *)

Module ResolveLaws.
Import StrFacts Imports.

(** A key of a table, or a member of Object.prototype. *)
Lemma get_cases {A} (table : list (string * A)) (key : string) :
  match JsObject.get table key with
  | JsObject.Own v => In (key, v) table
  | JsObject.Inherited k => k = key /\ In key JsObject.prototypeKeys /\ ~ In key (JsObject.keys table)
  | JsObject.Undefined => ~ In key JsObject.prototypeKeys /\ ~ In key (JsObject.keys table)
  end.
Proof.
  unfold JsObject.get.
  assert (Hown : match JsObject.own table key with
                 | Some v => In (key, v) table
                 | None => ~ In key (JsObject.keys table)
                 end).
  { induction table as [|[k v] t IH]; cbn; [tauto|].
    destruct (String.eqb_spec k key) as [->|Hne]; [left; reflexivity|].
    destruct (JsObject.own t key); [right; exact IH|].
    intros [E|H]; [contradiction | exact (IH H)]. }
  destruct (JsObject.own table key); [exact Hown|].
  destruct (Js.arrayIncludes JsObject.prototypeKeys key) eqn:Hk.
  - unfold Js.arrayIncludes in Hk. apply existsb_exists in Hk.
    destruct Hk as (k & Hin & Heq). apply String.eqb_eq in Heq. subst k. auto.
  - split; [|exact Hown]. intros Hin.
    assert (Js.arrayIncludes JsObject.prototypeKeys key = true); [|congruence].
    unfold Js.arrayIncludes. apply existsb_exists. exists key. split; [exact Hin|].
    apply String.eqb_refl.
Qed.

Lemma find_name_some {A} (nameOf : A -> string) (l : list A) (nm : string) (x : A) :
  List.find (fun e => String.eqb (nameOf e) nm) l = Some x -> nameOf x = nm /\ In x l.
Proof.
  intros H. apply List.find_some in H. destruct H as [Hin Heq].
  apply String.eqb_eq in Heq. auto.
Qed.

(** X12. [resolveExport] throws exactly for the module names that are
    members of Object.prototype, and for no module that
    [parseZenithImports] records.  When it returns an export, the export
    has the name asked for, the module is a known core or plugin module, and
    the export is one of the exports that [getModuleExports] lists for the
    module; for a module that is not known it returns none. *)
Theorem resolveExport_returns_listed_export (moduleName exportName : string) :
  (resolveExport moduleName exportName = None <-> In moduleName JsObject.prototypeKeys) /\
  (forall script p,
      In p (parseZenithImports script) -> resolveExport (module p) exportName <> None) /\
  (forall e,
      resolveExport moduleName exportName = Some (Some e) ->
      CoreImports.name e = exportName /\
      isKnown (resolveModule moduleName) = true /\
      exists exports, getModuleExports moduleName = Some exports /\ In e exports) /\
  (isKnown (resolveModule moduleName) = false ->
   resolveExport moduleName exportName = Some None).
Proof.
  unfold resolveExport, resolveModule, getModuleExports, CoreImports.isCoreModule,
    CoreImports.getCoreExport, CoreImports.getCoreModule, PluginImports.isKnownPluginModule,
    PluginImports.getPluginExport, PluginImports.getPluginModule, JsObject.has.
  pose proof (get_cases CoreImports.CORE_MODULES moduleName) as Hc.
  pose proof (get_cases PluginImports.PLUGIN_MODULES moduleName) as Hp.
  split; [|split; [|split]].
  - destruct (JsObject.get CoreImports.CORE_MODULES moduleName) as [c|k|].
    + split; [discriminate|]. intros Hin. exfalso.
      revert Hc. cbn in Hin |- *.
      repeat (destruct Hin as [<-|Hin]; [intros [H|[H|[]]]; discriminate H|]). contradiction.
    + split; [intros _; apply Hc | reflexivity].
    + destruct (JsObject.get PluginImports.PLUGIN_MODULES moduleName) as [c|k|].
      * split; [discriminate | intros Hin; exfalso; apply (proj1 Hc Hin)].
      * split; [intros _; apply Hp | reflexivity].
      * split; [discriminate | intros Hin; exfalso; apply (proj1 Hc Hin)].
  - intros script p Hin.
    pose proof (HoverFacts.parseLines_zenith (Js.splitChar Js.nl script) 0) as Hz.
    rewrite List.Forall_forall in Hz. specialize (Hz p Hin).
    destruct (HoverFacts.resolveExport_zenith (module p) exportName Hz) as (e & He).
    change (resolveExport (module p) exportName <> None). rewrite He. discriminate.
  - intros e.
    destruct (JsObject.get CoreImports.CORE_MODULES moduleName) as [c|k|].
    + intros [= H]. apply find_name_some in H. destruct H as [Hn Hin].
      split; [exact Hn|]. split; [reflexivity|]. exists (CoreImports.exports c). auto.
    + discriminate.
    + destruct (JsObject.get PluginImports.PLUGIN_MODULES moduleName) as [c|k|].
      * intros [= H]. apply find_name_some in H. destruct H as [Hn Hin].
        split; [exact Hn|]. split; [|exists (PluginImports.exports c); auto].
        destruct (PluginImports.isPluginModule moduleName) eqn:Hpm; [reflexivity|].
        exfalso. revert Hp Hpm. cbn.
        intros [H|[H|[]]] Hpm; injection H as <- _; vm_compute in Hpm; discriminate.
      * discriminate.
      * discriminate.
  - destruct (JsObject.get CoreImports.CORE_MODULES moduleName) as [c|k|];
      [discriminate | discriminate |].
    destruct (JsObject.get PluginImports.PLUGIN_MODULES moduleName) as [c|k|].
    + destruct (PluginImports.isPluginModule moduleName) eqn:Hpm; [discriminate|].
      intros _. exfalso. revert Hp Hpm. cbn.
      intros [H|[H|[]]] Hpm; injection H as <- _; vm_compute in Hpm; discriminate.
    + destruct Hp as (_ & Hin & _). exfalso. apply (proj1 Hc Hin).
    + reflexivity.
Qed.

Lemma resolveExport_returns_listed_export_witness :
  CoreImports.name (CoreImports.mkExport "ZenLink" CoreImports.KComponent) = "ZenLink".
Proof.
  apply (resolveExport_returns_listed_export "zenith/router" "ZenLink"). reflexivity.
Defined.

(** X13. Every module that [getAllModules] offers, the core modules first
    and then the plugin modules, is resolved by [resolveModule] as known and
    of the kind offered; [getModuleExports] lists its exports, and every
    listed export is what [resolveExport] returns for its name.  In the other
    direction, a name that [resolveModule] takes for known is an offered
    module or a member of Object.prototype. *)
Theorem offered_modules_resolve (moduleName : string) :
  (forall k,
      In (moduleName, k) getAllModules ->
      kind (resolveModule moduleName) = k /\
      isKnown (resolveModule moduleName) = true /\
      exists exports,
        getModuleExports moduleName = Some exports /\
        forall e, In e exports ->
                  resolveExport moduleName (CoreImports.name e) = Some (Some e)) /\
  (isKnown (resolveModule moduleName) = true ->
   In moduleName (List.map fst getAllModules) \/ In moduleName JsObject.prototypeKeys).
Proof.
  split.
  - intros k Hin. cbn in Hin.
    repeat (destruct Hin as [[= <- <-]|Hin];
            [split; [reflexivity|]; split; [reflexivity|];
             eexists; split; [reflexivity|];
             intros e He; cbn in He;
             repeat (destruct He as [<-|He]; [reflexivity|]); contradiction|]).
    contradiction.
  - unfold resolveModule, CoreImports.isCoreModule, PluginImports.isKnownPluginModule,
      JsObject.has.
    pose proof (get_cases CoreImports.CORE_MODULES moduleName) as Hc.
    pose proof (get_cases PluginImports.PLUGIN_MODULES moduleName) as Hp.
    destruct (JsObject.get CoreImports.CORE_MODULES moduleName) as [c|k|].
    + intros _. left. apply (List.in_map fst) in Hc. cbn [fst] in Hc.
      unfold getAllModules. rewrite List.map_app, !List.map_map. cbn [fst].
      rewrite List.map_id. apply in_or_app. left. exact Hc.
    + intros _. right. apply Hc.
    + destruct (PluginImports.isPluginModule moduleName); [|discriminate].
      destruct (JsObject.get PluginImports.PLUGIN_MODULES moduleName) as [c|k|].
      * intros _. left. apply (List.in_map fst) in Hp. cbn [fst] in Hp.
        unfold getAllModules. rewrite List.map_app, !List.map_map. cbn [fst].
        rewrite List.map_id. apply in_or_app. right. exact Hp.
      * intros _. right. apply Hp.
      * discriminate.
Qed.

Lemma offered_modules_resolve_witness :
  kind (resolveModule "zenith:image") = plugin.
Proof.
  apply (proj1 (offered_modules_resolve "zenith:image") plugin).
  cbn. right. right. right. left. reflexivity.
Defined.

(** *** The lines of a script *)

Lemma splitChar_nonempty (c : ascii) (s : string) : Js.splitChar c s <> [].
Proof.
  destruct s as [|a t]; cbn [Js.splitChar]; [discriminate|].
  destruct (Ascii.eqb a c); [discriminate|]. destruct (Js.splitChar c t); discriminate.
Qed.

Lemma splitChar_app (c : ascii) (a b : string) :
  Js.splitChar c (a +:+ String c b) = Js.splitChar c a ++ Js.splitChar c b.
Proof.
  induction a as [|x a IH].
  - rewrite app_nil_l. cbn [Js.splitChar]. now rewrite Ascii.eqb_refl.
  - rewrite app_cons. cbn [Js.splitChar].
    destruct (Ascii.eqb x c); [now rewrite IH|].
    rewrite IH. pose proof (splitChar_nonempty c a) as Hne.
    destruct (Js.splitChar c a); [congruence | reflexivity].
Qed.

Definition shiftLine (k : nat) (p : ParsedImport) : ParsedImport :=
  mkImport (module p) (specifiers p) (isType p) (line p + k).

Lemma parseLine_shift ln i k :
  parseLine ln (i + k) = List.map (shiftLine k) (parseLine ln i).
Proof.
  unfold parseLine, fromImportOf, sideEffectOf.
  destruct (Re.exec false importPattern ln) as [mt|];
    destruct (Re.exec false sideEffectPattern ln) as [mt'|]; cbn [app List.map];
    repeat match goal with
           | |- context [if ?b then _ else _] => destruct b
           end;
    cbn [app List.map shiftLine module specifiers isType line];
    try reflexivity; unfold shiftLine;
    cbn [module specifiers isType line]; repeat (f_equal; try lia).
Qed.

Lemma parseLines_shift lines :
  forall i k, parseLines lines (i + k) = List.map (shiftLine k) (parseLines lines i).
Proof.
  induction lines as [|ln t IH]; intros i k; cbn [parseLines]; [reflexivity|].
  rewrite List.map_app, parseLine_shift. f_equal. exact (IH (S i) k).
Qed.

Lemma parseLines_app l1 :
  forall l2 i, parseLines (l1 ++ l2) i
               = parseLines l1 i ++ parseLines l2 (i + List.length l1).
Proof.
  induction l1 as [|ln t IH]; intros l2 i; cbn [app parseLines List.length].
  - now rewrite Nat.add_0_r.
  - rewrite IH, <- List.app_assoc. do 2 f_equal. f_equal. lia.
Qed.

(** X14. Imports are read line by line: the imports of two scripts joined
    by a newline are the imports of the first followed by the imports of the
    second, with the line numbers of the second moved on by the number of
    lines of the first. *)
Theorem parseZenithImports_of_joined_scripts (a b : string) :
  parseZenithImports (a +:+ Js.NL +:+ b)
  = parseZenithImports a ++
    List.map (shiftLine (List.length (Js.splitChar Js.nl a))) (parseZenithImports b).
Proof.
  unfold parseZenithImports.
  change (a +:+ Js.NL +:+ b) with (a +:+ String Js.nl b).
  rewrite splitChar_app, parseLines_app. f_equal. cbn [Nat.add].
  exact (parseLines_shift (Js.splitChar Js.nl b) 0 _).
Qed.

End ResolveLaws.

(** ** The directive and router vocabularies *)

Module VocabularyLaws.
Import StrFacts DirectiveMetadata.

(** X15. A directive name of [getDirectiveNames] can be placed on an
    element and on a component and never on a slot; nothing can be placed on
    a slot; a name that is no property of the table can be placed nowhere;
    for a member of Object.prototype, which [isDirective] accepts although
    [getDirectiveNames] does not list it, the placement test throws on an
    element and on a component.  [isDirective] accepts exactly the listed
    names and the members of Object.prototype, and [getDirective] gives for
    a listed name the directive of that name. *)
Theorem canPlaceDirective_by_name (nm : string) (elementType : ElementType) :
  (In nm getDirectiveNames ->
   canPlaceDirective nm elementType
   = Some (match elementType with Slot => false | _ => true end) /\
   exists d, getDirective nm = JsObject.Own d /\ name d = nm) /\
  canPlaceDirective nm Slot = Some false /\
  (~ In nm getDirectiveNames -> ~ In nm JsObject.prototypeKeys ->
   canPlaceDirective nm elementType = Some false /\ isDirective nm = false) /\
  (In nm JsObject.prototypeKeys ->
   isDirective nm = true /\
   canPlaceDirective nm elementType
   = match elementType with Slot => Some false | _ => None end) /\
  (isDirective nm = true <-> In nm getDirectiveNames \/ In nm JsObject.prototypeKeys).
Proof.
  pose proof (ResolveLaws.get_cases DIRECTIVES nm) as Hg.
  unfold canPlaceDirective, isDirective, getDirective, JsObject.has.
  split; [|split; [|split; [|split]]].
  - intros Hin. cbn in Hin.
    repeat (destruct Hin as [<-|Hin];
            [split; [now destruct elementType | eexists; split; reflexivity]|]).
    contradiction.
  - destruct (JsObject.get DIRECTIVES nm); reflexivity.
  - intros Hn Hp. destruct (JsObject.get DIRECTIVES nm) as [d|k|].
    + exfalso. apply Hn. apply (List.in_map fst) in Hg. exact Hg.
    + exfalso. apply Hp, Hg.
    + split; reflexivity.
  - intros Hp. destruct (JsObject.get DIRECTIVES nm) as [d|k|].
    + exfalso. revert Hg. cbn in Hp |- *.
      repeat (destruct Hp as [<-|Hp]; [intros [H|[H|[H|[H|[]]]]]; discriminate H|]).
      contradiction.
    + split; [reflexivity | now destruct elementType].
    + exfalso. apply (proj1 Hg Hp).
  - destruct (JsObject.get DIRECTIVES nm) as [d|k|].
    + split; [|reflexivity]. intros _. left. apply (List.in_map fst) in Hg. exact Hg.
    + split; [|reflexivity]. intros _. right. apply Hg.
    + split; [discriminate|]. intros [H|H]; exfalso; [apply (proj2 Hg H) | apply (proj1 Hg H)].
Qed.

Lemma canPlaceDirective_by_name_witness :
  canPlaceDirective "zen:for" Component = Some true.
Proof.
  apply (canPlaceDirective_by_name "zen:for" Component). cbn. right. left. reflexivity.
Defined.

Import Router.

(** X16. The router lookups answer by name: [getZenLinkProp] and
    [getRouteField] return an entry of their table with the name asked for,
    and return one for every name of the table ([getZenLinkPropNames] for
    the props); [isRouterHook] accepts the keys of the hook table and the
    members of Object.prototype and nothing else, and for a key of the table
    [getRouterHook] returns the hook of that name. *)
Theorem router_lookups_by_name (nm : string) :
  (forall p, getZenLinkProp nm = Some p -> propName p = nm /\ In p ZENLINK_PROPS) /\
  (In nm getZenLinkPropNames -> exists p, getZenLinkProp nm = Some p) /\
  (forall f, getRouteField nm = Some f -> fieldName f = nm /\ In f ROUTE_FIELDS) /\
  (In nm (List.map fieldName ROUTE_FIELDS) -> exists f, getRouteField nm = Some f) /\
  (isRouterHook nm = true <->
   In nm (JsObject.keys ROUTER_HOOKS) \/ In nm JsObject.prototypeKeys) /\
  (In nm (JsObject.keys ROUTER_HOOKS) ->
   exists h, getRouterHook nm = JsObject.Own h /\ Router.name h = nm).
Proof.
  split; [|split; [|split; [|split; [|split]]]].
  - intros p H. exact (ResolveLaws.find_name_some propName _ _ _ H).
  - intros Hin. cbn in Hin.
    repeat (destruct Hin as [<-|Hin]; [eexists; reflexivity|]). contradiction.
  - intros f H. exact (ResolveLaws.find_name_some fieldName _ _ _ H).
  - intros Hin. cbn in Hin.
    repeat (destruct Hin as [<-|Hin]; [eexists; reflexivity|]). contradiction.
  - pose proof (ResolveLaws.get_cases ROUTER_HOOKS nm) as Hg.
    unfold isRouterHook, JsObject.has.
    destruct (JsObject.get ROUTER_HOOKS nm) as [d|k|].
    + split; [|reflexivity]. intros _. left. apply (List.in_map fst) in Hg. exact Hg.
    + split; [|reflexivity]. intros _. right. apply Hg.
    + split; [discriminate|]. intros [H|H]; exfalso; [apply (proj2 Hg H) | apply (proj1 Hg H)].
  - intros Hin. cbn in Hin.
    repeat (destruct Hin as [<-|Hin]; [eexists; split; reflexivity|]). contradiction.
Qed.

Lemma router_lookups_by_name_witness :
  exists p, getZenLinkProp "preload" = Some p.
Proof.
  apply (router_lookups_by_name "preload"). cbn. right. left. reflexivity.
Defined.

End VocabularyLaws.

(** ** The parser of the iteration directive *)

Module ForLaws.
Import Re ReFacts StrFacts ReMore DirectiveMetadata.
Local Open Scope re_scope.

Definition identStartB : ascii -> bool :=
  classMatches false false [Rg "a" "z"; Rg "A" "Z"; Ch "_"; Ch "$"].
Definition identWordB : ascii -> bool := classMatches false false [Wd; Ch "$"].
Definition dotB (a : ascii) : bool := negb (Js.isLineTerminator a).

(** An identifier of the directive: a letter, [_] or [$], then word
    characters and [$]. *)
Definition jsIdent (x : string) : bool :=
  match x with
  | EmptyString => false
  | String a t => identStartB a && allb identWordB t
  end.

(** A non-empty run of white space. *)
Definition gap (w : string) : bool :=
  match w with EmptyString => false | _ => allb spaceB w end.

(** What follows the loop variables: white space, [in], white space. *)
Definition tailPattern : regex :=
  Plus ws ~> Lit "in" ~> Plus ws ~> Grp 3 (Plus Dot) ~> Star ws ~> Eol.

Definition indexPattern : regex :=
  Star ws ~> Chr "," ~> Star ws ~> Grp 2 (identStart ~> Star identWord).

(** A loop of one-character steps is the star over the characters. *)
Lemma repLoop_star_char (mr : state -> (state -> option state) -> option state)
  (p : ascii -> bool) k s :
  (forall x d, mr x d = match rest x with
                        | String a t => if p a then d (advance x a t) else None
                        | EmptyString => None
                        end) ->
  forall fuel pv i cs,
    String.length s < fuel ->
    repLoop mr [] true k fuel 0 None (mkState pv s i cs) = starK p k pv s i cs.
Proof.
  intros Hmr.
  induction s as [|a t IH]; intros fuel pv i cs Hf;
    (destruct fuel as [|fuel]; [simpl in Hf; lia|]);
    cbn [repLoop Nat.eqb negb andb]; rewrite clearCaps_nil, Hmr; cbn [rest starK].
  - reflexivity.
  - destruct (p a); [|reflexivity].
    unfold advance. cbn [pos caps Nat.pred option_map].
    replace (S i =? i)%nat with false by (symmetry; apply Nat.eqb_neq; lia).
    rewrite IH by (simpl in Hf; lia).
    unfold orElse. destruct (starK _ _ _ _ _ _); reflexivity.
Qed.

Lemma m_dot ic x d :
  m ic Dot x d = match rest x with
                 | String a t => if dotB a then d (advance x a t) else None
                 | EmptyString => None
                 end.
Proof.
  cbn [m]. destruct (rest x) as [|a t]; [reflexivity|]. unfold dotB.
  now destruct (Js.isLineTerminator a).
Qed.

Lemma m_plus_dot ic k pv s i cs :
  m ic (Plus Dot) (mkState pv s i cs) k
  = match s with
    | String a t => if dotB a then starK dotB k (Some a) t (S i) cs else None
    | EmptyString => None
    end.
Proof.
  unfold Plus. rewrite m_rep, repLoop_plus. cbn [groups].
  rewrite clearCaps_nil, m_dot. cbn [rest].
  destruct s as [|a t]; [reflexivity|].
  destruct (dotB a); [|reflexivity].
  unfold advance. cbn [pos caps].
  apply repLoop_star_char; [intros; apply m_dot | simpl; lia].
Qed.

(** An optional part: one try of the part, which has to read something,
    and else nothing. *)
Lemma m_opt_caps ic r x k :
  m ic (Opt r) x k
  = match m ic r (clearCaps (groups r) x)
            (fun y => if (pos y =? pos x)%nat then None else k y) with
    | Some z => Some z
    | None => k x
    end.
Proof.
  unfold Opt. rewrite m_rep_unfold. cbn zeta.
  cbn [Nat.eqb negb andb option_map Nat.pred].
  rewrite (m_local ic r (clearCaps (groups r) x)
             (fun y : state =>
                if (pos y =? pos x)%nat then None
                else m ic (Rep r 0 (Some 0) true) y k)
             (fun y : state => if (pos y =? pos x)%nat then None else k y));
    [reflexivity|].
  intros y _. destruct (pos y =? pos x)%nat; [reflexivity|]. now rewrite m_rep_unfold.
Qed.

Lemma identStart_is_no_space c : identStartB c = true -> spaceB c = false.
Proof. all_chars c. Qed.
Lemma space_not_identWord c : spaceB c = true -> identWordB c = false.
Proof. all_chars c. Qed.

(** A run that goes up to a character outside the class is read whole. *)
Lemma m_star_at_max neg items w s' pv i cs k y :
  allb (classMatches false neg items) w = true ->
  stops (classMatches false neg items) s' = true ->
  k (after pv w s' i cs) = Some y ->
  m false (Star (Cls neg items)) (mkState pv (w +:+ s') i cs) k = Some y.
Proof. intros Hw Hs Hk. rewrite m_star_cls. now apply starK_at_max. Qed.

Lemma m_plus_at_max neg items w s' pv i cs k y :
  w <> EmptyString ->
  allb (classMatches false neg items) w = true ->
  stops (classMatches false neg items) s' = true ->
  k (after pv w s' i cs) = Some y ->
  m false (Plus (Cls neg items)) (mkState pv (w +:+ s') i cs) k = Some y.
Proof.
  intros Hne Hw Hs Hk. destruct w as [|a t]; [congruence|].
  rewrite m_plus_cls, app_cons. cbn [allb] in Hw. apply andb_prop in Hw.
  destruct Hw as [Ha Ht]. rewrite Ha. apply starK_at_max; [exact Ht | exact Hs |].
  unfold after in *. cbn [lastOr String.length] in Hk.
  replace (S i + String.length t) with (i + S (String.length t)) by lia. exact Hk.
Qed.

(** The identifier at the head of a text, before a character that is no
    part of an identifier. *)
Lemma m_ident n x s' pv i cs k y :
  jsIdent x = true -> stops identWordB s' = true ->
  k (setCap n i (i + String.length x) (after pv x s' i cs)) = Some y ->
  m false (Grp n (identStart ~> Star identWord)) (mkState pv (x +:+ s') i cs) k = Some y.
Proof.
  intros Hx Hs' Hk. destruct x as [|a t]; [discriminate|].
  cbn [jsIdent] in Hx. apply andb_prop in Hx. destruct Hx as [Ha Ht].
  rewrite m_grp, m_cat. unfold identStart, identWord. rewrite m_cls, app_cons.
  cbn [rest]. fold identStartB. rewrite Ha.
  unfold advance. cbn [pos caps prev]. rewrite m_star_cls. fold identWordB.
  apply starK_at_max; [exact Ht | exact Hs' |].
  unfold after in *. cbn [pos String.length lastOr] in *.
  replace (S i + String.length t) with (i + S (String.length t)) by lia. exact Hk.
Qed.

(** The source of the loop: the rest of the text, when it has no line
    terminator. *)
Lemma m_source src pv i cs :
  src <> EmptyString -> allb dotB src = true ->
  exists pv',
    m false (Grp 3 (Plus Dot) ~> Star ws ~> Eol) (mkState pv src i cs) Some
    = Some (mkState pv' EmptyString (i + String.length src)
              ((3, (i, i + String.length src)) :: cs)).
Proof.
  intros Hne Hsrc. destruct src as [|a t]; [congruence|].
  cbn [allb] in Hsrc. apply andb_prop in Hsrc. destruct Hsrc as [Ha Ht].
  exists (lastOr (Some a) t).
  rewrite m_cat, m_grp, m_plus_dot, Ha. cbn [pos].
  rewrite <- (app_nil_r t) at 1.
  apply starK_at_max; [exact Ht | reflexivity |].
  unfold after, setCap, ws. cbn beta. cbn [pos prev rest caps].
  rewrite m_cat, m_star_cls. cbn [starK]. rewrite m_end. cbn [rest String.length].
  now replace (S i + String.length t) with (i + S (String.length t)) by lia.
Qed.

(** The part from the white space before [in] to the end. *)
Lemma m_tail w3 w4 src pv i cs :
  gap w3 = true -> gap w4 = true ->
  src <> EmptyString -> stops spaceB src = true -> allb dotB src = true ->
  exists pv',
    m false tailPattern (mkState pv (w3 +:+ "in" +:+ w4 +:+ src) i cs) Some
    = Some (mkState pv' EmptyString
              (i + String.length w3 + 2 + String.length w4 + String.length src)
              ((3, (i + String.length w3 + 2 + String.length w4,
                    i + String.length w3 + 2 + String.length w4 + String.length src)) :: cs)).
Proof.
  intros H3 H4 Hne Hst Hsrc.
  assert (G : forall w, gap w = true -> w <> EmptyString /\ allb spaceB w = true).
  { intros [|a t] H; [discriminate|]. split; [discriminate | exact H]. }
  destruct (G _ H3) as [N3 A3]. destruct (G _ H4) as [N4 A4].
  destruct (m_source src (lastOr (Some "n"%char) w4)
              (i + String.length w3 + 2 + String.length w4) cs Hne Hsrc) as [pv' Hm].
  exists pv'. unfold tailPattern, ws. rewrite m_cat.
  apply m_plus_at_max; [exact N3 | exact A3 | reflexivity |].
  unfold after. rewrite m_cat, m_lit.
  change (prefixOf false ("in" +:+ w4 +:+ src) "in") with true.
  change (Js.take (String.length "in") ("in" +:+ w4 +:+ src)) with "in".
  change (Js.drop (String.length "in") ("in" +:+ w4 +:+ src)) with (w4 +:+ src).
  unfold after. rewrite m_cat.
  apply m_plus_at_max; [exact N4 | exact A4 | exact Hst |].
  unfold after. cbn [lastOr String.length].
  replace (i + String.length w3 + 2 + String.length w4)
    with (i + String.length w3 + 2 + String.length w4) in Hm by lia.
  exact Hm.
Qed.

Lemma space_not_comma c : spaceB c = true -> Ascii.eqb c "," = false.
Proof. all_chars c. Qed.

(** With no comma behind the white space there is no index variable. *)
Lemma no_index w s' k :
  allb spaceB w = true ->
  stops (fun c => spaceB c || Ascii.eqb c ",") s' = true ->
  forall pv i cs, m false indexPattern (mkState pv (w +:+ s') i cs) k = None.
Proof.
  intros Hw Hs'. unfold indexPattern, ws.
  induction w as [|a w IH]; intros pv i cs; rewrite m_cat, m_star_cls; fold spaceB.
  - rewrite app_nil_l. destruct s' as [|c t]; cbn [starK].
    + reflexivity.
    + cbn [stops] in Hs'. apply negb_true_iff, orb_false_iff in Hs'.
      destruct Hs' as [Hc1 Hc2]. rewrite Hc1, m_cat, m_chr. cbn [rest canon].
      now rewrite Hc2.
  - cbn [allb] in Hw. apply andb_prop in Hw. destruct Hw as [Ha Hw].
    rewrite app_cons. cbn [starK]. rewrite Ha.
    specialize (IH Hw (Some a) (S i) cs). rewrite m_cat, m_star_cls in IH.
    fold spaceB in IH. rewrite IH. cbn [orElse].
    rewrite m_cat, m_chr. cbn [rest canon]. now rewrite (space_not_comma a Ha).
Qed.

(** The start of the header: white space and the item variable. *)
Lemma m_head w0 x s' R y :
  allb spaceB w0 = true -> jsIdent x = true -> stops identWordB s' = true ->
  m false R (mkState (lastOr (lastOr None w0) x) s' (String.length w0 + String.length x)
               [(1, (String.length w0, String.length w0 + String.length x))]) Some
  = Some y ->
  m false (Bol ~> Star ws ~> Grp 1 (identStart ~> Star identWord) ~> R)
    (mkState None (w0 +:+ x +:+ s') 0 []) Some = Some y.
Proof.
  intros H0 Hx Hs' Hm. unfold ws. rewrite m_cat, m_bol. cbn [pos Nat.eqb]. rewrite m_cat.
  apply m_star_at_max; [exact H0 | |].
  - destruct x as [|a t]; [discriminate|]. rewrite app_cons. cbn [stops jsIdent] in *.
    apply andb_prop in Hx. destruct Hx as [Ha _].
    fold spaceB. now rewrite (identStart_is_no_space a Ha).
  - unfold after. rewrite m_cat. apply m_ident; [exact Hx | exact Hs' |].
    unfold setCap, after. cbn [prev rest pos caps Nat.add]. exact Hm.
Qed.

Lemma gap_stops_ident w s : gap w = true -> stops identWordB (w +:+ s) = true.
Proof.
  destruct w as [|a t]; [discriminate|]. cbn [gap allb]. intros H.
  apply andb_prop in H. destruct H as [Ha _]. rewrite app_cons. cbn [stops].
  now rewrite (space_not_identWord a Ha).
Qed.

(** The header with the item variable alone. *)
Lemma m_for_item w0 x w3 w4 src :
  allb spaceB w0 = true -> jsIdent x = true -> gap w3 = true -> gap w4 = true ->
  src <> EmptyString -> stops spaceB src = true -> allb dotB src = true ->
  exists pv' n,
    n = String.length w0 + String.length x + String.length w3 + 2 + String.length w4 /\
    m false forPattern (mkState None (w0 +:+ x +:+ w3 +:+ "in" +:+ w4 +:+ src) 0 []) Some
    = Some (mkState pv' EmptyString (n + String.length src)
              [(3, (n, n + String.length src));
               (1, (String.length w0, String.length w0 + String.length x))]).
Proof.
  intros H0 Hx H3 H4 Hne Hst Hsrc.
  destruct (m_tail w3 w4 src (lastOr (lastOr None w0) x)
              (String.length w0 + String.length x)
              [(1, (String.length w0, String.length w0 + String.length x))]
              H3 H4 Hne Hst Hsrc) as [pv' Hm].
  exists pv', (String.length w0 + String.length x + String.length w3 + 2 + String.length w4).
  split; [reflexivity|].
  apply (m_head w0 x _ (Opt indexPattern ~> tailPattern));
    [exact H0 | exact Hx | now apply gap_stops_ident |].
  rewrite m_cat, m_opt_caps.
  change (groups indexPattern) with [2]. unfold clearCaps.
  cbn [prev rest pos caps List.filter existsb fst Nat.eqb negb orb].
  rewrite no_index; [exact Hm | | reflexivity].
  destruct w3; [discriminate | exact H3].
Qed.

(** The header with an index variable. *)
Lemma m_for_index w0 x w1 w2 ix w3 w4 src :
  allb spaceB w0 = true -> jsIdent x = true ->
  allb spaceB w1 = true -> allb spaceB w2 = true -> jsIdent ix = true ->
  gap w3 = true -> gap w4 = true ->
  src <> EmptyString -> stops spaceB src = true -> allb dotB src = true ->
  exists pv' j n,
    j = String.length w0 + String.length x + String.length w1 + 1 + String.length w2 /\
    n = j + String.length ix + String.length w3 + 2 + String.length w4 /\
    m false forPattern
      (mkState None
         (w0 +:+ x +:+ (w1 +:+ "," +:+ w2 +:+ ix +:+ w3 +:+ "in" +:+ w4 +:+ src)) 0 [])
      Some
    = Some (mkState pv' EmptyString (n + String.length src)
              [(3, (n, n + String.length src));
               (2, (j, j + String.length ix));
               (1, (String.length w0, String.length w0 + String.length x))]).
Proof.
  intros H0 Hx H1 H2 Hix H3 H4 Hne Hst Hsrc.
  set (j := String.length w0 + String.length x + String.length w1 + 1 + String.length w2).
  destruct (m_tail w3 w4 src (lastOr (lastOr (Some ","%char) w2) ix)
              (j + String.length ix)
              [(2, (j, j + String.length ix));
               (1, (String.length w0, String.length w0 + String.length x))]
              H3 H4 Hne Hst Hsrc) as [pv' Hm].
  exists pv', j, (j + String.length ix + String.length w3 + 2 + String.length w4).
  split; [reflexivity|]. split; [reflexivity|].
  apply (m_head w0 x _ (Opt indexPattern ~> tailPattern)); [exact H0 | exact Hx | |].
  { destruct w1 as [|a t]; [reflexivity|]. cbn [allb] in H1.
    apply andb_prop in H1. destruct H1 as [Ha _]. rewrite app_cons. cbn [stops].
    now rewrite (space_not_identWord a Ha). }
  rewrite m_cat, m_opt_caps.
  change (groups indexPattern) with [2]. unfold clearCaps.
  cbn [prev rest pos caps List.filter existsb fst Nat.eqb negb orb].
  match goal with
  | |- match ?e with Some z => Some z | None => _ end = _ =>
      assert (E : e = Some (mkState pv' EmptyString
                 (j + String.length ix + String.length w3 + 2 + String.length w4
                  + String.length src)
                 [(3, (j + String.length ix + String.length w3 + 2 + String.length w4,
                       j + String.length ix + String.length w3 + 2 + String.length w4
                       + String.length src));
                  (2, (j, j + String.length ix));
                  (1, (String.length w0, String.length w0 + String.length x))]));
        [|rewrite E; reflexivity]
  end.
  unfold indexPattern, ws. rewrite m_cat.
  apply m_star_at_max; [exact H1 | reflexivity |].
  unfold after. rewrite m_cat, m_chr, app_cons, app_nil_l. cbn [rest canon].
  rewrite Ascii.eqb_refl. unfold advance. cbn [pos caps]. rewrite m_cat.
  apply m_star_at_max; [exact H2 | |].
  { destruct ix as [|a t]; [discriminate|]. rewrite app_cons. cbn [stops jsIdent] in *.
    apply andb_prop in Hix. destruct Hix as [Ha _].
    fold spaceB. now rewrite (identStart_is_no_space a Ha). }
  unfold after. apply m_ident; [exact Hix | now apply gap_stops_ident |].
  unfold setCap, after. cbn [prev rest pos caps].
  replace (S (String.length w0 + String.length x + String.length w1) + String.length w2)
    with j by (unfold j; lia).
  replace (j + String.length ix =? String.length w0 + String.length x)%nat with false.
  - exact Hm.
  - symmetry. apply Nat.eqb_neq. destruct ix; [discriminate|]. unfold j. cbn. lia.
Qed.


(** The part of a text between two positions. *)
Lemma slice_at (a u b : string) (i j : nat) :
  i = String.length a -> j = String.length a + String.length u ->
  Js.take (j - i) (Js.drop i (a +:+ u +:+ b)) = u.
Proof.
  intros -> ->. rewrite drop_app.
  replace (String.length a + String.length u - String.length a)
    with (String.length u) by lia.
  apply take_app.
Qed.

Lemma exec_at_start r s y :
  m false r (mkState None s 0 []) Some = Some y ->
  exec false r s = Some (toResult s (0, y)).
Proof.
  intros Hm. unfold exec.
  destruct (search_first false r "" s None 0 y Hm) as (j & z & Hs & Hj).
  rewrite app_nil_l in Hs. rewrite Hs. cbn [option_map].
  destruct Hj as [Hj | [-> ->]]; [cbn in Hj; lia | reflexivity].
Qed.

(** X17.  A loop header is read as it is written.  The item variable [x],
    white space, [in], white space and a source that is not empty, has no
    line terminator and does not begin with white space, with any white
    space in front: [parseForExpression] gives the item variable, no index
    variable and the trimmed source.  With [, ix] between the item
    variable and [in], white space allowed around the comma, it gives the
    index variable [ix] as well. *)
Theorem parseForExpression_reads_header (w0 x w3 w4 src : string) :
  allb spaceB w0 = true -> jsIdent x = true -> gap w3 = true -> gap w4 = true ->
  src <> EmptyString -> stops spaceB src = true -> allb dotB src = true ->
  parseForExpression (w0 +:+ x +:+ w3 +:+ "in" +:+ w4 +:+ src)
  = Some (mkFor x None (Js.trim src)) /\
  forall w1 w2 ix,
    allb spaceB w1 = true -> allb spaceB w2 = true -> jsIdent ix = true ->
    parseForExpression
      (w0 +:+ x +:+ w1 +:+ "," +:+ w2 +:+ ix +:+ w3 +:+ "in" +:+ w4 +:+ src)
    = Some (mkFor x (Some ix) (Js.trim src)).
Proof.
  intros H0 Hx H3 H4 Hne Hst Hsrc. split.
  - destruct (m_for_item w0 x w3 w4 src H0 Hx H3 H4 Hne Hst Hsrc) as (pv' & n & Hn & Hm).
    unfold parseForExpression. rewrite (exec_at_start _ _ _ Hm).
    unfold group, toResult. cbn [captures subject snd caps lookupCap Nat.eqb default].
    rewrite (slice_at w0 x _ _ _ eq_refl eq_refl).
    replace (w0 +:+ x +:+ w3 +:+ "in" +:+ w4 +:+ src)
      with ((w0 +:+ x +:+ w3 +:+ "in" +:+ w4) +:+ src +:+ "")
      by (now rewrite app_nil_r, !app_assoc).
    rewrite (slice_at _ src "" n (n + String.length src)); [reflexivity | |].
    + rewrite Hn, !length_app. cbn [String.length]. lia.
    + rewrite Hn, !length_app. cbn [String.length]. lia.
  - intros w1 w2 ix H1 H2 Hix.
    destruct (m_for_index w0 x w1 w2 ix w3 w4 src H0 Hx H1 H2 Hix H3 H4 Hne Hst Hsrc)
      as (pv' & j & n & Hj & Hn & Hm).
    unfold parseForExpression. rewrite (exec_at_start _ _ _ Hm).
    unfold group, toResult. cbn [captures subject snd caps lookupCap Nat.eqb default].
    rewrite (slice_at w0 x _ _ _ eq_refl eq_refl).
    replace (w0 +:+ x +:+ w1 +:+ "," +:+ w2 +:+ ix +:+ w3 +:+ "in" +:+ w4 +:+ src)
      with ((w0 +:+ x +:+ w1 +:+ "," +:+ w2) +:+ ix +:+ (w3 +:+ "in" +:+ w4 +:+ src)) at 1
      by (now rewrite !app_assoc).
    rewrite (slice_at _ ix _ j (j + String.length ix)).
    + replace (w0 +:+ x +:+ w1 +:+ "," +:+ w2 +:+ ix +:+ w3 +:+ "in" +:+ w4 +:+ src)
        with ((w0 +:+ x +:+ w1 +:+ "," +:+ w2 +:+ ix +:+ w3 +:+ "in" +:+ w4) +:+ src +:+ "")
        by (now rewrite app_nil_r, !app_assoc).
      rewrite (slice_at _ src "" n (n + String.length src)); [reflexivity | |].
      * rewrite Hn, Hj, !length_app. cbn [String.length]. lia.
      * rewrite Hn, Hj, !length_app. cbn [String.length]. lia.
    + rewrite Hj, !length_app. cbn [String.length]. lia.
    + rewrite Hj, !length_app. cbn [String.length]. lia.
Qed.

Lemma parseForExpression_reads_header_witness :
  parseForExpression " item , i  in  items.all " = Some (mkFor "item" (Some "i") "items.all").
Proof.
  exact (proj2 (parseForExpression_reads_header " " "item" "  " "  " "items.all "
                  eq_refl eq_refl eq_refl eq_refl ltac:(discriminate) eq_refl eq_refl)
           " " " " "i" eq_refl eq_refl eq_refl).
Defined.

(** *** What an accepted header looks like *)

Lemma star_inv neg items pv s i cs k y :
  m false (Star (Cls neg items)) (mkState pv s i cs) k = Some y ->
  exists w s', s = w +:+ s' /\ allb (classMatches false neg items) w = true /\
               k (after pv w s' i cs) = Some y.
Proof. rewrite m_star_cls. apply starK_sound. Qed.

Lemma plus_inv neg items pv s i cs k y :
  m false (Plus (Cls neg items)) (mkState pv s i cs) k = Some y ->
  exists w s', s = w +:+ s' /\ w <> EmptyString /\
               allb (classMatches false neg items) w = true /\
               k (after pv w s' i cs) = Some y.
Proof.
  rewrite m_plus_cls. destruct s as [|a t]; [discriminate|].
  destruct (classMatches false neg items a) eqn:Ha; [|discriminate].
  intros H. apply starK_sound in H. destruct H as (w & s' & -> & Hw & Hk).
  exists (String a w), s'. rewrite app_cons. cbn [allb]. rewrite Ha, Hw.
  repeat split; [discriminate|]. unfold after in *. cbn [lastOr String.length].
  now replace (i + S (String.length w)) with (S i + String.length w) by lia.
Qed.

Lemma plus_dot_inv pv s i cs k y :
  m false (Plus Dot) (mkState pv s i cs) k = Some y ->
  exists w s', s = w +:+ s' /\ w <> EmptyString /\ allb dotB w = true /\
               k (after pv w s' i cs) = Some y.
Proof.
  rewrite m_plus_dot. destruct s as [|a t]; [discriminate|].
  destruct (dotB a) eqn:Ha; [|discriminate].
  intros H. apply starK_sound in H. destruct H as (w & s' & -> & Hw & Hk).
  exists (String a w), s'. rewrite app_cons. cbn [allb]. rewrite Ha, Hw.
  repeat split; [discriminate|]. unfold after in *. cbn [lastOr String.length].
  now replace (i + S (String.length w)) with (S i + String.length w) by lia.
Qed.

Lemma ident_inv n pv s i cs k y :
  m false (Grp n (identStart ~> Star identWord)) (mkState pv s i cs) k = Some y ->
  exists x s', s = x +:+ s' /\ jsIdent x = true /\
               k (setCap n i (i + String.length x) (after pv x s' i cs)) = Some y.
Proof.
  rewrite m_grp, m_cat. unfold identStart, identWord. rewrite m_cls. cbn [rest].
  destruct s as [|a t]; [discriminate|]. fold identStartB.
  destruct (identStartB a) eqn:Ha; [|discriminate].
  unfold advance. cbn [pos caps]. intros H. apply star_inv in H.
  destruct H as (w & s' & -> & Hw & Hk). fold identWordB in Hw.
  exists (String a w), s'. rewrite app_cons. cbn [jsIdent]. rewrite Ha, Hw.
  repeat split. unfold after in *. cbn [lastOr String.length pos] in *.
  now replace (i + S (String.length w)) with (S i + String.length w) by lia.
Qed.

Lemma lit_in_inv pv s i cs k y :
  m false (Lit "in") (mkState pv s i cs) k = Some y ->
  exists s', s = "in" +:+ s' /\ k (mkState (Some "n"%char) s' (i + 2) cs) = Some y.
Proof.
  rewrite m_lit. destruct s as [|a [|b s']]; try discriminate.
  - cbn [prefixOf]. rewrite andb_false_r. discriminate.
  - cbn [prefixOf canon]. rewrite andb_true_r.
    destruct (Ascii.eqb a "i") eqn:Ea; [|discriminate].
    destruct (Ascii.eqb b "n") eqn:Eb; [|discriminate].
    apply Ascii.eqb_eq in Ea, Eb. subst a b. cbn [andb]. unfold after.
    cbn [String.length Js.take Js.drop lastOr]. intros H. exists s'. split; [reflexivity|].
    exact H.
Qed.

(** The shape of the part from the white space before [in] on. *)
Lemma tail_inv pv s i cs y :
  m false tailPattern (mkState pv s i cs) Some = Some y ->
  exists w3 w4 src w5,
    s = w3 +:+ "in" +:+ w4 +:+ src +:+ w5 /\
    gap w3 = true /\ gap w4 = true /\ src <> EmptyString /\ allb dotB src = true /\
    allb spaceB w5 = true /\
    caps y = (3, (i + String.length w3 + 2 + String.length w4,
                  i + String.length w3 + 2 + String.length w4 + String.length src)) :: cs.
Proof.
  unfold tailPattern, ws. rewrite m_cat. intros H.
  apply plus_inv in H. destruct H as (w3 & s3 & -> & N3 & A3 & H). unfold after in H.
  rewrite m_cat in H. apply lit_in_inv in H. destruct H as (s4 & -> & H).
  rewrite m_cat in H. apply plus_inv in H. destruct H as (w4 & s5 & -> & N4 & A4 & H).
  unfold after in H. rewrite m_cat, m_grp in H. cbn [pos] in H.
  apply plus_dot_inv in H. destruct H as (src & s6 & -> & Ns & As & H).
  unfold after, setCap in H. cbn [prev rest pos caps] in H.
  rewrite m_cat in H. apply star_inv in H. destruct H as (w5 & s7 & -> & A5 & H).
  unfold after in H. rewrite m_end in H. cbn [rest] in H.
  destruct s7; [|discriminate]. injection H as <-. cbn [caps].
  exists w3, w4, src, w5. rewrite app_nil_r.
  assert (G : forall w, w <> EmptyString -> allb spaceB w = true -> gap w = true).
  { intros [|a t] Hn Hw; [congruence | exact Hw]. }
  repeat split; auto.
Qed.

Lemma nil_of_length (w : string) : String.length w = 0 -> w = EmptyString.
Proof. now destruct w. Qed.

(** The shape of a text that the parser accepts, and what the result
    holds of it. *)
Lemma header_shape (e : string) (f : ForExpression) :
  parseForExpression e = Some f ->
  exists w0 x mid w3 w4 src w5,
    e = w0 +:+ x +:+ mid +:+ w3 +:+ "in" +:+ w4 +:+ src +:+ w5 /\
    allb spaceB w0 = true /\ jsIdent x = true /\ gap w3 = true /\ gap w4 = true /\
    src <> EmptyString /\ allb dotB src = true /\ allb spaceB w5 = true /\
    itemVar f = x /\ source f = Js.trim src /\
    match indexVar f with
    | None => mid = EmptyString
    | Some ix =>
        jsIdent ix = true /\
        exists w1 w2, allb spaceB w1 = true /\ allb spaceB w2 = true /\
                      mid = w1 +:+ "," +:+ w2 +:+ ix
    end.
Proof.
  unfold parseForExpression. destruct (exec false forPattern e) as [mt|] eqn:He; [|discriminate].
  intros [= <-]. cbn [itemVar indexVar source].
  unfold exec in He. destruct (search false forPattern None e 0) as [[j y]|] eqn:Hs;
    [|discriminate].
  injection He as <-. apply search_spec in Hs.
  destruct Hs as (w & s & -> & Hj & Hm & _). cbn [Nat.add] in Hj.
  change forPattern
    with (Bol ~> Star ws ~> Grp 1 (identStart ~> Star identWord) ~>
          Opt indexPattern ~> tailPattern) in Hm.
  rewrite m_cat, m_bol in Hm. cbn [pos] in Hm.
  destruct (j =? 0)%nat eqn:Ej; [|discriminate].
  apply Nat.eqb_eq in Ej.
  assert (Hw : w = EmptyString) by (apply nil_of_length; lia).
  subst w. cbn [String.length] in Hj. subst j.
  rewrite app_nil_l. cbn [lastOr] in Hm. unfold ws in Hm.
  rewrite m_cat in Hm. apply star_inv in Hm. destruct Hm as (w0 & s0 & -> & A0 & Hm).
  fold spaceB in A0. unfold after in Hm. rewrite m_cat in Hm. apply ident_inv in Hm.
  destruct Hm as (x & s1 & -> & Hx & Hm). unfold setCap, after in Hm.
  cbn [prev rest pos caps Nat.add] in Hm.
  rewrite m_cat, m_opt_caps in Hm. change (groups indexPattern) with [2] in Hm.
  unfold clearCaps in Hm.
  cbn [prev rest pos caps List.filter existsb fst Nat.eqb negb orb] in Hm.
  unfold group, toResult. cbn [captures subject snd].
  match type of Hm with
  | match ?e with Some z => Some z | None => _ end = _ =>
      destruct e as [z|] eqn:Hi
  end.
  - injection Hm as ->. unfold indexPattern, ws in Hi.
    rewrite m_cat in Hi. apply star_inv in Hi. destruct Hi as (w1 & s2 & -> & A1 & Hi).
    fold spaceB in A1. unfold after in Hi. rewrite m_cat, m_chr in Hi. cbn [rest canon] in Hi.
    destruct s2 as [|c s2]; [discriminate|].
    destruct (Ascii.eqb c ",") eqn:Ec; [|discriminate].
    apply Ascii.eqb_eq in Ec. subst c. unfold advance in Hi. cbn [pos caps] in Hi.
    rewrite m_cat in Hi. apply star_inv in Hi. destruct Hi as (w2 & s3 & -> & A2 & Hi).
    fold spaceB in A2. unfold after in Hi. apply ident_inv in Hi.
    destruct Hi as (ix & s4 & -> & Hix & Hi). unfold setCap, after in Hi.
    cbn [prev rest pos caps] in Hi.
    match type of Hi with
    | (if ?b then _ else _) = _ => destruct b; [discriminate|]
    end.
    apply tail_inv in Hi.
    destruct Hi as (w3 & w4 & src & w5 & -> & G3 & G4 & Ns & As & A5 & Hc).
    rewrite Hc. cbn [lookupCap Nat.eqb default].
    exists w0, x, (w1 +:+ "," +:+ w2 +:+ ix), w3, w4, src, w5.
    rewrite (slice_at w0 x _ _ _ eq_refl eq_refl).
    replace (w0 +:+ x +:+ w1 +:+ String "," (w2 +:+ ix +:+ w3 +:+ "in" +:+ w4 +:+ src +:+ w5))
      with ((w0 +:+ x +:+ w1 +:+ "," +:+ w2 +:+ ix +:+ w3 +:+ "in" +:+ w4) +:+ src +:+ w5)
      by (now rewrite !app_assoc).
    rewrite (slice_at _ src w5 _ _); [| rewrite !length_app; cbn [String.length]; lia
                                      | rewrite !length_app; cbn [String.length]; lia].
    replace ((w0 +:+ x +:+ w1 +:+ "," +:+ w2 +:+ ix +:+ w3 +:+ "in" +:+ w4) +:+ src +:+ w5)
      with ((w0 +:+ x +:+ w1 +:+ "," +:+ w2) +:+ ix +:+ (w3 +:+ "in" +:+ w4 +:+ src +:+ w5))
      by (now rewrite !app_assoc).
    rewrite (slice_at _ ix _ _ _); [| rewrite !length_app; cbn [String.length]; lia
                                    | rewrite !length_app; cbn [String.length]; lia].
    repeat split; auto.
    + now rewrite !app_assoc.
    + exists w1, w2. auto.
  - apply tail_inv in Hm.
    destruct Hm as (w3 & w4 & src & w5 & -> & G3 & G4 & Ns & As & A5 & Hc).
    rewrite Hc. cbn [lookupCap Nat.eqb default].
    exists w0, x, EmptyString, w3, w4, src, w5.
    rewrite (slice_at w0 x _ _ _ eq_refl eq_refl).
    replace (w0 +:+ x +:+ w3 +:+ "in" +:+ w4 +:+ src +:+ w5)
      with ((w0 +:+ x +:+ w3 +:+ "in" +:+ w4) +:+ src +:+ w5)
      by (now rewrite !app_assoc).
    rewrite (slice_at _ src w5 _ _); [| rewrite !length_app; cbn [String.length]; lia
                                      | rewrite !length_app; cbn [String.length]; lia].
    rewrite app_nil_l. repeat split; auto. now rewrite !app_assoc.
Qed.

(** X18.  What [parseForExpression] accepts is a loop header: white space,
    an identifier (the item variable), possibly a comma and a second
    identifier (the index variable) with white space around the comma,
    white space, [in], white space, a non-empty source without line
    terminator, and white space up to the end.  The result holds these
    identifiers and the trimmed source. *)
Theorem parseForExpression_accepts_only_headers (e : string) (f : ForExpression) :
  parseForExpression e = Some f ->
  exists w0 x mid w3 w4 src w5,
    e = w0 +:+ x +:+ mid +:+ w3 +:+ "in" +:+ w4 +:+ src +:+ w5 /\
    allb spaceB w0 = true /\ jsIdent x = true /\ gap w3 = true /\ gap w4 = true /\
    src <> EmptyString /\ allb dotB src = true /\ allb spaceB w5 = true /\
    itemVar f = x /\ source f = Js.trim src /\
    match indexVar f with
    | None => mid = EmptyString
    | Some ix =>
        jsIdent ix = true /\
        exists w1 w2, allb spaceB w1 = true /\ allb spaceB w2 = true /\
                      mid = w1 +:+ "," +:+ w2 +:+ ix
    end.
Proof.
  intros H.
  destruct (header_shape e f H) as (w0 & x & mid & w3 & w4 & src & w5 & Hshape).
  exists w0, x, mid, w3, w4, src, w5. exact Hshape.
Qed.

Lemma parseForExpression_accepts_only_headers_witness :
  exists w0 x mid w3 w4 src w5,
    "item in  " = w0 +:+ x +:+ mid +:+ w3 +:+ "in" +:+ w4 +:+ src +:+ w5 /\
    allb spaceB w0 = true /\ jsIdent x = true /\ gap w3 = true /\ gap w4 = true /\
    src <> EmptyString /\ allb dotB src = true /\ allb spaceB w5 = true /\
    "item" = x /\ EmptyString = Js.trim src /\ mid = EmptyString.
Proof.
  exact (parseForExpression_accepts_only_headers "item in  " (mkFor "item" None "") eq_refl).
Defined.

End ForLaws.

(** ** The project graph: props, discovery and the project root *)

Module ProjectLaws.
Import Re ReFacts StrFacts ReMore Project.
Local Open Scope re_scope.

(** The names that the usage pattern looks for. *)
Definition usageNames : list string :=
  ["title"; "lang"; "className"; "children"; "href"; "src"; "alt"; "id"; "name"].

(** No character of the name is [?], [:] or white space. *)
Definition clean (p : string) : bool := allb (fun c => negb (propNoise c)) p.

Definition notOpen (c : ascii) : bool := negb (Ascii.eqb c "{").

Lemma stripNoise_clean p : clean (stripNoise p) = true.
Proof.
  unfold clean. induction p as [|c t IH]; [reflexivity|]. cbn [stripNoise].
  destruct (propNoise c) eqn:Hc; [exact IH|]. cbn [allb]. now rewrite Hc, IH.
Qed.

Lemma existsb_eqb_in (nm : string) (props : list string) :
  existsb (String.eqb nm) props = true <-> In nm props.
Proof.
  rewrite List.existsb_exists. split.
  - intros (x & Hin & Hx). apply String.eqb_eq in Hx. now subst.
  - intros Hin. exists nm. split; [exact Hin | apply String.eqb_refl].
Qed.

Lemma pushNew_in props nm p :
  In p (pushNew props nm) <-> In p props \/ (p <> EmptyString /\ p = nm).
Proof.
  unfold pushNew. destruct nm as [|a t]; cbn [Js.truthy andb].
  - split; [auto | intros [H|[H1 H2]]; [exact H | congruence]].
  - destruct (existsb (String.eqb (String a t)) props) eqn:E; cbn [negb].
    + apply existsb_eqb_in in E. split; [auto | intros [H|[_ ->]]; [exact H | exact E]].
    + rewrite List.in_app_iff. cbn [In]. split.
      * intros [H|[<-|[]]]; [auto | right; split; [discriminate | reflexivity]].
      * intros [H|[_ ->]]; auto.
Qed.

Lemma pushNew_NoDup props nm : NoDup props -> NoDup (pushNew props nm).
Proof.
  intros Hnd. unfold pushNew.
  destruct (Js.truthy nm && negb (existsb (String.eqb nm) props)) eqn:E; [|exact Hnd].
  apply andb_prop in E. destruct E as [_ E]. apply negb_true_iff in E.
  apply NoDup_app. split; [exact Hnd|]. split; [|apply NoDup_singleton].
  intros x Hx Hx'. apply list_elem_of_In in Hx, Hx'. destruct Hx' as [<-|[]].
  apply existsb_eqb_in in Hx. congruence.
Qed.

(** The loop that pushes the new names of a list. *)
Section Push.
Context {A : Type} (g : A -> option string).

Definition pushAll (l : list A) (init : list string) : list string :=
  List.fold_left
    (fun props a => match g a with Some nm => pushNew props nm | None => props end)
    l init.

Lemma pushAll_in l : forall init p,
  In p (pushAll l init) <->
  In p init \/ (p <> EmptyString /\ exists a, In a l /\ g a = Some p).
Proof.
  unfold pushAll. induction l as [|a l IH]; intros init p; cbn [List.fold_left].
  - split; [auto | intros [H|(_ & a & [] & _)]; exact H].
  - rewrite IH. destruct (g a) as [nm|] eqn:Ha.
    + rewrite pushNew_in. split.
      * intros [[H|[Hne ->]]|(Hne & b & Hb & Hg)]; auto.
        -- right. split; [exact Hne|]. exists a. split; [now left | exact Ha].
        -- right. split; [exact Hne|]. exists b. split; [now right | exact Hg].
      * intros [H|(Hne & b & [<-|Hb] & Hg)]; auto.
        -- left. right. split; [exact Hne | congruence].
        -- right. split; [exact Hne|]. exists b. auto.
    + split.
      * intros [H|(Hne & b & Hb & Hg)]; auto.
        right. split; [exact Hne|]. exists b. split; [now right | exact Hg].
      * intros [H|(Hne & b & [<-|Hb] & Hg)]; auto; [congruence|].
        right. split; [exact Hne|]. exists b. auto.
Qed.

Lemma pushAll_NoDup l : forall init, NoDup init -> NoDup (pushAll l init).
Proof.
  unfold pushAll. induction l as [|a l IH]; intros init Hnd; cbn [List.fold_left];
    [exact Hnd|].
  apply IH. destruct (g a); [now apply pushNew_NoDup | exact Hnd].
Qed.

End Push.

Lemma extractProps_pushAll content :
  extractProps content
  = pushAll (group 1) (matchAll false usagePattern content)
      (pushAll (fun p => Some (stripNoise p)) (propNames content) []).
Proof. reflexivity. Qed.

(** One alternative of the usage pattern and the closing brace. *)
Lemma lit_close_inv w pv s i cs z :
  m false (Lit w) (mkState pv s (S i) cs)
    (fun y => m false (Chr "}") (setCap 1 (S i) (pos y) y) Some) = Some z ->
  exists s', s = w +:+ "}" +:+ s' /\
             pos z = i + String.length w + 2 /\
             caps z = (1, (i + 1, i + 1 + String.length w)) :: cs.
Proof.
  rewrite m_lit. destruct (prefixOf false s w) eqn:Hp; [|discriminate].
  pose proof (StateFacts.prefixOf_exact s w Hp) as Hs.
  unfold after, setCap. cbn [pos prev rest caps]. rewrite m_chr. cbn [rest canon].
  destruct (Js.drop (String.length w) s) as [|c s'] eqn:Hd; [discriminate|].
  destruct (Ascii.eqb c "}") eqn:Hc; [|discriminate].
  apply Ascii.eqb_eq in Hc. subst c. unfold advance. cbn [pos caps]. intros [= <-].
  exists s'. cbn [pos caps]. split; [exact Hs|].
  rewrite (proj2 (prefixOf_split false s w Hp)). split; [lia|].
  now replace (i + 1) with (S i) by lia.
Qed.

Lemma usagePattern_sound pv s i y :
  m false usagePattern (mkState pv s i []) Some = Some y ->
  exists nm s',
    s = "{" +:+ nm +:+ "}" +:+ s' /\ In nm usageNames /\
    pos y = i + String.length nm + 2 /\
    caps y = [(1, (i + 1, i + 1 + String.length nm))].
Proof.
  unfold usagePattern. rewrite m_cat, m_chr. cbn [rest canon].
  destruct s as [|c s1]; [discriminate|].
  destruct (Ascii.eqb c "{") eqn:Hc; [|discriminate].
  apply Ascii.eqb_eq in Hc. subst c.
  unfold advance. cbn [pos caps prev rest]. rewrite m_cat, m_grp. cbn [pos].
  intros H.
  assert (Hfound : forall w, In w usageNames ->
            forall z, m false (Lit w) (mkState (Some "{"%char) s1 (S i) [])
                        (fun y => m false (Chr "}") (setCap 1 (S i) (pos y) y) Some) = Some z ->
            z = y ->
            exists nm s',
              String "{" s1 = "{" +:+ nm +:+ "}" +:+ s' /\ In nm usageNames /\
              pos y = i + String.length nm + 2 /\
              caps y = [(1, (i + 1, i + 1 + String.length nm))]).
  { intros w Hw z Hz <-. destruct (lit_close_inv _ _ _ _ _ _ Hz) as (s' & -> & Hp & Hcs).
    exists w, s'. auto. }
  repeat (rewrite m_alt2 in H;
          match type of H with
          | match ?e with Some z => Some z | None => _ end = _ =>
              let E := fresh "E" in
              destruct e as [z|] eqn:E;
              [injection H as H;
               refine (Hfound _ _ z E H); cbn; tauto|]
          end).
  refine (Hfound _ _ y H eq_refl). cbn. tauto.
Qed.

Lemma usagePattern_complete pv i nm s' :
  In nm usageNames ->
  exists y,
    m false usagePattern (mkState pv ("{" +:+ nm +:+ "}" +:+ s') i []) Some = Some y /\
    pos y = i + String.length nm + 2 /\
    caps y = [(1, (i + 1, i + 1 + String.length nm))].
Proof.
  intros Hin. cbn in Hin.
  repeat (destruct Hin as [<-|Hin];
          [eexists; split; [vm_compute; reflexivity|];
           cbn [pos caps String.length]; split; [lia | do 3 f_equal; lia]|]).
  contradiction.
Qed.

(** What the second loop sees of a match: a usage name in braces. *)
Lemma usage_match content mt :
  In mt (matchAll false usagePattern content) ->
  exists pre nm post,
    content = pre +:+ "{" +:+ nm +:+ "}" +:+ post /\ In nm usageNames /\
    index mt = String.length pre /\ stop mt = String.length pre + String.length nm + 2 /\
    group 1 mt = Some nm.
Proof.
  intros Hin.
  destruct (matchAll_matches _ _ _ _ Hin) as (w & s0 & y & Hs & Hi & Hst & Hc & Hsub & Hm).
  destruct (usagePattern_sound _ _ _ _ Hm) as (nm & s' & -> & Hnm & Hpos & Hcaps).
  exists w, nm, s'. repeat split; try assumption; [lia|].
  unfold group. rewrite Hc, Hcaps, Hsub, Hs. cbn [lookupCap Nat.eqb]. f_equal.
  replace (w +:+ "{" +:+ nm +:+ "}" +:+ s') with ((w +:+ "{") +:+ nm +:+ "}" +:+ s')
    by (now rewrite !app_assoc).
  apply ForLaws.slice_at; rewrite length_app; cbn [String.length]; lia.
Qed.

Lemma usageNames_notOpen nm : In nm usageNames -> allb notOpen (nm +:+ "}") = true.
Proof.
  intros Hin. cbn in Hin.
  repeat (destruct Hin as [<-|Hin]; [reflexivity|]). contradiction.
Qed.

(** No match of the usage pattern runs over a [{]. *)
Lemma usage_no_overlap pre s0 mt :
  In mt (matchAll false usagePattern (pre +:+ "{" +:+ s0)) ->
  index mt < String.length pre -> stop mt <= String.length pre.
Proof.
  intros Hin Hlt.
  destruct (usage_match _ _ Hin) as (w & nm & post & Ht & Hnm & Hi & Hst & _).
  rewrite Hi in Hlt. rewrite Hst.
  destruct (app_split w ("{" +:+ nm +:+ "}" +:+ post) pre ("{" +:+ s0) (eq_sym Ht) ltac:(lia))
    as (p2 & Hp & Hrest).
  destruct p2 as [|c p3]; [rewrite app_nil_r in Hp; subst w; lia|].
  change ("{" +:+ nm +:+ "}" +:+ post) with (String "{" (nm +:+ "}" +:+ post)) in Hrest.
  rewrite app_cons in Hrest. injection Hrest as <- Hrest.
  destruct (Nat.le_gt_cases (String.length (nm +:+ "}")) (String.length p3)) as [Hle|Hgt].
  - rewrite Hp, length_app. rewrite length_app in Hle. cbn [String.length] in *. lia.
  - exfalso.
    assert (Hr : p3 +:+ "{" +:+ s0 = (nm +:+ "}") +:+ post)
      by (rewrite app_assoc; symmetry; exact Hrest).
    destruct (app_split p3 ("{" +:+ s0) (nm +:+ "}") post Hr ltac:(lia))
      as (q & Hq & Hq').
    destruct q as [|c q]; [rewrite app_nil_r in Hq; rewrite Hq in Hgt; lia|].
    change ("{" +:+ s0) with (String "{" s0) in Hq'. rewrite app_cons in Hq'.
    injection Hq' as <- _.
    apply usageNames_notOpen in Hnm. rewrite Hq, allb_app in Hnm.
    apply andb_prop in Hnm. destruct Hnm as [_ Hnm]. cbn [allb] in Hnm. discriminate.
Qed.

(** A usage name in braces is matched where it stands. *)
Lemma usage_found pre nm post :
  In nm usageNames ->
  exists mt, In mt (matchAll false usagePattern (pre +:+ "{" +:+ nm +:+ "}" +:+ post)) /\
             group 1 mt = Some nm.
Proof.
  intros Hnm.
  destruct (usagePattern_complete (lastOr None pre) (String.length pre) nm post Hnm)
    as (y & Hm & Hpos & Hcaps).
  exists (toResult (pre +:+ "{" +:+ nm +:+ "}" +:+ post) (String.length pre, y)). split.
  - apply matchAll_finds; [exact Hm|]. intros mt. apply usage_no_overlap.
  - unfold group, toResult. cbn [captures subject snd]. rewrite Hcaps.
    cbn [lookupCap Nat.eqb]. f_equal.
    replace (pre +:+ "{" +:+ nm +:+ "}" +:+ post)
      with ((pre +:+ "{") +:+ nm +:+ "}" +:+ post) by (now rewrite !app_assoc).
    apply ForLaws.slice_at; rewrite length_app; cbn [String.length]; lia.
Qed.

Lemma usageNames_clean nm : In nm usageNames -> clean nm = true /\ nm <> EmptyString.
Proof.
  intros Hin. cbn in Hin.
  repeat (destruct Hin as [<-|Hin]; [split; [reflexivity | discriminate]|]). contradiction.
Qed.

(** A prop stands in the list for one of two reasons: it is what is left of
    a match in the Props declaration, or it is a usage name in braces. *)
Lemma extractProps_in content p :
  In p (extractProps content) <->
  (p <> EmptyString /\ In p (List.map stripNoise (propNames content))) \/
  (In p usageNames /\ exists pre post, content = pre +:+ "{" +:+ p +:+ "}" +:+ post).
Proof.
  rewrite extractProps_pushAll, !pushAll_in. cbn [In]. split.
  - intros [[[]|(Hne & a & Ha & [= <-])]|(Hne & mt & Hmt & Hg)].
    + left. split; [exact Hne | now apply List.in_map].
    + right. destruct (usage_match _ _ Hmt) as (pre & nm & post & Hc & Hnm & _ & _ & Hg').
      rewrite Hg in Hg'. injection Hg' as ->. split; [exact Hnm | now exists pre, post].
  - intros [[Hne Hin]|(Hnm & pre & post & ->)].
    + left. right. split; [exact Hne|]. apply List.in_map_iff in Hin.
      destruct Hin as (a & <- & Ha). now exists a.
    + right. split; [apply (usageNames_clean _ Hnm)|]. now apply usage_found.
Qed.

(** X19.  The props of a file are distinct, none is empty, and none holds
    a [?], a [:] or white space. *)
Theorem extractProps_distinct_clean (content : string) :
  NoDup (extractProps content) /\
  forall p, In p (extractProps content) -> p <> EmptyString /\ clean p = true.
Proof.
  split.
  - rewrite extractProps_pushAll. apply pushAll_NoDup, pushAll_NoDup. constructor.
  - intros p Hp. apply extractProps_in in Hp.
    destruct Hp as [[Hne Hin]|[Hnm _]].
    + split; [exact Hne|]. apply List.in_map_iff in Hin. destruct Hin as (a & <- & _).
      apply stripNoise_clean.
    + split; apply (usageNames_clean _ Hnm).
Qed.

Lemma extractProps_distinct_clean_witness :
  "lang" <> EmptyString /\ clean "lang" = true.
Proof.
  apply (proj2 (extractProps_distinct_clean "type Props = { lang?: string }") "lang").
  vm_compute. tauto.
Defined.

(** X20.  Which props a file has.  When [{title}], or another of the nine
    usage names in braces, stands anywhere in the content, the name is a
    prop.  Every prop is such a name in braces or what a match of the
    property pattern in the Props declaration leaves when [?], [:] and white
    space are taken out. *)
Theorem extractProps_usage_and_declaration (content p : string) :
  (forall pre post,
      In p usageNames -> content = pre +:+ "{" +:+ p +:+ "}" +:+ post ->
      In p (extractProps content)) /\
  (In p (extractProps content) ->
   In p (List.map stripNoise (propNames content)) \/
   (In p usageNames /\ exists pre post, content = pre +:+ "{" +:+ p +:+ "}" +:+ post)) /\
  (p <> EmptyString -> In p (List.map stripNoise (propNames content)) ->
   In p (extractProps content)).
Proof.
  split; [|split].
  - intros pre post Hnm Hc. apply extractProps_in. right. split; [exact Hnm|].
    now exists pre, post.
  - intros Hin. apply extractProps_in in Hin. tauto.
  - intros Hne Hin. apply extractProps_in. now left.
Qed.

Lemma extractProps_usage_and_declaration_witness :
  In "title" (extractProps "<h1 class={className}>{title}</h1>").
Proof.
  apply (proj1 (extractProps_usage_and_declaration
                  "<h1 class={className}>{title}</h1>" "title")
           "<h1 class={className}>" "</h1>").
  - cbn. tauto.
  - reflexivity.
Defined.

(** *** Maps *)

Lemma set_in {V} (k : string) (v : V) mp k' v' :
  In (k', v') (JsMap.set k v mp) -> (k' = k /\ v' = v) \/ In (k', v') mp.
Proof.
  induction mp as [|[k0 v0] t IH]; cbn [JsMap.set].
  - intros [[= <- <-]|[]]. now left.
  - destruct (String.eqb k0 k).
    + intros [[= <- <-]|H]; [now left | right; now right].
    + intros [H|H]; [right; now left|]. destruct (IH H) as [H'|H']; [now left | right; now right].
Qed.

Lemma set_keys {V} (k : string) (v : V) mp k' :
  In k' (List.map fst (JsMap.set k v mp)) <-> k' = k \/ In k' (List.map fst mp).
Proof.
  induction mp as [|[k0 v0] t IH]; cbn [JsMap.set List.map fst In].
  - split; [intros [<-|[]]; now left | intros [->|[]]; now left].
  - destruct (String.eqb k0 k) eqn:E; cbn [List.map fst In].
    + apply String.eqb_eq in E. subst k0. split; [intros [<-|H]; auto | intros [->|[<-|H]]; auto].
    + rewrite IH. split; [intros [<-|[->|H]]; auto | intros [->|[<-|H]]; auto].
Qed.

Lemma set_NoDup {V} (k : string) (v : V) mp :
  List.NoDup (List.map fst mp) -> List.NoDup (List.map fst (JsMap.set k v mp)).
Proof.
  induction mp as [|[k0 v0] t IH]; cbn [JsMap.set List.map fst]; intros Hnd.
  - constructor; [intros [] | constructor].
  - inversion Hnd as [|? ? Hni Hnd']; subst.
    destruct (String.eqb k0 k) eqn:E; cbn [List.map fst].
    + apply String.eqb_eq in E. subst k0. now constructor.
    + constructor; [|now apply IH]. rewrite set_keys. intros [->|H]; [|contradiction].
      rewrite String.eqb_refl in E. discriminate.
Qed.

Lemma has_keys {V} (k : string) (mp : list (string * V)) :
  JsMap.has k mp = true <-> In k (List.map fst mp).
Proof.
  unfold JsMap.has. induction mp as [|[k0 v0] t IH]; cbn [JsMap.get List.map fst In].
  - split; [discriminate | contradiction].
  - destruct (String.eqb k0 k) eqn:E.
    + apply String.eqb_eq in E. split; auto.
    + rewrite IH. split; [auto | intros [->|H]; [|exact H]].
      rewrite String.eqb_refl in E. discriminate.
Qed.

Lemma get_in {V} (k : string) (mp : list (string * V)) v :
  JsMap.get k mp = Some v -> In (k, v) mp.
Proof.
  induction mp as [|[k0 v0] t IH]; cbn [JsMap.get]; [discriminate|].
  destruct (String.eqb k0 k) eqn:E.
  - apply String.eqb_eq in E. intros [= ->]. subst. now left.
  - intros H. right. now apply IH.
Qed.

(** *** The walk over the directories *)

Section Walk.
Variable existsSync : string -> bool.
Variable readdirSync : string -> option (list (string * bool)).
Variable readFileSync : string -> option string.
Variable join : string -> string -> string.
Variable basename : string -> string -> string.

Local Abbreviation Graph := (list (string * ComponentInfo)).
Local Abbreviation propsOf := (extractPropsFromFile readFileSync).
Local Abbreviation scanEntries := (Project.scanEntries readFileSync join basename).
Local Abbreviation scanDir := (Project.scanDir readdirSync readFileSync join basename).
Local Abbreviation discoverZenFiles :=
  (Project.discoverZenFiles existsSync readdirSync readFileSync join basename).
Local Abbreviation buildProjectGraph :=
  (Project.buildProjectGraph existsSync readdirSync readFileSync join basename).

(** The component that the walk records for the file [entryName] of the
    directory [dir]. *)
Definition recorded (type : ComponentType) (dir entryName : string) : ComponentInfo :=
  mkComponent (basename entryName ".zen") (join dir entryName) type
    (propsOf (join dir entryName)).

(** [d'] is [d] or a directory below it. *)
Inductive below : string -> string -> Prop :=
| below_here d : below d d
| below_step d entries entryName d' :
    readdirSync d = Some entries -> In (entryName, true) entries ->
    below (join d entryName) d' -> below d d'.

(** The directories from [d] on can be read, and they are at most [depth]
    deep. *)
Fixpoint walkable (depth : nat) (d : string) : Prop :=
  match depth with
  | O => False
  | S depth' =>
      exists entries,
        readdirSync d = Some entries /\
        forall entryName, In (entryName, true) entries -> walkable depth' (join d entryName)
  end.

(** A property of the map that recording a file keeps, for the files that
    [ok] admits. *)
Definition kept (type : ComponentType) (ok : string -> string -> Prop)
  (P : Graph -> Prop) : Prop :=
  forall result dir entryName,
    ok dir entryName -> P result -> Js.endsWith entryName ".zen" = true ->
    P (JsMap.set (basename entryName ".zen") (recorded type dir entryName) result).

Lemma scanEntries_keeps type ok (P : Graph -> Prop) scan dir :
  kept type ok P ->
  forall entries,
    (forall nm, In (nm, false) entries -> ok dir nm) ->
    (forall nm r r', In (nm, true) entries -> P r -> scan (join dir nm) r = Returns r' -> P r') ->
    forall r r',
      P r -> scanEntries scan type dir entries r = Returns r' -> P r'.
Proof.
  intros Hk. induction entries as [|[nm isDir] t IH]; intros Hok Hscan r r' Hr H;
    cbn [Project.scanEntries] in H.
  - now injection H as <-.
  - assert (Hok' : forall nm, In (nm, false) t -> ok dir nm)
      by (intros n Hn; apply Hok; now right).
    assert (Hscan' : forall nm r r', In (nm, true) t -> P r ->
                       scan (join dir nm) r = Returns r' -> P r')
      by (intros n r1 r2 Hn; apply Hscan; now right).
    destruct isDir.
    + destruct (scan (join dir nm) r) as [r1| |] eqn:E; try discriminate.
      exact (IH Hok' Hscan' r1 r' (Hscan nm r r1 (or_introl eq_refl) Hr E) H).
    + destruct (Js.endsWith nm ".zen") eqn:Ez; [|exact (IH Hok' Hscan' r r' Hr H)].
      exact (IH Hok' Hscan' _ r' (Hk r dir nm (Hok nm (or_introl eq_refl)) Hr Ez) H).
Qed.

Lemma scanDir_keeps type ok (P : Graph -> Prop) :
  kept type ok P ->
  forall depth d r r',
    (forall d' entries nm,
        below d d' -> readdirSync d' = Some entries -> In (nm, false) entries -> ok d' nm) ->
    P r -> scanDir depth type d r = Returns r' -> P r'.
Proof.
  intros Hk. induction depth as [|depth IH]; intros d r r' Hok Hr H;
    cbn [Project.scanDir] in H; [discriminate|].
  destruct (readdirSync d) as [entries|] eqn:E; [|discriminate].
  apply (scanEntries_keeps type ok P (scanDir depth type) d Hk entries) with (r := r);
    try assumption.
  - intros nm Hnm. exact (Hok d entries nm (below_here d) E Hnm).
  - intros nm r1 r2 Hnm Hr1 Hs. apply (IH (join d nm) r1 r2); try assumption.
    intros d' es n Hb Hes Hn. apply (Hok d' es n); try assumption.
    exact (below_step d entries nm d' E Hnm Hb).
Qed.

(** Every entry of the map is a recorded [.zen] file at or below [d0],
    filed under its name. *)
Definition filed (type : ComponentType) (d0 : string) (result : Graph) : Prop :=
  forall k info,
    In (k, info) result ->
    exists dir entries entryName,
      below d0 dir /\ readdirSync dir = Some entries /\ In (entryName, false) entries /\
      Js.endsWith entryName ".zen" = true /\
      k = basename entryName ".zen" /\ info = recorded type dir entryName.

Definition fileBelow (d0 dir entryName : string) : Prop :=
  below d0 dir /\ exists entries, readdirSync dir = Some entries /\ In (entryName, false) entries.

Definition anyFile (dir entryName : string) : Prop := True.

Lemma filed_kept type d0 : kept type (fileBelow d0) (filed type d0).
Proof.
  intros result dir nm (Hb & es & Hes & Hnm) Hr Hz k info Hin. apply set_in in Hin.
  destruct Hin as [[-> ->]|Hin]; [|exact (Hr k info Hin)].
  exists dir, es, nm. repeat split; auto.
Qed.

Lemma distinct_kept type : kept type anyFile (fun result => List.NoDup (List.map fst result)).
Proof. intros result dir nm _ Hr _. now apply set_NoDup. Qed.

Lemma has_kept type k : kept type anyFile (fun result => JsMap.has k result = true).
Proof.
  intros result dir nm _ Hr _. apply has_keys. apply set_keys. right. now apply has_keys.
Qed.

(** With directories that can be read and are not too deep the walk comes
    to its end. *)
Lemma scanEntries_returns type scan dir entries :
  (forall entryName, In (entryName, true) entries ->
                     forall r, exists r', scan (join dir entryName) r = Returns r') ->
  forall r, exists r', scanEntries scan type dir entries r = Returns r'.
Proof.
  induction entries as [|[nm isDir] t IH]; intros Hscan r; cbn [Project.scanEntries].
  - now exists r.
  - assert (Ht : forall entryName, In (entryName, true) t ->
                   forall r, exists r', scan (join dir entryName) r = Returns r')
      by (intros e He; apply Hscan; now right).
    destruct isDir.
    + destruct (Hscan nm (or_introl eq_refl) r) as [r1 ->]. exact (IH Ht r1).
    + destruct (Js.endsWith nm ".zen"); exact (IH Ht _).
Qed.

Lemma scanDir_returns type :
  forall depth d, walkable depth d -> forall r, exists r', scanDir depth type d r = Returns r'.
Proof.
  induction depth as [|depth IH]; intros d Hw r; cbn [walkable] in Hw; [contradiction|].
  destruct Hw as (entries & He & Hsub). cbn [Project.scanDir]. rewrite He.
  apply scanEntries_returns. intros nm Hnm. apply IH, Hsub, Hnm.
Qed.

(** A [.zen] file of a directory of the walk is in the map. *)
Lemma scanEntries_hit type scan dir (P : Graph -> Prop) e :
  kept type anyFile P ->
  (forall d r r', P r -> scan d r = Returns r' -> P r') ->
  (forall r, match e with
             | (nm, true) => forall r', scan (join dir nm) r = Returns r' -> P r'
             | (nm, false) =>
                 Js.endsWith nm ".zen" = true /\
                 P (JsMap.set (basename nm ".zen") (recorded type dir nm) r)
             end) ->
  forall entries r r',
    In e entries -> scanEntries scan type dir entries r = Returns r' -> P r'.
Proof.
  intros Hk Hscan He.
  assert (Hrest : forall t r r', P r -> scanEntries scan type dir t r = Returns r' -> P r').
  { intros t. apply (scanEntries_keeps type anyFile P scan dir Hk t); [now intros|].
    intros nm r1 r2 _. apply Hscan. }
  induction entries as [|[nm isDir] t IH]; intros r r' Hin H; [contradiction|].
  cbn [Project.scanEntries] in H. destruct Hin as [<-|Hin].
  - specialize (He r). destruct isDir.
    + destruct (scan (join dir nm) r) as [r1| |] eqn:E; try discriminate.
      exact (Hrest t r1 r' (He r1 eq_refl) H).
    + destruct He as [Hz Hp]. rewrite Hz in H. exact (Hrest t _ r' Hp H).
  - destruct isDir.
    + destruct (scan (join dir nm) r) as [r1| |] eqn:E; try discriminate.
      exact (IH r1 r' Hin H).
    + destruct (Js.endsWith nm ".zen"); exact (IH _ r' Hin H).
Qed.

Lemma scanDir_covers type :
  forall depth d0 r0 r,
    scanDir depth type d0 r0 = Returns r ->
    forall d entries entryName,
      below d0 d -> readdirSync d = Some entries -> In (entryName, false) entries ->
      Js.endsWith entryName ".zen" = true ->
      JsMap.has (basename entryName ".zen") r = true.
Proof.
  induction depth as [|depth IH]; intros d0 r0 r H d entries nm Hb Hd Hin Hz;
    cbn [Project.scanDir] in H; [discriminate|].
  destruct (readdirSync d0) as [entries0|] eqn:E0; [|discriminate].
  pose proof (has_kept type (basename nm ".zen")) as Hk.
  assert (Hscan : forall d1 r1 r2, JsMap.has (basename nm ".zen") r1 = true ->
                    scanDir depth type d1 r1 = Returns r2 ->
                    JsMap.has (basename nm ".zen") r2 = true).
  { intros d1 r1 r2. apply (scanDir_keeps type anyFile _ Hk depth d1 r1 r2). now intros. }
  inversion Hb as [|? es n0 ? Hes Hn0 Hb']; subst.
  - rewrite E0 in Hd. injection Hd as ->.
    apply (scanEntries_hit type (scanDir depth type) d _ (nm, false) Hk Hscan)
      with (entries := entries) (r := r0); [|exact Hin | exact H].
    intros r1. split; [exact Hz|]. apply has_keys, set_keys. now left.
  - rewrite E0 in Hes. injection Hes as ->.
    apply (scanEntries_hit type (scanDir depth type) d0 _ (n0, true) Hk Hscan)
      with (entries := es) (r := r0); [|exact Hn0 | exact H].
    intros r1 r' Hr'. exact (IH _ _ _ Hr' d entries nm Hb' Hd Hin Hz).
Qed.

Lemma discover_cases depth dir type result :
  discoverZenFiles depth dir type = Returns result ->
  (existsSync dir = false /\ result = []) \/
  (existsSync dir = true /\ scanDir depth type dir [] = Returns result).
Proof.
  unfold Project.discoverZenFiles. destruct (existsSync dir); cbn [negb].
  - intros H. right. auto.
  - intros [= <-]. left. auto.
Qed.

Lemma discover_filed depth dir type result :
  discoverZenFiles depth dir type = Returns result -> filed type dir result.
Proof.
  intros H. destruct (discover_cases _ _ _ _ H) as [[_ ->]|[_ Hs]]; [intros k info []|].
  apply (scanDir_keeps type (fileBelow dir) _ (filed_kept type dir) depth dir [] result);
    [|intros k info [] | exact Hs].
  intros d' es nm Hb Hes Hnm. split; [exact Hb | now exists es].
Qed.

Lemma discover_distinct depth dir type result :
  discoverZenFiles depth dir type = Returns result -> List.NoDup (List.map fst result).
Proof.
  intros H. destruct (discover_cases _ _ _ _ H) as [[_ ->]|[_ Hs]]; [constructor|].
  apply (scanDir_keeps type anyFile _ (distinct_kept type) depth dir [] result);
    [now intros | constructor | exact Hs].
Qed.

(** X21.  What [discoverZenFiles] returns.  For a directory that does not
    exist it is the empty map; for one that exists and cannot be read the
    call throws; when the directories from [dir] on can be read and are at
    most [depth] deep it returns a map.  In a map that it returns no name
    stands twice, and every entry is the record of a file below [dir] whose
    name ends in [.zen]: filed under the base name, with the path, the type
    asked for and the props of the file. *)
Theorem discoverZenFiles_records (depth : nat) (dir : string) (type : ComponentType) :
  (existsSync dir = false -> discoverZenFiles depth dir type = Returns []) /\
  (existsSync dir = true -> readdirSync dir = None ->
   discoverZenFiles (S depth) dir type = Throws) /\
  (walkable depth dir -> exists result, discoverZenFiles depth dir type = Returns result) /\
  (forall result,
      discoverZenFiles depth dir type = Returns result ->
      List.NoDup (List.map fst result) /\ filed type dir result).
Proof.
  split; [|split; [|split]].
  - intros He. unfold Project.discoverZenFiles. now rewrite He.
  - intros He Hr. unfold Project.discoverZenFiles. rewrite He. cbn [negb Project.scanDir].
    now rewrite Hr.
  - intros Hw. unfold Project.discoverZenFiles. destruct (existsSync dir); cbn [negb].
    + apply scanDir_returns, Hw.
    + now exists [].
  - intros result H. split; [exact (discover_distinct _ _ _ _ H) | exact (discover_filed _ _ _ _ H)].
Qed.

(** X22.  Discovery misses no file: when [discoverZenFiles] returns for a
    directory that exists, every file below it whose name ends in [.zen]
    has an entry under its base name, of that name and of the type asked
    for.  (The entry is the file's own unless a later file has the same
    base name.) *)
Theorem discoverZenFiles_finds_every_file (depth : nat) (dir : string)
  (type : ComponentType) (result : Graph) (d : string) (entries : list (string * bool))
  (entryName : string) :
  discoverZenFiles depth dir type = Returns result ->
  existsSync dir = true ->
  below dir d -> readdirSync d = Some entries -> In (entryName, false) entries ->
  Js.endsWith entryName ".zen" = true ->
  exists info,
    JsMap.get (basename entryName ".zen") result = Some info /\
    name info = basename entryName ".zen" /\ Project.type info = type.
Proof.
  intros H He Hb Hd Hin Hz.
  destruct (discover_cases _ _ _ _ H) as [[He' _]|[_ Hs]]; [congruence|].
  pose proof (scanDir_covers type depth dir [] result Hs d entries entryName Hb Hd Hin Hz)
    as Hhas.
  unfold JsMap.has in Hhas.
  destruct (JsMap.get (basename entryName ".zen") result) as [info|] eqn:Hg; [|discriminate].
  exists info. split; [reflexivity|].
  destruct (discover_filed depth dir type result H _ _ (get_in _ _ _ Hg))
    as (dir' & es & nm & _ & _ & _ & _ & Hk & ->).
  cbn [name Project.type recorded]. split; [now rewrite Hk | reflexivity].
Qed.

(** *** The graph *)

(** [srcDir] of [buildProjectGraph]. *)
Definition srcDirOf (root : string) : string :=
  if existsSync (join root "src") then join root "src" else join root "app".

Lemma build_cases depth root graph :
  buildProjectGraph depth root = Returns graph ->
  Project.root graph = root /\
  discoverZenFiles depth (join (srcDirOf root) "layouts") layout = Returns (layouts graph) /\
  discoverZenFiles depth (join (srcDirOf root) "components") component
  = Returns (components graph) /\
  discoverZenFiles depth (join (srcDirOf root) "pages") page = Returns (pages graph).
Proof.
  unfold Project.buildProjectGraph. fold (srcDirOf root).
  destruct (discoverZenFiles depth (join (srcDirOf root) "layouts") layout)
    as [ls| |]; try discriminate.
  destruct (discoverZenFiles depth (join (srcDirOf root) "components") component)
    as [cs| |]; try discriminate.
  destruct (discoverZenFiles depth (join (srcDirOf root) "pages") page)
    as [ps| |]; try discriminate.
  intros [= <-]. cbn [Project.root layouts components pages]. auto.
Qed.

Lemma discover_returns depth dir type :
  (existsSync dir = true -> walkable depth dir) ->
  exists result, discoverZenFiles depth dir type = Returns result.
Proof.
  intros Hw. unfold Project.discoverZenFiles. destruct (existsSync dir); cbn [negb].
  - apply scanDir_returns, Hw. reflexivity.
  - now exists [].
Qed.

(** X23.  The graph of a project.  [buildProjectGraph] reads the three
    directories [layouts], [components] and [pages] of [src], or of [app]
    when there is no [src].  When those of them that exist can be read and
    are at most [depth] deep it returns a graph.  A graph that it returns
    has the root asked for, and its three maps hold the records of the
    [.zen] files below the three directories, each with the type of its
    map. *)
Theorem buildProjectGraph_three_directories (depth : nat) (root : string) :
  ((forall sub, In sub ["layouts"; "components"; "pages"] ->
                existsSync (join (srcDirOf root) sub) = true ->
                walkable depth (join (srcDirOf root) sub)) ->
   exists graph, buildProjectGraph depth root = Returns graph) /\
  (forall graph,
      buildProjectGraph depth root = Returns graph ->
      Project.root graph = root /\
      filed layout (join (srcDirOf root) "layouts") (layouts graph) /\
      filed component (join (srcDirOf root) "components") (components graph) /\
      filed page (join (srcDirOf root) "pages") (pages graph)).
Proof.
  split.
  - intros Hw. unfold Project.buildProjectGraph. fold (srcDirOf root).
    destruct (discover_returns depth (join (srcDirOf root) "layouts") layout) as [ls ->];
      [apply Hw; cbn; tauto|].
    destruct (discover_returns depth (join (srcDirOf root) "components") component)
      as [cs ->]; [apply Hw; cbn; tauto|].
    destruct (discover_returns depth (join (srcDirOf root) "pages") page) as [ps ->];
      [apply Hw; cbn; tauto|].
    eexists. reflexivity.
  - intros graph H. destruct (build_cases _ _ _ H) as (Hr & Hl & Hc & Hp).
    split; [exact Hr|]. split; [exact (discover_filed _ _ _ _ Hl)|].
    split; [exact (discover_filed _ _ _ _ Hc) | exact (discover_filed _ _ _ _ Hp)].
Qed.

Lemma resolve_cases graph nm c :
  resolveComponent graph nm = Some c ->
  In (nm, c) (layouts graph) \/
  (JsMap.has nm (layouts graph) = false /\ In (nm, c) (components graph)).
Proof.
  unfold resolveComponent. destruct (JsMap.has nm (layouts graph)) eqn:Hl.
  - intros H. left. now apply get_in.
  - destruct (JsMap.has nm (components graph)); [|discriminate].
    intros H. right. split; [reflexivity | now apply get_in].
Qed.

(** X24.  What [resolveComponent] finds in a graph that [buildProjectGraph]
    has built: a component of the name asked for, which is a layout, or a
    component when no layout has the name, and never a page; it is the
    record of a file whose name is the name asked for with [.zen] behind
    it. *)
Theorem resolveComponent_in_built_graph (depth : nat) (root : string)
  (graph : ProjectGraph) (nm : string) (c : ComponentInfo) :
  buildProjectGraph depth root = Returns graph ->
  resolveComponent graph nm = Some c ->
  name c = nm /\
  (Project.type c = layout \/
   (Project.type c = component /\ JsMap.has nm (layouts graph) = false)) /\
  exists dir entryName,
    Js.endsWith entryName ".zen" = true /\ nm = basename entryName ".zen" /\
    filePath c = join dir entryName /\ props c = propsOf (filePath c).
Proof.
  intros Hb Hr. destruct (build_cases _ _ _ Hb) as (_ & Hl & Hc & _).
  destruct (resolve_cases _ _ _ Hr) as [Hin|[Hno Hin]].
  - destruct (discover_filed _ _ _ _ Hl _ _ Hin) as (dir & es & en & _ & _ & _ & Hz & Hk & ->).
    cbn [name Project.type filePath props recorded]. split; [now rewrite Hk|].
    split; [now left|]. exists dir, en. auto.
  - destruct (discover_filed _ _ _ _ Hc _ _ Hin) as (dir & es & en & _ & _ & _ & Hz & Hk & ->).
    cbn [name Project.type filePath props recorded]. split; [now rewrite Hk|].
    split; [right; auto|]. exists dir, en. auto.
Qed.

Lemma has_get {V} (k : string) (mp : list (string * V)) :
  JsMap.has k mp = true -> exists v, JsMap.get k mp = Some v.
Proof. unfold JsMap.has. destruct (JsMap.get k mp) as [v|]; [now exists v | discriminate]. Qed.

(** X25.  A [.zen] file below the [layouts] or the [components] directory
    of the project is known to the graph: [resolveComponent] finds a
    component under the base name of the file. *)
Theorem component_file_resolves (depth : nat) (root : string) (graph : ProjectGraph)
  (sub d : string) (entries : list (string * bool)) (entryName : string) :
  buildProjectGraph depth root = Returns graph ->
  sub = "layouts" \/ sub = "components" ->
  existsSync (join (srcDirOf root) sub) = true ->
  below (join (srcDirOf root) sub) d ->
  readdirSync d = Some entries -> In (entryName, false) entries ->
  Js.endsWith entryName ".zen" = true ->
  exists c, resolveComponent graph (basename entryName ".zen") = Some c.
Proof.
  intros Hb Hsub He Hbel Hd Hin Hz. destruct (build_cases _ _ _ Hb) as (_ & Hl & Hc & _).
  unfold resolveComponent.
  destruct (JsMap.has (basename entryName ".zen") (layouts graph)) eqn:Hhl;
    [exact (has_get _ _ Hhl)|].
  destruct Hsub as [-> | ->].
  - destruct (discover_cases _ _ _ _ Hl) as [[He' _]|[_ Hs]]; [congruence|].
    rewrite (scanDir_covers layout depth _ [] _ Hs d entries entryName Hbel Hd Hin Hz) in Hhl.
    discriminate.
  - destruct (discover_cases _ _ _ _ Hc) as [[He' _]|[_ Hs]]; [congruence|].
    pose proof (scanDir_covers component depth _ [] _ Hs d entries entryName Hbel Hd Hin Hz)
      as Hhc.
    rewrite Hhc. exact (has_get _ _ Hhc).
Qed.

(** *** The project root *)

Variable dirname : string -> string.

Local Abbreviation hasMarker := (Project.hasMarker existsSync join).
Local Abbreviation detectProjectRoot := (Project.detectProjectRoot existsSync join dirname).

(** The directory [k] steps above [start]. *)
Definition above (start : string) (k : nat) : string := Nat.iter k dirname start.

Lemma above_S start k : above start (S k) = above (dirname start) k.
Proof. unfold above. apply Nat.iter_succ_r. Qed.

(** What the walk towards the top gives: the nearest marked directory that
    is not the top, or nothing when there is none. *)
Definition nearestMarked (start : string) (r : option string) : Prop :=
  match r with
  | Some d =>
      exists k, d = above start k /\ hasMarker d = true /\
                (forall j, j <= k -> dirname (above start j) <> above start j) /\
                (forall j, j < k -> hasMarker (above start j) = false)
  | None =>
      forall k, (forall j, j <= k -> dirname (above start j) <> above start j) ->
                hasMarker (above start k) = false
  end.

Lemma detect_spec n :
  forall start,
    dirname (above start n) = above start n ->
    exists r, detectProjectRoot (S n) start = Returns r /\ nearestMarked start r.
Proof.
  induction n as [|n IH]; intros start Htop; cbn [Project.detectProjectRoot].
  - cbn in Htop. rewrite Htop, String.eqb_refl. exists None. split; [reflexivity|].
    intros k Hk. exfalso. apply (Hk 0); [lia | exact Htop].
  - destruct (String.eqb start (dirname start)) eqn:E.
    + apply String.eqb_eq in E. exists None. split; [reflexivity|].
      intros k Hk. exfalso. apply (Hk 0); [lia | now symmetry].
    + apply String.eqb_neq in E.
      destruct (hasMarker start) eqn:Hm.
      * exists (Some start). split; [reflexivity|]. exists 0.
        repeat split; [exact Hm | | intros j Hj; lia].
        intros j Hj. replace j with 0 by lia. cbn. congruence.
      * rewrite above_S in Htop. destruct (IH (dirname start) Htop) as (r & Hr & Hspec).
        exists r. split; [exact Hr|]. destruct r as [d|]; cbn [nearestMarked] in *.
        -- destruct Hspec as (k & Hd & Hmk & Hnt & Hno). exists (S k).
           rewrite above_S. repeat split; [exact Hd | exact Hmk | |].
           ++ intros [|j] Hj; [cbn; congruence|]. rewrite above_S. apply Hnt. lia.
           ++ intros [|j] Hj; [exact Hm|]. rewrite above_S. apply Hno. lia.
        -- intros [|k] Hk; [exact Hm|]. rewrite above_S. apply Hspec.
           intros j Hj. rewrite <- above_S. apply Hk. lia.
Qed.

(** X26.  [detectProjectRoot] walks from the start towards the top of the
    file system, the directory that is its own parent.  When the top is at
    most [n] steps above the start, the call returns within [n + 1] rounds:
    the nearest directory, from the start up, that has [zenith.config.ts],
    or [src] or [app] with [pages] or [layouts] in it, and that is not the
    top; or nothing when there is no such directory.  The top itself is
    never the root, whatever it holds. *)
Theorem detectProjectRoot_nearest_marked (n : nat) (start : string) :
  dirname (above start n) = above start n ->
  exists r,
    detectProjectRoot (S n) start = Returns r /\ nearestMarked start r /\
    forall d, r = Some d -> dirname d <> d.
Proof.
  intros Htop. destruct (detect_spec n start Htop) as (r & Hr & Hspec).
  exists r. split; [exact Hr|]. split; [exact Hspec|].
  intros d ->. destruct Hspec as (k & -> & _ & Hnt & _). apply Hnt. lia.
Qed.

End Walk.

(** *** A small project, on which the statements above are run *)

Definition exJoin (a b : string) : string := a +:+ "/" +:+ b.

Definition exBasename (nm ext : string) : string :=
  if Js.endsWith nm ext then Js.take (String.length nm - String.length ext) nm else nm.

Definition exExists (p : string) : bool :=
  existsb (String.eqb p)
    ["/p/src"; "/p/src/layouts"; "/p/src/components"; "/p/src/components/ui"].

Definition exReaddir (d : string) : option (list (string * bool)) :=
  if String.eqb d "/p/src/layouts" then Some [("Main.zen", false)]
  else if String.eqb d "/p/src/components"
  then Some [("Card.zen", false); ("ui", true); ("notes.txt", false)]
  else if String.eqb d "/p/src/components/ui" then Some [("Button.zen", false)]
  else None.

Definition exRead (p : string) : option string :=
  if String.eqb p "/p/src/components/Card.zen" then Some "<h1>{title}</h1>" else None.

Definition exDirname (p : string) : string :=
  if String.eqb p "/p/src/components" then "/p/src"
  else if String.eqb p "/p/src" then "/p"
  else "/".

Definition exGraph : ProjectGraph :=
  Eval vm_compute in
    match Project.buildProjectGraph exExists exReaddir exRead exJoin exBasename 3 "/p" with
    | Returns graph => graph
    | _ => mkGraph "" [] [] []
    end.

Lemma discoverZenFiles_records_witness :
  Project.discoverZenFiles exExists exReaddir exRead exJoin exBasename 1 "/p/src/pages" page
  = Returns [].
Proof.
  apply (discoverZenFiles_records exExists exReaddir exRead exJoin exBasename
           1 "/p/src/pages" page).
  reflexivity.
Defined.

Lemma discoverZenFiles_finds_every_file_witness :
  exists info,
    JsMap.get "Button" (components exGraph) = Some info /\
    name info = "Button" /\ Project.type info = component.
Proof.
  apply (discoverZenFiles_finds_every_file exExists exReaddir exRead exJoin exBasename
           3 "/p/src/components" component (components exGraph)
           "/p/src/components/ui" [("Button.zen", false)] "Button.zen").
  - reflexivity.
  - reflexivity.
  - apply (below_step exReaddir exJoin "/p/src/components"
             [("Card.zen", false); ("ui", true); ("notes.txt", false)] "ui").
    + reflexivity.
    + cbn. tauto.
    + apply below_here.
  - reflexivity.
  - cbn. tauto.
  - reflexivity.
Defined.

Lemma buildProjectGraph_three_directories_witness :
  Project.root exGraph = "/p".
Proof.
  apply (proj2 (buildProjectGraph_three_directories exExists exReaddir exRead exJoin
                  exBasename 3 "/p") exGraph).
  reflexivity.
Defined.

Definition exCard : ComponentInfo :=
  mkComponent "Card" "/p/src/components/Card.zen" component ["title"].

Lemma resolveComponent_in_built_graph_witness :
  name exCard = "Card" /\
  (Project.type exCard = layout \/
   (Project.type exCard = component /\ JsMap.has "Card" (layouts exGraph) = false)).
Proof.
  destruct (resolveComponent_in_built_graph exExists exReaddir exRead exJoin exBasename
              3 "/p" exGraph "Card" exCard eq_refl eq_refl) as (H1 & H2 & _).
  exact (conj H1 H2).
Defined.

Lemma component_file_resolves_witness :
  exists c, resolveComponent exGraph "Button" = Some c.
Proof.
  apply (component_file_resolves exExists exReaddir exRead exJoin exBasename
           3 "/p" exGraph "components" "/p/src/components/ui"
           [("Button.zen", false)] "Button.zen").
  - reflexivity.
  - now right.
  - reflexivity.
  - apply (below_step exReaddir exJoin "/p/src/components"
             [("Card.zen", false); ("ui", true); ("notes.txt", false)] "ui").
    + reflexivity.
    + cbn. tauto.
    + apply below_here.
  - reflexivity.
  - cbn. tauto.
  - reflexivity.
Defined.

Lemma detectProjectRoot_nearest_marked_witness :
  exists r,
    Project.detectProjectRoot exExists exJoin exDirname 4 "/p/src/components" = Returns r /\
    nearestMarked exExists exJoin exDirname "/p/src/components" r /\
    forall d, r = Some d -> exDirname d <> d.
Proof.
  apply (detectProjectRoot_nearest_marked exExists exJoin exDirname 3 "/p/src/components").
  reflexivity.
Defined.

End ProjectLaws.

(** ** The script block that is analysed *)

Module ScriptLaws.
Import Re ReFacts StrFacts ReMore Diagnostics.
Local Open Scope re_scope.

(** The lazy star over any character: the continuation is tried at each
    position in turn, from the current one on. *)
Fixpoint lazyK (k : state -> option state) (pv : option ascii) (s : string) (i : nat)
  (cs : list (nat * (nat * nat))) : option state :=
  match k (mkState pv s i cs) with
  | Some z => Some z
  | None =>
      match s with
      | EmptyString => None
      | String a t => lazyK k (Some a) t (S i) cs
      end
  end.

Lemma any_char ic a : classMatches ic false [Sp; NSp] a = true.
Proof. destruct ic; all_chars a. Qed.

Lemma repLoop_lazy_any ic k s :
  forall fuel pv i cs,
    String.length s < fuel ->
    repLoop (m ic (Cls false [Sp; NSp])) [] false k fuel 0 None (mkState pv s i cs)
    = lazyK k pv s i cs.
Proof.
  induction s as [|a t IH]; intros fuel pv i cs Hf;
    (destruct fuel as [|fuel]; [simpl in Hf; lia|]);
    cbn [repLoop Nat.eqb negb andb]; rewrite clearCaps_nil, m_cls; cbn [rest lazyK];
    destruct (k _) as [z|]; try reflexivity.
  rewrite any_char. unfold advance. cbn [pos caps Nat.pred option_map].
  replace (S i =? i)%nat with false by (symmetry; apply Nat.eqb_neq; lia).
  apply IH. simpl in Hf. lia.
Qed.

Lemma m_lazy_any ic k pv s i cs :
  m ic (StarLazy (Cls false [Sp; NSp])) (mkState pv s i cs) k = lazyK k pv s i cs.
Proof.
  unfold StarLazy. rewrite m_rep. cbn [groups rest]. apply repLoop_lazy_any. lia.
Qed.

(** The lazy star stops at the first position at which the continuation
    succeeds. *)
Lemma lazyK_first k body :
  forall s' pv i cs y,
    (forall b1 b2, body = b1 +:+ b2 -> b2 <> EmptyString ->
                   k (mkState (lastOr pv b1) (b2 +:+ s') (i + String.length b1) cs) = None) ->
    k (after pv body s' i cs) = Some y ->
    lazyK k pv (body +:+ s') i cs = Some y.
Proof.
  induction body as [|a t IH]; intros s' pv i cs y Hno Hk.
  - rewrite app_nil_l. unfold after in Hk. cbn [lastOr String.length] in Hk.
    rewrite Nat.add_0_r in Hk. destruct s'; cbn [lazyK]; now rewrite Hk.
  - rewrite app_cons. cbn [lazyK].
    pose proof (Hno EmptyString (String a t) eq_refl ltac:(discriminate)) as H0.
    cbn [lastOr String.length] in H0. rewrite Nat.add_0_r, app_cons in H0. rewrite H0.
    apply IH.
    + intros b1 b2 E Hne. specialize (Hno (String a b1) b2).
      cbn [lastOr String.length] in Hno.
      replace (S i + String.length b1) with (i + S (String.length b1)) by lia.
      apply Hno; [now rewrite app_cons, E | exact Hne].
    + unfold after in *. cbn [lastOr String.length] in Hk.
      now replace (S i + String.length t) with (i + S (String.length t)) by lia.
Qed.

(** [tag] is the word [w] in some writing of capitals and small letters. *)
Definition writes (w tag : string) : bool :=
  (String.length tag =? String.length w)%nat && prefixOf true tag w.

Definition noLtB (b : ascii) : bool := negb (Ascii.eqb (canon true b) "<").

(** A word without [<] behind its first character does not begin before a
    [<] and run over it. *)
Lemma no_straddle w :
  forall p2 r,
    allb noLtB w = true ->
    prefixOf true (p2 +:+ String "<" r) w = true -> prefixOf true p2 w = true.
Proof.
  induction w as [|b w IH]; intros p2 r Hw H; [reflexivity|].
  cbn [allb] in Hw. apply andb_prop in Hw. destruct Hw as [Hb Hw].
  destruct p2 as [|a p2].
  - rewrite app_nil_l in H. cbn [prefixOf] in H. apply andb_prop in H. destruct H as [H _].
    apply Ascii.eqb_eq in H. unfold noLtB in Hb. rewrite <- H in Hb. discriminate.
  - rewrite app_cons in H. cbn [prefixOf] in *. apply andb_prop in H. destruct H as [-> H].
    now rewrite (IH p2 r Hw H).
Qed.

(** Where the word occurs nowhere in [pre], it begins at no position of
    [pre], also when a [<] follows. *)
Lemma absent_before w0 w pre r :
  allb noLtB w = true ->
  RegionFacts.occurs (String w0 w) pre = false ->
  forall p1 p2, pre = p1 +:+ p2 -> p2 <> EmptyString ->
                prefixOf true (p2 +:+ String "<" r) (String w0 w) = false.
Proof.
  intros Hw Hocc p1 p2 -> Hne.
  pose proof (RegionFacts.occurs_suffix _ p1 p2 Hocc) as Hp.
  destruct p2 as [|a p2]; [congruence|]. rewrite app_cons. cbn [prefixOf] in *.
  destruct (Ascii.eqb (canon true a) (canon true w0)); [|reflexivity]. cbn [andb] in *.
  destruct (prefixOf true (p2 +:+ String "<" r) w) eqn:E; [|reflexivity].
  rewrite (no_straddle w p2 r Hw E) in Hp. discriminate.
Qed.

Lemma writes_lt w tag :
  writes (String "<" w) tag = true -> exists t, tag = String "<" t.
Proof.
  unfold writes. intros H. apply andb_prop in H. destruct H as [_ H].
  destruct tag as [|c t]; [discriminate|]. cbn [prefixOf] in H.
  apply andb_prop in H. destruct H as [H _]. exists t. f_equal.
  apply Ascii.eqb_eq. apply RegionFacts.canon_is_lt. exact H.
Qed.

Lemma writes_lit w tag pv s i cs k :
  writes w tag = true ->
  m true (Lit w) (mkState pv (tag +:+ s) i cs) k = k (after pv tag s i cs).
Proof.
  unfold writes. intros H. apply andb_prop in H. destruct H as [Hl Hp].
  apply Nat.eqb_eq in Hl. rewrite m_lit, (RegionFacts.prefixOf_app_l true w tag s Hp).
  now rewrite <- Hl, take_app, drop_app.
Qed.

(** The pattern does not match where the text does not begin with
    [<script]. *)
Lemma scriptPattern_needs_open pv s i cs :
  prefixOf true s "<script" = false ->
  m true scriptPattern (mkState pv s i cs) Some = None.
Proof. intros H. unfold scriptPattern. now rewrite m_cat, m_lit, H. Qed.

(** The match of the pattern at an opening tag, up to the first closing
    tag. *)
Lemma scriptPattern_block pv i tag attrs body close post :
  writes "<script" tag = true -> allb RegionFacts.notGt attrs = true ->
  writes "</script>" close = true -> RegionFacts.occurs "</script>" body = false ->
  exists pv',
    m true scriptPattern
      (mkState pv (tag +:+ attrs +:+ ">" +:+ body +:+ close +:+ post) i []) Some
    = Some (mkState pv' post
              (i + String.length tag + String.length attrs + 1 + String.length body
               + String.length close)
              [(1, (i + String.length tag + String.length attrs + 1,
                    i + String.length tag + String.length attrs + 1 + String.length body))]).
Proof.
  intros Htag Hattrs Hclose Hbody.
  exists (lastOr (lastOr (Some ">"%char) body) close).
  unfold scriptPattern. rewrite m_cat, (writes_lit _ _ _ _ _ _ _ Htag). unfold after.
  rewrite m_cat, m_star_cls.
  apply starK_at_max.
  - clear -Hattrs. induction attrs as [|a t IH]; [reflexivity|]. cbn [allb] in *.
    apply andb_prop in Hattrs. destruct Hattrs as [Ha Ht].
    now rewrite RegionFacts.cls_notGt, Ha, IH.
  - reflexivity.
  - unfold after. rewrite m_cat, m_chr. cbn [rest canon].
    change (">" +:+ body +:+ close +:+ post) with (String ">" (body +:+ close +:+ post)).
    cbn iota. rewrite Ascii.eqb_refl. unfold advance. cbn [pos caps].
    rewrite m_cat, m_grp, m_lazy_any. cbn [pos].
    destruct (writes_lt _ _ Hclose) as [ct Hct].
    apply lazyK_first.
    + intros b1 b2 E Hne. unfold setCap. cbn [prev rest pos caps].
      rewrite m_lit.
      replace (prefixOf true (b2 +:+ close +:+ post) "</script>") with false; [reflexivity|].
      symmetry. rewrite Hct, app_cons.
      apply (absent_before "<" "/script>" body (ct +:+ post) eq_refl Hbody b1 b2 E Hne).
    + unfold after, setCap. cbn [prev rest pos caps].
      rewrite (writes_lit _ _ _ _ _ _ _ Hclose). unfold after.
      now replace (i + String.length tag + String.length attrs + 1)
        with (S (i + String.length tag + String.length attrs)) by lia.
Qed.

(** The search goes over a stretch of text in which the pattern matches
    nowhere. *)
Lemma search_skip ic r pre :
  forall s p i,
    (forall p1 p2, pre = p1 +:+ p2 -> p2 <> EmptyString ->
       m ic r (mkState (lastOr p p1) (p2 +:+ s) (i + String.length p1) []) Some = None) ->
    search ic r p (pre +:+ s) i = search ic r (lastOr p pre) s (i + String.length pre).
Proof.
  induction pre as [|a t IH]; intros s p i Hno.
  - rewrite app_nil_l. cbn [lastOr String.length]. now rewrite Nat.add_0_r.
  - rewrite app_cons. cbn [search].
    pose proof (Hno EmptyString (String a t) eq_refl ltac:(discriminate)) as H0.
    cbn [lastOr String.length] in H0. rewrite Nat.add_0_r, app_cons in H0. rewrite H0.
    cbn [lastOr String.length].
    replace (i + S (String.length t)) with (S i + String.length t) by lia.
    apply IH. intros p1 p2 E Hne. specialize (Hno (String a p1) p2).
    cbn [lastOr String.length] in Hno.
    replace (S i + String.length p1) with (i + S (String.length p1)) by lia.
    apply Hno; [now rewrite app_cons, E | exact Hne].
Qed.

Lemma search_absent ic r s :
  forall p i,
    (forall p1 p2, s = p1 +:+ p2 ->
       m ic r (mkState (lastOr p p1) p2 (i + String.length p1) []) Some = None) ->
    search ic r p s i = None.
Proof.
  induction s as [|a t IH]; intros p i Hno; cbn [search].
  - pose proof (Hno EmptyString EmptyString eq_refl) as H0. cbn in H0.
    rewrite Nat.add_0_r in H0. now rewrite H0.
  - pose proof (Hno EmptyString (String a t) eq_refl) as H0. cbn in H0.
    rewrite Nat.add_0_r in H0. rewrite H0. apply IH. intros p1 p2 E.
    specialize (Hno (String a p1) p2). cbn [lastOr String.length] in Hno.
    replace (S i + String.length p1) with (i + S (String.length p1)) by lia.
    apply Hno. now rewrite app_cons, E.
Qed.

(** X27.  The script that is analysed is the first script block, up to the
    first closing tag.  With no [<script] in the text before it, in
    whatever capitals, an opening tag [<script ...>], a body in which no
    [</script>] occurs, and a closing tag, [getScriptContent] returns the
    body, whatever follows.  For a text in which [<script] occurs nowhere
    it returns the empty string. *)
Theorem getScriptContent_first_block (text : string) :
  (forall pre tag attrs body close post,
      text = pre +:+ tag +:+ attrs +:+ ">" +:+ body +:+ close +:+ post ->
      RegionFacts.occurs "<script" pre = false ->
      writes "<script" tag = true -> allb RegionFacts.notGt attrs = true ->
      RegionFacts.occurs "</script>" body = false ->
      writes "</script>" close = true ->
      Server.getScriptContent text = body) /\
  (RegionFacts.occurs "<script" text = false -> Server.getScriptContent text = EmptyString).
Proof.
  split.
  - intros pre tag attrs body close post -> Hpre Htag Hattrs Hbody Hclose.
    destruct (scriptPattern_block (lastOr None pre) (String.length pre)
                tag attrs body close post Htag Hattrs Hclose Hbody) as [pv' Hm].
    destruct (writes_lt _ _ Htag) as [tt Htt].
    unfold Server.getScriptContent, exec.
    rewrite search_skip.
    + cbn [Nat.add]. rewrite (HoverLaws.search_here _ _ _ _ _ _ Hm).
      cbn [option_map]. unfold Imports.groupText, group, toResult.
      cbn [captures subject snd caps lookupCap Nat.eqb default].
      replace (pre +:+ tag +:+ attrs +:+ ">" +:+ body +:+ close +:+ post)
        with ((pre +:+ tag +:+ attrs +:+ ">") +:+ body +:+ close +:+ post)
        by (now rewrite !app_assoc).
      apply ForLaws.slice_at; rewrite !length_app; cbn [String.length]; lia.
    + intros p1 p2 E Hne. apply scriptPattern_needs_open.
      rewrite Htt, app_cons.
      apply (absent_before "<" "script" pre _ eq_refl Hpre p1 p2 E Hne).
  - intros Hno. unfold Server.getScriptContent, exec.
    rewrite search_absent; [reflexivity|].
    intros p1 p2 ->. apply scriptPattern_needs_open.
    exact (RegionFacts.occurs_suffix _ p1 p2 Hno).
Qed.

Lemma getScriptContent_first_block_witness :
  Server.getScriptContent "<p>a</p><SCRIPT lang=ts>state n = 1</Script><script>x</script>"
  = "state n = 1".
Proof.
  apply (proj1 (getScriptContent_first_block
                  "<p>a</p><SCRIPT lang=ts>state n = 1</Script><script>x</script>")
           "<p>a</p>" "<SCRIPT" " lang=ts" "state n = 1" "</Script>" "<script>x</script>");
    reflexivity.
Defined.

End ScriptLaws.

(** ** The names that the script analysis offers *)

Module NamesLaws.
Import Re ReFacts StrFacts ReMore Server.
Local Open Scope re_scope.

Definition quoteB : ascii -> bool := classMatches false false [Ch "'"; Ch Js.dq].
Definition notQuoteB : ascii -> bool := classMatches false true [Ch "'"; Ch Js.dq].

Lemma lit_inv w pv s i cs k y :
  m false (Lit w) (mkState pv s i cs) k = Some y ->
  exists s', s = w +:+ s' /\ k (after pv w s' i cs) = Some y.
Proof.
  rewrite m_lit. destruct (prefixOf false s w) eqn:Hp; [|discriminate].
  pose proof (StateFacts.prefixOf_exact s w Hp) as Hs. intros H.
  exists (Js.drop (String.length w) s). split; [exact Hs|].
  rewrite Hs in H at 1. now rewrite take_app in H.
Qed.

Lemma chr_inv c pv s i cs k y :
  m false (Chr c) (mkState pv s i cs) k = Some y ->
  exists s', s = String c s' /\ k (mkState (Some c) s' (S i) cs) = Some y.
Proof.
  rewrite m_chr. cbn [rest canon]. destruct s as [|a t]; [discriminate|].
  destruct (Ascii.eqb a c) eqn:E; [|discriminate]. apply Ascii.eqb_eq in E. subst a.
  intros H. now exists t.
Qed.

Lemma cls_inv neg items pv s i cs k y :
  m false (Cls neg items) (mkState pv s i cs) k = Some y ->
  exists a s', s = String a s' /\ classMatches false neg items a = true /\
               k (mkState (Some a) s' (S i) cs) = Some y.
Proof.
  rewrite m_cls. cbn [rest]. destruct s as [|a t]; [discriminate|].
  destruct (classMatches false neg items a) eqn:E; [|discriminate].
  intros H. now exists a, t.
Qed.

(** What a match of the loop pattern at a state looks like in the text. *)
Lemma loopPattern_sound pv s i y :
  m false loopPattern (mkState pv s i []) Some = Some y ->
  exists w1 w2 q1 e q2 s',
    s = "zen:for" +:+ w1 +:+ "=" +:+ w2 +:+ String q1 (e +:+ String q2 s') /\
    allb spaceB w1 = true /\ allb spaceB w2 = true /\
    quoteB q1 = true /\ quoteB q2 = true /\
    e <> EmptyString /\ allb notQuoteB e = true /\
    caps y = [(1, (i + 7 + String.length w1 + 1 + String.length w2 + 1,
                   i + 7 + String.length w1 + 1 + String.length w2 + 1 + String.length e))].
Proof.
  unfold loopPattern, ws, Imports.quote, Imports.notQuote. rewrite m_cat. intros H.
  apply lit_inv in H. destruct H as (s1 & -> & H). unfold after in H.
  rewrite m_cat in H. apply ForLaws.star_inv in H. destruct H as (w1 & s2 & -> & A1 & H).
  unfold after in H. rewrite m_cat in H. apply chr_inv in H. destruct H as (s3 & -> & H).
  rewrite m_cat in H. apply ForLaws.star_inv in H. destruct H as (w2 & s4 & -> & A2 & H).
  unfold after in H. rewrite m_cat in H. apply cls_inv in H.
  destruct H as (q1 & s5 & -> & Q1 & H).
  rewrite m_cat, m_grp in H. cbn [pos] in H. apply ForLaws.plus_inv in H.
  destruct H as (e & s6 & -> & Ne & Ae & H). unfold after, setCap in H.
  cbn [prev rest pos caps] in H. apply cls_inv in H. destruct H as (q2 & s7 & -> & Q2 & H).
  injection H as <-. cbn [caps].
  exists w1, w2, q1, e, q2, s7. cbn [String.length] in *.
  repeat split; try assumption.
  do 3 f_equal; lia.
Qed.

(** What the loop over the matches sees: a quoted header behind
    [zen:for=], which is the first group. *)
Lemma loop_match text mt :
  In mt (matchAll false loopPattern text) ->
  exists pre w1 w2 q1 e q2 post,
    text = pre +:+ "zen:for" +:+ w1 +:+ "=" +:+ w2 +:+ String q1 (e +:+ String q2 post) /\
    allb spaceB w1 = true /\ allb spaceB w2 = true /\
    quoteB q1 = true /\ quoteB q2 = true /\
    e <> EmptyString /\ allb notQuoteB e = true /\
    Imports.groupText 1 mt = e.
Proof.
  intros Hin.
  destruct (matchAll_matches _ _ _ _ Hin) as (w & s0 & y & Hs & Hi & Hst & Hc & Hsub & Hm).
  destruct (loopPattern_sound _ _ _ _ Hm)
    as (w1 & w2 & q1 & e & q2 & s' & -> & A1 & A2 & Q1 & Q2 & Ne & Ae & Hcaps).
  exists w, w1, w2, q1, e, q2, s'. repeat split; try assumption.
  unfold Imports.groupText, group. rewrite Hc, Hcaps, Hsub, Hs.
  cbn [lookupCap Nat.eqb default].
  replace (w +:+ "zen:for" +:+ w1 +:+ "=" +:+ w2 +:+ String q1 (e +:+ String q2 s'))
    with ((w +:+ "zen:for" +:+ w1 +:+ "=" +:+ w2 +:+ String q1 "") +:+ e +:+ String q2 s').
  - apply ForLaws.slice_at; rewrite !length_app; cbn [String.length]; lia.
  - now rewrite !app_assoc.
Qed.

(** X28.  Every loop variable that [extractLoopVariables] returns is an
    identifier, and it is the item variable or the index variable of a
    loop header that stands in the text, between quotes, behind
    [zen:for=]. *)
Theorem extractLoopVariables_are_header_variables (text v : string) :
  In v (extractLoopVariables text) ->
  ForLaws.jsIdent v = true /\
  exists pre w1 w2 q1 e q2 post f,
    text = pre +:+ "zen:for" +:+ w1 +:+ "=" +:+ w2 +:+ String q1 (e +:+ String q2 post) /\
    allb spaceB w1 = true /\ allb spaceB w2 = true /\
    quoteB q1 = true /\ quoteB q2 = true /\
    DirectiveMetadata.parseForExpression e = Some f /\
    (v = DirectiveMetadata.itemVar f \/ DirectiveMetadata.indexVar f = Some v).
Proof.
  unfold extractLoopVariables. intros Hin.
  apply in_concat in Hin. destruct Hin as (vs & Hvs & Hv).
  apply List.in_map_iff in Hvs. destruct Hvs as (mt & <- & Hmt).
  destruct (loop_match _ _ Hmt)
    as (pre & w1 & w2 & q1 & e & q2 & post & Ht & A1 & A2 & Q1 & Q2 & _ & _ & Hg).
  unfold loopVariablesOf in Hv. rewrite Hg in Hv.
  destruct (DirectiveMetadata.parseForExpression e) as [f|] eqn:Hp; [|contradiction].
  destruct (ForLaws.header_shape e f Hp)
    as (w0 & x & mid & w3 & w4 & src & w5 & _ & _ & Hx & _ & _ & _ & _ & _ & Hitem & _ & Hidx).
  assert (Hwhich : v = DirectiveMetadata.itemVar f \/ DirectiveMetadata.indexVar f = Some v).
  { destruct Hv as [<-|Hv]; [now left|]. right.
    destruct (DirectiveMetadata.indexVar f) as [iv|]; [|contradiction].
    destruct (Js.truthy iv); [|contradiction]. destruct Hv as [<-|[]]. reflexivity. }
  split.
  - destruct Hwhich as [->|Hiv]; [now rewrite Hitem|]. rewrite Hiv in Hidx. apply Hidx.
  - exists pre, w1, w2, q1, e, q2, post, f. repeat split; assumption.
Qed.

Lemma extractLoopVariables_are_header_variables_witness :
  ForLaws.jsIdent "i" = true.
Proof.
  apply (extractLoopVariables_are_header_variables
           "<li zen:for='item, i in items'>{item}</li>" "i").
  vm_compute. tauto.
Defined.

(** *** Functions *)

Definition notParenB : ascii -> bool := classMatches false true [Ch ")"].

Lemma gap_of w : w <> EmptyString -> allb spaceB w = true -> ForLaws.gap w = true.
Proof. destruct w; [congruence | now intros _ H]. Qed.

Lemma sident_inv n pv s i cs k y :
  m false (Grp n ident) (mkState pv s i cs) k = Some y ->
  exists x s', s = x +:+ s' /\ StateFacts.identifier x = true /\
               k (setCap n i (i + String.length x) (after pv x s' i cs)) = Some y.
Proof.
  unfold ident, identStart, DirectiveMetadata.identStart, identChar.
  rewrite m_grp, m_cat. intros H. apply cls_inv in H. destruct H as (a & t & -> & Ha & H).
  apply ForLaws.star_inv in H. destruct H as (w & s' & -> & Hw & Hk).
  exists (String a w), s'. rewrite app_cons. cbn [StateFacts.identifier].
  unfold StateFacts.identStartB, StateFacts.identCharB. rewrite Ha, Hw.
  repeat split. unfold after in *. cbn [lastOr String.length pos] in *.
  now replace (i + S (String.length w)) with (S i + String.length w) by lia.
Qed.

(** The optional [async] and the white space behind it, as group [n]. *)
Lemma async_inv n pv s i cs R y :
  m false (Opt (Grp n (Lit "async" ~> Plus ws)) ~> R) (mkState pv s i cs) Some = Some y ->
  (m false R (mkState pv s i cs) Some = Some y) \/
  (exists w0 s' pv',
      s = "async" +:+ w0 +:+ s' /\ ForLaws.gap w0 = true /\
      m false R (mkState pv' s' (i + 5 + String.length w0)
                   ((n, (i, i + 5 + String.length w0))
                    :: caps (clearCaps [n] (mkState pv s i cs)))) Some = Some y).
Proof.
  rewrite m_cat, ForLaws.m_opt_caps. cbn [groups app].
  match goal with
  | |- match ?e with Some z => Some z | None => _ end = _ -> _ =>
      destruct e as [z|] eqn:E
  end; [|now left].
  intros [= ->]. right. unfold ws in E. rewrite m_grp, m_cat in E.
  unfold clearCaps in E. cbn [prev rest pos caps] in E.
  apply lit_inv in E. destruct E as (s1 & -> & E). unfold after in E.
  apply ForLaws.plus_inv in E. destruct E as (w0 & s2 & -> & N0 & A0 & E).
  unfold after, setCap in E. cbn [prev rest pos caps String.length] in E.
  match type of E with
  | (if ?b then _ else _) = _ => destruct b; [discriminate|]
  end.
  exists w0, s2, (lastOr (lastOr pv "async") w0). split; [reflexivity|].
  split; [now apply gap_of|]. unfold clearCaps. cbn [prev rest pos caps]. exact E.
Qed.

Lemma funcPattern_sound pv s i y :
  m false funcPattern (mkState pv s i []) Some = Some y ->
  exists a w1 nm w2 ps s',
    s = a +:+ "function" +:+ w1 +:+ nm +:+ w2 +:+ "(" +:+ ps +:+ ")" +:+ s' /\
    rest y = s' /\
    ForLaws.gap w1 = true /\ StateFacts.identifier nm = true /\
    allb spaceB w2 = true /\ allb notParenB ps = true /\
    lookupCap 2 (caps y)
    = Some (i + String.length a + 8 + String.length w1,
            i + String.length a + 8 + String.length w1 + String.length nm) /\
    lookupCap 3 (caps y)
    = Some (i + String.length a + 8 + String.length w1 + String.length nm
            + String.length w2 + 1,
            i + String.length a + 8 + String.length w1 + String.length nm
            + String.length w2 + 1 + String.length ps) /\
    ((a = EmptyString /\ lookupCap 1 (caps y) = None) \/
     (exists w0, ForLaws.gap w0 = true /\ a = "async" +:+ w0 /\
                 lookupCap 1 (caps y) = Some (i, i + String.length a))).
Proof.
  assert (Hrest : forall pv s i cs y,
            m false (Lit "function" ~> Plus ws ~> Grp 2 ident ~> Star ws ~> Chr "(" ~>
                     Grp 3 (Star (Cls true [Ch ")"])) ~> Chr ")") (mkState pv s i cs) Some
            = Some y ->
            exists w1 nm w2 ps s',
              s = "function" +:+ w1 +:+ nm +:+ w2 +:+ "(" +:+ ps +:+ ")" +:+ s' /\
              rest y = s' /\
              ForLaws.gap w1 = true /\ StateFacts.identifier nm = true /\
              allb spaceB w2 = true /\ allb notParenB ps = true /\
              caps y = (3, (i + 8 + String.length w1 + String.length nm
                            + String.length w2 + 1,
                            i + 8 + String.length w1 + String.length nm
                            + String.length w2 + 1 + String.length ps))
                       :: (2, (i + 8 + String.length w1,
                               i + 8 + String.length w1 + String.length nm)) :: cs).
  { clear. intros pv s i cs y H. unfold ws in H. rewrite m_cat in H.
    apply lit_inv in H. destruct H as (s1 & -> & H). unfold after in H.
    rewrite m_cat in H. apply ForLaws.plus_inv in H.
    destruct H as (w1 & s2 & -> & N1 & A1 & H). unfold after in H.
    rewrite m_cat in H. apply sident_inv in H. destruct H as (nm & s3 & -> & Hnm & H).
    unfold after, setCap in H. cbn [prev rest pos caps] in H.
    rewrite m_cat in H. apply ForLaws.star_inv in H. destruct H as (w2 & s4 & -> & A2 & H).
    unfold after in H. rewrite m_cat in H. apply chr_inv in H. destruct H as (s5 & -> & H).
    rewrite m_cat, m_grp in H. cbn [pos] in H. apply ForLaws.star_inv in H.
    destruct H as (ps & s6 & -> & Aps & H). unfold after, setCap in H.
    cbn [prev rest pos caps] in H. apply chr_inv in H. destruct H as (s7 & -> & H).
    injection H as <-. cbn [caps rest String.length].
    exists w1, nm, w2, ps, s7. repeat split; try assumption; [now apply gap_of|].
    repeat (f_equal; try lia). }
  unfold funcPattern. intros H. apply async_inv in H.
  destruct H as [H|(w0 & s' & pv' & -> & G0 & H)].
  - destruct (Hrest _ _ _ _ _ H)
      as (w1 & nm & w2 & ps & s7 & -> & Hr & G1 & Hnm & A2 & Aps & Hc).
    exists EmptyString, w1, nm, w2, ps, s7. rewrite app_nil_l, Hc.
    cbn [lookupCap Nat.eqb String.length]. rewrite !Nat.add_0_r.
    repeat split; try assumption. left. auto.
  - unfold clearCaps in H. cbn [caps List.filter] in H.
    destruct (Hrest _ _ _ _ _ H)
      as (w1 & nm & w2 & ps & s7 & -> & Hr & G1 & Hnm & A2 & Aps & Hc).
    exists ("async" +:+ w0), w1, nm, w2, ps, s7. rewrite Hc.
    cbn [lookupCap Nat.eqb]. rewrite length_app. cbn [String.length].
    repeat split; try assumption; try (now rewrite app_assoc); try (do 2 f_equal; lia).
    right. exists w0. repeat split; [exact G0|]. do 2 f_equal. lia.
Qed.

Lemma arrowPattern_sound pv s i y :
  m false arrowPattern (mkState pv s i []) Some = Some y ->
  exists kw w1 nm w2 w3 a ps w4 s',
    s = kw +:+ w1 +:+ nm +:+ w2 +:+ "=" +:+ w3 +:+ a +:+ "(" +:+ ps +:+ ")" +:+ w4
        +:+ "=>" +:+ s' /\
    (kw = "const" \/ kw = "let") /\
    ForLaws.gap w1 = true /\ StateFacts.identifier nm = true /\
    allb spaceB w2 = true /\ allb spaceB w3 = true /\ allb notParenB ps = true /\
    allb spaceB w4 = true /\
    lookupCap 1 (caps y)
    = Some (i + String.length kw + String.length w1,
            i + String.length kw + String.length w1 + String.length nm) /\
    ((a = EmptyString /\ lookupCap 2 (caps y) = None) \/
     (exists w0, ForLaws.gap w0 = true /\ a = "async" +:+ w0 /\
                 lookupCap 2 (caps y)
                 = Some (i + String.length kw + String.length w1 + String.length nm
                         + String.length w2 + 1 + String.length w3,
                         i + String.length kw + String.length w1 + String.length nm
                         + String.length w2 + 1 + String.length w3 + String.length a))).
Proof.
  assert (Hend : forall pv s i cs y,
            m false (Chr "(" ~> Star (Cls true [Ch ")"]) ~> Chr ")" ~> Star ws ~> Lit "=>")
              (mkState pv s i cs) Some = Some y ->
            exists ps w4 s',
              s = "(" +:+ ps +:+ ")" +:+ w4 +:+ "=>" +:+ s' /\
              allb notParenB ps = true /\ allb spaceB w4 = true /\ caps y = cs).
  { clear. intros pv s i cs y H. unfold ws in H. rewrite m_cat in H.
    apply chr_inv in H. destruct H as (s1 & -> & H).
    rewrite m_cat in H. apply ForLaws.star_inv in H. destruct H as (ps & s2 & -> & Aps & H).
    unfold after in H. rewrite m_cat in H. apply chr_inv in H. destruct H as (s3 & -> & H).
    rewrite m_cat in H. apply ForLaws.star_inv in H. destruct H as (w4 & s4 & -> & A4 & H).
    unfold after in H. apply lit_inv in H. destruct H as (s5 & -> & H).
    unfold after in H. injection H as <-. exists ps, w4, s5. auto. }
  assert (Hmid : forall kw pv s i y,
            m false (Plus ws ~> Grp 1 ident ~> Star ws ~> Chr "=" ~> Star ws ~>
                     Opt (Grp 2 (Lit "async" ~> Plus ws)) ~> Chr "(" ~>
                     Star (Cls true [Ch ")"]) ~> Chr ")" ~> Star ws ~> Lit "=>")
              (mkState pv s (i + String.length kw) []) Some = Some y ->
            exists w1 nm w2 w3 a ps w4 s',
              s = w1 +:+ nm +:+ w2 +:+ "=" +:+ w3 +:+ a +:+ "(" +:+ ps +:+ ")" +:+ w4
                  +:+ "=>" +:+ s' /\
              ForLaws.gap w1 = true /\ StateFacts.identifier nm = true /\
              allb spaceB w2 = true /\ allb spaceB w3 = true /\ allb notParenB ps = true /\
              allb spaceB w4 = true /\
              lookupCap 1 (caps y)
              = Some (i + String.length kw + String.length w1,
                      i + String.length kw + String.length w1 + String.length nm) /\
              ((a = EmptyString /\ lookupCap 2 (caps y) = None) \/
               (exists w0, ForLaws.gap w0 = true /\ a = "async" +:+ w0 /\
                  lookupCap 2 (caps y)
                  = Some (i + String.length kw + String.length w1 + String.length nm
                          + String.length w2 + 1 + String.length w3,
                          i + String.length kw + String.length w1 + String.length nm
                          + String.length w2 + 1 + String.length w3 + String.length a)))).
  { clear -Hend. intros kw pv s i y H. unfold ws in H. rewrite m_cat in H.
    apply ForLaws.plus_inv in H. destruct H as (w1 & s1 & -> & N1 & A1 & H).
    unfold after in H. rewrite m_cat in H. apply sident_inv in H.
    destruct H as (nm & s2 & -> & Hnm & H). unfold after, setCap in H.
    cbn [prev rest pos caps] in H.
    rewrite m_cat in H. apply ForLaws.star_inv in H. destruct H as (w2 & s3 & -> & A2 & H).
    unfold after in H. rewrite m_cat in H. apply chr_inv in H. destruct H as (s4 & -> & H).
    rewrite m_cat in H. apply ForLaws.star_inv in H. destruct H as (w3 & s5 & -> & A3 & H).
    unfold after in H. fold ws in H. apply async_inv in H.
    destruct H as [H|(w0 & s' & pv' & -> & G0 & H)].
    - destruct (Hend _ _ _ _ _ H) as (ps & w4 & s6 & -> & Aps & A4 & Hc).
      exists w1, nm, w2, w3, EmptyString, ps, w4, s6. rewrite app_nil_l, Hc.
      cbn [lookupCap Nat.eqb]. repeat split; try assumption; [now apply gap_of|]. now left.
    - unfold clearCaps in H. cbn [caps List.filter existsb fst Nat.eqb negb orb] in H.
      destruct (Hend _ _ _ _ _ H) as (ps & w4 & s6 & -> & Aps & A4 & Hc).
      exists w1, nm, w2, w3, ("async" +:+ w0), ps, w4, s6. rewrite Hc.
      cbn [lookupCap Nat.eqb]. rewrite length_app. cbn [String.length].
      repeat split; try assumption; try (now apply gap_of); try (now rewrite app_assoc).
      right. exists w0. repeat split; [exact G0|]. do 2 f_equal; lia. }
  unfold arrowPattern. rewrite m_cat, m_alt2. intros H.
  match type of H with
  | match ?e with Some z => Some z | None => _ end = _ => destruct e as [z|] eqn:E
  end.
  - injection H as ->. apply lit_inv in E. destruct E as (s1 & -> & E). unfold after in E.
    cbn [lastOr] in E.
    destruct (Hmid "const" _ _ _ _ E)
      as (w1 & nm & w2 & w3 & a & ps & w4 & s' & -> & Hr).
    exists "const", w1, nm, w2, w3, a, ps, w4, s'. split; [reflexivity|].
    split; [now left | exact Hr].
  - apply lit_inv in H. destruct H as (s1 & -> & H). unfold after in H. cbn [lastOr] in H.
    destruct (Hmid "let" _ _ _ _ H)
      as (w1 & nm & w2 & w3 & a & ps & w4 & s' & -> & Hr).
    exists "let", w1, nm, w2, w3, a, ps, w4, s'. split; [reflexivity|].
    split; [now right | exact Hr].
Qed.

(** *** Where the search for a match of a scan began *)

(** Every match of a scan is the leftmost match at or behind the place
    where its search began: the pattern matches at no place of [w1], the
    text between that place and the match.  The search began at the start
    of the scan ([w0] empty) or where the last match ended, one character
    further after an empty match. *)
Lemma scan_origin ic r fuel :
  forall p s i jy,
    In jy (scan ic r fuel p s i) ->
    exists w0 w1 s0,
      s = w0 +:+ w1 +:+ s0 /\ fst jy = i + String.length w0 + String.length w1 /\
      m ic r (mkState (lastOr p (w0 +:+ w1)) s0 (fst jy) []) Some = Some (snd jy) /\
      (forall a b, w1 = a +:+ b -> b <> "" ->
         m ic r (mkState (lastOr p (w0 +:+ a)) (b +:+ s0)
                   (i + String.length w0 + String.length a) []) Some = None) /\
      (w0 = "" \/
       exists v sv y',
         s = v +:+ sv /\
         m ic r (mkState (lastOr p v) sv (i + String.length v) []) Some = Some y' /\
         i + String.length w0
         = if (pos y' =? i + String.length v)%nat then S (pos y') else pos y').
Proof.
  induction fuel as [|fuel IH]; intros p s i jy Hin; cbn [scan] in Hin; [contradiction|].
  destruct (search ic r p s i) as [[j y]|] eqn:Hs; [|contradiction].
  apply search_spec in Hs. destruct Hs as (w & s0 & Hsw & Hj & Hm & Hearly).
  destruct Hin as [<- | Hin].
  { exists "", w, s0. cbn [fst snd String.length]. rewrite !app_nil_l, Nat.add_0_r.
    split; [exact Hsw|]. split; [exact Hj|]. split; [exact Hm|]. split; [|now left].
    intros a b E Hne. rewrite app_nil_l. exact (Hearly a b E Hne). }
  destruct (m_reads _ _ _ _ Hm) as (u & Hr & Hp & Hv). cbn [rest pos prev] in Hr, Hp, Hv.
  destruct (pos y =? j)%nat eqn:Epos.
  - destruct (rest y) as [|c t] eqn:Er; [contradiction|].
    apply IH in Hin.
    destruct Hin as (w0 & w1 & s1 & Ht & Hf & Hm1 & Hno & Horigin).
    exists (w +:+ u +:+ String c w0), w1, s1.
    assert (Hlen : String.length (w +:+ u +:+ String c w0)
                   = String.length w + String.length u + S (String.length w0))
      by (rewrite !length_app; cbn [String.length]; lia).
    assert (Hlast : forall x, lastOr p ((w +:+ u +:+ String c w0) +:+ x)
                              = lastOr (Some c) (w0 +:+ x)).
    { intros x. rewrite !app_assoc, !lastOr_app. reflexivity. }
    split; [rewrite Hsw, Hr, Ht; now rewrite !app_assoc, app_cons|].
    split; [rewrite Hf, Hlen; lia|].
    split; [rewrite Hlast; exact Hm1|].
    split.
    + intros a b E Hne. rewrite Hlast.
      replace (i + String.length (w +:+ u +:+ String c w0) + String.length a)
        with (S (pos y) + String.length w0 + String.length a) by (rewrite Hlen; lia).
      exact (Hno a b E Hne).
    + right. destruct Horigin as [-> | (v & sv & y' & Hv' & Hm' & Hstart)].
      * exists w, s0, y. split; [exact Hsw|]. rewrite <- Hj. split; [exact Hm|].
        rewrite Epos, Hlen. cbn [String.length]. lia.
      * exists (w +:+ u +:+ String c v), sv, y'.
        assert (Hlv : String.length (w +:+ u +:+ String c v)
                      = String.length w + String.length u + S (String.length v))
          by (rewrite !length_app; cbn [String.length]; lia).
        split; [rewrite Hsw, Hr, Hv'; now rewrite !app_assoc, app_cons|].
        replace (i + String.length (w +:+ u +:+ String c v))
          with (S (pos y) + String.length v) by (rewrite Hlv; lia).
        split.
        -- rewrite <- Hm'. f_equal. f_equal.
           rewrite !lastOr_app. reflexivity.
        -- rewrite <- Hstart, Hlen. lia.
  - apply IH in Hin.
    destruct Hin as (w0 & w1 & s1 & Ht & Hf & Hm1 & Hno & Horigin).
    exists (w +:+ u +:+ w0), w1, s1.
    assert (Hlen : String.length (w +:+ u +:+ w0)
                   = String.length w + String.length u + String.length w0)
      by (rewrite !length_app; lia).
    assert (Hlast : forall x, lastOr p ((w +:+ u +:+ w0) +:+ x) = lastOr (prev y) (w0 +:+ x)).
    { intros x. rewrite !app_assoc, !lastOr_app, Hv. reflexivity. }
    split; [rewrite Hsw, Hr, Ht; now rewrite !app_assoc|].
    split; [rewrite Hf, Hlen; lia|].
    split; [rewrite Hlast; exact Hm1|].
    split.
    + intros a b E Hne. rewrite Hlast.
      replace (i + String.length (w +:+ u +:+ w0) + String.length a)
        with (pos y + String.length w0 + String.length a) by (rewrite Hlen; lia).
      exact (Hno a b E Hne).
    + right. destruct Horigin as [-> | (v & sv & y' & Hv' & Hm' & Hstart)].
      * exists w, s0, y. split; [exact Hsw|]. rewrite <- Hj. split; [exact Hm|].
        rewrite Epos, Hlen. cbn [String.length]. lia.
      * exists (w +:+ u +:+ v), sv, y'.
        assert (Hlv : String.length (w +:+ u +:+ v)
                      = String.length w + String.length u + String.length v)
          by (rewrite !length_app; lia).
        split; [rewrite Hsw, Hr, Hv'; now rewrite !app_assoc|].
        replace (i + String.length (w +:+ u +:+ v))
          with (pos y + String.length v) by (rewrite Hlv; lia).
        split.
        -- rewrite <- Hm'. f_equal. f_equal.
           rewrite !lastOr_app, Hv. reflexivity.
        -- rewrite <- Hstart, Hlen. lia.
Qed.

(** *** A declaration behind [async] is found with its [async] *)

Lemma paren_is_no_space : spaceB "(" = false.
Proof. reflexivity. Qed.

Lemma space_is_no_paren c : spaceB c = true -> notParenB c = true.
Proof. all_chars c. Qed.

(** The pattern behind the optional [async] matches every text of its
    shape, whatever was captured before. *)
Lemma funcRest_complete pv i cs w1 nm w2 ps s' :
  ForLaws.gap w1 = true -> StateFacts.identifier nm = true ->
  allb spaceB w2 = true -> allb notParenB ps = true ->
  exists y,
    m false (Lit "function" ~> Plus ws ~> Grp 2 ident ~> Star ws ~> Chr "(" ~>
             Grp 3 (Star (Cls true [Ch ")"])) ~> Chr ")")
      (mkState pv ("function" +:+ w1 +:+ nm +:+ w2 +:+ "(" +:+ ps +:+ ")" +:+ s') i cs) Some
    = Some y.
Proof.
  intros G1 Hnm A2 Aps.
  destruct w1 as [|c1 t1]; [discriminate|]. cbn [ForLaws.gap allb] in G1.
  apply andb_prop in G1. destruct G1 as [Hc1 Ht1].
  destruct nm as [|n0 nt]; [discriminate|]. cbn [StateFacts.identifier] in Hnm.
  apply andb_prop in Hnm. destruct Hnm as [Hn0 Hnt].
  eexists. unfold ws, ident, identStart, DirectiveMetadata.identStart, identChar.
  rewrite m_cat, m_lit, prefixOf_app, take_app, drop_app.
  unfold after. rewrite m_cat, m_plus_cls. rewrite app_cons.
  fold spaceB. rewrite Hc1.
  apply starK_at_max;
    [exact Ht1 | rewrite app_cons; cbn [stops]; now rewrite StateFacts.identStart_not_space |].
  unfold after. rewrite m_cat, m_grp, m_cat, m_cls. cbn [rest]. rewrite app_cons.
  fold StateFacts.identStartB. rewrite Hn0.
  unfold advance. cbn [pos caps prev rest]. rewrite m_star_cls. fold StateFacts.identCharB.
  apply starK_at_max; [exact Hnt | |].
  { destruct w2 as [|c2 t2]; [reflexivity|]. rewrite app_cons. cbn [stops].
    cbn [allb] in A2. apply andb_prop in A2. destruct A2 as [Hc2 _].
    now rewrite StateFacts.space_not_identChar. }
  unfold after, setCap. cbn [pos caps prev rest]. rewrite m_cat, m_star_cls.
  fold spaceB.
  apply starK_at_max; [exact A2 | reflexivity |].
  unfold after. rewrite m_cat, m_chr. cbn [rest canon].
  change ("(" +:+ ps +:+ ")" +:+ s') with (String "(" (ps +:+ ")" +:+ s')).
  cbn iota. rewrite Ascii.eqb_refl.
  unfold advance. cbn [pos caps prev rest]. rewrite m_cat, m_grp, m_star_cls.
  fold notParenB.
  apply starK_at_max; [exact Aps | reflexivity |].
  unfold after, setCap. cbn [pos caps prev rest]. rewrite m_chr. cbn [rest canon].
  change (")" +:+ s') with (String ")" s'). cbn iota. rewrite Ascii.eqb_refl.
  reflexivity.
Qed.

(** Where [async], white space and a declaration stand, the pattern
    matches. *)
Lemma funcPattern_at_async pv i w0 w1 nm w2 ps s' :
  ForLaws.gap w0 = true ->
  ForLaws.gap w1 = true -> StateFacts.identifier nm = true ->
  allb spaceB w2 = true -> allb notParenB ps = true ->
  m false funcPattern
    (mkState pv ("async" +:+ w0 +:+ "function" +:+ w1 +:+ nm +:+ w2 +:+ "(" +:+ ps
                 +:+ ")" +:+ s') i []) Some
  <> None.
Proof.
  intros G0 G1 Hnm A2 Aps.
  destruct w0 as [|c0 t0]; [discriminate|]. cbn [ForLaws.gap allb] in G0.
  apply andb_prop in G0. destruct G0 as [Hc0 Ht0].
  unfold funcPattern. rewrite m_cat, ForLaws.m_opt_caps. cbn [groups app].
  match goal with
  | |- match ?e with Some z => Some z | None => _ end <> None =>
      destruct e as [z|] eqn:E
  end; [discriminate|]. exfalso.
  unfold ws, clearCaps in E. cbn [prev rest pos caps List.filter] in E.
  rewrite m_grp, m_cat, m_lit, prefixOf_app, take_app, drop_app in E.
  unfold after at 1 in E. rewrite m_plus_cls, app_cons in E. fold spaceB in E.
  rewrite Hc0 in E.
  destruct (funcRest_complete
              (lastOr (Some c0) t0) (S (i + String.length "async") + String.length t0)
              [(1, (i, S (i + String.length "async") + String.length t0))]
              w1 nm w2 ps s' G1 Hnm A2 Aps) as (y & Hy).
  rewrite (starK_at_max spaceB _ t0 _ _ _ _ y Ht0) in E; [discriminate E | reflexivity |].
  unfold after, setCap. cbn [pos caps prev rest String.length lastOr].
  destruct (Nat.eqb_spec (S (i + 5) + String.length t0) i) as [Heq|_]; [lia|].
  exact Hy.
Qed.

Lemma app_same_length (a b c d : string) :
  a +:+ b = c +:+ d -> String.length a = String.length c -> a = c /\ b = d.
Proof.
  intros E L. destruct (app_split a b c d E ltac:(lia)) as (w & Hc & Hb).
  assert (Hw : w = "").
  { assert (L2 : String.length c = String.length (a +:+ w)) by now rewrite <- Hc.
    rewrite length_app in L2. destruct w; [reflexivity | cbn [String.length] in L2; lia]. }
  subst w. rewrite app_nil_r in Hc. rewrite app_nil_l in Hb. auto.
Qed.

(** A non-empty end of a text that ends with [)] holds a [)]. *)
Lemma end_holds_close (A p0 x : string) :
  A +:+ ")" = p0 +:+ x -> x <> "" -> allb notParenB x = false.
Proof.
  intros E Hne.
  destruct (app_split p0 x A ")" (eq_sym E)) as (wv & _ & ->).
  - assert (L : String.length (A +:+ ")") = String.length (p0 +:+ x)) by now rewrite E.
    rewrite !length_app in L. cbn [String.length] in L.
    destruct x; [congruence | cbn [String.length] in L; lia].
  - rewrite allb_app. cbn. apply andb_false_r.
Qed.

(** The text before a declaration ends with [async] and white space. *)
Definition asyncBefore (pre : string) : Prop :=
  exists p0 w0, ForLaws.gap w0 = true /\ pre = p0 +:+ "async" +:+ w0.

Lemma async_holds_no_close (w0 : string) :
  ForLaws.gap w0 = true -> allb notParenB ("async" +:+ w0) = true.
Proof.
  intros G. rewrite allb_app. cbn [andb]. change (allb notParenB "async") with true.
  cbn [andb]. destruct w0; [discriminate|]. cbn [ForLaws.gap] in G.
  exact (HoverLaws.allb_weaken _ _ _ space_is_no_paren G).
Qed.

(** A match of the scan without the [async] group does not stand behind
    [async] and white space: the search would have found the declaration
    with its [async], because it began at the start of the script or
    behind the [)] of the last match. *)
Lemma declared_without_async (script w s0 : string) (mt : result) :
  In mt (matchAll false funcPattern script) ->
  script = w +:+ s0 -> index mt = String.length w ->
  lookupCap 1 (captures mt) = None ->
  ~ asyncBefore w.
Proof.
  unfold matchAll. intros Hin Hs Hi Hcap (p0 & ww & Gw & Hpre).
  apply List.in_map_iff in Hin. destruct Hin as ([j y] & <- & Hin).
  unfold toResult in Hi, Hcap. cbn [fst snd index captures] in Hi, Hcap.
  apply scan_origin in Hin.
  destruct Hin as (w0 & w1 & s1 & Hsc & Hj & Hm & Hno & Horigin).
  cbn [fst snd Nat.add] in Hj, Hm, Hno, Horigin.
  assert (Hw : w = w0 +:+ w1).
  { apply (app_same_length w s0 (w0 +:+ w1) s1).
    - rewrite <- Hs, Hsc. now rewrite app_assoc.
    - rewrite length_app. lia. }
  destruct (funcPattern_sound _ _ _ _ Hm)
    as (a & f1 & nm & f2 & ps & s' & Hs1 & _ & G1 & Hnm & A2 & Aps & _ & _ & Ha).
  destruct Ha as [[-> _] | (x & _ & _ & Hc1)]; [|congruence].
  rewrite app_nil_l in Hs1.
  assert (E : w0 +:+ w1 = p0 +:+ "async" +:+ ww) by now rewrite <- Hw.
  destruct (le_lt_dec (String.length w0) (String.length p0)) as [Hle|Hlt].
  - destruct (app_split w0 w1 p0 ("async" +:+ ww) E Hle) as (x & _ & Hw1).
    assert (Hne : "async" +:+ ww <> "") by discriminate.
    pose proof (Hno x ("async" +:+ ww) Hw1 Hne) as Hnone.
    rewrite Hs1, app_assoc in Hnone.
    exact (funcPattern_at_async _ _ ww f1 nm f2 ps s' Gw G1 Hnm A2 Aps Hnone).
  - destruct Horigin as [-> | (v & sv & y' & Hv & Hm' & Hstart)];
      [cbn [String.length] in Hlt; lia|].
    destruct (funcPattern_sound _ _ _ _ Hm')
      as (a' & g1 & nm' & g2 & ps' & s'' & Hsv & Hrest & _).
    destruct (m_reads _ _ _ _ Hm') as (u & Hr & Hp & _). cbn [rest pos] in Hr, Hp.
    rewrite Hrest in Hr.
    set (A := a' +:+ "function" +:+ g1 +:+ nm' +:+ g2 +:+ "(" +:+ ps') in *.
    assert (Hsv' : sv = (A +:+ ")") +:+ s'').
    { rewrite Hsv. unfold A. now rewrite !app_assoc. }
    assert (Hu : u = A +:+ ")").
    { apply (app_same_length u s'' (A +:+ ")") s''); [now rewrite <- Hr, <- Hsv'|].
      assert (L : String.length (u +:+ s'') = String.length ((A +:+ ")") +:+ s''))
        by now rewrite <- Hr, <- Hsv'.
      rewrite !length_app in L. rewrite length_app. lia. }
    assert (Hlu : 1 <= String.length u).
    { rewrite Hu, length_app. cbn [String.length]. lia. }
    destruct (Nat.eqb_spec (pos y') (String.length v)) as [Heq|_]; [lia|].
    assert (Hw0 : w0 = v +:+ u).
    { apply (app_same_length w0 (w1 +:+ s1) (v +:+ u) s'').
      - rewrite <- Hsc, Hv, Hr. now rewrite app_assoc.
      - rewrite length_app. lia. }
    destruct (app_split p0 ("async" +:+ ww) w0 w1 (eq_sym E) ltac:(lia)) as (x & Hx & Hax).
    assert (Hne : x <> "").
    { intros ->. rewrite app_nil_r in Hx. rewrite Hx in Hlt. lia. }
    assert (Hclose : allb notParenB x = false).
    { apply (end_holds_close (v +:+ A) p0 x); [|exact Hne].
      rewrite <- Hx, Hw0, Hu. now rewrite app_assoc. }
    pose proof (async_holds_no_close ww Gw) as Hnoclose.
    rewrite Hax, allb_app, Hclose in Hnoclose. discriminate Hnoclose.
Qed.

(** The word [async] and white space, or nothing, as the function is
    asynchronous or not. *)
Definition asyncPrefix (isAsync : bool) (a : string) : Prop :=
  if isAsync then exists w0, ForLaws.gap w0 = true /\ a = "async" +:+ w0
  else a = EmptyString.

(** Written with the keyword [function]: [a] is the [async] with its white
    space or nothing, as the function is marked, and the text before an
    unmarked function does not end with [async] and white space. *)
Definition declaredIn (script : string) (fn : FunctionInfo) : Prop :=
  exists pre a w1 w2 post,
    script = pre +:+ a +:+ "function" +:+ w1 +:+ name fn +:+ w2 +:+ "(" +:+ params fn
             +:+ ")" +:+ post /\
    ForLaws.gap w1 = true /\ allb spaceB w2 = true /\ asyncPrefix (isAsync fn) a /\
    (isAsync fn = false -> ~ asyncBefore pre).

(** Written as an arrow function that [const] or [let] binds. *)
Definition boundIn (script : string) (fn : FunctionInfo) : Prop :=
  params fn = EmptyString /\
  exists pre kw w1 w2 w3 a ps w4 post,
    script = pre +:+ kw +:+ w1 +:+ name fn +:+ w2 +:+ "=" +:+ w3 +:+ a +:+ "(" +:+ ps
             +:+ ")" +:+ w4 +:+ "=>" +:+ post /\
    (kw = "const" \/ kw = "let") /\
    ForLaws.gap w1 = true /\ allb spaceB w2 = true /\ allb spaceB w3 = true /\
    allb notParenB ps = true /\ allb spaceB w4 = true /\ asyncPrefix (isAsync fn) a.

Lemma group_at n mt (pre u post : string) :
  subject mt = pre +:+ u +:+ post ->
  lookupCap n (captures mt) = Some (String.length pre, String.length pre + String.length u) ->
  group n mt = Some u.
Proof.
  intros Hs Hc. unfold group. rewrite Hc, Hs. f_equal. now apply ForLaws.slice_at.
Qed.

Lemma async_truthy n mt (pre a post : string) :
  subject mt = pre +:+ a +:+ post ->
  (a = EmptyString /\ lookupCap n (captures mt) = None) \/
  (exists w0, ForLaws.gap w0 = true /\ a = "async" +:+ w0 /\
              lookupCap n (captures mt)
              = Some (String.length pre, String.length pre + String.length a)) ->
  asyncPrefix (Imports.groupTruthy n mt) a.
Proof.
  intros Hs [[-> Hc]|(w0 & G0 & Ha & Hc)]; unfold Imports.groupTruthy.
  - unfold group. rewrite Hc. reflexivity.
  - rewrite (group_at n mt pre a post Hs Hc). rewrite Ha. cbn. now exists w0.
Qed.

(** X29.  Every function that [extractFunctions] returns has an identifier
    for a name and no [)] in its parameters, and it stands in the script:
    as [function name(params)], with [async] and white space in front
    exactly when it is marked asynchronous (an unmarked one stands behind
    no [async] with white space); or as [const name = (...) =>] or
    [let name = (...) =>], with [async] and white space between the [=]
    and the parenthesis exactly when it is marked asynchronous (for an
    unmarked one only white space stands there), and then with no
    parameters recorded. *)
Theorem extractFunctions_are_declarations (script : string) (fn : FunctionInfo) :
  In fn (extractFunctions script) ->
  StateFacts.identifier (name fn) = true /\ allb notParenB (params fn) = true /\
  (declaredIn script fn \/ boundIn script fn).
Proof.
  unfold extractFunctions. intros Hin. apply in_app_or in Hin. destruct Hin as [Hin|Hin];
    apply in_concat in Hin; destruct Hin as (fs & Hfs & Hfn);
    apply List.in_map_iff in Hfs; destruct Hfs as (mt & <- & Hmt);
    destruct (matchAll_matches _ _ _ _ Hmt) as (w & s0 & y & Hs & Hi & Hst & Hc & Hsub & Hm).
  - destruct (funcPattern_sound _ _ _ _ Hm)
      as (a & w1 & nm & w2 & ps & s' & -> & _ & G1 & Hnm & A2 & Aps & H2 & H3 & H1).
    rewrite <- Hc in H1, H2, H3. rewrite Hs in Hsub.
    assert (Hg2 : group 2 mt = Some nm).
    { apply (group_at 2 mt (w +:+ a +:+ "function" +:+ w1) nm
               (w2 +:+ "(" +:+ ps +:+ ")" +:+ s')).
      - rewrite Hsub. now rewrite !app_assoc.
      - rewrite H2. rewrite !length_app. cbn [String.length]. do 2 f_equal; lia. }
    assert (Hg3 : group 3 mt = Some ps).
    { apply (group_at 3 mt (w +:+ a +:+ "function" +:+ w1 +:+ nm +:+ w2 +:+ "(") ps
               (")" +:+ s')).
      - rewrite Hsub. now rewrite !app_assoc.
      - rewrite H3. rewrite !length_app. cbn [String.length]. do 2 f_equal; lia. }
    assert (Ha : asyncPrefix (Imports.groupTruthy 1 mt) a).
    { apply (async_truthy 1 mt w a
               ("function" +:+ w1 +:+ nm +:+ w2 +:+ "(" +:+ ps +:+ ")" +:+ s')); assumption. }
    assert (Hexact : Imports.groupTruthy 1 mt = false -> ~ asyncBefore w).
    { intros Hf. apply (declared_without_async script w _ mt Hmt Hs Hi).
      destruct H1 as [[_ H1]|(w0 & G0 & Ha0 & H1)]; [exact H1|].
      exfalso. rewrite Hf in Ha. cbn [asyncPrefix] in Ha. rewrite Ha in Ha0.
      discriminate Ha0. }
    unfold declaredFunction, Imports.groupText in Hfn.
    rewrite Hg2, Hg3 in Hfn. cbn [default] in Hfn.
    replace (Imports.groupTruthy 2 mt) with (Js.truthy nm) in Hfn
      by (unfold Imports.groupTruthy; now rewrite Hg2).
    destruct (Js.truthy nm); [|contradiction]. destruct Hfn as [<-|[]].
    cbn [name params isAsync]. split; [exact Hnm|]. split; [exact Aps|]. left.
    exists w, a, w1, w2, s'. cbn [name params isAsync]. repeat split; assumption.
  - destruct (arrowPattern_sound _ _ _ _ Hm)
      as (kw & w1 & nm & w2 & w3 & a & ps & w4 & s' & -> & Hkw & G1 & Hnm & A2 & A3 & Aps
          & A4 & H1 & H2).
    rewrite <- Hc in H1, H2. rewrite Hs in Hsub.
    assert (Hg1 : group 1 mt = Some nm).
    { apply (group_at 1 mt (w +:+ kw +:+ w1) nm
               (w2 +:+ "=" +:+ w3 +:+ a +:+ "(" +:+ ps +:+ ")" +:+ w4 +:+ "=>" +:+ s')).
      - rewrite Hsub. now rewrite !app_assoc.
      - rewrite H1. rewrite !length_app. do 2 f_equal; lia. }
    assert (Ha : asyncPrefix (Imports.groupTruthy 2 mt) a).
    { apply (async_truthy 2 mt (w +:+ kw +:+ w1 +:+ nm +:+ w2 +:+ "=" +:+ w3) a
               ("(" +:+ ps +:+ ")" +:+ w4 +:+ "=>" +:+ s')).
      - rewrite Hsub. now rewrite !app_assoc.
      - destruct H2 as [H2|(w0 & G0 & Ha & H2)]; [now left|]. right. exists w0.
        repeat split; try assumption. rewrite H2, !length_app. cbn [String.length].
        do 2 f_equal; lia. }
    unfold arrowFunction, Imports.groupTruthy at 1, Imports.groupText in Hfn.
    rewrite Hg1 in Hfn. cbn [default] in Hfn.
    destruct (Js.truthy nm); [|contradiction]. destruct Hfn as [<-|[]].
    cbn [name params isAsync]. split; [exact Hnm|]. split; [reflexivity|]. right.
    split; [reflexivity|].
    exists w, kw, w1, w2, w3, a, ps, w4, s'. cbn [name params isAsync].
    repeat split; assumption.
Qed.

Lemma extractFunctions_are_declarations_witness :
  (StateFacts.identifier "load" = true /\ allb notParenB "id, n" = true /\
   (declaredIn "async function load(id, n) {}" (mkFunction "load" "id, n" true) \/
    boundIn "async function load(id, n) {}" (mkFunction "load" "id, n" true))) /\
  (StateFacts.identifier "f" = true /\ allb notParenB "" = true /\
   (declaredIn "asyncfunction f() {}" (mkFunction "f" "" false) \/
    boundIn "asyncfunction f() {}" (mkFunction "f" "" false))).
Proof.
  split.
  - apply (extractFunctions_are_declarations "async function load(id, n) {}"
             (mkFunction "load" "id, n" true)).
    vm_compute. tauto.
  - apply (extractFunctions_are_declarations "asyncfunction f() {}"
             (mkFunction "f" "" false)).
    vm_compute. tauto.
Defined.


(** The two properties of a declaration exclude each other: a function
    that stands behind [async] and white space is not one that is written
    without [async]. *)
Lemma async_declaration_is_marked :
  ~ declaredIn "async function f()" (mkFunction "f" "" false).
Proof.
  intros (pre & a & w1 & w2 & post & Hs & G1 & A2 & Ha & Hex).
  cbn [isAsync name params asyncPrefix] in *. subst a. rewrite app_nil_l in Hs.
  apply (Hex eq_refl).
  assert (Hpre : pre = "async ").
  { clear -Hs.
    destruct pre as [|c0 pre]; [discriminate|]. rewrite app_cons in Hs. injection Hs as <- Hs.
    destruct pre as [|c1 pre]; [discriminate|]. rewrite app_cons in Hs. injection Hs as <- Hs.
    destruct pre as [|c2 pre]; [discriminate|]. rewrite app_cons in Hs. injection Hs as <- Hs.
    destruct pre as [|c3 pre]; [discriminate|]. rewrite app_cons in Hs. injection Hs as <- Hs.
    destruct pre as [|c4 pre]; [discriminate|]. rewrite app_cons in Hs. injection Hs as <- Hs.
    destruct pre as [|c5 pre]; [discriminate|]. rewrite app_cons in Hs. injection Hs as <- Hs.
    destruct pre as [|c6 pre]; [reflexivity|]. exfalso.
    rewrite app_cons in Hs. injection Hs as <- Hs.
    repeat (destruct pre as [|? pre]; [discriminate|]; rewrite app_cons in Hs; injection Hs as <- Hs).
    destruct pre; discriminate. }
  subst pre. exists "", " ". split; reflexivity.
Qed.
End NamesLaws.
